(* ===== verification/_CoqProject ===== *)
-Q . S2P
Prelude.v
Error.v
Riscv.v
Decoder.v
RiscvEncoding.v
DecoderCorrect.v
IR.v
Lifter.v
Machine.v
IRSemantics.v
RiscvSemantics.v
LifterCorrect.v
LifterBlock.v
LifterForms.v
Arm64.v
Encoder.v
A64.v
A64Semantics.v
Arm64Meaning.v
EncoderCorrect.v
GuestState.v
InstructionSelector.v
Liveness.v
RegisterAllocator.v
ELFReader.v
ExecutionEngine.v
BinaryTranslator.v
Main.v
HostState.v
SelectedCode.v
SelectorCorrect.v
LivenessCorrect.v
AllocatorCorrect.v
Renaming.v
AllocationSemantics.v
MachineCode.v
SelectorTidy.v
SelectorEncodable.v
SelectorErrors.v
TranslatorCorrect.v
GuestProgram.v
TranslationCorrect.v
PipelineDefects.v
GuestBlocks.v
Platform.v
LoaderCorrect.v
MainCorrect.v
Resources.v
ProgramCorrect.v
SamplePlatform.v
Examples.v
UnitTests.v
