(* ===== verification/Prelude.v ===== *)
(** * DinoRISC: a verification development (root file)

    DinoRISC runs functions of 64-bit RISC-V executables on an ARM64 machine by
    dynamic binary translation.  [main] (tools/dinorisc/DinoRISCMain.cpp) parses
    the arguments and drives a [BinaryTranslator], which loads the .text section
    (lib/ELFReader.cpp) and then, from the function's address, translates one
    basic block after the other and runs it, until the program counter becomes
    zero or 10000 blocks have run.  The stages of a block's translation are
      lib/RISCV/Decoder.cpp                  bytes to RISC-V instructions,
      lib/Lifter.cpp                         to an SSA block of the IR,
      lib/Lowering/InstructionSelector.cpp   to ARM64 over virtual registers,
      lib/Lowering/LivenessAnalysis.cpp      live intervals,
      lib/Lowering/RegisterAllocator.cpp     linear scan over X1 to X28,
      lib/ARM64/Encoder.cpp                  to machine words,
      lib/ExecutionEngine.cpp                pages for them, and the call.
    Native code finds the guest's registers in the structure of lib/GuestState.h,
    whose address is in X0, and the guest's memory in the shadow memory.

    ** Layout

    Each component is a Module with the code's names: the members of a class are
    a record [t], its member functions computations in the state-and-error monad
    of Error.v (or functions to [result] where the code has no state).
      Prelude        machine integers ([uint w], [sint w] are the conversions to
                     w-bit types), bit fields, lists, tactics
      Error          lib/Error.h; undefined behaviour and [std::bad_variant_access]
                     are further constructors; the monads
      Riscv, Decoder, IR, Lifter, Arm64, InstructionSelector, Liveness,
      RegisterAllocator, Encoder, GuestState, ELFReader, ExecutionEngine,
      BinaryTranslator, Main
                     the code, one file per component
      RiscvEncoding, RiscvSemantics, GuestProgram
                     references: RV64I assembler, instruction semantics, machine
      Machine, IRSemantics
                     references: registers and memory, meaning of IR blocks
      A64, A64Semantics, Arm64Meaning
                     references: decoder and semantics of A64 words, the
                     instruction an instruction object stands for
      HostState      the guest's state represented in the host's memory
      Platform       the laws of the operating system and the processor (a class)
      SamplePlatform an executable platform that keeps them
    The other files hold theorems, one file per stage or composition.

    ** What is proved

    Stages.  DecoderCorrect: decoding inverts the reference assembler (SRAI by 32
    to 63 apart), loses only funct7, and throws [DecodingError] or reads out of bounds in exactly the
    stated cases.  LifterCorrect, LifterBlock: the IR of a block has the effect
    of its RISC-V instructions (LUI, AUIPC, the link register and the address a
    return goes to apart), for every order the hash set of modified registers is
    walked in; TranslationCorrect adds that it is in SSA form.
    SelectedCode, SelectorCorrect: the code selected for a block, run over
    virtual registers from a host state that represents the guest's, ends in one
    that represents the guest's next state, touching nothing else.
    LivenessCorrect: the intervals are those from last definition to last use,
    in one order whatever [std::sort] and the hash table do.  AllocatorCorrect:
    the scan succeeds exactly when 28 registers suffice and keeps overlapping
    intervals apart; Renaming, AllocationSemantics: for tidy code it preserves
    what the code does, and SelectorTidy: selected code is tidy.  EncoderCorrect:
    encoded words decode to the instruction meant; MachineCode runs their bytes.

    Composition.  TranslationCorrect: [compileBlock] turns a block of handled
    instructions into machine code that does what the block does.  GuestBlocks:
    a run of a guest program goes through the blocks the decoding loop finds.
    Platform: the execution engine runs code on a platform that keeps its laws
    ([Platform]), and is given memory by one that has it ([Supply]).
    ProgramCorrect: [main] prints what the guest function computes on the RISC-V
    machine, or reports that it was refused memory ([main_refines]); with memory
    for the shadow memory and one block it does print it ([main_returns]).
    A function that has not returned after 10000 blocks is reported as if it had
    ([main_unfinished]).  TranslatorCorrect: which exceptions translation can throw,
    the dispatch loop as the iteration of blocks, arguments, the decoding loop.
    LoaderCorrect: which files and symbols are accepted.  Resources: whatever the
    outcome, exactly what was mapped before a session is mapped after it, on an
    operating system that keeps account of mappings ([Accounting]).  MainCorrect:
    what [main] returns and prints in every case, and what the arguments on its
    command line become.
    Examples: an ELF file and a platform on which [main] is run and the theorems
    are applied.  UnitTests: the checks of tests/unit evaluated on the model, and
    the functions of tests/e2e/samples, as an unoptimising compiler makes them,
    shown to print what the tests expect by the theorems of ProgramCorrect.

    Defects.  Theorems marked (defect) state what the code does where it departs
    from the instruction sets or from its comments; PipelineDefects has those of
    the composition: a conditional branch that redefines a register of its block,
    outside every live interval of the block's own code.

    ** Restrictions of the composed theorems

    They cover blocks the translator handles as the instruction sets have them.
    [handled] and [block_fits] leave out LUI and AUIPC (shifted twice), SRLI
    (also what a long SRAI decodes to) and calls (the link register is lost).
    [translates] asks of what the stages make of the block that the selected code
    is tidy (the branch does not collide with the block's values), wants at most
    28 registers at once, and has instructions the encoder encodes as meant,
    which leaves out XOR and XORI (EOR becomes ANDS), SRL (LSR is misencoded) and
    the 8- and 16-bit zero extensions (no encoding).  [block_ready] adds that the
    code uses none of the registers its caller owns (X19 to X28, which the
    allocator hands out and the code does not save).  [function_ready] is the
    test of a function: block entries, all ready, among which control stays.  Of
    a run it is asked that returns go to address zero ([returns_home]), as they
    do for a function that makes no calls and restores x1.  All of these are
    boolean functions that evaluate on a program.

    ** Parameters

    The ELF library ELFIO (submodule), the operating system and the processor
    are records of operations ([ELFReader.ELFIO], [ExecutionEngine.OS]); the
    iteration orders of the two hash tables are functions of which only that
    they enumerate the table is assumed.  [Platform] states the behaviour of
    mmap, memcpy, mprotect and munmap on process memory, and of a call of native
    code: it runs the bytes at its address, if they follow the procedure call
    standard and write only mapped memory.  [Accounting] states which bytes are
    mapped after each call, whatever the native code writes.  Instruction fetch is assumed to see
    what memcpy wrote, and reads of unmapped memory are not tracked by the
    semantics of A64: the code reads the structure, and guest addresses that the
    semantics of the guest requires to be mapped.

    ** Bounds and fuel

    [decodeBlock] recurses on fuel, one more than the bytes of the section:
    [decodeBlock_terminates] shows that more changes nothing.  [dispatch]
    recurses on the code's own limit of 10000 blocks.  [guest.run] takes a
    number of instructions and answers None when it is not enough.  Value ids
    stay below 2^29 for bodies of fewer than 2^24 instructions, so the selector's
    register numbers do not wrap.  Integers are kept at their widths throughout:
    conversions and additions wrap where the code's do.  The left shift of a
    negative [int64_t] (Lifter.cpp, LUI and AUIPC), which C++17 leaves undefined,
    wraps as C++20 says.

    ** Not modelled

    The progress messages on the standard output (no effect on the translation),
    the tests' own code (what they check is in UnitTests), the build files, and
    the internals of ELFIO and Catch2, which are not part of the repository.  Memory the process cannot allocate for its own
    containers ([std::bad_alloc]) is ignored. *)

From stdpp Require Export base tactics option list gmap strings pretty sorting.
From Stdlib Require Export ZArith Lia.

#[global] Open Scope Z_scope.

(** ** Machine integers

    An unsigned [w]-bit integer is a [Z] in [0, 2^w); a signed one is a [Z] in
    [-2^(w-1), 2^(w-1)).  [uint w] and [sint w] are the C++ conversions to the
    two types (both are total on [Z]). *)

Definition uint (w x : Z) : Z := x mod 2 ^ w.
Definition sint (w x : Z) : Z := (x + 2 ^ (w - 1)) mod 2 ^ w - 2 ^ (w - 1).

Declare Scope word_scope.
Delimit Scope word_scope with word.
Abbreviation u8 := (uint 8) (only parsing).
Abbreviation u16 := (uint 16) (only parsing).
Abbreviation u32 := (uint 32) (only parsing).
Abbreviation u64 := (uint 64) (only parsing).
Abbreviation i32 := (sint 32) (only parsing).
Abbreviation i64 := (sint 64) (only parsing).
Notation "x '|.' y" := (Z.lor x y) (at level 50, left associativity) : word_scope.
Notation "x '&.' y" := (Z.land x y) (at level 45, left associativity) : word_scope.
Notation "x '<<.' y" := (Z.shiftl x y) (at level 42, left associativity) : word_scope.
Notation "x '>>.' y" := (Z.shiftr x y) (at level 42, left associativity) : word_scope.
#[global] Open Scope word_scope.

(** [w]-bit ranges. *)
Definition in_u (w x : Z) : Prop := 0 <= x < 2 ^ w.
Definition in_s (w x : Z) : Prop := - 2 ^ (w - 1) <= x < 2 ^ (w - 1).

#[global] Instance in_u_dec w x : Decision (in_u w x).
Proof. unfold in_u; apply _. Defined.
#[global] Instance in_s_dec w x : Decision (in_s w x).
Proof. unfold in_s; apply _. Defined.

Lemma uint_range w x : 0 <= w -> in_u w (uint w x).
Proof. intros. apply Z.mod_pos_bound. by apply Z.pow_pos_nonneg. Qed.

Lemma uint_small w x : in_u w x -> uint w x = x.
Proof. apply Z.mod_small. Qed.

Lemma uint_idemp w x : uint w (uint w x) = uint w x.
Proof. apply Zmod_mod. Qed.

Lemma pow2_half w : 0 < w -> 2 ^ w = 2 * 2 ^ (w - 1) ∧ 0 < 2 ^ (w - 1).
Proof.
  intros. rewrite <- Z.pow_succ_r by lia.
  split; [f_equal; lia|apply Z.pow_pos_nonneg; lia].
Qed.

Lemma sint_range w x : 0 < w -> in_s w (sint w x).
Proof.
  intros Hw. unfold in_s, sint.
  pose proof (Z.mod_pos_bound (x + 2 ^ (w - 1)) (2 ^ w)).
  pose proof (pow2_half w Hw). lia.
Qed.

Lemma sint_small w x : 0 < w -> in_s w x -> sint w x = x.
Proof.
  intros Hw [??]. unfold sint. rewrite Z.mod_small; [lia|].
  pose proof (pow2_half w Hw). lia.
Qed.

Lemma sint_neg w x :
  0 < w -> 2 ^ (w - 1) <= x < 2 ^ w -> sint w x = x - 2 ^ w.
Proof.
  intros Hw Hx. pose proof (pow2_half w Hw). unfold sint.
  replace (x + 2 ^ (w - 1)) with ((x - 2 ^ (w - 1)) + 1 * 2 ^ w) by lia.
  rewrite Z.mod_add, Z.mod_small by lia. lia.
Qed.

Lemma uint_sint w x : 0 < w -> uint w (sint w x) = uint w x.
Proof.
  intros Hw. unfold uint, sint. rewrite Zminus_mod_idemp_l. f_equal. lia.
Qed.

Lemma uint_add_l w x y : uint w (uint w x + y) = uint w (x + y).
Proof. apply Zplus_mod_idemp_l. Qed.
Lemma uint_add_r w x y : uint w (x + uint w y) = uint w (x + y).
Proof. apply Zplus_mod_idemp_r. Qed.
Lemma uint_sub_l w x y : uint w (uint w x - y) = uint w (x - y).
Proof. apply Zminus_mod_idemp_l. Qed.
Lemma uint_sub_r w x y : uint w (x - uint w y) = uint w (x - y).
Proof. apply Zminus_mod_idemp_r. Qed.

(** Conjunctions of boolean tests. *)
Ltac split_and_true :=
  repeat match goal with
    | H : _ && _ = true |- _ => apply andb_true_iff in H as [? ?]
    | H : bool_decide _ = true |- _ => apply bool_decide_eq_true in H
    | H : (_ <=? _) = true |- _ => apply Z.leb_le in H
    | H : (_ <? _) = true |- _ => apply Z.ltb_lt in H
    end.

Create HintDb words.
Create Rewrite HintDb words.
#[export] Hint Resolve uint_range sint_range uint_small : words.
#[export] Hint Rewrite uint_idemp uint_add_l uint_add_r uint_sub_l uint_sub_r : words.

(** ** Partial functions: a condition of definedness. *)

Definition ensure (b : bool) : option unit := if b then Some tt else None.

Lemma ensure_Some {A} b (m : option A) x :
  (ensure b ≫= λ _, m) = Some x ↔ b = true ∧ m = Some x.
Proof. destruct b; simpl; naive_solver. Qed.

Lemma ensure_true {A} b (m : option A) : b = true -> (ensure b ≫= λ _, m) = m.
Proof. by intros ->. Qed.

(** ** Bit fields: [bits lo n x] is the [n]-bit field of [x] from bit [lo]. *)

Definition bits (lo n x : Z) : Z := (x / 2 ^ lo) mod 2 ^ n.

Lemma bits_range lo n x : 0 <= n -> 0 <= bits lo n x < 2 ^ n.
Proof. intros. apply Z.mod_pos_bound. by apply Z.pow_pos_nonneg. Qed.

(** The mask-and-shift the code writes is the field. *)
Lemma shiftr_land_bits x lo n :
  0 <= lo -> 0 <= n -> (x >>. lo) &. (2 ^ n - 1) = bits lo n x.
Proof.
  intros. unfold bits.
  replace (2 ^ n - 1) with (Z.ones n) by (rewrite Z.ones_equiv; lia).
  rewrite Z.land_ones by done. by rewrite Z.shiftr_div_pow2.
Qed.

(** Disjoint fields: or is addition. *)
Lemma lor_shiftl_add a b n :
  0 <= n -> 0 <= b < 2 ^ n -> (a <<. n) |. b = a * 2 ^ n + b.
Proof.
  intros Hn Hb.
  assert (Z.land (Z.shiftl a n) b = 0) as Hd.
  { apply Z.bits_inj'. intros i Hi. rewrite Z.land_spec, Z.bits_0.
    destruct (decide (i < n)).
    - by rewrite Z.shiftl_spec_low.
    - rewrite <- (Z.mod_small b (2 ^ n)) by done.
      rewrite Z.mod_pow2_bits_high by lia. apply andb_false_r. }
  rewrite <- Z.lxor_lor by done. rewrite <- Z.add_nocarry_lxor by done.
  by rewrite Z.shiftl_mul_pow2.
Qed.

(** Testing one bit with a mask. *)
Lemma land_pow2 x k :
  0 <= k -> x &. 2 ^ k = (x / 2 ^ k) mod 2 * 2 ^ k.
Proof.
  intros Hk. rewrite <- Z.testbit_spec' by lia.
  apply Z.bits_inj'. intros i Hi.
  rewrite Z.land_spec, Z.pow2_bits_eqb, Z.mul_pow2_bits by lia.
  destruct (Z.eqb_spec k i) as [->|].
  - rewrite andb_true_r, Z.sub_diag. by destruct (Z.testbit x i).
  - rewrite andb_false_r. symmetry.
    destruct (decide (i < k)); [by rewrite Z.testbit_neg_r by lia|].
    destruct (Z.testbit x k); simpl; [|by rewrite Z.bits_0].
    apply (Z.bits_above_log2 1); simpl; lia.
Qed.

(** Or of two numbers whose bits lie on either side of bit [m]. *)
Lemma lor_add_hi m A B :
  0 <= m -> A mod 2 ^ m = 0 -> 0 <= B < 2 ^ m -> A |. B = A + B.
Proof.
  intros Hm HA HB. assert (0 < 2 ^ m) by (apply Z.pow_pos_nonneg; lia).
  assert (A = Z.shiftl (A / 2 ^ m) m) as E
    by (rewrite Z.shiftl_mul_pow2 by lia; pose proof (Z.div_mod A (2 ^ m)); lia).
  rewrite E at 1. rewrite lor_shiftl_add by lia.
  by rewrite <- Z.shiftl_mul_pow2, <- E by lia.
Qed.

Lemma lor_add_lo m A B :
  0 <= m -> 0 <= A < 2 ^ m -> B mod 2 ^ m = 0 -> A |. B = A + B.
Proof. intros. rewrite Z.lor_comm, (lor_add_hi m); lia. Qed.

(** Turn the shifts of a word into products with literal powers. *)
Ltac shifts_to_mul :=
  rewrite ?Z.shiftl_mul_pow2 by lia;
  repeat match goal with
    | |- context [2 ^ ?k] =>
        let v := eval vm_compute in (2 ^ k) in progress change (2 ^ k) with v
    end.

Lemma uint_mul_small w n x k :
  0 <= n -> 0 <= k -> n + k <= w -> 0 <= x < 2 ^ n ->
  uint w (Z.shiftl x k) = x * 2 ^ k.
Proof.
  intros. rewrite Z.shiftl_mul_pow2 by lia. apply uint_small. unfold in_u.
  assert (0 < 2 ^ k) by (apply Z.pow_pos_nonneg; lia).
  assert (2 ^ (n + k) <= 2 ^ w) by (apply Z.pow_le_mono_r; lia).
  rewrite Z.pow_add_r in * by lia. nia.
Qed.

(** Linear arithmetic with division and remainder by constants. *)
Ltac dlia := Z.to_euclidean_division_equations; lia.

(** Masking a field in place. *)
Lemma land_field_mask x n k :
  0 <= n -> 0 <= k -> x &. ((2 ^ n - 1) <<. k) = bits k n x * 2 ^ k.
Proof.
  intros. rewrite <- (shiftr_land_bits x k n), <- Z.shiftl_mul_pow2 by lia.
  apply Z.bits_inj'. intros i Hi. rewrite Z.land_spec.
  destruct (decide (i < k)).
  - by rewrite !(Z.shiftl_spec_low _ k), andb_false_r by lia.
  - rewrite !(Z.shiftl_spec_high _ k) by lia.
    rewrite Z.land_spec, Z.shiftr_spec by lia. do 2 f_equal. lia.
Qed.

Lemma sint_uint w x : 0 < w -> in_s w x -> sint w (uint w x) = x.
Proof.
  intros Hw Hx. unfold sint, uint. rewrite Zplus_mod_idemp_l.
  by apply sint_small.
Qed.

(** Reading the low bits only. *)
Lemma mod_mod_pow2 x k w : 0 <= k <= w -> (x mod 2 ^ w) mod 2 ^ k = x mod 2 ^ k.
Proof.
  intros. apply Z.mod_mod_divide.
  exists (2 ^ (w - k)). rewrite <- Z.pow_add_r by lia. f_equal. lia.
Qed.

Lemma sint_mod w x k : 0 <= k <= w -> 0 < w -> sint w x mod 2 ^ k = x mod 2 ^ k.
Proof.
  intros. rewrite <- (mod_mod_pow2 (sint w x) k w), <- (mod_mod_pow2 x k w) by lia.
  f_equal. by apply uint_sint.
Qed.

Lemma bits_alt lo n x :
  0 <= lo -> 0 <= n -> bits lo n x = (x mod 2 ^ (lo + n)) / 2 ^ lo.
Proof.
  intros. unfold bits. rewrite Z.pow_add_r, Z.rem_mul_r by lia.
  rewrite Z.mul_comm, Z.div_add by lia.
  rewrite (Z.div_small (x mod 2 ^ lo)); [lia|].
  apply Z.mod_pos_bound. lia.
Qed.

(** A field of a sign-extended value is the field of the value. *)
Lemma bits_sint lo n w x :
  0 <= lo -> 0 <= n -> lo + n <= w -> 0 < w ->
  bits lo n (sint w x) = bits lo n x.
Proof. intros. rewrite !bits_alt, sint_mod by lia. done. Qed.

Lemma sint_of_uint w x : sint w (uint w x) = sint w x.
Proof. unfold sint, uint. by rewrite Zplus_mod_idemp_l. Qed.

Lemma uint_shiftl w x n :
  0 <= n -> 0 <= w -> uint w (uint w x <<. n) = uint w (x <<. n).
Proof.
  intros. unfold uint. rewrite !Z.shiftl_mul_pow2 by lia.
  apply Zmult_mod_idemp_l.
Qed.

(** Fields of a word written in positional form. *)
Lemma bits_hi lo n k a b :
  0 <= k <= lo -> 0 <= b < 2 ^ k -> bits lo n (a * 2 ^ k + b) = bits (lo - k) n a.
Proof.
  intros Hk Hb. unfold bits. f_equal.
  replace lo with (k + (lo - k)) at 1 by lia.
  assert (0 < 2 ^ k) by (apply Z.pow_pos_nonneg; lia).
  rewrite Z.pow_add_r, <- Z.div_div by (try lia; apply Z.pow_pos_nonneg; lia).
  by rewrite Z.div_add_l, (Z.div_small b), Z.add_0_r by lia.
Qed.

Lemma bits_lo lo n k a b :
  0 <= lo -> 0 <= n -> lo + n <= k -> 0 <= b < 2 ^ k ->
  bits lo n (a * 2 ^ k + b) = bits lo n b.
Proof.
  intros Hlo Hn Hk Hb. rewrite !bits_alt by lia. f_equal.
  replace k with (lo + n + (k - (lo + n))) by lia.
  rewrite Z.pow_add_r, Z.mul_assoc, (Z.mul_comm _ (2 ^ (k - _))), Z.mul_assoc by lia.
  by rewrite Z.add_comm, Z.mod_add by (apply Z.pow_nonzero; lia).
Qed.

Lemma bits_all n x : 0 <= x < 2 ^ n -> bits 0 n x = x.
Proof. intros. unfold bits. by rewrite Z.div_1_r, Z.mod_small. Qed.

(** Read the fields of a word in positional form. *)
Ltac field_step :=
  match goal with
  | |- context [bits ?lo ?n (?a * 2 ^ ?k + ?b)] =>
      let l := eval vm_compute in (lo - k) in
      first [ rewrite (bits_hi lo n k a b) by lia; change (lo - k) with l
            | rewrite (bits_lo lo n k a b) by lia ]
  | |- context [bits 0 ?n ?x] =>
      lazymatch x with _ * _ + _ => fail | _ => rewrite (bits_all n x) by lia end
  end.
Ltac fields := repeat field_step.

#[global] Arguments uint : simpl never.
#[global] Arguments sint : simpl never.
#[global] Arguments bits : simpl never.

Lemma forallb_Forall {A} (p : A → bool) l : forallb p l = true ↔ Forall (λ x, p x = true) l.
Proof. rewrite List.forallb_forall, List.Forall_forall. done. Qed.
