(* ===== verification/Error.v ===== *)
(** * Errors (lib/Error.h) and the monads that carry them

    The exception classes of lib/Error.h, the two ways in which the code leaves
    its own error discipline (an exception of the standard library that no
    handler of the program names, and behaviour the C++ standard leaves
    undefined), the result monad of the pure passes and the state-and-error
    monad of the passes that are C++ objects with mutable members. *)
From S2P Require Import Prelude.

(** ** Exceptions *)

Inductive Error :=
  | ELFError (what : string)
  | DecodingError (what : string)
  | UnsupportedInstructionError (what : string)
  | EncodingError (what : string)
  | LoweringError (what : string)
  | RuntimeError (what : string)
  (* std::bad_variant_access: std::get on another alternative *)
  | bad_variant_access
  (* not an exception: an operation with undefined behaviour was reached *)
  | undefined_behaviour (why : string).

#[export] Instance Error_eq_dec : EqDecision Error.
Proof. solve_decision. Defined.

(** [catch (const dinorisc::Error &)] in tools/dinorisc/DinoRISCMain.cpp: the
    classes of lib/Error.h all derive from [dinorisc::Error]. *)
Definition is_dinorisc_Error (e : Error) : bool :=
  match e with
  | ELFError _ | DecodingError _ | UnsupportedInstructionError _
  | EncodingError _ | LoweringError _ | RuntimeError _ => true
  | bad_variant_access | undefined_behaviour _ => false
  end.

(** ** Results *)

Inductive result (A : Type) :=
  | Ok (a : A)
  | Err (e : Error).
Arguments Ok {A} a.
Arguments Err {A} e.

#[export] Instance result_eq_dec `{EqDecision A} : EqDecision (result A).
Proof. solve_decision. Defined.

#[export] Instance result_ret : MRet result := @Ok.
#[export] Instance result_bind : MBind result :=
  λ A B f m, match m with Ok a => f a | Err e => Err e end.
#[export] Instance result_fmap : FMap result :=
  λ A B f m, match m with Ok a => Ok (f a) | Err e => Err e end.

Definition is_Ok {A} (r : result A) : Prop := ∃ a, r = Ok a.

(** An [option] read as a result. *)
Definition of_option {A} (e : Error) (o : option A) : result A :=
  match o with Some a => Ok a | None => Err e end.

Lemma bind_Ok {A B} (m : result A) (f : A → result B) b :
  m ≫= f = Ok b ↔ ∃ a, m = Ok a ∧ f a = Ok b.
Proof.
  destruct m; unfold mbind, result_bind; split; try naive_solver.
Qed.

Lemma bind_Err {A B} (m : result A) (f : A → result B) e :
  m ≫= f = Err e ↔ m = Err e ∨ ∃ a, m = Ok a ∧ f a = Err e.
Proof.
  destruct m; unfold mbind, result_bind; split; try naive_solver.
Qed.

Lemma of_option_Ok {A} e (o : option A) a : of_option e o = Ok a ↔ o = Some a.
Proof. destruct o; naive_solver. Qed.

(** Traversal of a vector by a fallible function, left to right. *)
Fixpoint mapM_result {A B} (f : A → result B) (l : list A) : result (list B) :=
  match l with
  | [] => Ok []
  | x :: l => y ← f x; ys ← mapM_result f l; Ok (y :: ys)
  end.

Lemma mapM_result_Ok {A B} (f : A → result B) l k :
  mapM_result f l = Ok k ↔ Forall2 (λ x y, f x = Ok y) l k.
Proof.
  revert k. induction l as [|x l IH]; intros k; simpl.
  - split; [intros [= <-]; constructor|]. by inv 1.
  - rewrite bind_Ok. setoid_rewrite bind_Ok. setoid_rewrite IH. split.
    + intros (y & ? & ys & ? & [= <-]). by constructor.
    + inv 1; eauto 10.
Qed.

Lemma mapM_result_Err {A B} (f : A → result B) l e :
  mapM_result f l = Err e → ∃ x, x ∈ l ∧ f x = Err e.
Proof.
  induction l as [|x l IH]; simpl; [done|].
  rewrite bind_Err. setoid_rewrite bind_Err.
  intros [?|(y & ? & [Hl|(ys & ? & ?)])]; [|apply IH in Hl as (z & ? & ?)|done].
  - exists x. by split; [left|].
  - exists z. by split; [right|].
Qed.

Lemma mapM_result_Err_elem {A B} (f : A → result B) l x :
  x ∈ l → (∀ y, f x ≠ Ok y) → ∀ k, mapM_result f l ≠ Ok k.
Proof.
  intros Hx Hf k Hk%mapM_result_Ok.
  apply list_elem_of_lookup in Hx as [i Hi].
  destruct (Forall2_lookup_l _ _ _ _ _ Hk Hi) as (y & _ & ?). by eapply Hf.
Qed.

(** ** Objects with mutable members

    A member function of a C++ object with state [S] is a function from the
    state to a result and the state it leaves behind, also when it throws. *)

Definition stateM (S A : Type) : Type := S → result A * S.

#[export] Instance stateM_ret {S} : MRet (stateM S) := λ A a s, (Ok a, s).
#[export] Instance stateM_bind {S} : MBind (stateM S) :=
  λ A B f m s,
    match m s with
    | (Ok a, s') => f a s'
    | (Err e, s') => (Err e, s')
    end.
#[export] Instance stateM_fmap {S} : FMap (stateM S) :=
  λ A B f m s,
    match m s with
    | (Ok a, s') => (Ok (f a), s')
    | (Err e, s') => (Err e, s')
    end.

Definition get {S} : stateM S S := λ s, (Ok s, s).
Definition modify {S} (f : S → S) : stateM S unit := λ s, (Ok tt, f s).
Definition throw {S A} (e : Error) : stateM S A := λ s, (Err e, s).
Definition lift {S A} (r : result A) : stateM S A := λ s, (r, s).

Fixpoint mapM_state {S A B} (f : A → stateM S B) (l : list A) :
    stateM S (list B) :=
  match l with
  | [] => mret []
  | x :: l => y ← f x; ys ← mapM_state f l; mret (y :: ys)
  end.

Lemma run_bind {S A B} (m : stateM S A) (f : A → stateM S B) s :
  (m ≫= f) s = match m s with
               | (Ok a, s') => f a s'
               | (Err e, s') => (Err e, s')
               end.
Proof. done. Qed.

Lemma run_bind_Ok {S A B} (m : stateM S A) (f : A → stateM S B) s b s' :
  (m ≫= f) s = (Ok b, s') ↔ ∃ a s1, m s = (Ok a, s1) ∧ f a s1 = (Ok b, s').
Proof. rewrite run_bind. destruct (m s) as [[]]; naive_solver. Qed.

(** The exceptions a computation can throw. *)
Definition throws_only {S A} (P : Error → Prop) (m : stateM S A) : Prop :=
  ∀ s e s', m s = (Err e, s') → P e.

Lemma throws_ret {S A} P (a : A) : throws_only P (mret a : stateM S A).
Proof. by intros s e s'. Qed.
Lemma throws_get {S} P : throws_only P (get : stateM S S).
Proof. by intros s e s'. Qed.
Lemma throws_modify {S} P (f : S → S) : throws_only P (modify f).
Proof. by intros s e s'. Qed.
Lemma throws_throw {S A} (P : Error → Prop) e : P e → throws_only P (throw e : stateM S A).
Proof. intros He s e' s'. by intros [= <- _]. Qed.
Lemma throws_lift {S A} (P : Error → Prop) (r : result A) :
  (∀ e, r = Err e → P e) → throws_only P (lift r : stateM S A).
Proof. intros Hr s e s' [= H _]. by apply Hr. Qed.
Lemma throws_state_bind {S A B} P (m : stateM S A) (f : A → stateM S B) :
  throws_only P m → (∀ a, throws_only P (f a)) → throws_only P (m ≫= f).
Proof.
  intros Hm Hf s e s'. rewrite run_bind.
  destruct (m s) as [[a|e'] s1] eqn:E.
  - apply Hf.
  - intros [= <- _]. by eapply Hm.
Qed.
Lemma throws_mapM {S A B} P (f : A → stateM S B) l :
  (∀ x, x ∈ l → throws_only P (f x)) → throws_only P (mapM_state f l).
Proof.
  induction l as [|x l IH]; intros Hf; cbn; [apply throws_ret|].
  apply throws_state_bind; [apply Hf; by left|]. intros y.
  apply throws_state_bind; [apply IH; intros z Hz; apply Hf; by right|].
  intros ys. apply throws_ret.
Qed.
Lemma throws_weaken {S A} (P Q : Error → Prop) (m : stateM S A) :
  throws_only P m → (∀ e, P e → Q e) → throws_only Q m.
Proof. intros Hm HPQ s e s' H. eapply HPQ, Hm, H. Qed.

(** Apply the rules along the structure of a computation. *)
Ltac throws_step :=
  first
    [ apply throws_ret | apply throws_get | apply throws_modify
    | apply throws_state_bind; [|intros ?]
    | match goal with
      | |- throws_only _ (if ?c then _ else _) => destruct c
      | |- throws_only _ (match ?c with _ => _ end) => destruct c
      end ].

(** ** Printing numbers as the standard streams do *)

(** [std::to_string], and [operator<<] in decimal. *)
Definition to_string (n : Z) : string := pretty n.

Definition hex_digit (d : Z) : string :=
  match d with
  | 0 => "0" | 1 => "1" | 2 => "2" | 3 => "3" | 4 => "4" | 5 => "5"
  | 6 => "6" | 7 => "7" | 8 => "8" | 9 => "9" | 10 => "a" | 11 => "b"
  | 12 => "c" | 13 => "d" | 14 => "e" | _ => "f"
  end.

(** [operator<<] under [std::hex], for an unsigned number of at most [n]
    hexadecimal digits: no leading zeros. *)
Fixpoint hex_digits (n : nat) (x : Z) : string :=
  match n with
  | O => ""
  | S n => if x <? 16 then hex_digit x
           else (hex_digits n (x / 16) +:+ hex_digit (x mod 16))
  end.
Definition to_hex (x : Z) : string := hex_digits 16 x.

(** [std::setw(k) << std::setfill('0')]. *)
Definition setw_zero (k : nat) (s : string) : string :=
  String.concat "" (replicate (k - String.length s) "0") +:+ s.
