(* ===== verification/Riscv.v ===== *)
(** * RISC-V instruction objects (lib/RISCV/Instruction.h, Instruction.cpp)

    [riscv::Instruction]: the opcodes, the tagged operands, the checked operand
    accessors and the printer.  A [uint32_t] register number, an [int64_t]
    immediate, the raw word and the address are [Z]s. *)
From S2P Require Import Prelude Error.

Module riscv.

Inductive Opcode :=
  (* Arithmetic and Logic Instructions *)
  | ADD | ADDI | ADDW | ADDIW | SUB | SUBW | AND | ANDI | OR | ORI | XOR | XORI
  | SLL | SLLI | SLLW | SLLIW | SRL | SRLI | SRLW | SRLIW
  | SRA | SRAI | SRAW | SRAIW | SLT | SLTI | SLTU | SLTIU
  (* Load Instructions *)
  | LB | LH | LW | LD | LBU | LHU | LWU
  (* Store Instructions *)
  | SB | SH | SW | SD
  (* Branch Instructions *)
  | BEQ | BNE | BLT | BGE | BLTU | BGEU
  (* Jump Instructions *)
  | JAL | JALR
  (* Upper Immediate Instructions *)
  | LUI | AUIPC
  (* System Instructions *)
  | ECALL | EBREAK
  (* Invalid instruction *)
  | INVALID.

#[global] Instance Opcode_eq_dec : EqDecision Opcode.
Proof. solve_decision. Defined.

(** [using Operand = std::variant<Register, Immediate>] *)
Inductive Operand :=
  | Register (value : Z)
  | Immediate (value : Z).

#[global] Instance Operand_eq_dec : EqDecision Operand.
Proof. solve_decision. Defined.

Record Instruction := mkInstruction {
  opcode : Opcode;
  operands : list Operand;
  rawInstruction : Z;
  address : Z;
}.

#[global] Instance Instruction_eq_dec : EqDecision Instruction.
Proof. solve_decision. Defined.

Definition isValid (inst : Instruction) : bool :=
  bool_decide (opcode inst ≠ INVALID).

(** [operands[index]]: [std::vector::operator[]] does not check its index. *)
Definition operand_at (inst : Instruction) (index : nat) : result Operand :=
  of_option (undefined_behaviour "operands[index] out of range")
    (operands inst !! index).

Definition getRegister (inst : Instruction) (index : nat) : result Z :=
  op ← operand_at inst index;
  match op with
  | Register v => Ok v
  | Immediate _ => Err bad_variant_access
  end.

Definition getImmediate (inst : Instruction) (index : nat) : result Z :=
  op ← operand_at inst index;
  match op with
  | Immediate v => Ok v
  | Register _ => Err bad_variant_access
  end.

Definition opcodeToString (op : Opcode) : string :=
  match op with
  | ADD => "ADD" | ADDI => "ADDI" | ADDW => "ADDW" | ADDIW => "ADDIW"
  | SUB => "SUB" | SUBW => "SUBW" | AND => "AND" | ANDI => "ANDI"
  | OR => "OR" | ORI => "ORI" | XOR => "XOR" | XORI => "XORI"
  | SLL => "SLL" | SLLI => "SLLI" | SLLW => "SLLW" | SLLIW => "SLLIW"
  | SRL => "SRL" | SRLI => "SRLI" | SRLW => "SRLW" | SRLIW => "SRLIW"
  | SRA => "SRA" | SRAI => "SRAI" | SRAW => "SRAW" | SRAIW => "SRAIW"
  | SLT => "SLT" | SLTI => "SLTI" | SLTU => "SLTU" | SLTIU => "SLTIU"
  | LB => "LB" | LH => "LH" | LW => "LW" | LD => "LD"
  | LBU => "LBU" | LHU => "LHU" | LWU => "LWU"
  | SB => "SB" | SH => "SH" | SW => "SW" | SD => "SD"
  | BEQ => "BEQ" | BNE => "BNE" | BLT => "BLT" | BGE => "BGE"
  | BLTU => "BLTU" | BGEU => "BGEU"
  | JAL => "JAL" | JALR => "JALR" | LUI => "LUI" | AUIPC => "AUIPC"
  | ECALL => "ECALL" | EBREAK => "EBREAK" | INVALID => "INVALID"
  end.

Definition operandToString (op : Operand) : string :=
  match op with
  | Register v => "x" +:+ to_string v
  | Immediate v => to_string v
  end.

Definition toString (inst : Instruction) : string :=
  let head := "RV64I[0x" +:+ setw_zero 8 (to_hex (rawInstruction inst))
              +:+ " @ 0x" +:+ to_hex (address inst) +:+ "] " in
  if negb (isValid inst) then head +:+ "INVALID"
  else
    head +:+ opcodeToString (opcode inst)
    +:+ match operands inst with
        | [] => ""
        | ops => " " +:+ String.concat ", " (operandToString <$> ops)
        end.

(** ** Facts about the accessors *)

Lemma getRegister_Ok inst i v :
  operands inst !! i = Some (Register v) → getRegister inst i = Ok v.
Proof. intros H. unfold getRegister, operand_at. by rewrite H. Qed.

Lemma getImmediate_Ok inst i v :
  operands inst !! i = Some (Immediate v) → getImmediate inst i = Ok v.
Proof. intros H. unfold getImmediate, operand_at. by rewrite H. Qed.

(** The mnemonics are distinct, so a printed opcode names its instruction. *)
#[global] Instance opcodeToString_inj : Inj (=) (=) opcodeToString.
Proof. intros x y; destruct x, y; vm_compute; congruence. Qed.

Example toString_addi :
  toString (mkInstruction ADDI [Register 1; Register 0; Immediate (-5)]
              0xffb00093 0x10000)
  = "RV64I[0xffb00093 @ 0x10000] ADDI x1, x0, -5".
Proof. vm_compute. reflexivity. Qed.

End riscv.
