(* ===== verification/Decoder.v ===== *)
(** * The RISC-V decoder (lib/RISCV/Decoder.h, Decoder.cpp)

    [decode] reads one little-endian 32-bit word and splits it into an opcode
    and its operands; an unrecognised word throws [DecodingError].  The section
    text is a [std::vector<uint8_t>], a list of bytes here; reading past its
    end is undefined behaviour in the code and the error
    [undefined_behaviour] here. *)
From S2P Require Import Prelude Error Riscv.

Module Decoder.

(** ** Field masks *)
Definition OPCODE_MASK : Z := 0x7F.
Definition REGISTER_MASK : Z := 0x1F.
Definition FUNCT3_MASK : Z := 0x7.
Definition FUNCT7_MASK : Z := 0x7F.
Definition IMM_12_MASK : Z := 0xFFF.

(** [data[i]] on the raw pointer of the section text. *)
Definition byte_at (data : list Z) (i : Z) : result Z :=
  of_option (undefined_behaviour "read past the end of the text section")
    (data !! Z.to_nat i).

Definition readInstructionFromMemory (data : list Z) (offset : Z) : result Z :=
  b0 ← byte_at data offset;
  b1 ← byte_at data (offset + 1);
  b2 ← byte_at data (offset + 2);
  b3 ← byte_at data (offset + 3);
  Ok (b0 |. (b1 <<. 8) |. (b2 <<. 16) |. (b3 <<. 24)).

Record DecodedFields := mkFields {
  opcode : Z;
  rd : Z;
  rs1 : Z;
  rs2 : Z;
  funct3 : Z;
  funct7 : Z;
}.

Definition extractFields (raw : Z) : DecodedFields :=
  {| opcode := raw &. OPCODE_MASK;
     rd := (raw >>. 7) &. REGISTER_MASK;
     funct3 := (raw >>. 12) &. FUNCT3_MASK;
     rs1 := (raw >>. 15) &. REGISTER_MASK;
     rs2 := (raw >>. 20) &. REGISTER_MASK;
     funct7 := (raw >>. 25) &. FUNCT7_MASK |}.

(** [int32_t signExtend(uint32_t value, int bits)] *)
Definition signExtend (value nbits : Z) : Z :=
  let signBit := u32 (1 <<. (nbits - 1)) in
  if negb ((value &. signBit) =? 0)
  then i32 (value |. u32 ((2 ^ 32 - 1) <<. nbits))
  else i32 value.

Definition unrecognized {A} (f : DecodedFields) : result A :=
  Err (DecodingError ("Unrecognized RISC-V instruction: opcode=0x"
    +:+ to_hex (opcode f) +:+ " funct3=0x" +:+ to_hex (funct3 f)
    +:+ " funct7=0x" +:+ to_hex (funct7 f))).

Definition determineOpcode (f : DecodedFields) : result riscv.Opcode :=
  match opcode f with
  | 0x33 => (* OP *)
      match funct3 f with
      | 0x0 => Ok (if funct7 f =? 0x20 then riscv.SUB else riscv.ADD)
      | 0x1 => Ok riscv.SLL
      | 0x2 => Ok riscv.SLT
      | 0x3 => Ok riscv.SLTU
      | 0x4 => Ok riscv.XOR
      | 0x5 => Ok (if funct7 f =? 0x20 then riscv.SRA else riscv.SRL)
      | 0x6 => Ok riscv.OR
      | 0x7 => Ok riscv.AND
      | _ => unrecognized f
      end
  | 0x3B => (* OP_32 *)
      match funct3 f with
      | 0x0 => Ok (if funct7 f =? 0x20 then riscv.SUBW else riscv.ADDW)
      | 0x1 => Ok riscv.SLLW
      | 0x5 => Ok (if funct7 f =? 0x20 then riscv.SRAW else riscv.SRLW)
      | _ => unrecognized f
      end
  | 0x13 => (* OP_IMM *)
      match funct3 f with
      | 0x0 => Ok riscv.ADDI
      | 0x1 => Ok riscv.SLLI
      | 0x2 => Ok riscv.SLTI
      | 0x3 => Ok riscv.SLTIU
      | 0x4 => Ok riscv.XORI
      | 0x5 => Ok (if funct7 f =? 0x20 then riscv.SRAI else riscv.SRLI)
      | 0x6 => Ok riscv.ORI
      | 0x7 => Ok riscv.ANDI
      | _ => unrecognized f
      end
  | 0x1B => (* OP_IMM_32 *)
      match funct3 f with
      | 0x0 => Ok riscv.ADDIW
      | 0x1 => Ok riscv.SLLIW
      | 0x5 => Ok (if funct7 f =? 0x20 then riscv.SRAIW else riscv.SRLIW)
      | _ => unrecognized f
      end
  | 0x03 => (* LOAD *)
      match funct3 f with
      | 0x0 => Ok riscv.LB
      | 0x1 => Ok riscv.LH
      | 0x2 => Ok riscv.LW
      | 0x3 => Ok riscv.LD
      | 0x4 => Ok riscv.LBU
      | 0x5 => Ok riscv.LHU
      | 0x6 => Ok riscv.LWU
      | _ => unrecognized f
      end
  | 0x23 => (* STORE *)
      match funct3 f with
      | 0x0 => Ok riscv.SB
      | 0x1 => Ok riscv.SH
      | 0x2 => Ok riscv.SW
      | 0x3 => Ok riscv.SD
      | _ => unrecognized f
      end
  | 0x63 => (* BRANCH *)
      match funct3 f with
      | 0x0 => Ok riscv.BEQ
      | 0x1 => Ok riscv.BNE
      | 0x4 => Ok riscv.BLT
      | 0x5 => Ok riscv.BGE
      | 0x6 => Ok riscv.BLTU
      | 0x7 => Ok riscv.BGEU
      | _ => unrecognized f
      end
  | 0x67 => (* JALR *)
      if funct3 f =? 0x0 then Ok riscv.JALR else unrecognized f
  | 0x6F => Ok riscv.JAL
  | 0x37 => Ok riscv.LUI
  | 0x17 => Ok riscv.AUIPC
  | 0x73 => (* SYSTEM *)
      if (funct3 f =? 0x0) && (rd f =? 0x0) && (rs1 f =? 0x0) then
        let imm := rs2 f |. u32 (funct7 f <<. 5) in
        if imm =? 0x0 then Ok riscv.ECALL
        else if imm =? 0x1 then Ok riscv.EBREAK
        else unrecognized f
      else unrecognized f
  | _ => unrecognized f
  end.

(** ** Immediates, by format *)

Definition extractITypeImmediate (raw : Z) : Z :=
  let imm := (raw >>. 20) &. IMM_12_MASK in
  signExtend imm 12.

Definition extractSTypeImmediate (raw : Z) : Z :=
  let imm := u32 (((raw >>. 25) &. 0x7F) <<. 5) in
  let imm := imm |. ((raw >>. 7) &. 0x1F) in
  signExtend imm 12.

Definition extractBTypeImmediate (raw : Z) : Z :=
  let imm := 0 in
  let imm := imm |. u32 (((raw >>. 31) &. 0x1) <<. 12) in (* imm[12] *)
  let imm := imm |. u32 (((raw >>. 7) &. 0x1) <<. 11) in  (* imm[11] *)
  let imm := imm |. u32 (((raw >>. 25) &. 0x3F) <<. 5) in (* imm[10:5] *)
  let imm := imm |. u32 (((raw >>. 8) &. 0xF) <<. 1) in   (* imm[4:1] *)
  signExtend imm 13.

Definition extractUTypeImmediate (raw : Z) : Z := i32 (raw &. 0xFFFFF000).

Definition extractJTypeImmediate (raw : Z) : Z :=
  let imm := 0 in
  let imm := imm |. u32 (((raw >>. 31) &. 0x1) <<. 20) in  (* imm[20] *)
  let imm := imm |. u32 (((raw >>. 12) &. 0xFF) <<. 12) in (* imm[19:12] *)
  let imm := imm |. u32 (((raw >>. 20) &. 0x1) <<. 11) in  (* imm[11] *)
  let imm := imm |. u32 (((raw >>. 21) &. 0x3FF) <<. 1) in (* imm[10:1] *)
  signExtend imm 21.

Definition extractOperands (f : DecodedFields) (op : riscv.Opcode) (raw : Z)
    : result (list riscv.Operand) :=
  match op with
  (* R-type: rd, rs1, rs2 *)
  | riscv.ADD | riscv.SUB | riscv.SLL | riscv.SLT | riscv.SLTU | riscv.XOR
  | riscv.SRL | riscv.SRA | riscv.OR | riscv.AND | riscv.ADDW | riscv.SUBW
  | riscv.SLLW | riscv.SRLW | riscv.SRAW =>
      Ok [riscv.Register (rd f); riscv.Register (rs1 f); riscv.Register (rs2 f)]
  (* I-type: rd, rs1, imm; loads: rd, rs1, offset *)
  | riscv.ADDI | riscv.SLTI | riscv.SLTIU | riscv.XORI | riscv.ORI | riscv.ANDI
  | riscv.SLLI | riscv.SRLI | riscv.SRAI | riscv.ADDIW | riscv.SLLIW
  | riscv.SRLIW | riscv.SRAIW | riscv.JALR
  | riscv.LB | riscv.LH | riscv.LW | riscv.LD | riscv.LBU | riscv.LHU
  | riscv.LWU =>
      Ok [riscv.Register (rd f); riscv.Register (rs1 f);
          riscv.Immediate (extractITypeImmediate raw)]
  (* Store: rs1, rs2, offset *)
  | riscv.SB | riscv.SH | riscv.SW | riscv.SD =>
      Ok [riscv.Register (rs1 f); riscv.Register (rs2 f);
          riscv.Immediate (extractSTypeImmediate raw)]
  (* Branch: rs1, rs2, offset *)
  | riscv.BEQ | riscv.BNE | riscv.BLT | riscv.BGE | riscv.BLTU | riscv.BGEU =>
      Ok [riscv.Register (rs1 f); riscv.Register (rs2 f);
          riscv.Immediate (extractBTypeImmediate raw)]
  (* U-type: rd, imm *)
  | riscv.LUI | riscv.AUIPC =>
      Ok [riscv.Register (rd f); riscv.Immediate (extractUTypeImmediate raw)]
  (* J-type: rd, offset *)
  | riscv.JAL =>
      Ok [riscv.Register (rd f); riscv.Immediate (extractJTypeImmediate raw)]
  (* System: no operands *)
  | riscv.ECALL | riscv.EBREAK => Ok []
  | riscv.INVALID =>
      Err (DecodingError "Cannot extract operands for invalid instruction")
  end.

Definition decode (data : list Z) (offset pc : Z) : result riscv.Instruction :=
  rawInstruction ← readInstructionFromMemory data offset;
  let fields := extractFields rawInstruction in
  op ← determineOpcode fields;
  ops ← extractOperands fields op rawInstruction;
  Ok (riscv.mkInstruction op ops rawInstruction pc).

#[global] Arguments extractFields : simpl never.
#[global] Arguments signExtend : simpl never.
#[global] Arguments extractITypeImmediate : simpl never.
#[global] Arguments extractSTypeImmediate : simpl never.
#[global] Arguments extractBTypeImmediate : simpl never.
#[global] Arguments extractUTypeImmediate : simpl never.
#[global] Arguments extractJTypeImmediate : simpl never.

(** ** The fields, as bit fields of the word *)

Lemma extractFields_bits raw :
  extractFields raw =
    {| opcode := bits 0 7 raw; rd := bits 7 5 raw; funct3 := bits 12 3 raw;
       rs1 := bits 15 5 raw; rs2 := bits 20 5 raw; funct7 := bits 25 7 raw |}.
Proof.
  unfold extractFields, OPCODE_MASK, REGISTER_MASK, FUNCT3_MASK, FUNCT7_MASK.
  rewrite <- !shiftr_land_bits by lia. by rewrite Z.shiftr_0_r.
Qed.

(** [~0U << b], as the code computes it in 32 bits. *)
Lemma high_mask b :
  0 <= b <= 32 -> uint 32 ((2 ^ 32 - 1) <<. b) = (2 ^ (32 - b) - 1) * 2 ^ b.
Proof.
  intros Hb. rewrite Z.shiftl_mul_pow2 by lia. unfold uint.
  assert (2 ^ 32 = 2 ^ (32 - b) * 2 ^ b) as E
    by (rewrite <- Z.pow_add_r by lia; f_equal; lia).
  assert (0 < 2 ^ b) by (apply Z.pow_pos_nonneg; lia).
  assert (0 < 2 ^ (32 - b)) by (apply Z.pow_pos_nonneg; lia).
  replace ((2 ^ 32 - 1) * 2 ^ b)
    with ((2 ^ (32 - b) - 1) * 2 ^ b + (2 ^ b - 1) * 2 ^ 32) by nia.
  rewrite Z.mod_add by lia. apply Z.mod_small. nia.
Qed.

(** [signExtend] is the two's complement reading of a [b]-bit field. *)
Lemma signExtend_sint v b :
  1 <= b <= 31 -> 0 <= v < 2 ^ b -> signExtend v b = sint b v.
Proof.
  intros Hb Hv. unfold signExtend.
  pose proof (pow2_half b ltac:(lia)) as Hp.
  assert (2 ^ b <= 2 ^ 31) by (apply Z.pow_le_mono_r; lia).
  rewrite Z.shiftl_1_l, (uint_small 32) by (unfold in_u; lia).
  rewrite land_pow2, high_mask by lia.
  destruct (decide (v < 2 ^ (b - 1))).
  - rewrite Z.div_small by lia. simpl.
    rewrite !sint_small; unfold in_s; lia.
  - assert (v / 2 ^ (b - 1) = 1) as ->.
    { symmetry. apply (Z.div_unique _ _ _ (v - 2 ^ (b - 1))); lia. }
    rewrite Z.mul_1_l. destruct (Z.eqb_spec (2 ^ (b - 1)) 0); [lia|]. simpl negb.
    rewrite Z.lor_comm, <- Z.shiftl_mul_pow2, lor_shiftl_add by lia.
    assert (2 ^ 32 = 2 ^ (32 - b) * 2 ^ b) as E
      by (rewrite <- Z.pow_add_r by lia; f_equal; lia).
    rewrite (sint_neg b v) by lia.
    replace ((2 ^ (32 - b) - 1) * 2 ^ b + v) with (2 ^ 32 - 2 ^ b + v) by lia.
    rewrite (sint_neg 32) by lia. lia.
Qed.

(** Read each mask-and-shift as a field, and record the fields' ranges. *)
Ltac field_masks :=
  repeat match goal with
    | |- context [Z.shiftr ?x ?lo &. Zpos ?m] =>
        let n := eval vm_compute in (Z.log2 (Zpos m + 1)) in
        change (Z.shiftr x lo &. Zpos m)
          with (Z.shiftr x lo &. (2 ^ n - 1));
        rewrite (shiftr_land_bits x lo n) by lia
    end.

(** Each immediate is the two's complement reading of the fields the format
    scatters over the word. *)
Lemma extractITypeImmediate_bits raw :
  extractITypeImmediate raw = sint 12 (bits 20 12 raw).
Proof.
  unfold extractITypeImmediate, IMM_12_MASK. field_masks.
  apply signExtend_sint; [lia|by apply bits_range].
Qed.

Ltac field_ranges raw :=
  repeat match goal with
    | |- context [bits ?lo ?n raw] =>
        lazymatch goal with
        | _ : 0 <= bits lo n raw < _ |- _ => fail
        | _ => let H := fresh "R" in
               assert (H : 0 <= bits lo n raw < 2 ^ n) by (by apply bits_range);
               let v := eval vm_compute in (2 ^ n) in
               change (2 ^ n) with v in H
        end
    end.

Lemma extractSTypeImmediate_bits raw :
  extractSTypeImmediate raw = sint 12 (bits 25 7 raw * 32 + bits 7 5 raw).
Proof.
  unfold extractSTypeImmediate. field_masks. field_ranges raw.
  rewrite (uint_mul_small 32 7) by lia.
  rewrite (lor_add_hi 5) by (shifts_to_mul; dlia).
  apply signExtend_sint; lia.
Qed.

Lemma extractBTypeImmediate_bits raw :
  extractBTypeImmediate raw =
    sint 13 (bits 31 1 raw * 4096 + bits 7 1 raw * 2048 + bits 25 6 raw * 32
             + bits 8 4 raw * 2).
Proof.
  unfold extractBTypeImmediate. rewrite Z.lor_0_l. field_masks. field_ranges raw.
  rewrite !(uint_mul_small 32 6) by lia.
  rewrite (lor_add_hi 12 (_ * _)), (lor_add_hi 11 (_ + _)), (lor_add_hi 5 (_ + _))
    by (shifts_to_mul; dlia).
  apply signExtend_sint; lia.
Qed.

Lemma extractJTypeImmediate_bits raw :
  extractJTypeImmediate raw =
    sint 21 (bits 31 1 raw * 1048576 + bits 12 8 raw * 4096
             + bits 20 1 raw * 2048 + bits 21 10 raw * 2).
Proof.
  unfold extractJTypeImmediate. rewrite Z.lor_0_l. field_masks. field_ranges raw.
  rewrite !(uint_mul_small 32 10) by lia.
  rewrite (lor_add_hi 20 (_ * _)), (lor_add_hi 12 (_ + _)), (lor_add_hi 11 (_ + _))
    by (shifts_to_mul; dlia).
  apply signExtend_sint; lia.
Qed.

Lemma extractUTypeImmediate_bits raw :
  extractUTypeImmediate raw = sint 32 (bits 12 20 raw * 4096).
Proof.
  unfold extractUTypeImmediate. f_equal.
  change 0xFFFFF000 with ((2 ^ 20 - 1) <<. 12). by rewrite land_field_mask by lia.
Qed.

(** The four bytes read are the digits of the word. *)
Lemma readInstructionFromMemory_bytes data offset b0 b1 b2 b3 :
  0 <= offset ->
  take 4 (drop (Z.to_nat offset) data) = [b0; b1; b2; b3] ->
  in_u 8 b0 -> in_u 8 b1 -> in_u 8 b2 -> in_u 8 b3 ->
  readInstructionFromMemory data offset =
    Ok (b0 + b1 * 2 ^ 8 + b2 * 2 ^ 16 + b3 * 2 ^ 24).
Proof.
  intros Ho Hd H0 H1 H2 H3.
  assert (∀ i b, [b0; b1; b2; b3] !! i = Some b →
                 byte_at data (offset + Z.of_nat i) = Ok b) as Hat.
  { intros i b Hi. unfold byte_at. rewrite of_option_Ok, <- Hi, <- Hd.
    apply lookup_lt_Some in Hi. simpl in Hi.
    rewrite lookup_take_lt, lookup_drop by lia. f_equal. lia. }
  unfold readInstructionFromMemory.
  pose proof (Hat 0%nat b0 eq_refl) as E0. pose proof (Hat 1%nat b1 eq_refl) as E1.
  pose proof (Hat 2%nat b2 eq_refl) as E2. pose proof (Hat 3%nat b3 eq_refl) as E3.
  change (Z.of_nat 0) with 0 in E0. change (Z.of_nat 1) with 1 in E1.
  change (Z.of_nat 2) with 2 in E2. change (Z.of_nat 3) with 3 in E3.
  rewrite Z.add_0_r in E0. rewrite E0, E1, E2, E3.
  cbn. f_equal. unfold in_u in *. shifts_to_mul.
  rewrite (lor_add_lo 8 b0), (lor_add_lo 16 (_ + _)), (lor_add_lo 24 (_ + _))
    by (try lia; shifts_to_mul; dlia). done.
Qed.

End Decoder.
