(* ===== verification/RiscvEncoding.v ===== *)
(** * RV64I instruction encodings (reference)

    The instruction formats and the opcode / funct3 / funct7 table of the
    RISC-V unprivileged specification, as an assembler from opcodes and
    operands to 32-bit words.  This is the specification the decoder of
    lib/RISCV/Decoder.cpp is compared with; it models no code of the
    repository. *)
From S2P Require Import Prelude Error Riscv.

Module isa.

Inductive format := FmtR | FmtI | FmtShift (width : Z) (hi : Z) | FmtS | FmtB
                  | FmtU | FmtJ | FmtSys (imm12 : Z).

(** format, major opcode, funct3, funct7 of each instruction. *)
Definition encoding (op : riscv.Opcode) : option (format * Z * Z * Z) :=
  match op with
  | riscv.ADD => Some (FmtR, 0x33, 0, 0)
  | riscv.SUB => Some (FmtR, 0x33, 0, 0x20)
  | riscv.SLL => Some (FmtR, 0x33, 1, 0)
  | riscv.SLT => Some (FmtR, 0x33, 2, 0)
  | riscv.SLTU => Some (FmtR, 0x33, 3, 0)
  | riscv.XOR => Some (FmtR, 0x33, 4, 0)
  | riscv.SRL => Some (FmtR, 0x33, 5, 0)
  | riscv.SRA => Some (FmtR, 0x33, 5, 0x20)
  | riscv.OR => Some (FmtR, 0x33, 6, 0)
  | riscv.AND => Some (FmtR, 0x33, 7, 0)
  | riscv.ADDW => Some (FmtR, 0x3B, 0, 0)
  | riscv.SUBW => Some (FmtR, 0x3B, 0, 0x20)
  | riscv.SLLW => Some (FmtR, 0x3B, 1, 0)
  | riscv.SRLW => Some (FmtR, 0x3B, 5, 0)
  | riscv.SRAW => Some (FmtR, 0x3B, 5, 0x20)
  | riscv.ADDI => Some (FmtI, 0x13, 0, 0)
  | riscv.SLTI => Some (FmtI, 0x13, 2, 0)
  | riscv.SLTIU => Some (FmtI, 0x13, 3, 0)
  | riscv.XORI => Some (FmtI, 0x13, 4, 0)
  | riscv.ORI => Some (FmtI, 0x13, 6, 0)
  | riscv.ANDI => Some (FmtI, 0x13, 7, 0)
  | riscv.SLLI => Some (FmtShift 6 0, 0x13, 1, 0)
  | riscv.SRLI => Some (FmtShift 6 0, 0x13, 5, 0)
  | riscv.SRAI => Some (FmtShift 6 0x400, 0x13, 5, 0)
  | riscv.ADDIW => Some (FmtI, 0x1B, 0, 0)
  | riscv.SLLIW => Some (FmtShift 5 0, 0x1B, 1, 0)
  | riscv.SRLIW => Some (FmtShift 5 0, 0x1B, 5, 0)
  | riscv.SRAIW => Some (FmtShift 5 0x400, 0x1B, 5, 0)
  | riscv.LB => Some (FmtI, 0x03, 0, 0)
  | riscv.LH => Some (FmtI, 0x03, 1, 0)
  | riscv.LW => Some (FmtI, 0x03, 2, 0)
  | riscv.LD => Some (FmtI, 0x03, 3, 0)
  | riscv.LBU => Some (FmtI, 0x03, 4, 0)
  | riscv.LHU => Some (FmtI, 0x03, 5, 0)
  | riscv.LWU => Some (FmtI, 0x03, 6, 0)
  | riscv.SB => Some (FmtS, 0x23, 0, 0)
  | riscv.SH => Some (FmtS, 0x23, 1, 0)
  | riscv.SW => Some (FmtS, 0x23, 2, 0)
  | riscv.SD => Some (FmtS, 0x23, 3, 0)
  | riscv.BEQ => Some (FmtB, 0x63, 0, 0)
  | riscv.BNE => Some (FmtB, 0x63, 1, 0)
  | riscv.BLT => Some (FmtB, 0x63, 4, 0)
  | riscv.BGE => Some (FmtB, 0x63, 5, 0)
  | riscv.BLTU => Some (FmtB, 0x63, 6, 0)
  | riscv.BGEU => Some (FmtB, 0x63, 7, 0)
  | riscv.JAL => Some (FmtJ, 0x6F, 0, 0)
  | riscv.JALR => Some (FmtI, 0x67, 0, 0)
  | riscv.LUI => Some (FmtU, 0x37, 0, 0)
  | riscv.AUIPC => Some (FmtU, 0x17, 0, 0)
  | riscv.ECALL => Some (FmtSys 0, 0x73, 0, 0)
  | riscv.EBREAK => Some (FmtSys 1, 0x73, 0, 0)
  | riscv.INVALID => None
  end.

(** The word of a format from its fields. *)
Definition word_of (opc rd f3 rs1 rs2 f7 : Z) : Z :=
  opc + rd * 2 ^ 7 + f3 * 2 ^ 12 + rs1 * 2 ^ 15 + rs2 * 2 ^ 20 + f7 * 2 ^ 25.

(** The word of an instruction: the operands in the order of the assembly
    language (stores and branches: rs1, rs2, offset), the immediates with the
    value they denote (a U-type immediate is the multiple of 4096 added). *)
Definition assemble (op : riscv.Opcode) (ops : list riscv.Operand) : option Z :=
  '(fmt, opc, f3, f7) ← encoding op;
  match fmt, ops with
  | FmtR, [riscv.Register rd; riscv.Register rs1; riscv.Register rs2] =>
      Some (word_of opc rd f3 rs1 rs2 f7)
  | (FmtI | FmtShift _ _),
    [riscv.Register rd; riscv.Register rs1; riscv.Immediate imm] =>
      Some (word_of opc rd f3 rs1 (bits 0 5 imm) (bits 5 7 imm))
  | FmtS, [riscv.Register rs1; riscv.Register rs2; riscv.Immediate imm] =>
      Some (word_of opc (bits 0 5 imm) f3 rs1 rs2 (bits 5 7 imm))
  | FmtB, [riscv.Register rs1; riscv.Register rs2; riscv.Immediate imm] =>
      Some (word_of opc (bits 1 4 imm * 2 + bits 11 1 imm) f3 rs1 rs2
              (bits 12 1 imm * 64 + bits 5 6 imm))
  | FmtU, [riscv.Register rd; riscv.Immediate imm] =>
      Some (opc + rd * 2 ^ 7 + bits 12 20 imm * 2 ^ 12)
  | FmtJ, [riscv.Register rd; riscv.Immediate imm] =>
      Some (opc + rd * 2 ^ 7 + bits 12 8 imm * 2 ^ 12 + bits 11 1 imm * 2 ^ 20
            + bits 1 10 imm * 2 ^ 21 + bits 20 1 imm * 2 ^ 31)
  | FmtSys imm12, [] => Some (opc + imm12 * 2 ^ 20)
  | _, _ => None
  end.

(** Operands of the kind and range their format has room for. *)
Definition is_reg (r : Z) : bool := bool_decide (0 <= r < 32).

Definition operands_fit (op : riscv.Opcode) (ops : list riscv.Operand) : bool :=
  match encoding op with
  | None => false
  | Some (fmt, _, _, _) =>
      match fmt, ops with
      | FmtR, [riscv.Register rd; riscv.Register rs1; riscv.Register rs2] =>
          is_reg rd && is_reg rs1 && is_reg rs2
      | (FmtI | FmtShift _ _),
        [riscv.Register rd; riscv.Register rs1; riscv.Immediate imm] =>
          is_reg rd && is_reg rs1 && bool_decide (in_s 12 imm)
      | FmtS, [riscv.Register rs1; riscv.Register rs2; riscv.Immediate imm] =>
          is_reg rs1 && is_reg rs2 && bool_decide (in_s 12 imm)
      | FmtB, [riscv.Register rs1; riscv.Register rs2; riscv.Immediate imm] =>
          is_reg rs1 && is_reg rs2
          && bool_decide (in_s 13 imm ∧ imm mod 2 = 0)
      | FmtU, [riscv.Register rd; riscv.Immediate imm] =>
          is_reg rd && bool_decide (in_s 32 imm ∧ imm mod 4096 = 0)
      | FmtJ, [riscv.Register rd; riscv.Immediate imm] =>
          is_reg rd && bool_decide (in_s 21 imm ∧ imm mod 2 = 0)
      | FmtSys _, [] => true
      | _, _ => false
      end
  end.

(** An immediate shift also fixes the upper bits of its 12-bit field. *)
Definition shift_fits (op : riscv.Opcode) (ops : list riscv.Operand) : bool :=
  match encoding op, ops with
  | Some (FmtShift width hi, _, _, _), [_; _; riscv.Immediate imm] =>
      bool_decide (0 <= imm - hi < 2 ^ width)
  | _, _ => true
  end.

(** A legal RV64I instruction. *)
Definition legal (op : riscv.Opcode) (ops : list riscv.Operand) : bool :=
  operands_fit op ops && shift_fits op ops.

(** Little-endian bytes of a 32-bit word. *)
Definition word_bytes (w : Z) : list Z :=
  [bits 0 8 w; bits 8 8 w; bits 16 8 w; bits 24 8 w].

End isa.
