(* ===== verification/DecoderCorrect.v ===== *)
(** * Correctness of the decoder

    [Decoder.decode] against the reference assembler of RiscvEncoding.v: every
    legal RV64I instruction but one class decodes back to itself, every word
    that decodes carries operands of the kind and range the lifter reads, and
    the decoded operands determine the word up to the funct7 field the code
    does not check. *)
From S2P Require Import Prelude Error Riscv Decoder RiscvEncoding.
Import Decoder isa.

(** [bool] connectives and [bool_decide] to propositions. *)
Ltac bools :=
  repeat match goal with
    | H : _ && _ = true |- _ => apply andb_true_iff in H as [? ?]
    | H : bool_decide _ = true |- _ => apply bool_decide_eq_true in H
    | H : is_reg _ = true |- _ => unfold is_reg in H
    | H : _ ∧ _ |- _ => destruct H
    | H : (_ =? _) = true |- _ => apply Z.eqb_eq in H
    end.

Lemma fields_of_word opc rd f3 rs1 rs2 f7 :
  0 <= opc < 128 -> 0 <= rd < 32 -> 0 <= f3 < 8 -> 0 <= rs1 < 32 ->
  0 <= rs2 < 32 -> 0 <= f7 < 128 ->
  extractFields (word_of opc rd f3 rs1 rs2 f7) =
    {| Decoder.opcode := opc; Decoder.rd := rd; funct3 := f3;
       Decoder.rs1 := rs1; Decoder.rs2 := rs2; funct7 := f7 |}.
Proof.
  intros. rewrite extractFields_bits. unfold word_of, bits. shifts_to_mul.
  f_equal; dlia.
Qed.

Lemma word_of_range opc rd f3 rs1 rs2 f7 :
  0 <= opc < 128 -> 0 <= rd < 32 -> 0 <= f3 < 8 -> 0 <= rs1 < 32 ->
  0 <= rs2 < 32 -> 0 <= f7 < 128 -> in_u 32 (word_of opc rd f3 rs1 rs2 f7).
Proof. intros. unfold in_u, word_of. shifts_to_mul. lia. Qed.

(** ** Decoding a word that lies in the section text *)

Definition decode_word (w pc : Z) : result riscv.Instruction :=
  op ← determineOpcode (extractFields w);
  ops ← extractOperands (extractFields w) op w;
  Ok (riscv.mkInstruction op ops w pc).

Lemma decode_at data offset w pc :
  0 <= offset -> in_u 32 w ->
  take 4 (drop (Z.to_nat offset) data) = word_bytes w ->
  decode data offset pc = decode_word w pc.
Proof.
  intros Ho Hw Hd. unfold decode.
  rewrite (readInstructionFromMemory_bytes _ _ _ _ _ _ Ho Hd)
    by (apply bits_range; lia).
  cbn [mbind result_bind].
  assert (bits 0 8 w + bits 8 8 w * 2 ^ 8 + bits 16 8 w * 2 ^ 16
          + bits 24 8 w * 2 ^ 24 = w) as ->; [|done].
  unfold bits, in_u in *. shifts_to_mul. dlia.
Qed.

(** ** Each format's immediate, recovered *)

Section immediates.
Context (opc rd f3 rs1 rs2 imm : Z).
Hypotheses (Hopc : 0 <= opc < 128) (Hrd : 0 <= rd < 32) (Hf3 : 0 <= f3 < 8)
           (Hrs1 : 0 <= rs1 < 32) (Hrs2 : 0 <= rs2 < 32).

Lemma imm_I :
  in_s 12 imm ->
  extractITypeImmediate (word_of opc rd f3 rs1 (bits 0 5 imm) (bits 5 7 imm))
  = imm.
Proof using Hopc Hrd Hf3 Hrs1.
  clear rs2 Hrs2.
  intros Hi. rewrite extractITypeImmediate_bits.
  transitivity (sint 12 imm); [|by apply sint_small].
  unfold sint, word_of, bits, in_s in *. shifts_to_mul. dlia.
Qed.

Lemma imm_S :
  in_s 12 imm ->
  extractSTypeImmediate (word_of opc (bits 0 5 imm) f3 rs1 rs2 (bits 5 7 imm))
  = imm.
Proof using Hopc Hf3 Hrs1 Hrs2.
  clear rd Hrd.
  intros Hi. rewrite extractSTypeImmediate_bits.
  transitivity (sint 12 imm); [|by apply sint_small].
  unfold sint, word_of, bits, in_s in *. shifts_to_mul. dlia.
Qed.

Lemma imm_B :
  in_s 13 imm -> imm mod 2 = 0 ->
  extractBTypeImmediate
    (word_of opc (bits 1 4 imm * 2 + bits 11 1 imm) f3 rs1 rs2
       (bits 12 1 imm * 64 + bits 5 6 imm)) = imm.
Proof using Hopc Hf3 Hrs1 Hrs2.
  clear rd Hrd.
  intros Hi He. rewrite extractBTypeImmediate_bits.
  transitivity (sint 13 (uint 13 imm)); [|by apply sint_uint]. f_equal.
  transitivity (bits 12 1 imm * 4096 + bits 11 1 imm * 2048
                + bits 5 6 imm * 32 + bits 1 4 imm * 2).
  - pose proof (bits_range 12 1 imm). pose proof (bits_range 11 1 imm).
    pose proof (bits_range 5 6 imm). pose proof (bits_range 1 4 imm).
    set (b12 := bits 12 1 imm) in *. set (b11 := bits 11 1 imm) in *.
    set (b5 := bits 5 6 imm) in *. set (b1 := bits 1 4 imm) in *.
    f_equal; [f_equal; [f_equal|]|]; f_equal;
      unfold bits, word_of; shifts_to_mul; dlia.
  - unfold bits, uint. shifts_to_mul. clear - He. dlia.
Qed.

Lemma imm_U :
  in_s 32 imm -> imm mod 4096 = 0 ->
  extractUTypeImmediate (opc + rd * 2 ^ 7 + bits 12 20 imm * 2 ^ 12) = imm.
Proof using Hopc Hrd.
  clear f3 rs1 rs2 Hf3 Hrs1 Hrs2.
  intros Hi He. rewrite extractUTypeImmediate_bits.
  transitivity (sint 32 imm); [|by apply sint_small].
  unfold sint, bits, in_s in *. shifts_to_mul. dlia.
Qed.

Lemma imm_J :
  in_s 21 imm -> imm mod 2 = 0 ->
  extractJTypeImmediate
    (opc + rd * 2 ^ 7 + bits 12 8 imm * 2 ^ 12 + bits 11 1 imm * 2 ^ 20
     + bits 1 10 imm * 2 ^ 21 + bits 20 1 imm * 2 ^ 31) = imm.
Proof using Hopc Hrd.
  clear f3 rs1 rs2 Hf3 Hrs1 Hrs2.
  intros Hi He. rewrite extractJTypeImmediate_bits.
  transitivity (sint 21 (uint 21 imm)); [|by apply sint_uint]. f_equal.
  transitivity (bits 20 1 imm * 1048576 + bits 12 8 imm * 4096
                + bits 11 1 imm * 2048 + bits 1 10 imm * 2).
  - pose proof (bits_range 20 1 imm). pose proof (bits_range 12 8 imm).
    pose proof (bits_range 11 1 imm). pose proof (bits_range 1 10 imm).
    set (b20 := bits 20 1 imm) in *. set (b12 := bits 12 8 imm) in *.
    set (b11 := bits 11 1 imm) in *. set (b1 := bits 1 10 imm) in *.
    f_equal; [f_equal; [f_equal|]|]; f_equal;
      unfold bits; shifts_to_mul; dlia.
  - unfold bits, uint. shifts_to_mul. clear - He. dlia.
Qed.
End immediates.

Lemma fields_of_upper w opc r rest :
  w = opc + r * 2 ^ 7 + rest * 2 ^ 12 ->
  0 <= opc < 128 -> 0 <= r < 32 -> 0 <= rest ->
  Decoder.opcode (extractFields w) = opc ∧ Decoder.rd (extractFields w) = r.
Proof.
  intros -> ???. rewrite extractFields_bits. simpl. unfold bits. shifts_to_mul.
  split; dlia.
Qed.

Definition is_long_srai (op : riscv.Opcode) (ops : list riscv.Operand) : bool :=
  match op, ops with
  | riscv.SRAI, [_; _; riscv.Immediate imm] => 0x420 <=? imm
  | _, _ => false
  end.

Ltac split_ops ops :=
  destruct ops as [|[]];
  try (destruct ops as [|[]]); try (destruct ops as [|[]]); try destruct ops.

(** The operand list of a legal instruction has the shape of its format. *)
Ltac legal_shape op ops :=
  unfold legal, operands_fit, shift_fits, assemble in *;
  destruct op; cbn in *; try discriminate;
  split_ops ops; cbn in *; try discriminate; bools; simplify_eq.

(** Close the side conditions of the field lemmas: field ranges. *)
Ltac field_side :=
  repeat match goal with
    | |- context [bits ?lo ?n ?x] =>
        lazymatch goal with
        | _ : 0 <= bits lo n x < _ |- _ => fail
        | _ => let H := fresh "R" in
               assert (H : 0 <= bits lo n x < 2 ^ n)
                 by (apply bits_range; lia);
               let v := eval vm_compute in (2 ^ n) in
               change (2 ^ n) with v in H
        end
    end; lia.

(** The funct7 test of an immediate shift. *)
Ltac shift_test :=
  match goal with
  | |- context [bits 5 7 ?imm =? 32] =>
      first [ replace (bits 5 7 imm =? 32) with true
                by (symmetry; apply Z.eqb_eq; unfold bits; shifts_to_mul; dlia)
            | replace (bits 5 7 imm =? 32) with false
                by (symmetry; apply Z.eqb_neq; unfold bits; shifts_to_mul; dlia) ]
  | _ => idtac
  end.

(** Decoding a U- or J-type word: only the opcode and rd fields are read. *)
Ltac upper_word opc r rest :=
  match goal with
  | |- context [extractFields ?w] =>
      let F := fresh "F" in let G := fresh "G" in
      destruct (fields_of_upper w opc r rest) as [F G];
      [shifts_to_mul; lia|field_side..|];
      unfold determineOpcode; rewrite F; cbn; rewrite G
  end.

(** Every legal instruction, long arithmetic shifts apart, decodes to itself. *)
Lemma decode_word_assemble op ops w pc :
  legal op ops = true -> is_long_srai op ops = false ->
  assemble op ops = Some w ->
  decode_word w pc = Ok (riscv.mkInstruction op ops w pc).
Proof.
  intros Hl Hs Ha. legal_shape op ops; unfold decode_word.
  all: try (apply Z.leb_gt in Hs).
  all: try (rewrite fields_of_word by field_side; cbn).
  all: shift_test; cbn; rewrite ?imm_I, ?imm_S, ?imm_B by (done || field_side).
  all: try reflexivity.
  - upper_word 0x6F value
      (bits 12 8 value0 + bits 11 1 value0 * 2 ^ 8 + bits 1 10 value0 * 2 ^ 9
       + bits 20 1 value0 * 2 ^ 19).
    rewrite imm_J by (done || field_side). done.
  - upper_word 0x37 value (bits 12 20 value0).
    rewrite imm_U by (done || field_side). done.
  - upper_word 0x17 value (bits 12 20 value0).
    rewrite imm_U by (done || field_side). done.
Qed.

(** What the opcode switch has read when it names an instruction. *)
Definition fields_name (f : DecodedFields) (op : riscv.Opcode) : Prop :=
  match encoding op with
  | None => False
  | Some (FmtU, opc, _, _) | Some (FmtJ, opc, _, _) => Decoder.opcode f = opc
  | Some (FmtSys imm, opc, _, _) =>
      Decoder.opcode f = opc ∧ funct3 f = 0 ∧ Decoder.rd f = 0 ∧ Decoder.rs1 f = 0
      ∧ Decoder.rs2 f |. u32 (funct7 f <<. 5) = imm
  | Some (_, opc, f3, _) => Decoder.opcode f = opc ∧ funct3 f = f3
  end.

Lemma determineOpcode_Ok f op : determineOpcode f = Ok op -> fields_name f op.
Proof.
  destruct f as [opc rd1 rs rs' f3 f7].
  unfold determineOpcode, unrecognized, fields_name; simpl.
  intros H. repeat (case_match; simplify_eq; try done); bools; cbn in *; simplify_eq; auto.
Qed.

Lemma determineOpcode_Err f e :
  determineOpcode f = Err e -> ∃ msg, e = DecodingError msg.
Proof.
  unfold determineOpcode, unrecognized.
  intros H. repeat (case_match; simplify_eq; eauto).
Qed.

Lemma readInstructionFromMemory_Ok data offset w :
  Forall (in_u 8) data -> 0 <= offset ->
  readInstructionFromMemory data offset = Ok w ->
  in_u 32 w ∧ take 4 (drop (Z.to_nat offset) data) = word_bytes w.
Proof.
  intros Hd Ho Hr. pose proof Hr as Hw.
  unfold readInstructionFromMemory, byte_at in Hw.
  apply bind_Ok in Hw as (b0 & H0%of_option_Ok & Hw).
  apply bind_Ok in Hw as (b1 & H1%of_option_Ok & Hw).
  apply bind_Ok in Hw as (b2 & H2%of_option_Ok & Hw).
  apply bind_Ok in Hw as (b3 & H3%of_option_Ok & _).
  replace (Z.to_nat (offset + 1)) with (S (Z.to_nat offset)) in H1 by lia.
  replace (Z.to_nat (offset + 2)) with (S (S (Z.to_nat offset))) in H2 by lia.
  replace (Z.to_nat (offset + 3)) with (S (S (S (Z.to_nat offset)))) in H3 by lia.
  assert (take 4 (drop (Z.to_nat offset) data) = [b0; b1; b2; b3]) as E.
  { erewrite drop_S, drop_S, drop_S, drop_S by eassumption. done. }
  pose proof (Forall_lookup_1 _ _ _ _ Hd H0) as R0.
  pose proof (Forall_lookup_1 _ _ _ _ Hd H1) as R1.
  pose proof (Forall_lookup_1 _ _ _ _ Hd H2) as R2.
  pose proof (Forall_lookup_1 _ _ _ _ Hd H3) as R3. simpl in *.
  rewrite (readInstructionFromMemory_bytes _ _ b0 b1 b2 b3) in Hr by done.
  simplify_eq. rewrite E. unfold in_u in *.
  clear -R0 R1 R2 R3. split; [shifts_to_mul; lia|].
  unfold word_bytes, bits. shifts_to_mul. repeat f_equal; dlia.
Qed.

Lemma decode_Ok data offset pc i :
  Forall (in_u 8) data -> 0 <= offset -> decode data offset pc = Ok i ->
  let w := riscv.rawInstruction i in
  in_u 32 w ∧ fields_name (extractFields w) (riscv.opcode i)
  ∧ extractOperands (extractFields w) (riscv.opcode i) w = Ok (riscv.operands i)
  ∧ riscv.address i = pc.
Proof.
  intros Hd Ho H. unfold decode in H.
  apply bind_Ok in H as (w & Hw & H).
  apply bind_Ok in H as (op & Hop%determineOpcode_Ok & H).
  apply bind_Ok in H as (ops & Hops & [= <-]).
  apply readInstructionFromMemory_Ok in Hw as [Hw _]; auto.
Qed.

(** The operand list, by format. *)
Definition operands_of (f : DecodedFields) (fmt : format) (raw : Z)
    : list riscv.Operand :=
  match fmt with
  | FmtR => [riscv.Register (rd f); riscv.Register (rs1 f);
             riscv.Register (rs2 f)]
  | FmtI | FmtShift _ _ =>
      [riscv.Register (rd f); riscv.Register (rs1 f);
       riscv.Immediate (extractITypeImmediate raw)]
  | FmtS => [riscv.Register (rs1 f); riscv.Register (rs2 f);
             riscv.Immediate (extractSTypeImmediate raw)]
  | FmtB => [riscv.Register (rs1 f); riscv.Register (rs2 f);
             riscv.Immediate (extractBTypeImmediate raw)]
  | FmtU => [riscv.Register (rd f); riscv.Immediate (extractUTypeImmediate raw)]
  | FmtJ => [riscv.Register (rd f); riscv.Immediate (extractJTypeImmediate raw)]
  | FmtSys _ => []
  end.

Lemma extractOperands_format f op raw ops fmt opc f3 f7 :
  encoding op = Some (fmt, opc, f3, f7) ->
  extractOperands f op raw = Ok ops -> ops = operands_of f fmt raw.
Proof. intros He Ho. destruct op; cbn in *; simplify_eq; reflexivity. Qed.

Lemma assemble_range op ops w :
  legal op ops = true -> assemble op ops = Some w -> in_u 32 w.
Proof.
  intros Hl Ha. legal_shape op ops.
  all: try (apply word_of_range; field_side).
  all: unfold in_u; shifts_to_mul; field_side.
Qed.

(** ** Properties *)

(** A long arithmetic right shift decodes as the logical shift. *)
Lemma decode_word_long_srai ops w pc :
  legal riscv.SRAI ops = true -> is_long_srai riscv.SRAI ops = true ->
  assemble riscv.SRAI ops = Some w ->
  decode_word w pc = Ok (riscv.mkInstruction riscv.SRLI ops w pc).
Proof.
  unfold legal, operands_fit, shift_fits, assemble. cbn. intros Hl Hs Ha.
  split_ops ops; cbn in *; try discriminate; bools; simplify_eq.
  unfold decode_word. rewrite fields_of_word by field_side. cbn -[Z.add].
  shift_test. cbn -[Z.add]. rewrite imm_I by (unfold in_s; lia). done.
Qed.

(** Every legal instruction decodes to itself, SRAI by 32 to 63 to SRLI. *)
Definition decoded_opcode (op : riscv.Opcode) (ops : list riscv.Operand) : riscv.Opcode :=
  if is_long_srai op ops then riscv.SRLI else op.

Lemma decode_word_legal op ops w pc :
  legal op ops = true -> assemble op ops = Some w ->
  decode_word w pc = Ok (riscv.mkInstruction (decoded_opcode op ops) ops w pc).
Proof.
  intros Hl Ha. unfold decoded_opcode. destruct (is_long_srai op ops) eqn:E.
  - assert (op = riscv.SRAI) as -> by (by destruct op). by apply decode_word_long_srai.
  - by apply decode_word_assemble.
Qed.

(** C8: decoding the bytes of a legal RV64I instruction gives the instruction
    back (opcode, operands, raw word and address), unless it is an SRAI by 32
    or more, of which only the opcode is wrong (SRLI). *)
Theorem decode_legal_roundtrip data offset pc op ops w :
  0 <= offset ->
  legal op ops = true -> assemble op ops = Some w ->
  take 4 (drop (Z.to_nat offset) data) = word_bytes w ->
  decode data offset pc = Ok (riscv.mkInstruction (decoded_opcode op ops) ops w pc)
  ∧ (decoded_opcode op ops = op ↔ is_long_srai op ops = false).
Proof.
  intros Ho Hl Ha Hd. split.
  - rewrite (decode_at _ _ w) by eauto using assemble_range. by apply decode_word_legal.
  - unfold decoded_opcode. destruct (is_long_srai op ops) eqn:E; [|done].
    split; [|done]. by intros <-.
Qed.

(** The operand extraction produces operands of the format. *)
Lemma operands_of_fit op fmt opc f3 f7 w :
  encoding op = Some (fmt, opc, f3, f7) ->
  operands_fit op (operands_of (extractFields w) fmt w) = true.
Proof.
  intros He. unfold operands_fit. rewrite He.
  assert (∀ lo, is_reg (bits lo 5 w) = true) as Hr.
  { intros lo. apply bool_decide_eq_true, bits_range. lia. }
  rewrite extractFields_bits. destruct fmt; cbn; rewrite ?Hr; cbn; try done.
  all: rewrite ?extractITypeImmediate_bits, ?extractSTypeImmediate_bits,
         ?extractBTypeImmediate_bits, ?extractUTypeImmediate_bits,
         ?extractJTypeImmediate_bits.
  all: apply bool_decide_eq_true; try (apply sint_range; lia).
  - split; [apply sint_range; lia|]. rewrite (sint_mod 13 _ 1) by lia. dlia.
  - split; [apply sint_range; lia|]. rewrite (sint_mod 32 _ 12) by lia.
    apply Z.mod_mul. lia.
  - split; [apply sint_range; lia|]. rewrite (sint_mod 21 _ 1) by lia. dlia.
Qed.

Lemma decoded_fit data offset pc i :
  Forall (in_u 8) data -> 0 <= offset -> decode data offset pc = Ok i ->
  operands_fit (riscv.opcode i) (riscv.operands i) = true.
Proof.
  intros Hd Ho H. apply decode_Ok in H as (_ & Hf & Hops & _); [|done..].
  unfold fields_name in Hf.
  destruct (encoding (riscv.opcode i)) as [[[[fmt opc] f3] f7]|] eqn:He; [|done].
  rewrite (extractOperands_format _ _ _ _ _ _ _ _ He Hops).
  by eapply operands_of_fit.
Qed.

(** C19: an instruction the decoder returns is valid, carries the address asked
    for, and its operands have the number, the kinds and the ranges of its
    format: no later [getRegister]/[getImmediate] of the format throws. *)
Theorem decode_operands_fit data offset pc i :
  Forall (in_u 8) data -> 0 <= offset -> decode data offset pc = Ok i ->
  riscv.isValid i = true ∧ riscv.address i = pc
  ∧ in_u 32 (riscv.rawInstruction i)
  ∧ operands_fit (riscv.opcode i) (riscv.operands i) = true.
Proof.
  intros Hd Ho H. pose proof (decoded_fit _ _ _ _ Hd Ho H) as Hfit.
  apply decode_Ok in H as (Hw & Hf & _ & Ha); [|done..].
  split_and!; [|done..]. apply bool_decide_eq_true. intros E.
  unfold fields_name in Hf. by rewrite E in Hf.
Qed.

Lemma word_of_fields w :
  in_u 32 w ->
  word_of (bits 0 7 w) (bits 7 5 w) (bits 12 3 w) (bits 15 5 w) (bits 20 5 w)
    (bits 25 7 w) = w.
Proof. unfold in_u, word_of, bits. intros. shifts_to_mul. dlia. Qed.

(** The fields of each format's immediate are the fields of the word. *)
Lemma field_I w :
  bits 0 5 (extractITypeImmediate w) = bits 20 5 w
  ∧ bits 5 7 (extractITypeImmediate w) = bits 25 7 w.
Proof.
  rewrite extractITypeImmediate_bits, !bits_sint by lia.
  unfold bits. shifts_to_mul. split; dlia.
Qed.

Lemma field_S w :
  bits 0 5 (extractSTypeImmediate w) = bits 7 5 w
  ∧ bits 5 7 (extractSTypeImmediate w) = bits 25 7 w.
Proof.
  rewrite extractSTypeImmediate_bits, !bits_sint by lia.
  pose proof (bits_range 7 5 w). pose proof (bits_range 25 7 w).
  generalize dependent (bits 7 5 w). generalize dependent (bits 25 7 w).
  intros. unfold bits. shifts_to_mul. split; dlia.
Qed.

Lemma field_B w :
  bits 1 4 (extractBTypeImmediate w) * 2 + bits 11 1 (extractBTypeImmediate w)
    = bits 7 5 w
  ∧ bits 12 1 (extractBTypeImmediate w) * 64 + bits 5 6 (extractBTypeImmediate w)
    = bits 25 7 w.
Proof.
  rewrite extractBTypeImmediate_bits, !bits_sint by lia.
  assert (bits 7 5 w = bits 8 4 w * 2 + bits 7 1 w) as ->
    by (unfold bits; shifts_to_mul; dlia).
  assert (bits 25 7 w = bits 31 1 w * 64 + bits 25 6 w) as ->
    by (unfold bits; shifts_to_mul; dlia).
  pose proof (bits_range 31 1 w). pose proof (bits_range 7 1 w).
  pose proof (bits_range 25 6 w). pose proof (bits_range 8 4 w).
  generalize dependent (bits 31 1 w). generalize dependent (bits 7 1 w).
  generalize dependent (bits 25 6 w). generalize dependent (bits 8 4 w).
  intros. split; f_equal; try f_equal; unfold bits; shifts_to_mul; dlia.
Qed.

Lemma field_U w : bits 12 20 (extractUTypeImmediate w) = bits 12 20 w.
Proof.
  rewrite extractUTypeImmediate_bits, !bits_sint by lia.
  pose proof (bits_range 12 20 w). generalize dependent (bits 12 20 w).
  intros. unfold bits. shifts_to_mul. dlia.
Qed.

Lemma field_J w :
  bits 12 8 (extractJTypeImmediate w) = bits 12 8 w
  ∧ bits 11 1 (extractJTypeImmediate w) = bits 20 1 w
  ∧ bits 1 10 (extractJTypeImmediate w) = bits 21 10 w
  ∧ bits 20 1 (extractJTypeImmediate w) = bits 31 1 w.
Proof.
  rewrite extractJTypeImmediate_bits, !bits_sint by lia.
  pose proof (bits_range 31 1 w). pose proof (bits_range 12 8 w).
  pose proof (bits_range 20 1 w). pose proof (bits_range 21 10 w).
  generalize dependent (bits 31 1 w). generalize dependent (bits 12 8 w).
  generalize dependent (bits 20 1 w). generalize dependent (bits 21 10 w).
  intros. unfold bits. split_and!; shifts_to_mul; dlia.
Qed.

Lemma word_of_low w opc rd f3 rs1 rs2 f7 :
  0 <= opc < 128 -> 0 <= rd < 32 -> 0 <= f3 < 8 -> 0 <= rs1 < 32 ->
  0 <= rs2 < 32 ->
  bits 0 25 (word_of opc rd f3 rs1 rs2 f7)
  = bits 0 25 (word_of opc rd f3 rs1 rs2 (bits 25 7 w)).
Proof. intros. unfold word_of, bits at 1 2. shifts_to_mul. dlia. Qed.

Lemma upper_fields w :
  in_u 32 w -> bits 0 7 w + bits 7 5 w * 2 ^ 7 + bits 12 20 w * 2 ^ 12 = w.
Proof. unfold in_u, bits. intros. shifts_to_mul. dlia. Qed.

Lemma jump_fields w :
  in_u 32 w ->
  bits 0 7 w + bits 7 5 w * 2 ^ 7 + bits 12 8 w * 2 ^ 12 + bits 20 1 w * 2 ^ 20
  + bits 21 10 w * 2 ^ 21 + bits 31 1 w * 2 ^ 31 = w.
Proof. unfold in_u, bits. intros. shifts_to_mul. dlia. Qed.

Definition checks_funct7 (op : riscv.Opcode) : bool :=
  match encoding op with Some (FmtR, _, _, _) => false | _ => true end.

(** C20: the decoder loses nothing but funct7: reassembling a decoded
    instruction gives the low 25 bits of the word it came from, and the whole
    word unless the instruction is of R-type, whose funct7 is not part of the
    result. *)
Theorem decode_reassemble data offset pc i :
  Forall (in_u 8) data -> 0 <= offset -> decode data offset pc = Ok i ->
  ∃ w, assemble (riscv.opcode i) (riscv.operands i) = Some w
       ∧ bits 0 25 w = bits 0 25 (riscv.rawInstruction i)
       ∧ (checks_funct7 (riscv.opcode i) = true -> w = riscv.rawInstruction i).
Proof.
  intros Hd Ho H. apply decode_Ok in H as (Hw & Hf & Hops & _); [|done..].
  destruct i as [op ops w a]; cbn [riscv.opcode riscv.operands
    riscv.rawInstruction riscv.address] in *.
  unfold fields_name in Hf. unfold checks_funct7, assemble.
  destruct (encoding op) as [[[[fmt opc] f3] f7]|] eqn:He; [|done].
  rewrite (extractOperands_format _ _ _ _ _ _ _ _ He Hops).
  rewrite extractFields_bits in *.
  destruct (field_I w) as [HI1 HI2]. destruct (field_S w) as [HS1 HS2].
  destruct (field_B w) as [HB1 HB2]. pose proof (field_U w) as HU.
  destruct (field_J w) as (HJ1 & HJ2 & HJ3 & HJ4).
  pose proof (word_of_fields w Hw) as E.
  destruct fmt; cbn [operands_of option_bind mbind Decoder.opcode Decoder.rd Decoder.rs1
    Decoder.rs2 funct3 funct7] in *;
    eexists; (split; [reflexivity|]); rewrite ?HI1, ?HI2, ?HS1, ?HS2, ?HB1, ?HB2,
      ?HU, ?HJ1, ?HJ2, ?HJ3, ?HJ4.
  1: destruct Hf as [<- <-]; rewrite (word_of_low w), E by (apply bits_range; lia); done.
  1-4: destruct Hf as [<- <-]; by rewrite E.
  1-2: subst opc; match goal with
    | |- bits 0 25 ?x = _ ∧ _ => replace x with w 
        by (symmetry; first [by apply upper_fields | by apply jump_fields]) end;
    done.
  destruct Hf as (Hf & Hf3 & Hrd & Hrs & Hf7).
  match goal with |- bits 0 25 ?x = _ ∧ _ => replace x with w; [done|] end.
  rewrite <- E, Hf, Hf3, Hrd, Hrs. unfold word_of.
  pose proof (bits_range 20 5 w). pose proof (bits_range 25 7 w).
  rewrite (uint_mul_small 32 7), (lor_add_lo 5) in Hf7 by (shifts_to_mul; dlia).
  rewrite <- Hf7. shifts_to_mul. lia.
Qed.

Lemma decode_in_bounds data offset pc :
  0 <= offset -> offset + 4 <= Z.of_nat (length data) ->
  (∃ i, decode data offset pc = Ok i)
  ∨ (∃ msg, decode data offset pc = Err (DecodingError msg)).
Proof.
  intros Ho Hl. unfold decode.
  destruct (readInstructionFromMemory data offset) as [w|e] eqn:Hr.
  - cbn. destruct (determineOpcode _) as [op|e] eqn:Hop.
    + left. apply determineOpcode_Ok in Hop. unfold fields_name in Hop.
      cbn. destruct op; cbn; eauto. done.
    + right. apply determineOpcode_Err in Hop as [msg ->]. cbn. eauto.
  - exfalso. unfold readInstructionFromMemory, byte_at in Hr.
    repeat match type of Hr with context [data !! ?i] =>
      destruct (lookup_lt_is_Some_2 data i) as [? E]; [lia|];
      rewrite E in Hr; cbn in Hr; clear E end. done.
Qed.

Lemma decode_out_of_bounds data offset pc :
  0 <= offset -> Z.of_nat (length data) < offset + 4 ->
  ∃ why, decode data offset pc = Err (undefined_behaviour why).
Proof.
  intros Ho Hl. unfold decode.
  destruct (readInstructionFromMemory data offset) as [w|e] eqn:Hr.
  - exfalso. unfold readInstructionFromMemory in Hr.
    repeat (apply bind_Ok in Hr as (? & ?%of_option_Ok & Hr)).
    match goal with H : data !! Z.to_nat (offset + 3) = Some _ |- _ =>
      apply lookup_lt_Some in H end. lia.
  - cbn. unfold readInstructionFromMemory, byte_at in Hr.
    repeat match type of Hr with context [data !! ?i] =>
      destruct (data !! i); cbn in Hr end; simplify_eq; eauto.
Qed.

(** C18: with a whole word left in the section, decoding returns an instruction
    or throws [DecodingError] and nothing else; with fewer than four bytes
    left the code reads past the end of the section. *)
Theorem decode_outcome data offset pc :
  0 <= offset ->
  if bool_decide (offset + 4 <= Z.of_nat (length data))
  then (∃ i, decode data offset pc = Ok i)
       ∨ (∃ msg, decode data offset pc = Err (DecodingError msg))
  else ∃ why, decode data offset pc = Err (undefined_behaviour why).
Proof.
  intros Ho. case_bool_decide.
  - by apply decode_in_bounds.
  - apply decode_out_of_bounds; lia.
Qed.

(** C34: (defect) an arithmetic right shift by 32 to 63, which RV64I encodes with
    funct7 = 0x21, decodes as the logical shift SRLI. *)
Theorem decode_long_srai data offset pc r1 r2 shamt w :
  0 <= offset -> 0 <= r1 < 32 -> 0 <= r2 < 32 -> 32 <= shamt < 64 ->
  let ops := [riscv.Register r1; riscv.Register r2;
              riscv.Immediate (0x400 + shamt)] in
  assemble riscv.SRAI ops = Some w ->
  take 4 (drop (Z.to_nat offset) data) = word_bytes w ->
  legal riscv.SRAI ops = true
  ∧ decode data offset pc = Ok (riscv.mkInstruction riscv.SRLI ops w pc).
Proof.
  intros Ho H1 H2 Hs ops Ha Hd.
  assert (legal riscv.SRAI ops = true) as Hl.
  { unfold legal, operands_fit, shift_fits, ops, is_reg; cbn -[Z.add].
    rewrite !bool_decide_eq_true_2; unfold in_s; lia. }
  split; [done|].
  rewrite (decode_at _ _ w) by eauto using assemble_range.
  apply decode_word_long_srai; [done| |done]. apply Z.leb_le. lia.
Qed.

(** The funct3 and funct7 of the register-register instructions. *)
Lemma determineOpcode_funct7 op opc f3 f7 rd rs1 rs2 :
  encoding op = Some (FmtR, opc, f3, 0) ->
  (∀ op', encoding op' ≠ Some (FmtR, opc, f3, f7)) ->
  determineOpcode (mkFields opc rd rs1 rs2 f3 f7) = Ok op.
Proof.
  intros He Hf. unfold determineOpcode.
  destruct op; simplify_eq/=; try done.
  all: destruct (Z.eqb_spec f7 32) as [->|]; try done.
  all: exfalso; first [by apply (Hf riscv.SUB) | by apply (Hf riscv.SRA)
                      | by apply (Hf riscv.SUBW) | by apply (Hf riscv.SRAW)].
Qed.

(** C40: (defect) the decoder accepts any funct7 for the register-register
    opcodes (0x33 and 0x3B): a word that is no RV64I instruction, one of the M
    extension say, decodes as the base instruction with the same funct3 (a
    multiplication as ADD). *)
Theorem decode_ignores_funct7 data offset pc op opc f3 r1 r2 r3 f7 :
  0 <= offset -> 0 <= r1 < 32 -> 0 <= r2 < 32 -> 0 <= r3 < 32 -> 0 <= f7 < 128 ->
  encoding op = Some (FmtR, opc, f3, 0) ->
  (∀ op', encoding op' ≠ Some (FmtR, opc, f3, f7)) ->
  let w := word_of opc r1 f3 r2 r3 f7 in
  take 4 (drop (Z.to_nat offset) data) = word_bytes w ->
  decode data offset pc =
    Ok (riscv.mkInstruction op
          [riscv.Register r1; riscv.Register r2; riscv.Register r3] w pc).
Proof.
  intros Ho H1 H2 H3 H7 He Hf w Hd.
  assert (0 <= opc < 128 ∧ 0 <= f3 < 8) as [Hop Hf3]
    by (destruct op; simplify_eq/=; lia).
  rewrite (decode_at _ _ w) by (done || apply word_of_range; lia).
  unfold decode_word, w. rewrite fields_of_word by lia. cbn [mbind result_bind].
  erewrite determineOpcode_funct7 by eauto. by destruct op; simplify_eq/=.
Qed.

(** ** Witnesses *)

(** [addi x1, x0, -5] at offset 4 of an eight-byte section. *)
Definition sample_text : list Z := [0x13; 0; 0; 0; 0x93; 0; 0xb0; 0xff].

Lemma decode_legal_roundtrip_witness :
  decode sample_text 4 0x1004 =
    Ok (riscv.mkInstruction riscv.ADDI
          [riscv.Register 1; riscv.Register 0; riscv.Immediate (-5)]
          0xffb00093 0x1004).
Proof.
  apply (decode_legal_roundtrip sample_text 4 0x1004 riscv.ADDI
           [riscv.Register 1; riscv.Register 0; riscv.Immediate (-5)] 0xffb00093);
    vm_compute; congruence.
Defined.

Lemma decode_operands_fit_witness :
  ∃ i, decode sample_text 4 0x1004 = Ok i
       ∧ operands_fit (riscv.opcode i) (riscv.operands i) = true.
Proof.
  eexists; split; [vm_compute; reflexivity|].
  apply (decode_operands_fit sample_text 4 0x1004); [|lia|vm_compute; reflexivity].
  repeat constructor; vm_compute; congruence.
Defined.

Lemma decode_reassemble_witness :
  ∃ i w, decode sample_text 4 0x1004 = Ok i
         ∧ assemble (riscv.opcode i) (riscv.operands i) = Some w
         ∧ w = 0xffb00093.
Proof.
  destruct (decode_reassemble sample_text 4 0x1004
              (riscv.mkInstruction riscv.ADDI
                 [riscv.Register 1; riscv.Register 0; riscv.Immediate (-5)]
                 0xffb00093 0x1004)) as (w & Hw & _ & E);
    [repeat constructor; vm_compute; congruence|lia|vm_compute; reflexivity|].
  eexists _, w. split; [vm_compute; reflexivity|]. split; [exact Hw|].
  apply E. reflexivity.
Defined.

Lemma decode_outcome_witness :
  ∃ why, decode sample_text 6 0x1006 = Err (undefined_behaviour why).
Proof. apply (decode_outcome sample_text 6 0x1006). lia. Defined.

(** [srai x1, x2, 40]. *)
Lemma decode_long_srai_witness :
  decode (word_bytes 0x42815093) 0 0 =
    Ok (riscv.mkInstruction riscv.SRLI
          [riscv.Register 1; riscv.Register 2; riscv.Immediate 0x428]
          0x42815093 0).
Proof.
  apply (decode_long_srai (word_bytes 0x42815093) 0 0 1 2 40 0x42815093);
    try lia; vm_compute; reflexivity.
Defined.

(** [mul x3, x1, x2] and [mulw x3, x1, x2]. *)
Lemma decode_ignores_funct7_witness :
  decode (word_bytes (word_of 0x33 3 0 1 2 1)) 0 0 =
    Ok (riscv.mkInstruction riscv.ADD
          [riscv.Register 3; riscv.Register 1; riscv.Register 2]
          (word_of 0x33 3 0 1 2 1) 0)
  ∧ decode (word_bytes (word_of 0x3B 3 0 1 2 1)) 0 0 =
    Ok (riscv.mkInstruction riscv.ADDW
          [riscv.Register 3; riscv.Register 1; riscv.Register 2]
          (word_of 0x3B 3 0 1 2 1) 0).
Proof.
  split.
  - apply (decode_ignores_funct7 _ 0 0 riscv.ADD 0x33 0 3 1 2 1);
      try lia; try (by intros []); vm_compute; reflexivity.
  - apply (decode_ignores_funct7 _ 0 0 riscv.ADDW 0x3B 0 3 1 2 1);
      try lia; try (by intros []); vm_compute; reflexivity.
Defined.
