(* ===== verification/IR.v ===== *)
(** * The intermediate representation (lib/IR/IR.h, IR.cpp)

    The block-local SSA form between the lifter and the instruction selector,
    and its printer.  A [ValueId] is a [uint64_t]; the payload of [Const] is an
    [int64_t]. *)
From S2P Require Import Prelude Error.

Module ir.

Inductive Type_ := i1 | i8 | i16 | i32 | i64.

Abbreviation ValueId := Z (only parsing).

Inductive BinaryOpcode :=
  (* Arithmetic *)
  | Add | Sub | Mul | Div | DivU | Rem | RemU
  (* Bitwise *)
  | And | Or | Xor | Shl | Shr | Sar
  (* Comparison *)
  | Eq | Ne | Lt | Le | Gt | Ge | LtU | LeU | GtU | GeU.

(** [std::variant<Const, BinaryOp, Sext, Zext, Trunc, Load, Store, RegRead,
    RegWrite>] *)
Inductive InstructionKind :=
  | Const (type : Type_) (value : Z)
  | BinaryOp (opcode : BinaryOpcode) (type : Type_) (lhs rhs : ValueId)
  | Sext (toType : Type_) (operand : ValueId)
  | Zext (toType : Type_) (operand : ValueId)
  | Trunc (toType : Type_) (operand : ValueId)
  | Load (type : Type_) (address : ValueId)
  | Store (value : ValueId) (address : ValueId)
  | RegRead (regNumber : Z)
  | RegWrite (regNumber : Z) (value : ValueId).

Record Instruction := mkInstruction {
  valueId : ValueId;
  kind : InstructionKind;
}.

(** [std::variant<Branch, CondBranch, Return>] *)
Inductive Terminator :=
  | Branch (targetBlock : Z)
  | CondBranch (condition : ValueId) (trueBlock falseBlock : Z)
  | Return (value : option ValueId).

Record BasicBlock := mkBasicBlock {
  instructions : list Instruction;
  terminator : Terminator;
}.

#[global] Instance Type_eq_dec : EqDecision Type_.
Proof. solve_decision. Defined.
#[global] Instance BinaryOpcode_eq_dec : EqDecision BinaryOpcode.
Proof. solve_decision. Defined.
#[global] Instance InstructionKind_eq_dec : EqDecision InstructionKind.
Proof. solve_decision. Defined.
#[global] Instance Instruction_eq_dec : EqDecision Instruction.
Proof. solve_decision. Defined.
#[global] Instance Terminator_eq_dec : EqDecision Terminator.
Proof. solve_decision. Defined.

(** ** Printing *)

Definition binaryOpcodeToString (op : BinaryOpcode) : string :=
  match op with
  | Add => "add" | Sub => "sub" | Mul => "mul" | Div => "div" | DivU => "divu"
  | Rem => "rem" | RemU => "remu" | And => "and" | Or => "or" | Xor => "xor"
  | Shl => "shl" | Shr => "shr" | Sar => "sar" | Eq => "eq" | Ne => "ne"
  | Lt => "lt" | Le => "le" | Gt => "gt" | Ge => "ge" | LtU => "ltu"
  | LeU => "leu" | GtU => "gtu" | GeU => "geu"
  end.

Definition typeToString (type : Type_) : string :=
  match type with
  | i1 => "i1" | i8 => "i8" | i16 => "i16" | i32 => "i32" | i64 => "i64"
  end.

(** Store and RegWrite instructions don't produce values. *)
Definition produces_value (k : InstructionKind) : bool :=
  match k with Store _ _ | RegWrite _ _ => false | _ => true end.

Definition instructionToString (inst : Instruction) : string :=
  (if produces_value (kind inst)
   then "%" +:+ to_string (valueId inst) +:+ " = " else "")
  +:+
  match kind inst with
  | Const t v => typeToString t +:+ " " +:+ to_string v
  | BinaryOp op t l r =>
      binaryOpcodeToString op +:+ " " +:+ typeToString t +:+ " %"
      +:+ to_string l +:+ ", %" +:+ to_string r
  | Sext t v => "sext to " +:+ typeToString t +:+ " %" +:+ to_string v
  | Zext t v => "zext to " +:+ typeToString t +:+ " %" +:+ to_string v
  | Trunc t v => "trunc to " +:+ typeToString t +:+ " %" +:+ to_string v
  | Load t a => "load " +:+ typeToString t +:+ " %" +:+ to_string a
  | Store v a => "store %" +:+ to_string v +:+ ", %" +:+ to_string a
  | RegRead r => "regread x" +:+ to_string r
  | RegWrite r v => "regwrite x" +:+ to_string r +:+ ", %" +:+ to_string v
  end.

Definition terminatorToString (t : Terminator) : string :=
  match t with
  | Branch b => "br bb" +:+ to_string b
  | CondBranch c t f =>
      "condbr %" +:+ to_string c +:+ ", bb" +:+ to_string t +:+ ", bb"
      +:+ to_string f
  | Return (Some v) => "ret %" +:+ to_string v
  | Return None => "ret"
  end.

Definition newline : string := String (Ascii.ascii_of_nat 10) "".

Definition blockToString (b : BasicBlock) : string :=
  "BasicBlock:" +:+ newline
  +:+ String.concat ""
        ((λ i, "  " +:+ instructionToString i +:+ newline) <$> instructions b)
  +:+ "  " +:+ terminatorToString (terminator b) +:+ newline.

#[global] Instance binaryOpcodeToString_inj : Inj (=) (=) binaryOpcodeToString.
Proof. intros x y; destruct x, y; vm_compute; congruence. Qed.
#[global] Instance typeToString_inj : Inj (=) (=) typeToString.
Proof. intros x y; destruct x, y; vm_compute; congruence. Qed.

End ir.
