(* ===== verification/Lifter.v ===== *)
(** * The lifter (lib/Lifter.h, Lifter.cpp)

    [Lifter::liftBasicBlock] turns the decoded instructions of one basic block
    into IR.  The object's members are the record [t]; its member functions are
    computations in the state-and-error monad of Error.v.

    [finalizeRegisterWrites] iterates over a [std::unordered_set], whose order
    the C++ standard leaves unspecified: the order is the parameter [iterate]
    of the definitions, known only to enumerate the set. *)
From S2P Require Import Prelude Error Riscv IR.

Module Lifter.

Definition REG_ZERO : Z := 0.
Definition REG_RA : Z := 1.
(** [~1ULL], an [uint64_t]; as the [int64_t] argument of [createConstant], -2. *)
Definition JALR_ALIGN_MASK : Z := 2 ^ 64 - 2.

Record t := mkLifter {
  nextValueId : Z;
  cachedRegisterValues : gmap Z Z;
  modifiedRegisters : gset Z;
  currentInstructions : list ir.Instruction;
}.

Abbreviation M := (stateM t).

(** [Lifter::Lifter() : nextValueId(1) {}] *)
Definition new : t := mkLifter 1 ∅ ∅ [].

Definition addInstruction (kind : ir.InstructionKind) : M Z :=
  s ← get;
  let valueId := nextValueId s in
  modify (λ s, mkLifter (u64 (valueId + 1)) (cachedRegisterValues s)
                 (modifiedRegisters s)
                 (currentInstructions s ++ [ir.mkInstruction valueId kind])) ;;
  mret valueId.

Definition createConstant (type : ir.Type_) (value : Z) : M Z :=
  addInstruction (ir.Const type value).
Definition createBinaryOp (op : ir.BinaryOpcode) (type : ir.Type_)
    (lhs rhs : Z) : M Z :=
  addInstruction (ir.BinaryOp op type lhs rhs).
Definition createLoad (type : ir.Type_) (address : Z) : M Z :=
  addInstruction (ir.Load type address).
Definition createStore (value address : Z) : M Z :=
  addInstruction (ir.Store value address).
Definition createSext (toType : ir.Type_) (operand : Z) : M Z :=
  addInstruction (ir.Sext toType operand).
Definition createZext (toType : ir.Type_) (operand : Z) : M Z :=
  addInstruction (ir.Zext toType operand).
Definition createTrunc (toType : ir.Type_) (operand : Z) : M Z :=
  addInstruction (ir.Trunc toType operand).

Definition setCached (regNum valueId : Z) : M unit :=
  modify (λ s, mkLifter (nextValueId s)
                 (<[regNum := valueId]> (cachedRegisterValues s))
                 (modifiedRegisters s) (currentInstructions s)).

Definition getRegisterValue (regNum : Z) : M Z :=
  if regNum =? REG_ZERO then createConstant ir.i64 0
  else
    s ← get;
    match cachedRegisterValues s !! regNum with
    | Some valueId => mret valueId
    | None =>
        valueId ← addInstruction (ir.RegRead regNum);
        setCached regNum valueId ;;
        mret valueId
    end.

Definition setRegisterValue (regNum valueId : Z) : M unit :=
  if negb (regNum =? REG_ZERO) then
    setCached regNum valueId ;;
    modify (λ s, mkLifter (nextValueId s) (cachedRegisterValues s)
                   ({[regNum]} ∪ modifiedRegisters s) (currentInstructions s))
  else mret tt.

(** [inst.getRegister(i)] and [inst.getImmediate(i)] inside the lifter. *)
Definition reg (inst : riscv.Instruction) (i : nat) : M Z :=
  lift (riscv.getRegister inst i).
Definition imm (inst : riscv.Instruction) (i : nat) : M Z :=
  lift (riscv.getImmediate inst i).

Definition liftRTypeBinaryOp (inst : riscv.Instruction) (op : ir.BinaryOpcode)
    (type : ir.Type_) : M unit :=
  r1 ← reg inst 1; rs1 ← getRegisterValue r1;
  r2 ← reg inst 2; rs2 ← getRegisterValue r2;
  result ← createBinaryOp op type rs1 rs2;
  rd ← reg inst 0; setRegisterValue rd result.

Definition liftITypeBinaryOp (inst : riscv.Instruction) (op : ir.BinaryOpcode)
    (type : ir.Type_) : M unit :=
  r1 ← reg inst 1; rs1 ← getRegisterValue r1;
  i ← imm inst 2; immv ← createConstant type i;
  result ← createBinaryOp op type rs1 immv;
  rd ← reg inst 0; setRegisterValue rd result.

Definition liftWTypeBinaryOp (inst : riscv.Instruction) (op : ir.BinaryOpcode)
    : M unit :=
  r1 ← reg inst 1; rs1 ← getRegisterValue r1;
  r2 ← reg inst 2; rs2 ← getRegisterValue r2;
  rs1_trunc ← createTrunc ir.i32 rs1;
  rs2_trunc ← createTrunc ir.i32 rs2;
  result_32 ← createBinaryOp op ir.i32 rs1_trunc rs2_trunc;
  result ← createSext ir.i64 result_32;
  rd ← reg inst 0; setRegisterValue rd result.

Definition liftWTypeImmOp (inst : riscv.Instruction) (op : ir.BinaryOpcode)
    : M unit :=
  r1 ← reg inst 1; rs1 ← getRegisterValue r1;
  i ← imm inst 2; immv ← createConstant ir.i32 i;
  rs1_trunc ← createTrunc ir.i32 rs1;
  result_32 ← createBinaryOp op ir.i32 rs1_trunc immv;
  result ← createSext ir.i64 result_32;
  rd ← reg inst 0; setRegisterValue rd result.

Definition liftLoadInstruction (inst : riscv.Instruction) (loadType : ir.Type_)
    (signExtend : bool) : M unit :=
  r1 ← reg inst 1; rs1 ← getRegisterValue r1;
  i ← imm inst 2; immv ← createConstant ir.i64 i;
  addr ← createBinaryOp ir.Add ir.i64 rs1 immv;
  loaded ← createLoad loadType addr;
  result ← (if bool_decide (loadType ≠ ir.i64)
            then if signExtend then createSext ir.i64 loaded
                 else createZext ir.i64 loaded
            else mret loaded);
  rd ← reg inst 0; setRegisterValue rd result.

Definition liftStoreInstruction (inst : riscv.Instruction)
    (storeType : ir.Type_) : M unit :=
  r0 ← reg inst 0; rs1 ← getRegisterValue r0; (* base address *)
  r1 ← reg inst 1; rs2 ← getRegisterValue r1; (* value to store *)
  i ← imm inst 2; immv ← createConstant ir.i64 i; (* offset *)
  addr ← createBinaryOp ir.Add ir.i64 rs1 immv;
  val ← (if bool_decide (storeType ≠ ir.i64) then createTrunc storeType rs2
         else mret rs2);
  createStore val addr ;;
  mret tt.

Definition unsupported {A} (inst : riscv.Instruction) : M A :=
  throw (UnsupportedInstructionError
           ("Unsupported RISC-V instruction: " +:+ riscv.toString inst)).

(** [inst.getImmediate(1) << 12] on [int64_t].  C++17 leaves the shift of a
    negative value undefined; this is what C++20 defines it to be, and what
    compilers for the target do. *)
Definition shl12 (v : Z) : Z := i64 (v <<. 12).

Definition liftSingleInstruction (inst : riscv.Instruction) : M unit :=
  match riscv.opcode inst with
  (* Arithmetic instructions *)
  | riscv.ADD => liftRTypeBinaryOp inst ir.Add ir.i64
  | riscv.ADDI => liftITypeBinaryOp inst ir.Add ir.i64
  | riscv.SUB => liftRTypeBinaryOp inst ir.Sub ir.i64
  | riscv.ADDW => liftWTypeBinaryOp inst ir.Add
  | riscv.ADDIW => liftWTypeImmOp inst ir.Add
  (* Bitwise operations *)
  | riscv.AND => liftRTypeBinaryOp inst ir.And ir.i64
  | riscv.ANDI => liftITypeBinaryOp inst ir.And ir.i64
  | riscv.OR => liftRTypeBinaryOp inst ir.Or ir.i64
  | riscv.ORI => liftITypeBinaryOp inst ir.Or ir.i64
  | riscv.XOR => liftRTypeBinaryOp inst ir.Xor ir.i64
  | riscv.XORI => liftITypeBinaryOp inst ir.Xor ir.i64
  (* Shift operations *)
  | riscv.SLL => liftRTypeBinaryOp inst ir.Shl ir.i64
  | riscv.SLLI => liftITypeBinaryOp inst ir.Shl ir.i64
  | riscv.SRL => liftRTypeBinaryOp inst ir.Shr ir.i64
  | riscv.SRLI => liftITypeBinaryOp inst ir.Shr ir.i64
  | riscv.SRA => liftRTypeBinaryOp inst ir.Sar ir.i64
  | riscv.SRAI => liftITypeBinaryOp inst ir.Sar ir.i64
  | riscv.SLLIW => liftWTypeImmOp inst ir.Shl
  (* Comparison instructions *)
  | riscv.SLT => liftRTypeBinaryOp inst ir.Lt ir.i64
  | riscv.SLTU => liftRTypeBinaryOp inst ir.LtU ir.i64
  | riscv.SLTI => liftITypeBinaryOp inst ir.Lt ir.i64
  | riscv.SLTIU => liftITypeBinaryOp inst ir.LtU ir.i64
  (* Load instructions *)
  | riscv.LB => liftLoadInstruction inst ir.i8 true
  | riscv.LH => liftLoadInstruction inst ir.i16 true
  | riscv.LD => liftLoadInstruction inst ir.i64 false
  | riscv.LW => liftLoadInstruction inst ir.i32 true
  | riscv.LWU => liftLoadInstruction inst ir.i32 false
  (* Store instructions *)
  | riscv.SD => liftStoreInstruction inst ir.i64
  | riscv.SW => liftStoreInstruction inst ir.i32
  (* Upper immediate instructions *)
  | riscv.LUI =>
      i ← imm inst 1; immv ← createConstant ir.i64 (shl12 i);
      rd ← reg inst 0; setRegisterValue rd immv
  | riscv.AUIPC =>
      pc ← createConstant ir.i64 (i64 (riscv.address inst));
      i ← imm inst 1; immv ← createConstant ir.i64 (shl12 i);
      result ← createBinaryOp ir.Add ir.i64 pc immv;
      rd ← reg inst 0; setRegisterValue rd result
  | _ => unsupported inst
  end.

Definition isTerminator (inst : riscv.Instruction) : bool :=
  match riscv.opcode inst with
  | riscv.BEQ | riscv.BNE | riscv.BLT | riscv.BGE | riscv.BLTU | riscv.BGEU
  | riscv.JAL | riscv.JALR => true
  | _ => false
  end.

Definition createConditionalBranch (compareOp : ir.BinaryOpcode)
    (inst : riscv.Instruction) (fallThroughAddress : Z) : M ir.Terminator :=
  r0 ← reg inst 0; rs1 ← getRegisterValue r0;
  r1 ← reg inst 1; rs2 ← getRegisterValue r1;
  condition ← createBinaryOp compareOp ir.i1 rs1 rs2;
  i ← imm inst 2;
  let target := u64 (riscv.address inst + i) in
  mret (ir.CondBranch condition target fallThroughAddress).

(** Is this a RET instruction (jalr x0, x1, 0)?  [&&] short-circuits. *)
Definition isRet (inst : riscv.Instruction) : M bool :=
  rd ← reg inst 0;
  if rd =? REG_ZERO then
    r1 ← reg inst 1;
    if r1 =? REG_RA then i ← imm inst 2; mret (i =? 0) else mret false
  else mret false.

Definition liftTerminator (inst : riscv.Instruction) (fallThroughAddress : Z)
    : M ir.Terminator :=
  match riscv.opcode inst with
  (* Conditional branches *)
  | riscv.BEQ => createConditionalBranch ir.Eq inst fallThroughAddress
  | riscv.BNE => createConditionalBranch ir.Ne inst fallThroughAddress
  | riscv.BLT => createConditionalBranch ir.Lt inst fallThroughAddress
  | riscv.BGE => createConditionalBranch ir.Ge inst fallThroughAddress
  | riscv.BLTU => createConditionalBranch ir.LtU inst fallThroughAddress
  | riscv.BGEU => createConditionalBranch ir.GeU inst fallThroughAddress
  (* Unconditional jumps *)
  | riscv.JAL =>
      returnAddr ← createConstant ir.i64 (i64 (riscv.address inst + 4));
      rd ← reg inst 0; setRegisterValue rd returnAddr ;;
      i ← imm inst 1;
      let target := u64 (riscv.address inst + i) in
      mret (ir.Branch target)
  | riscv.JALR =>
      isRet ← isRet inst;
      if (isRet : bool) then mret (ir.Return None)
      else
        r1 ← reg inst 1; rs1Value ← getRegisterValue r1;
        i ← imm inst 2; immValue ← createConstant ir.i64 i;
        targetAddr ← createBinaryOp ir.Add ir.i64 rs1Value immValue;
        mask ← createConstant ir.i64 (i64 JALR_ALIGN_MASK);
        alignedTarget ← createBinaryOp ir.And ir.i64 targetAddr mask;
        rd ← reg inst 0;
        (if negb (rd =? REG_ZERO) then
           returnAddr ← createConstant ir.i64 (i64 (riscv.address inst + 4));
           setRegisterValue rd returnAddr
         else mret tt) ;;
        mret (ir.Return (Some alignedTarget))
  | _ => unsupported inst
  end.

Section block.
(** Iteration order of [std::unordered_set<uint32_t>]. *)
Context (iterate : gset Z → list Z).

(** The loop over [modifiedRegisters]; [cachedRegisterValues[regNum]] inserts
    a zero for a missing key. *)
Fixpoint writeBack (regs : list Z) : M unit :=
  match regs with
  | [] => mret tt
  | regNum :: regs =>
      s ← get;
      finalValue ←
        match cachedRegisterValues s !! regNum with
        | Some v => mret v
        | None => setCached regNum 0 ;; mret 0
        end;
      addInstruction (ir.RegWrite regNum finalValue) ;;
      writeBack regs
  end.

Definition finalizeRegisterWrites : M unit :=
  s ← get;
  writeBack (iterate (modifiedRegisters s)).

(** The loop of [liftBasicBlock]: the terminator it leaves in the block, if
    it reached one. *)
Fixpoint liftLoop (insts : list riscv.Instruction) : M (option ir.Terminator) :=
  match insts with
  | [] => mret None
  | inst :: rest =>
      if isTerminator inst then
        finalizeRegisterWrites ;;
        let fallThroughAddress :=
          match rest with
          | next :: _ => riscv.address next
          | [] => u64 (riscv.address inst + 4)
          end in
        term ← liftTerminator inst fallThroughAddress;
        mret (Some term)
      else
        liftSingleInstruction inst ;;
        liftLoop rest
  end.

(** [ir::BasicBlock block;] leaves the terminator variant at its first
    alternative, a [Branch] whose target is never read: the loop or the code
    after it always assigns the terminator. *)
Definition liftBasicBlock (insts : list riscv.Instruction) : M ir.BasicBlock :=
  modify (λ s, mkLifter (nextValueId s) ∅ ∅ []) ;;
  term ← liftLoop insts;
  term ←
    match last insts with
    | Some back =>
        if negb (isTerminator back) then
          finalizeRegisterWrites ;;
          mret (ir.Branch (u64 (riscv.address back + 4)))
        else mret (default (ir.Branch 0) term)
    | None =>
        finalizeRegisterWrites ;;
        mret (ir.Branch 0)
    end;
  s ← get;
  mret (ir.mkBasicBlock (currentInstructions s) term).
End block.

End Lifter.
