(* ===== verification/Machine.v ===== *)
(** * The guest machine state (reference)

    The architectural state the semantics of RISC-V instructions and of IR
    blocks act on: the integer registers and the byte-addressed memory.  It is
    the abstract view of [GuestState] (lib/GuestState.h) and of the shadow
    memory: registers hold 64-bit values, [x0] reads as zero, memory is
    little-endian and addresses wrap at 2^64. *)
From S2P Require Import Prelude.

Module machine.

Abbreviation regs := (gmap Z Z).
Abbreviation mem := (gmap Z Z).

(** The register cell [r], an [uint64_t]. *)
Definition rd (R : regs) (r : Z) : Z := u64 (default 0 (R !! r)).
Definition wr (R : regs) (r v : Z) : regs := <[r := v]> R.

(** Reading and writing as instructions do: [x0] is hard-wired to zero. *)
Definition xget (R : regs) (r : Z) : Z := if r =? 0 then 0 else rd R r.
Definition xset (R : regs) (r v : Z) : regs := if r =? 0 then R else wr R r v.

Definition load_byte (m : mem) (a : Z) : Z := u8 (default 0 (m !! u64 a)).

Fixpoint load (n : nat) (m : mem) (a : Z) : Z :=
  match n with
  | O => 0
  | S n => load_byte m a + 2 ^ 8 * load n m (a + 1)
  end.

Fixpoint store (n : nat) (m : mem) (a v : Z) : mem :=
  match n with
  | O => m
  | S n => store n (<[u64 a := u8 v]> m) (a + 1) (v / 2 ^ 8)
  end.

(** Which addresses are mapped; an access to another one has no meaning. *)
Definition accessible (mapped : Z → bool) (n : nat) (a : Z) : bool :=
  forallb (λ k, mapped (u64 (a + k))) (seqZ 0 (Z.of_nat n)).

Definition everywhere (_ : Z) : bool := true.

(** Operations on 64-bit words, given as their unsigned values. *)
Definition b2z (b : bool) : Z := if b then 1 else 0.

Definition slt (a b : Z) : Z := b2z (i64 a <? i64 b).
Definition sltu (a b : Z) : Z := b2z (a <? b).

(** ** Ranges *)

Lemma rd_range R r : in_u 64 (rd R r).
Proof. by apply uint_range. Qed.

Lemma xget_range R r : in_u 64 (xget R r).
Proof. unfold xget. destruct (r =? 0); [by unfold in_u|apply rd_range]. Qed.

Lemma b2z_range b w : 0 < w -> in_u w (b2z b).
Proof.
  intros. pose proof (pow2_half w). unfold in_u. destruct b; simpl; lia.
Qed.

Lemma load_range n m a : in_u (8 * Z.of_nat n) (load n m a).
Proof.
  revert a. induction n as [|n IH]; intros a; simpl; [by unfold in_u|].
  pose proof (uint_range 8 (default 0 (m !! u64 a)) ltac:(lia)) as Hb.
  specialize (IH (a + 1)). unfold in_u, load_byte in *.
  replace (8 * Z.of_nat (S n)) with (8 + 8 * Z.of_nat n) by lia.
  rewrite Z.pow_add_r by lia.
  assert (0 < 2 ^ (8 * Z.of_nat n)) by (apply Z.pow_pos_nonneg; lia). nia.
Qed.

(** ** Mapped addresses *)

Lemma accessible_spec mapped n a :
  accessible mapped n a = true ↔ ∀ k, 0 <= k < Z.of_nat n -> mapped (u64 (a + k)) = true.
Proof.
  unfold accessible. rewrite List.forallb_forall.
  setoid_rewrite <- list_elem_of_In. setoid_rewrite elem_of_seqZ. naive_solver lia.
Qed.

Lemma accessible_everywhere n a : accessible everywhere n a = true.
Proof. by apply accessible_spec. Qed.

(** ** Register accesses *)

Lemma rd_wr_eq R r v : in_u 64 v -> rd (wr R r v) r = v.
Proof. intros. unfold rd, wr. rewrite lookup_insert_eq. by apply uint_small. Qed.

Lemma rd_wr_ne R r r' v : r ≠ r' -> rd (wr R r v) r' = rd R r'.
Proof. intros. unfold rd, wr. by rewrite lookup_insert_ne. Qed.

Lemma xset_0 R v : xset R 0 v = R.
Proof. done. Qed.

(** ** Memory: a load returns what a store of the same width wrote. *)

Lemma store_lookup_other n m a v b :
  (∀ k, 0 <= k < Z.of_nat n -> u64 (a + k) ≠ b) -> store n m a v !! b = m !! b.
Proof.
  revert m a v. induction n as [|n IH]; intros m a v Hne; simpl; [done|].
  rewrite IH.
  - rewrite lookup_insert_ne; [done|]. rewrite <- (Z.add_0_r a). apply Hne. lia.
  - intros k Hk. replace (a + 1 + k) with (a + (k + 1)) by lia. apply Hne. lia.
Qed.

Lemma u64_add_inj a j k :
  0 <= j < 2 ^ 64 -> 0 <= k < 2 ^ 64 -> u64 (a + j) = u64 (a + k) -> j = k.
Proof.
  unfold uint. intros ?? E.
  assert ((j - k) mod 2 ^ 64 = 0) as E'.
  { replace (j - k) with (a + j - (a + k)) by lia.
    by rewrite Zminus_mod, E, Z.sub_diag. }
  apply Z.mod_divide in E' as [q Hq]; [|lia]. nia.
Qed.

Lemma load_store n m a v :
  Z.of_nat n < 2 ^ 64 ->
  load n (store n m a v) a = uint (8 * Z.of_nat n) v.
Proof.
  revert m a v. induction n as [|n IH]; intros m a v Hn.
  - simpl. unfold uint. by rewrite Z.mod_1_r.
  - cbn [load store]. rewrite IH by lia. unfold load_byte.
    rewrite store_lookup_other.
    2:{ intros k Hk E.
        assert (1 + k = 0); [|lia]. apply (u64_add_inj a); [lia..|].
        by rewrite Z.add_0_r, Z.add_assoc. }
    rewrite lookup_insert_eq. simpl. unfold uint. rewrite Zmod_mod.
    replace (8 * Z.of_nat (S n)) with (8 + 8 * Z.of_nat n) by lia.
    by rewrite Z.pow_add_r, Z.rem_mul_r by lia.
Qed.

(** A store only reads the low bytes of its value. *)
Lemma store_uint n m a v : store n m a (uint (8 * Z.of_nat n) v) = store n m a v.
Proof.
  revert m a v. induction n as [|n IH]; intros m a v; [done|]. cbn [store].
  replace (8 * Z.of_nat (S n)) with (8 + 8 * Z.of_nat n) by lia.
  assert (uint (8 + 8 * Z.of_nat n) v
          = v mod 2 ^ 8 + 2 ^ 8 * ((v / 2 ^ 8) mod 2 ^ (8 * Z.of_nat n))) as ->
    by (unfold uint; by rewrite Z.pow_add_r, Z.rem_mul_r by lia).
  assert (u8 (v mod 2 ^ 8 + 2 ^ 8 * ((v / 2 ^ 8) mod 2 ^ (8 * Z.of_nat n))) = u8 v)
    as ->.
  { unfold uint. rewrite Z.mul_comm, Z.mod_add by lia. apply Zmod_mod. }
  rewrite Z.mul_comm, Z.div_add by lia.
  rewrite (Z.div_small (v mod 2 ^ 8)) by (apply Z.mod_pos_bound; lia).
  rewrite Z.add_0_l. apply IH.
Qed.

#[global] Arguments load : simpl never.
#[global] Arguments store : simpl never.

End machine.
