(* ===== verification/IRSemantics.v ===== *)
(** * Semantics of the intermediate representation (reference)

    What an IR block means, independently of the ARM64 code selected for it:
    an SSA environment of typed values, the guest registers and the memory.
    Shift amounts are taken modulo the width, as RISC-V and ARM64 both do.
    Operations no pass of the repository gives a meaning to (division and
    remainder, arithmetic on types narrower than 32 bits) are undefined. *)
From S2P Require Import Prelude Error IR Machine.

Module irsem.
Import machine.

Definition width (t : ir.Type_) : Z :=
  match t with
  | ir.i1 => 1 | ir.i8 => 8 | ir.i16 => 16 | ir.i32 => 32 | ir.i64 => 64
  end.

(** Bytes a value of the type occupies in memory. *)
Definition bytes (t : ir.Type_) : nat :=
  match t with
  | ir.i1 | ir.i8 => 1 | ir.i16 => 2 | ir.i32 => 4 | ir.i64 => 8
  end.

Abbreviation env := (gmap Z (ir.Type_ * Z)).

Record state := mkState { venv : env; vregs : regs; vmem : mem }.

(** Arithmetic on [w]-bit operands. *)
Definition arith (op : ir.BinaryOpcode) (w a b : Z) : option Z :=
  match op with
  | ir.Add => Some (uint w (a + b))
  | ir.Sub => Some (uint w (a - b))
  | ir.Mul => Some (uint w (a * b))
  | ir.And => Some (uint w (a &. b))
  | ir.Or => Some (uint w (a |. b))
  | ir.Xor => Some (uint w (Z.lxor a b))
  | ir.Shl => Some (uint w (a <<. (b mod w)))
  | ir.Shr => Some (uint w a >>. (b mod w))
  | ir.Sar => Some (uint w (sint w a >>. (b mod w)))
  | _ => None
  end.

(** Comparisons, on the 64-bit values of the operands. *)
Definition compare (op : ir.BinaryOpcode) (a b : Z) : option bool :=
  match op with
  | ir.Eq => Some (a =? b)
  | ir.Ne => Some (negb (a =? b))
  | ir.Lt => Some (i64 a <? i64 b)
  | ir.Le => Some (i64 a <=? i64 b)
  | ir.Gt => Some (i64 b <? i64 a)
  | ir.Ge => Some (i64 b <=? i64 a)
  | ir.LtU => Some (a <? b)
  | ir.LeU => Some (a <=? b)
  | ir.GtU => Some (b <? a)
  | ir.GeU => Some (b <=? a)
  | _ => None
  end.

Definition binop (op : ir.BinaryOpcode) (t : ir.Type_) (a b : Z) : option Z :=
  match compare op a b with
  | Some c => Some (b2z c)
  | None =>
      match t with
      | ir.i32 | ir.i64 => arith op (width t) a b
      | _ => None
      end
  end.

(** The type the operands of an operation have: comparisons compare 64-bit
    values, arithmetic has the type of its result. *)
Definition operand_type (op : ir.BinaryOpcode) (t : ir.Type_) : ir.Type_ :=
  match compare op 0 0 with Some _ => ir.i64 | None => t end.

Section sem.
Context (mapped : Z → bool).

(** The value an instruction defines.  Operands of the wrong type, and accesses
    outside the mapped memory, have no meaning. *)
Definition eval (k : ir.InstructionKind) (E : env) (R : regs) (m : mem)
    : option (ir.Type_ * Z) :=
  match k with
  | ir.Const t v => Some (t, uint (width t) v)
  | ir.BinaryOp op t l r =>
      '(ta, a) ← E !! l; '(tb, b) ← E !! r;
      ensure (bool_decide (ta = operand_type op t ∧ tb = operand_type op t)) ;;
      v ← binop op t a b; Some (t, v)
  | ir.Sext t v =>
      '(ft, a) ← E !! v;
      ensure (bool_decide (1 < width ft < width t)) ;;
      Some (t, uint (width t) (sint (width ft) a))
  | ir.Zext t v =>
      '(ft, a) ← E !! v;
      ensure (bool_decide (width ft < width t)) ;;
      Some (t, uint (width t) a)
  | ir.Trunc t v =>
      '(ft, a) ← E !! v;
      ensure (bool_decide (1 < width t < width ft)) ;;
      Some (t, uint (width t) a)
  | ir.Load t a =>
      '(ta, a) ← E !! a;
      ensure (bool_decide (ta = ir.i64) && accessible mapped (bytes t) a) ;;
      Some (t, uint (width t) (load (bytes t) m a))
  | ir.RegRead r => Some (ir.i64, rd R r)
  | ir.Store _ _ | ir.RegWrite _ _ => None
  end.

Definition step (i : ir.Instruction) (s : state) : option state :=
  match ir.kind i with
  | ir.Store v a =>
      '(t, v) ← venv s !! v; '(ta, a) ← venv s !! a;
      ensure (bool_decide (ta = ir.i64) && accessible mapped (bytes t) a) ;;
      Some (mkState (venv s) (vregs s) (store (bytes t) (vmem s) a v))
  | ir.RegWrite r v =>
      '(tv, v) ← venv s !! v;
      ensure (bool_decide (tv = ir.i64)) ;;
      Some (mkState (venv s) (wr (vregs s) r v) (vmem s))
  | k =>
      tv ← eval k (venv s) (vregs s) (vmem s);
      Some (mkState (<[ir.valueId i := tv]> (venv s)) (vregs s) (vmem s))
  end.

Fixpoint run (l : list ir.Instruction) (s : state) : option state :=
  match l with
  | [] => Some s
  | i :: l => s ← step i s; run l s
  end.

(** The next program counter; zero stops the dispatcher. *)
Definition next_pc (t : ir.Terminator) (E : env) : option Z :=
  match t with
  | ir.Branch b => Some b
  | ir.CondBranch c t f =>
      '(tc, c) ← E !! c;
      ensure (bool_decide (tc = ir.i1)) ;;
      Some (if c =? 0 then f else t)
  | ir.Return (Some v) =>
      '(tv, v) ← E !! v;
      ensure (bool_decide (tv = ir.i64)) ;;
      Some v
  | ir.Return None => Some 0
  end.

(** A block maps registers and memory to registers, memory and next PC. *)
Definition run_block (b : ir.BasicBlock) (R : regs) (m : mem)
    : option (regs * mem * Z) :=
  s ← run (ir.instructions b) (mkState ∅ R m);
  pc ← next_pc (ir.terminator b) (venv s);
  Some (vregs s, vmem s, pc).

(** ** Sequencing *)

Lemma run_app l1 l2 s : run (l1 ++ l2) s = run l1 s ≫= run l2.
Proof.
  revert s. induction l1 as [|i l1 IH]; intros s; simpl; [done|].
  destruct (step i s); simpl; [apply IH|done].
Qed.

Lemma run_snoc l i s s' :
  run l s = Some s' -> run (l ++ [i]) s = step i s'.
Proof. intros H. rewrite run_app, H. simpl. by destruct (step i s'). Qed.

(** ** Instructions the back end can translate

    Constants in the range of their type that one move sequence of the type's
    register width loads, register numbers of the register file. *)
Definition in_form (k : ir.InstructionKind) : bool :=
  match k with
  | ir.Const t v =>
      bool_decide (in_s 64 v)
      && (bool_decide (t = ir.i64)
          || bool_decide (t ≠ ir.i1 ∧ -65536 <= v < 2 ^ 32))
  | ir.RegRead r | ir.RegWrite r _ => bool_decide (0 <= r < 32)
  | ir.Load t _ => bool_decide (t ≠ ir.i1)
  | _ => true
  end.

(** Operations the encoder gets right, or does not refuse: no exclusive or,
    logical shift right, division or remainder, and no zero extension. *)
Definition plain_kind (k : ir.InstructionKind) : bool :=
  match k with
  | ir.BinaryOp op _ _ _ =>
      bool_decide (op ∉ [ir.Xor; ir.Shr; ir.Div; ir.DivU; ir.Rem; ir.RemU])
  | ir.Zext _ _ => false
  | _ => true
  end.

(** ** Type soundness: a value lies in the range of its type. *)

Definition well_typed (E : env) : Prop :=
  ∀ v t x, E !! v = Some (t, x) -> in_u (width t) x.

Lemma width_pos t : 0 < width t.
Proof. by destruct t. Qed.

Lemma arith_range op w a b x : 0 < w -> arith op w a b = Some x -> in_u w x.
Proof.
  intros Hw H. destruct op; simplify_eq/=; try (apply uint_range; lia).
  pose proof (uint_range w a ltac:(lia)) as [Ha1 Ha2].
  pose proof (Z.mod_pos_bound b w Hw). unfold in_u.
  rewrite Z.shiftr_div_pow2 by lia.
  assert (0 < 2 ^ (b mod w)) by (apply Z.pow_pos_nonneg; lia).
  split; [apply Z.div_pos; lia|].
  apply Z.div_lt_upper_bound; nia.
Qed.

Lemma binop_range op t a b x : binop op t a b = Some x -> in_u (width t) x.
Proof.
  unfold binop. destruct (compare op a b) as [c|].
  - intros [= <-]. apply b2z_range, width_pos.
  - destruct t; try done; intros H; by eapply arith_range in H.
Qed.

Lemma eval_range k E R m t x : eval k E R m = Some (t, x) -> in_u (width t) x.
Proof.
  intros H. pose proof (λ t, Z.lt_le_incl _ _ (width_pos t)).
  destruct k; simpl in H; try done;
    repeat (apply bind_Some in H as ([? ?] & ? & H));
    try apply ensure_Some in H as [_ H]; simplify_eq;
    try (by apply uint_range).
  apply bind_Some in H as (? & ?%binop_range & ?). by simplify_eq.
Qed.

End sem.
End irsem.
