(* ===== verification/RiscvSemantics.v ===== *)
(** * Semantics of RV64I instructions (reference)

    The effect of the non-system RV64I instructions on registers, memory and
    program counter, after the RISC-V unprivileged specification, on the operand
    lists of [riscv::Instruction].  It is the specification the lifter of
    lib/Lifter.cpp is compared with.

    The repository has two conventions for the immediate of LUI and AUIPC: the
    decoder delivers the value to add, a multiple of 4096 ([upper_value], the
    convention of RiscvEncoding.v), the lifter and its unit tests expect the
    20-bit field ([upper_field]).  The semantics takes the convention as a
    parameter, and so does it the set of mapped addresses: a load or store that
    touches another address has no meaning. *)
From S2P Require Import Prelude Error Riscv Machine.

Module rvsem.
Import machine.

Record state := mkState { vregs : regs; vmem : mem }.

(** 64-bit register-register operations, on unsigned values. *)
Definition alu (op : riscv.Opcode) (a b : Z) : option Z :=
  match op with
  | riscv.ADD | riscv.ADDI => Some (u64 (a + b))
  | riscv.SUB => Some (u64 (a - b))
  | riscv.AND | riscv.ANDI => Some (u64 (a &. b))
  | riscv.OR | riscv.ORI => Some (u64 (a |. b))
  | riscv.XOR | riscv.XORI => Some (u64 (Z.lxor a b))
  | riscv.SLL | riscv.SLLI => Some (u64 (a <<. (b mod 64)))
  | riscv.SRL | riscv.SRLI => Some (u64 a >>. (b mod 64))
  | riscv.SRA | riscv.SRAI => Some (u64 (i64 a >>. (b mod 64)))
  | riscv.SLT | riscv.SLTI => Some (slt a b)
  | riscv.SLTU | riscv.SLTIU => Some (sltu a b)
  | _ => None
  end.

(** 32-bit operations: on the low words, the result sign-extended. *)
Definition sext32 (v : Z) : Z := u64 (i32 v).

Definition aluw (op : riscv.Opcode) (a b : Z) : option Z :=
  match op with
  | riscv.ADDW | riscv.ADDIW => Some (sext32 (a + b))
  | riscv.SUBW => Some (sext32 (a - b))
  | riscv.SLLW | riscv.SLLIW => Some (sext32 (a <<. (b mod 32)))
  | riscv.SRLW | riscv.SRLIW => Some (sext32 (u32 a >>. (b mod 32)))
  | riscv.SRAW | riscv.SRAIW => Some (sext32 (i32 a >>. (b mod 32)))
  | _ => None
  end.

(** Loads: bytes read and signedness. *)
Definition load_kind (op : riscv.Opcode) : option (nat * bool) :=
  match op with
  | riscv.LB => Some (1%nat, true) | riscv.LBU => Some (1%nat, false)
  | riscv.LH => Some (2%nat, true) | riscv.LHU => Some (2%nat, false)
  | riscv.LW => Some (4%nat, true) | riscv.LWU => Some (4%nat, false)
  | riscv.LD => Some (8%nat, true)
  | _ => None
  end.

Definition store_kind (op : riscv.Opcode) : option nat :=
  match op with
  | riscv.SB => Some 1%nat | riscv.SH => Some 2%nat
  | riscv.SW => Some 4%nat | riscv.SD => Some 8%nat
  | _ => None
  end.

Definition extend (n : nat) (sgn : bool) (v : Z) : Z :=
  if sgn then u64 (sint (8 * Z.of_nat n) v) else v.

(** What the immediate operand of LUI and AUIPC adds. *)
Definition upper_value (imm : Z) : Z := imm.
Definition upper_field (imm : Z) : Z := imm * 2 ^ 12.

Section exec.
Context (upper : Z → Z) (mapped : Z → bool).

(** A non-control-transfer instruction. *)
Definition exec (i : riscv.Instruction) (s : state) : option state :=
let x r := xget (vregs s) r in
let set r v := Some (mkState (xset (vregs s) r v) (vmem s)) in
match riscv.operands i with
| [riscv.Register rd; riscv.Register rs1; riscv.Register rs2] =>
    match alu (riscv.opcode i) (x rs1) (x rs2) with
    | Some v => set rd v
    | None => v ← aluw (riscv.opcode i) (x rs1) (x rs2); set rd v
    end
| [riscv.Register r0; riscv.Register r1; riscv.Immediate imm] =>
    match load_kind (riscv.opcode i), store_kind (riscv.opcode i) with
    | Some (n, sgn), _ =>
        ensure (accessible mapped n (u64 (x r1 + imm))) ;;
        set r0 (extend n sgn (load n (vmem s) (u64 (x r1 + imm))))
    | _, Some n =>
        ensure (accessible mapped n (u64 (x r0 + imm))) ;;
        Some (mkState (vregs s) (store n (vmem s) (u64 (x r0 + imm)) (x r1)))
    | None, None =>
        match alu (riscv.opcode i) (x r1) (u64 imm) with
        | Some v => set r0 v
        | None => v ← aluw (riscv.opcode i) (x r1) (u64 imm); set r0 v
        end
    end
| [riscv.Register rd; riscv.Immediate imm] =>
    match riscv.opcode i with
    | riscv.LUI => set rd (u64 (upper imm))
    | riscv.AUIPC => set rd (u64 (riscv.address i + upper imm))
    | _ => None
    end
| _ => None
end.

Fixpoint execs (l : list riscv.Instruction) (s : state) : option state :=
match l with
| [] => Some s
| i :: l => s ← exec i s; execs l s
end.

End exec.

(** Branch conditions. *)
Definition taken (op : riscv.Opcode) (a b : Z) : option bool :=
  match op with
  | riscv.BEQ => Some (a =? b)
  | riscv.BNE => Some (negb (a =? b))
  | riscv.BLT => Some (i64 a <? i64 b)
  | riscv.BGE => Some (i64 b <=? i64 a)
  | riscv.BLTU => Some (a <? b)
  | riscv.BGEU => Some (b <=? a)
  | _ => None
  end.

(** The address control goes to, and the registers with the return address a
    jump leaves in its link register. *)
Definition target (i : riscv.Instruction) (s : state) : option Z :=
  match riscv.opcode i, riscv.operands i with
  | riscv.JAL, [riscv.Register _; riscv.Immediate imm] =>
      Some (u64 (riscv.address i + imm))
  | riscv.JALR, [riscv.Register _; riscv.Register rs1; riscv.Immediate imm] =>
      Some (u64 (xget (vregs s) rs1 + imm) &. (2 ^ 64 - 2))
  | op, [riscv.Register rs1; riscv.Register rs2; riscv.Immediate imm] =>
      c ← taken op (xget (vregs s) rs1) (xget (vregs s) rs2);
      Some (if (c : bool) then u64 (riscv.address i + imm)
            else u64 (riscv.address i + 4))
  | _, _ => None
  end.

Definition linked (i : riscv.Instruction) (R : regs) : regs :=
  match riscv.opcode i, riscv.operands i with
  | (riscv.JAL | riscv.JALR), riscv.Register rd :: _ =>
      xset R rd (u64 (riscv.address i + 4))
  | _, _ => R
  end.

Definition transfers (i : riscv.Instruction) : bool :=
  match riscv.opcode i with
  | riscv.BEQ | riscv.BNE | riscv.BLT | riscv.BGE | riscv.BLTU | riscv.BGEU
  | riscv.JAL | riscv.JALR => true
  | _ => false
  end.

(** A basic block: straight-line instructions, the last of which may transfer
    control; the registers, memory and program counter it leaves. *)
Fixpoint block (upper : Z → Z) (mapped : Z → bool) (l : list riscv.Instruction) (s : state)
    : option (regs * mem * Z) :=
  match l with
  | [] => None
  | i :: [] =>
      if transfers i then
        pc ← target i s; Some (linked i (vregs s), vmem s, pc)
      else
        s ← exec upper mapped i s; Some (vregs s, vmem s, u64 (riscv.address i + 4))
  | i :: l => s ← exec upper mapped i s; block upper mapped l s
  end.

End rvsem.
