(* ===== verification/LifterCorrect.v ===== *)
(** * Correctness of the lifter

    The IR block [Lifter.liftBasicBlock] builds computes what the RISC-V
    instructions it was given compute (RiscvSemantics.v, IRSemantics.v).  The
    invariant [inv] ties the lifter's members to the state a RISC-V machine
    has reached: the instructions emitted so far run, every cached value is
    the register's current value, and registers that were not modified still
    hold what they held at block entry. *)
From S2P Require Import Prelude Error Riscv RiscvEncoding IR Machine.
From S2P Require Import IRSemantics RiscvSemantics.
From S2P Require Import Lifter.
Import machine Lifter.

Definition push (kind : ir.InstructionKind) (s : Lifter.t) : Lifter.t :=
  mkLifter (u64 (nextValueId s + 1)) (cachedRegisterValues s)
    (modifiedRegisters s)
    (currentInstructions s ++ [ir.mkInstruction (nextValueId s) kind]).

Lemma run_addInstruction kind s :
  addInstruction kind s = (Ok (nextValueId s), push kind s).
Proof. reflexivity. Qed.

(** Opcodes [liftSingleInstruction] has a case for. *)
Definition supported (op : riscv.Opcode) : bool :=
  match op with
  | riscv.SUBW | riscv.SLLW | riscv.SRLW | riscv.SRAW | riscv.SRLIW
  | riscv.SRAIW | riscv.LBU | riscv.LHU | riscv.SB | riscv.SH
  | riscv.ECALL | riscv.EBREAK | riscv.INVALID
  | riscv.BEQ | riscv.BNE | riscv.BLT | riscv.BGE | riscv.BLTU | riscv.BGEU
  | riscv.JAL | riscv.JALR => false
  | _ => true
  end.

(** Words: the 32-bit operations only read the low words. *)
Lemma sext32_uint x : rvsem.sext32 (u32 x) = rvsem.sext32 x.
Proof. unfold rvsem.sext32. by rewrite sint_of_uint. Qed.

Lemma u32_u64 x : u32 (u64 x) = u32 x.
Proof. unfold uint. by apply (mod_mod_pow2 x 32 64). Qed.

Lemma sext32_add a b : rvsem.sext32 (u32 (u32 a + u32 b)) = rvsem.sext32 (a + b).
Proof. by rewrite sext32_uint, <- sext32_uint, uint_add_l, uint_add_r, sext32_uint. Qed.

Lemma sext32_shl a k :
  rvsem.sext32 (u32 (u32 a <<. (u32 k mod 32)))
  = rvsem.sext32 (a <<. (u64 k mod 32)).
Proof.
  assert (u32 k mod 32 = k mod 32) as -> by (by apply (mod_mod_pow2 k 5 32)).
  assert (u64 k mod 32 = k mod 32) as -> by (by apply (mod_mod_pow2 k 5 64)).
  pose proof (Z.mod_pos_bound k 32).
  by rewrite uint_shiftl, sext32_uint by lia.
Qed.

Lemma u64_shl12 v : u64 (shl12 v) = u64 (rvsem.upper_field v).
Proof.
  unfold shl12, rvsem.upper_field. by rewrite uint_sint, Z.shiftl_mul_pow2 by lia.
Qed.

Lemma uint_land_small w x m : 0 <= w -> in_u w m -> uint w (x &. m) = x &. m.
Proof.
  intros Hw Hm. unfold uint. rewrite <- (Z.land_ones (x &. m)) by done.
  by rewrite <- Z.land_assoc, (Z.land_ones m), Z.mod_small by done.
Qed.

(** The operand list is one the format of the opcode allows. *)
Ltac operand_shape H :=
  unfold isa.operands_fit in H; simpl in H;
  repeat match type of H with
    | context [match ?l with [] => _ | _ :: _ => _ end] => destruct l; try discriminate H
    | context [match ?o with riscv.Register _ => _ | riscv.Immediate _ => _ end] =>
        destruct o; try discriminate H
    end.

(** ** The invariant *)

Section lifter.
(** The first value id is [first].  The block starts in [R0], [M0]; the register file the emitted code has
    left behind so far is [P]: [R0] until the write-back, then the registers
    of the machine. *)
Context (mapped : Z → bool) (first : Z) (R0 : regs) (M0 : mem) (P : regs).

Record inv (s : Lifter.t) (E : irsem.env) (R : regs) (M : mem) : Prop := {
  inv_run : irsem.run mapped (currentInstructions s) (irsem.mkState ∅ R0 M0)
            = Some (irsem.mkState E P M);
  inv_pos : 0 <= nextValueId s;
  inv_form : Forall (λ i, irsem.in_form (ir.kind i) = true) (currentInstructions s);
  inv_ids : 0 <= first <= nextValueId s
            ∧ map ir.valueId (currentInstructions s) = seqZ first (nextValueId s - first);
  inv_fresh : ∀ v, is_Some (E !! v) -> v < nextValueId s;
  inv_typed : irsem.well_typed E;
  inv_cached : ∀ r v, cachedRegisterValues s !! r = Some v ->
                      r ≠ 0 ∧ E !! v = Some (ir.i64, rd R r);
  inv_clean : ∀ r, r ∉ modifiedRegisters s -> R !! r = P !! r;
  inv_mod : ∀ r, r ∈ modifiedRegisters s ->
                 is_Some (cachedRegisterValues s !! r)
                 ∧ R !! r = Some (rd R r) ∧ 0 <= r < 32;
}.

(** [triple E k R M m R' M' Q]: from any lifter state that satisfies the
    invariant for [R], [M] and knows the values in [E], the computation [m]
    succeeds, uses at most [k] fresh value ids and modified registers, keeps the values it knew and
    leaves the invariant for [R'], [M'] and the postcondition [Q]. *)
Definition budget (s : Lifter.t) : Z :=
  nextValueId s + Z.of_nat (size (modifiedRegisters s)).

Definition triple {A} (E : irsem.env) (k : nat) (R : regs) (M : mem) (m : Lifter.M A)
    (R' : regs) (M' : mem) (Q : A -> irsem.env -> Prop) : Prop :=
  ∀ s E1, E ⊆ E1 -> inv s E1 R M -> budget s + Z.of_nat k < 2 ^ 64 ->
  ∃ a s' E', m s = (Ok a, s') ∧ E1 ⊆ E' ∧ inv s' E' R' M'
             ∧ budget s <= budget s' <= budget s + Z.of_nat k ∧ Q a E'.

Lemma triple_ret {A} E R M (a : A) (Q : A -> irsem.env -> Prop) :
  (∀ E', E ⊆ E' -> Q a E') -> triple E 0 R M (mret a) R M Q.
Proof.
  intros HQ s E1 HE Hi Hk. exists a, s, E1. split_and!; auto; lia.
Qed.

Lemma triple_bind {A B} E k1 k2 R M R1 M1 R2 M2 (m : Lifter.M A) (f : A -> Lifter.M B) Q1 Q2 :
  triple E k1 R M m R1 M1 Q1 ->
  (∀ a E1, E ⊆ E1 -> Q1 a E1 -> triple E1 k2 R1 M1 (f a) R2 M2 Q2) ->
  triple E (k1 + k2)%nat R M (m ≫= f) R2 M2 Q2.
Proof.
  intros Hm Hf s E1 HE Hi Hk.
  destruct (Hm s E1) as (a & s1 & E2 & Hs1 & HE2 & Hi1 & Hn1 & HQ); auto; [lia|].
  destruct (Hf a E2 ltac:(by etrans) HQ s1 E2) as (b & s2 & E3 & Hs2 & HE3 & Hi2 & Hn2 & HQ2);
    auto; [lia|].
  exists b, s2, E3. rewrite run_bind, Hs1. split_and!; auto; try lia. by etrans.
Qed.

Lemma triple_weaken {A} E k k' R M R' M' (m : Lifter.M A) (Q Q' : A -> irsem.env -> Prop) :
  triple E k R M m R' M' Q -> (k <= k')%nat -> (∀ a E, Q a E -> Q' a E) ->
  triple E k' R M m R' M' Q'.
Proof.
  intros Hm Hk HQ s E1 HE Hi Hk1.
  destruct (Hm s E1) as (a & s' & E' & ? & ? & ? & ? & ?); auto; [lia|].
  exists a, s', E'. split_and!; auto; lia.
Qed.

(** The value [v] of the lifted code is [x], of type [t]. *)
Definition is_val (t : ir.Type_) (x : Z) (v : Z) (E : irsem.env) : Prop :=
  E !! v = Some (t, x).

Lemma is_val_mono t x v E E' : is_val t x v E -> E ⊆ E' -> is_val t x v E'.
Proof. unfold is_val. intros. by eapply lookup_weaken. Qed.

(** Emitting an instruction that defines a value. *)
(** Emitting an instruction keeps the ids consecutive. *)
Lemma ids_push kind s :
  nextValueId s + 1 < 2 ^ 64 ->
  0 <= first <= nextValueId s
  ∧ map ir.valueId (currentInstructions s) = seqZ first (nextValueId s - first) ->
  0 <= first <= nextValueId (push kind s)
  ∧ map ir.valueId (currentInstructions (push kind s))
    = seqZ first (nextValueId (push kind s) - first).
Proof.
  intros Hn [Hf Hids]. unfold push. simpl. rewrite uint_small by (unfold in_u; lia).
  split; [lia|]. rewrite map_app, Hids. simpl.
  replace (nextValueId s + 1 - first) with (nextValueId s - first + 1) by lia.
  rewrite seqZ_app by lia. f_equal. rewrite seqZ_cons by lia. simpl. f_equal. lia.
Qed.

Lemma triple_add E R M kind t x :
  irsem.in_form kind = true ->
  (∀ E', E ⊆ E' -> irsem.eval mapped kind E' P M = Some (t, x)) ->
  triple E 1 R M (addInstruction kind) R M (is_val t x).
Proof.
  intros Hform He s E1 HE Hi Hk. specialize (He _ HE).
  assert (E1 !! nextValueId s = None) as Hfr.
  { destruct (E1 !! nextValueId s) eqn:Hl; [|done].
    pose proof (inv_fresh _ _ _ _ Hi (nextValueId s) ltac:(by eexists)). lia. }
  pose proof (inv_pos _ _ _ _ Hi).
  assert (nextValueId s + 1 < 2 ^ 64) as Hn by (unfold budget in Hk; lia).
  pose proof (ids_push kind s Hn (inv_ids _ _ _ _ Hi)) as Hids.
  rewrite run_addInstruction.
  exists (nextValueId s), (push kind s), (<[nextValueId s := (t, x)]> E1).
  split; [reflexivity|]. split; [by apply insert_subseteq|]. unfold budget, push in *. simpl in *.
  rewrite uint_small in * by (unfold in_u; lia).
  split; [|split; [lia|by unfold is_val; rewrite lookup_insert_eq]].
  split; simpl; try lia; try by apply Hi.
  - erewrite irsem.run_snoc by apply Hi.
    unfold irsem.step; cbn [ir.kind ir.valueId irsem.venv irsem.vregs irsem.vmem].
    destruct kind; try discriminate He; by rewrite He.
  - apply Forall_app_2; [apply Hi|by constructor].
  - exact Hids.
  - intros v [y Hv]. apply lookup_insert_Some in Hv as [[<- _]|[_ Hv]]; [lia|].
    pose proof (inv_fresh _ _ _ _ Hi v ltac:(by eexists)). lia.
  - intros v t' x' Hv. apply lookup_insert_Some in Hv as [[_ [= <- <-]]|[_ Hv]].
    + by eapply irsem.eval_range.
    + by eapply Hi.
  - intros r v Hv. apply Hi in Hv as [? Hv]. split; [done|].
    rewrite lookup_insert_ne; [done|]. intros <-. congruence.
Qed.
Lemma triple_const E R M t v :
  irsem.in_form (ir.Const t v) = true ->
  triple E 1 R M (createConstant t v) R M (is_val t (uint (irsem.width t) v)).
Proof. intros. by apply triple_add. Qed.

Lemma triple_binop E R M op t t1 t2 l r a b x :
  is_val t1 a l E -> is_val t2 b r E ->
  t1 = irsem.operand_type op t -> t2 = irsem.operand_type op t ->
  irsem.binop op t a b = Some x ->
  triple E 1 R M (createBinaryOp op t l r) R M (is_val t x).
Proof.
  intros Hl Hr Ht1 Ht2 Hx. apply triple_add; [done|]. intros E' HE.
  pose proof (is_val_mono _ _ _ _ _ Hl HE) as Hl'.
  pose proof (is_val_mono _ _ _ _ _ Hr HE) as Hr'.
  unfold is_val in *. simpl. rewrite Hl', Hr'. simpl.
  rewrite bool_decide_eq_true_2 by done. simpl. by rewrite Hx.
Qed.

Lemma triple_unop E R M kind c t x ft v a :
  irsem.in_form kind = true ->
  (∀ E', irsem.eval mapped kind E' P M
         = '(ft, a) ← E' !! v; ensure (c ft a) ;; Some (t, x ft a)) ->
  is_val ft a v E -> c ft a = true ->
  triple E 1 R M (addInstruction kind) R M (is_val t (x ft a)).
Proof.
  intros Hform Hg Hv Hc. apply triple_add; [done|]. intros E' HE. rewrite Hg.
  pose proof (is_val_mono _ _ _ _ _ Hv HE) as Hv'. unfold is_val in Hv'.
  rewrite Hv'. simpl. by rewrite Hc.
Qed.

Lemma triple_sext E R M t ft v a :
  is_val ft a v E -> 1 < irsem.width ft < irsem.width t ->
  triple E 1 R M (createSext t v) R M
    (is_val t (uint (irsem.width t) (sint (irsem.width ft) a))).
Proof.
  intros Hv Hw. eapply (triple_unop _ _ _ _ _ _
    (λ ft a, uint (irsem.width t) (sint (irsem.width ft) a)) ft v a);
    [done|reflexivity|done|by apply bool_decide_eq_true_2].
Qed.

Lemma triple_zext E R M t ft v a :
  is_val ft a v E -> irsem.width ft < irsem.width t ->
  triple E 1 R M (createZext t v) R M (is_val t (uint (irsem.width t) a)).
Proof.
  intros Hv Hw. eapply (triple_unop _ _ _ _ _ _ (λ _ a, uint (irsem.width t) a) ft v a);
    [done|reflexivity|done|by apply bool_decide_eq_true_2].
Qed.

Lemma triple_trunc E R M t ft v a :
  is_val ft a v E -> 1 < irsem.width t < irsem.width ft ->
  triple E 1 R M (createTrunc t v) R M (is_val t (uint (irsem.width t) a)).
Proof.
  intros Hv Hw. eapply (triple_unop _ _ _ _ _ _ (λ _ a, uint (irsem.width t) a) ft v a);
    [done|reflexivity|done|by apply bool_decide_eq_true_2].
Qed.

Lemma triple_load E R M t v a :
  is_val ir.i64 a v E -> t ≠ ir.i1 -> accessible mapped (irsem.bytes t) a = true ->
  triple E 1 R M (createLoad t v) R M
    (is_val t (uint (irsem.width t) (load (irsem.bytes t) M a))).
Proof.
  intros Hv Ht Ha. eapply (triple_unop _ _ _ _ _ _
    (λ _ a, uint (irsem.width t) (load (irsem.bytes t) M a)) ir.i64 v a);
    [by apply bool_decide_eq_true_2|reflexivity|done|done].
Qed.

Lemma triple_store E R M t v a x y :
  is_val t x v E -> is_val ir.i64 y a E -> accessible mapped (irsem.bytes t) y = true ->
  triple E 1 R M (createStore v a) R (store (irsem.bytes t) M y x)
    (λ _ _, True).
Proof.
  intros Hv Ha Hacc s E1 HE Hi Hk. unfold createStore. rewrite run_addInstruction.
  pose proof (is_val_mono _ _ _ _ _ Hv HE) as Hv'.
  pose proof (is_val_mono _ _ _ _ _ Ha HE) as Ha'. unfold is_val in *.
  pose proof (inv_pos _ _ _ _ Hi).
  assert (nextValueId s + 1 < 2 ^ 64) as Hn by (unfold budget in Hk; lia).
  pose proof (ids_push (ir.Store v a) s Hn (inv_ids _ _ _ _ Hi)) as Hids.
  exists (nextValueId s), (push (ir.Store v a) s), E1. split_and!; try done.
  - unfold budget, push in *. simpl in *. rewrite uint_small in * by (unfold in_u; lia).
    split; simpl; try lia; try apply Hi; [| |exact Hids|].
    + erewrite irsem.run_snoc by apply Hi. unfold irsem.step. simpl.
      rewrite Hv', Ha'. simpl. by rewrite Hacc.
    + apply Forall_app_2; [apply Hi|by constructor].
    + intros w Hw%(inv_fresh _ _ _ _ Hi). lia.
  - unfold budget, push in *. simpl. rewrite uint_small by (unfold in_u; lia). lia.
  - unfold budget, push in *. simpl. rewrite uint_small by (unfold in_u; lia). lia.
Qed.

(** *** Register accesses *)

Lemma size_insert_bounds (r : Z) (X : gset Z) :
  (size X <= size ({[r]} ∪ X) <= size X + 1)%nat.
Proof.
  split; [apply subseteq_size; set_solver|].
  destruct (decide (r ∈ X)).
  - replace ({[r]} ∪ X) with X by set_solver. lia.
  - rewrite size_union, size_singleton by set_solver. lia.
Qed.

Lemma inv_setCached s E R M r v :
  inv s E R M -> r ≠ 0 -> E !! v = Some (ir.i64, rd R r) ->
  inv (mkLifter (nextValueId s) (<[r := v]> (cachedRegisterValues s))
         (modifiedRegisters s) (currentInstructions s)) E R M.
Proof.
  intros Hi Hr Hv. split; simpl; try apply Hi.
  - intros r' v' Hl. apply lookup_insert_Some in Hl as [[<- <-]|[_ Hl]];
      [done|by apply Hi].
  - intros r' Hm. destruct (inv_mod _ _ _ _ Hi r' Hm) as [Hc HR]. split; [|done].
    rewrite lookup_insert. case_decide; eauto.
Qed.

Lemma triple_getRegisterValue E R M r :
  0 <= r < 32 ->
  triple E 1 R M (getRegisterValue r) R M (is_val ir.i64 (xget R r)).
Proof.
  intros Hr32. unfold getRegisterValue, xget, REG_ZERO. destruct (Z.eqb_spec r 0) as [->|Hr].
  { by apply triple_const. }
  intros s E1 HE Hi Hk. unfold get. rewrite run_bind.
  destruct (cachedRegisterValues s !! r) as [v|] eqn:Hc.
  - exists v, s, E1. split_and!; try done; try lia. by apply Hi in Hc as [_ ?].
  - assert (rd P r = rd R r) as Hrd.
    { unfold rd. rewrite (inv_clean _ _ _ _ Hi r); [done|].
      intros ([? Hm] & _)%(inv_mod _ _ _ _ Hi). congruence. }
    assert (triple E1 1 R M (addInstruction (ir.RegRead r)) R M
              (is_val ir.i64 (rd R r))) as Ht.
    { apply triple_add; [by apply bool_decide_eq_true_2|].
      intros E' _. simpl. by rewrite Hrd. }
    destruct (Ht s E1) as (v & s' & E' & Hs & HE' & Hi' & Hn & HQ); auto.
    rewrite run_bind, Hs.
    eexists v, _, E'. split; [reflexivity|].
    unfold budget in *. split_and!; try done; simpl; try lia.
    by apply inv_setCached.
Qed.

Lemma triple_setRegisterValue E R M r v x :
  is_val ir.i64 x v E -> 0 <= r < 32 ->
  triple E 1 R M (setRegisterValue r v) (xset R r x) M (λ _ _, True).
Proof.
  intros Hv Hr32. unfold setRegisterValue, xset, REG_ZERO.
  destruct (Z.eqb_spec r 0) as [->|Hr]; simpl.
  { eapply triple_weaken; [by apply (triple_ret _ _ _ _ (λ _ _, True))|lia|done]. }
  intros s E1 HE Hi Hk. eexists tt, _, E1. split; [reflexivity|].
  pose proof (size_insert_bounds r (modifiedRegisters s)).
  unfold budget in *. split_and!; try done; simpl; try lia.
  apply (is_val_mono _ _ _ _ E1) in Hv; [|done]. unfold is_val in Hv.
  assert (in_u 64 x) as Hx by (by apply (inv_typed _ _ _ _ Hi) in Hv).
  split; simpl; try apply Hi.
  - intros r' v' Hl. apply lookup_insert_Some in Hl as [[<- <-]|[Hne Hl]].
    + by rewrite rd_wr_eq.
    + rewrite rd_wr_ne by done. by apply Hi.
  - intros r' Hm. unfold wr. rewrite lookup_insert_ne by set_solver.
    apply Hi. set_solver.
  - intros r' Hm. unfold wr. destruct (decide (r = r')) as [<-|Hne].
    + rewrite !lookup_insert_eq. fold (wr R r x). rewrite rd_wr_eq by done.
      split; [by eexists|done].
    + rewrite !lookup_insert_ne by done. fold (wr R r x). rewrite rd_wr_ne by done.
      apply (inv_mod _ _ _ _ Hi). set_solver.
Qed.

(** ** One instruction *)

(** Register numbers of the register file, immediates of a RISC-V format. *)
Definition small_operand (o : riscv.Operand) : Prop :=
  match o with
  | riscv.Register r => 0 <= r < 32
  | riscv.Immediate k => in_s 32 k
  end.
Definition small_operands (i : riscv.Instruction) : Prop :=
  Forall small_operand (riscv.operands i).

Lemma small_reg i r :
  small_operands i -> riscv.Register r ∈ riscv.operands i -> 0 <= r < 32.
Proof. unfold small_operands. rewrite Forall_forall. intros H Hr. exact (H _ Hr). Qed.

Lemma small_imm i k :
  small_operands i -> riscv.Immediate k ∈ riscv.operands i -> in_s 32 k.
Proof. unfold small_operands. rewrite Forall_forall. intros H Hk. exact (H _ Hk). Qed.

Lemma const64_form k : in_s 64 k -> irsem.in_form (ir.Const ir.i64 k) = true.
Proof. intros H. unfold irsem.in_form. by rewrite (bool_decide_eq_true_2 _ H). Qed.

Lemma const32_form k : in_s 13 k -> irsem.in_form (ir.Const ir.i32 k) = true.
Proof.
  unfold in_s. intros H. change (2 ^ (13 - 1)) with 4096 in H. unfold irsem.in_form.
  rewrite (bool_decide_eq_true_2 (in_s 64 k)) by (unfold in_s; simpl; lia).
  by rewrite (bool_decide_eq_true_2 (_ ∧ _ <= _ < _)), orb_true_r by (split; [done|lia]).
Qed.

Lemma in_s_32_64 k : in_s 32 k -> in_s 64 k.
Proof. unfold in_s. simpl. lia. Qed.

Lemma operand_type_i64 op : irsem.operand_type op ir.i64 = ir.i64.
Proof. by destruct op. Qed.

Lemma reg_bind {A} i n v (f : Z → Lifter.M A) :
  riscv.operands i !! n = Some (riscv.Register v) -> reg i n ≫= f = f v.
Proof. intros H. unfold reg. by rewrite (riscv.getRegister_Ok _ _ _ H). Qed.

Lemma imm_bind {A} i n v (f : Z → Lifter.M A) :
  riscv.operands i !! n = Some (riscv.Immediate v) -> imm i n ≫= f = f v.
Proof. intros H. unfold imm. by rewrite (riscv.getImmediate_Ok _ _ _ H). Qed.

(** Step through a lifting routine: operand reads compute, every other call
    is stepped over with its triple [H]. *)
Ltac oread :=
  first [ erewrite reg_bind by (match goal with
            | H : riscv.operands _ = _ |- _ => rewrite H; reflexivity end)
        | erewrite imm_bind by (match goal with
            | H : riscv.operands _ = _ |- _ => rewrite H; reflexivity end) ];
  cbv beta.

Ltac carry E2 HE :=
  repeat match goal with
    | H : is_val ?t ?x ?v ?E |- _ =>
        lazymatch E with E2 => fail | _ => apply (is_val_mono _ _ _ _ E2) in H; [|exact HE] end
    end.

(** The side conditions of the triples. *)
Ltac among :=
  match goal with H : riscv.operands _ = _ |- _ => rewrite H end;
  repeat first [apply list_elem_of_here | apply list_elem_of_further].
Ltac side :=
  match goal with
  | |- 0 <= _ < 32 =>
      eapply small_reg; [eassumption|among]
  | |- irsem.in_form (ir.Const ir.i64 _) = true =>
      apply const64_form;
      first [ by apply sint_range
            | apply in_s_32_64; eapply small_imm; [eassumption|among] ]
  | |- irsem.in_form (ir.Const ir.i32 _) = true => by apply const32_form
  | |- _ = irsem.operand_type _ ir.i64 => symmetry; apply operand_type_i64
  | |- _ => eassumption
  | |- _ => reflexivity
  | |- _ => simpl; lia
  end.

Ltac tstep lem :=
  eapply triple_bind; [eapply lem; side|];
  let v := fresh "v" in let E2 := fresh "E" in let HE := fresh "HE" in
  let Hv := fresh "Hv" in
  intros v E2 HE Hv; carry E2 HE; clear HE.

Lemma triple_liftRType E R M i op r0 r1 r2 x :
  small_operands i ->
  riscv.operands i = [riscv.Register r0; riscv.Register r1; riscv.Register r2] ->
  irsem.binop op ir.i64 (xget R r1) (xget R r2) = Some x ->
  triple E 8 R M (liftRTypeBinaryOp i op ir.i64) (xset R r0 x) M (λ _ _, True).
Proof.
  intros Hsm Ho Hx. unfold liftRTypeBinaryOp. eapply triple_weaken.
  { oread. tstep triple_getRegisterValue. oread. tstep triple_getRegisterValue.
    tstep triple_binop. oread. apply triple_setRegisterValue; side. }
  { simpl; lia. } { done. }
Qed.

Lemma triple_liftIType E R M i op r0 r1 k x :
  small_operands i ->
  riscv.operands i = [riscv.Register r0; riscv.Register r1; riscv.Immediate k] ->
  irsem.binop op ir.i64 (xget R r1) (u64 k) = Some x ->
  triple E 8 R M (liftITypeBinaryOp i op ir.i64) (xset R r0 x) M (λ _ _, True).
Proof.
  intros Hsm Ho Hx. unfold liftITypeBinaryOp. eapply triple_weaken.
  { oread. tstep triple_getRegisterValue. oread. tstep triple_const.
    tstep triple_binop. oread. apply triple_setRegisterValue; side. }
  { simpl; lia. } { done. }
Qed.
Lemma triple_liftWType E R M i op r0 r1 r2 x :
  small_operands i -> ir.i32 = irsem.operand_type op ir.i32 ->
  riscv.operands i = [riscv.Register r0; riscv.Register r1; riscv.Register r2] ->
  irsem.binop op ir.i32 (u32 (xget R r1)) (u32 (xget R r2)) = Some x ->
  triple E 8 R M (liftWTypeBinaryOp i op) (xset R r0 (rvsem.sext32 x)) M
    (λ _ _, True).
Proof.
  intros Hsm Hty Ho Hx. unfold liftWTypeBinaryOp. eapply triple_weaken.
  { oread. tstep triple_getRegisterValue. oread. tstep triple_getRegisterValue.
    tstep triple_trunc. tstep triple_trunc. tstep triple_binop.
    tstep triple_sext. oread. apply triple_setRegisterValue; side. }
  { simpl; lia. } { done. }
Qed.

Lemma triple_liftWTypeImm E R M i op r0 r1 k x :
  small_operands i -> ir.i32 = irsem.operand_type op ir.i32 -> in_s 13 k ->
  riscv.operands i = [riscv.Register r0; riscv.Register r1; riscv.Immediate k] ->
  irsem.binop op ir.i32 (u32 (xget R r1)) (u32 k) = Some x ->
  triple E 8 R M (liftWTypeImmOp i op) (xset R r0 (rvsem.sext32 x)) M
    (λ _ _, True).
Proof.
  intros Hsm Hty Hk Ho Hx. unfold liftWTypeImmOp. eapply triple_weaken.
  { oread. tstep triple_getRegisterValue. oread. tstep triple_const.
    tstep triple_trunc. tstep triple_binop.
    tstep triple_sext. oread. apply triple_setRegisterValue; side. }
  { simpl; lia. } { done. }
Qed.

(** A base register plus an immediate. *)
Lemma triple_address E R M r k l v :
  is_val ir.i64 (xget R r) l E -> is_val ir.i64 (u64 k) v E ->
  triple E 1 R M (createBinaryOp ir.Add ir.i64 l v) R M
    (is_val ir.i64 (u64 (xget R r + k))).
Proof.
  intros. eapply triple_binop; [eassumption..|reflexivity|reflexivity|].
  unfold irsem.binop; simpl.
  by rewrite uint_add_r.
Qed.

(** The extension a load ends with. *)
Lemma triple_extend E R M t sgn v l :
  t ≠ ir.i1 -> in_u (irsem.width t) l -> is_val t l v E ->
  triple E 1 R M
    (if bool_decide (t ≠ ir.i64)
     then if (sgn : bool) then createSext ir.i64 v else createZext ir.i64 v
     else mret v) R M
    (is_val ir.i64
       (rvsem.extend (irsem.bytes t) (sgn || bool_decide (t = ir.i64)) l)).
Proof.
  intros Ht Hl Hv.
  assert (irsem.width t = 8 * Z.of_nat (irsem.bytes t)) as Hw by (by destruct t).
  unfold rvsem.extend. case_bool_decide as Ht64.
  - rewrite (bool_decide_eq_false_2 (t = ir.i64)), orb_false_r by done.
    assert (1 < irsem.width t < irsem.width ir.i64) as Hwt by (destruct t; simpl; done).
    rewrite <- Hw. destruct sgn; [by apply triple_sext|].
    rewrite <- (uint_small 64 l); [eapply triple_zext; [done|lia]|].
    unfold in_u in *. destruct t; simpl in *; lia.
  - assert (t = ir.i64) as -> by (by destruct (decide (t = ir.i64))).
    rewrite bool_decide_eq_true_2, orb_true_r by done. simpl.
    rewrite uint_sint, uint_small by done.
    eapply triple_weaken; [|apply Nat.le_0_l|done].
    apply triple_ret. intros E' HE. by eapply is_val_mono.
Qed.

Lemma triple_liftLoad E R M i t sgn r0 r1 k :
  small_operands i ->
  riscv.operands i = [riscv.Register r0; riscv.Register r1; riscv.Immediate k] ->
  t ≠ ir.i1 ->
  accessible mapped (irsem.bytes t) (u64 (xget R r1 + k)) = true ->
  triple E 8 R M (liftLoadInstruction i t sgn)
    (xset R r0 (rvsem.extend (irsem.bytes t) (sgn || bool_decide (t = ir.i64))
                  (load (irsem.bytes t) M (u64 (xget R r1 + k))))) M
    (λ _ _, True).
Proof.
  intros Hsm Ho Ht Hacc. unfold liftLoadInstruction.
  assert (in_u (irsem.width t) (load (irsem.bytes t) M (u64 (xget R r1 + k))))
    as Hl.
  { replace (irsem.width t) with (8 * Z.of_nat (irsem.bytes t));
      [apply load_range|by destruct t]. }
  eapply triple_weaken.
  { oread. tstep triple_getRegisterValue. oread. tstep triple_const.
    tstep triple_address.
    tstep triple_load. rewrite (uint_small _ (load _ _ _)) in * by done.
    tstep triple_extend. oread. apply triple_setRegisterValue; side. }
  { simpl; lia. } { done. }
Qed.

Lemma triple_liftStore E R M i t r0 r1 k :
  small_operands i ->
  riscv.operands i = [riscv.Register r0; riscv.Register r1; riscv.Immediate k] ->
  t = ir.i32 ∨ t = ir.i64 ->
  accessible mapped (irsem.bytes t) (u64 (xget R r0 + k)) = true ->
  triple E 8 R M (liftStoreInstruction i t) R
    (store (irsem.bytes t) M (u64 (xget R r0 + k)) (xget R r1)) (λ _ _, True).
Proof.
  intros Hsm Ho Ht Hacc. unfold liftStoreInstruction. eapply triple_weaken.
  { oread. tstep triple_getRegisterValue. oread. tstep triple_getRegisterValue.
    oread. tstep triple_const.
    tstep triple_address.
    eapply (triple_bind _ 1 1 _ _ R M _ _ _ _
              (is_val t (uint (irsem.width t) (xget R r1)))).
    { case_bool_decide; [eapply triple_trunc; [done|]; destruct Ht as [-> | ->]; done|].
      destruct Ht as [-> | ->]; [done|].
      rewrite uint_small by apply xget_range.
      eapply triple_weaken; [|apply Nat.le_0_l|done].
      apply triple_ret. intros E' HE. by eapply is_val_mono. }
    intros va E5 HE5 Hva; carry E5 HE5.
    rewrite <- store_uint.
    replace (8 * Z.of_nat (irsem.bytes t)) with (irsem.width t)
      by (by destruct Ht as [-> | ->]).
    eapply (triple_bind _ 1 0);
      [eapply triple_store; [exact Hva|exact Hv2|done]|].
    intros _ E6 _ _. by apply (triple_ret _ _ _ _ (λ _ _, True)). }
  { simpl; lia. } { done. }
Qed.
(** *** Upper immediates *)

Lemma triple_liftLUI E R M i r0 k :
  small_operands i ->
  riscv.operands i = [riscv.Register r0; riscv.Immediate k] ->
  riscv.opcode i = riscv.LUI ->
  triple E 8 R M (liftSingleInstruction i)
    (xset R r0 (u64 (rvsem.upper_field k))) M (λ _ _, True).
Proof.
  intros Hsm Ho Hop. unfold liftSingleInstruction. rewrite Hop.
  rewrite <- u64_shl12. eapply triple_weaken.
  { oread. tstep triple_const. oread. apply triple_setRegisterValue; side. }
  { simpl; lia. } { done. }
Qed.

Lemma triple_liftAUIPC E R M i r0 k :
  small_operands i ->
  riscv.operands i = [riscv.Register r0; riscv.Immediate k] ->
  riscv.opcode i = riscv.AUIPC ->
  triple E 8 R M (liftSingleInstruction i)
    (xset R r0 (u64 (riscv.address i + rvsem.upper_field k))) M (λ _ _, True).
Proof.
  intros Hsm Ho Hop. unfold liftSingleInstruction. rewrite Hop.
  assert (irsem.binop ir.Add ir.i64 (u64 (i64 (riscv.address i))) (u64 (shl12 k))
          = Some (u64 (riscv.address i + rvsem.upper_field k))) as Hx.
  { unfold irsem.binop; simpl.
    by rewrite uint_sint, u64_shl12, uint_add_l, uint_add_r by lia. }
  eapply triple_weaken.
  { tstep triple_const. oread. tstep triple_const. tstep triple_binop.
    oread. apply triple_setRegisterValue; side. }
  { simpl; lia. } { done. }
Qed.

(** *** Any supported instruction *)

Lemma fit_small i :
  isa.operands_fit (riscv.opcode i) (riscv.operands i) = true -> small_operands i.
Proof.
  unfold isa.operands_fit, isa.is_reg, small_operands. intros H.
  destruct (isa.encoding (riscv.opcode i)) as [[[[fmt ?] ?] ?]|]; [|done].
  assert (∀ w k, w <= 32 -> 0 < w -> in_s w k -> in_s 32 k) as Hin.
  { unfold in_s. intros w k Hw Hw0 Hk.
    assert (2 ^ (w - 1) <= 2 ^ (32 - 1)) by (apply Z.pow_le_mono_r; lia). lia. }
  destruct fmt; destruct (riscv.operands i) as [|[] [|[] [|[] []]]]; try done;
    rewrite ?andb_true_iff, ?bool_decide_eq_true in H;
    repeat (apply Forall_cons; split; simpl); try apply Forall_nil_2; try tauto;
    destruct_and?; (eapply Hin; [| |eassumption]; lia).
Qed.

Lemma fit_imm i r0 r1 k :
  isa.operands_fit (riscv.opcode i) (riscv.operands i) = true ->
  riscv.operands i = [riscv.Register r0; riscv.Register r1; riscv.Immediate k] ->
  in_s 13 k.
Proof.
  unfold isa.operands_fit. intros H Ho. rewrite Ho in H.
  destruct (isa.encoding (riscv.opcode i)) as [[[[fmt ?] ?] ?]|]; [|done].
  destruct fmt; try done; rewrite ?andb_true_iff, ?bool_decide_eq_true in H;
    destruct_and?; unfold in_s in *; simpl in *; lia.
Qed.

Ltac lift_case :=
  lazymatch goal with
  | |- triple _ _ _ _ (liftRTypeBinaryOp _ _ _) _ _ _ =>
      eapply triple_liftRType; [eassumption|eassumption|reflexivity]
  | |- triple _ _ _ _ (liftITypeBinaryOp _ _ _) _ _ _ =>
      eapply triple_liftIType; [eassumption|eassumption|reflexivity]
  | |- triple _ _ _ _ (liftWTypeBinaryOp _ _) _ _ _ =>
      rewrite <- sext32_add;
      eapply triple_liftWType; [eassumption|reflexivity|eassumption|reflexivity]
  | |- triple _ _ _ _ (liftWTypeImmOp _ ir.Add) _ _ _ =>
      rewrite <- sext32_add, u32_u64;
      eapply triple_liftWTypeImm; [eassumption|reflexivity|eauto|eassumption|reflexivity]
  | |- triple _ _ _ _ (liftWTypeImmOp _ ir.Shl) _ _ _ =>
      rewrite <- sext32_shl;
      eapply triple_liftWTypeImm; [eassumption|reflexivity|eauto|eassumption|reflexivity]
  | |- triple _ _ _ _ (liftLoadInstruction _ ?t ?sgn) _ _ _ =>
      eapply (triple_liftLoad _ _ _ _ t sgn); [eassumption|eassumption|discriminate|eassumption]
  | |- triple _ _ _ _ (liftStoreInstruction _ ?t) _ _ _ =>
      eapply (triple_liftStore _ _ _ _ t); [eassumption|eassumption|tauto|eassumption]
  end.

Lemma triple_liftSingle E R M i st :
  supported (riscv.opcode i) = true ->
  isa.operands_fit (riscv.opcode i) (riscv.operands i) = true ->
  rvsem.exec rvsem.upper_field mapped i (rvsem.mkState R M) = Some st ->
  triple E 8 R M (liftSingleInstruction i) (rvsem.vregs st) (rvsem.vmem st) (λ _ _, True).
Proof.
  intros Hs Hf. pose proof (fit_small i Hf) as Hsm.
  pose proof (λ r0 r1 k, fit_imm i r0 r1 k Hf) as Hk. unfold rvsem.exec.
  destruct (riscv.opcode i) eqn:Hop; try discriminate Hs; clear Hs;
    destruct (riscv.operands i) as [|[] ops] eqn:Ho; try discriminate Hf;
    operand_shape Hf; clear Hf; simpl; intros Hx;
    try (apply ensure_Some in Hx as [Hacc Hx]); injection Hx as <-;
    simpl rvsem.vregs; simpl rvsem.vmem;
    try (by apply triple_liftLUI); try (by apply triple_liftAUIPC);
    unfold liftSingleInstruction; rewrite Hop;
    lift_case.
Qed.

(** ** Terminators *)

Definition goes_to (pc : Z) (t : ir.Terminator) (E : irsem.env) : Prop :=
  irsem.next_pc t E = Some pc.

Lemma triple_goto E R M t pc :
  (∀ E', E ⊆ E' -> irsem.next_pc t E' = Some pc) ->
  triple E 0 R M (mret t) R M (goes_to pc).
Proof. intros H. by apply triple_ret. Qed.

Lemma triple_conditional E R M i op r0 r1 k c ft :
  small_operands i ->
  riscv.operands i = [riscv.Register r0; riscv.Register r1; riscv.Immediate k] ->
  irsem.compare op (xget R r0) (xget R r1) = Some c ->
  triple E 8 R M (createConditionalBranch op i ft) R M
    (goes_to (if c then u64 (riscv.address i + k) else ft)).
Proof.
  intros Hsm Ho Hc. unfold createConditionalBranch.
  assert (irsem.binop op ir.i1 (xget R r0) (xget R r1) = Some (b2z c)) as Hx
    by (unfold irsem.binop; by rewrite Hc).
  assert (ir.i64 = irsem.operand_type op ir.i1) as Hty by (by destruct op).
  eapply triple_weaken.
  { oread. tstep triple_getRegisterValue. oread. tstep triple_getRegisterValue.
    tstep triple_binop. oread.
    apply (triple_goto _ _ _ _ (if c then u64 (riscv.address i + k) else ft)).
    intros E' HE. eapply is_val_mono in HE; [|exact Hv1].
    unfold is_val in HE. simpl. rewrite HE. by destruct c. }
  { simpl; lia. } { intros ?? H; exact H. }
Qed.

Lemma triple_JAL E R M i r0 k ft :
  riscv.opcode i = riscv.JAL ->
  small_operands i ->
  riscv.operands i = [riscv.Register r0; riscv.Immediate k] ->
  triple E 8 R M (liftTerminator i ft)
    (xset R r0 (u64 (riscv.address i + 4))) M
    (goes_to (u64 (riscv.address i + k))).
Proof.
  intros Hop Hsm Ho. unfold liftTerminator. rewrite Hop. eapply triple_weaken.
  { tstep triple_const. oread. rewrite uint_sint in Hv by done.
    tstep triple_setRegisterValue. oread. by apply triple_goto. }
  { simpl; lia. } { intros ?? H; exact H. }
Qed.

(** [jalr x0, 0(x1)]. *)
Definition is_ret (i : riscv.Instruction) : bool :=
  match riscv.opcode i, riscv.operands i with
  | riscv.JALR, [riscv.Register rd; riscv.Register rs1; riscv.Immediate k] =>
      (rd =? 0) && (rs1 =? 1) && (k =? 0)
  | _, _ => false
  end.

Lemma isRet_bind {A} i r0 r1 k (f : bool → Lifter.M A) :
  riscv.opcode i = riscv.JALR ->
  riscv.operands i = [riscv.Register r0; riscv.Register r1; riscv.Immediate k] ->
  isRet i ≫= f = f (is_ret i).
Proof.
  intros Hop Ho. unfold is_ret. rewrite Hop, Ho. unfold isRet, REG_ZERO, REG_RA.
  rewrite (reg_bind i 0 r0) by (by rewrite Ho).
  destruct (r0 =? 0); [|reflexivity].
  rewrite (reg_bind i 1 r1) by (by rewrite Ho).
  destruct (r1 =? 1); [|reflexivity].
  by rewrite (imm_bind i 2 k) by (by rewrite Ho).
Qed.

Lemma triple_RET E R M i ft :
  is_ret i = true -> triple E 8 R M (liftTerminator i ft) R M (goes_to 0).
Proof.
  intros Hr. pose proof Hr as Hr'. unfold is_ret in Hr'.
  destruct (riscv.opcode i) eqn:Hop; try discriminate Hr'.
  destruct (riscv.operands i) as [|[] [|[] [|[] []]]] eqn:Ho; try discriminate Hr'.
  unfold liftTerminator. rewrite Hop, (isRet_bind _ _ _ _ _ Hop Ho), Hr.
  eapply triple_weaken; [by apply triple_goto|lia|done].
Qed.

Lemma triple_JALR E R M i r0 r1 k ft :
  riscv.opcode i = riscv.JALR ->
  small_operands i ->
  riscv.operands i = [riscv.Register r0; riscv.Register r1; riscv.Immediate k] ->
  is_ret i = false ->
  triple E 8 R M (liftTerminator i ft)
    (xset R r0 (u64 (riscv.address i + 4))) M
    (goes_to (u64 (xget R r1 + k) &. (2 ^ 64 - 2))).
Proof.
  intros Hop Hsm Ho Hr. unfold liftTerminator.
  rewrite Hop, (isRet_bind _ _ _ _ _ Hop Ho), Hr.
  assert (irsem.binop ir.And ir.i64 (u64 (xget R r1 + k)) (2 ^ 64 - 2)
          = Some (u64 (xget R r1 + k) &. (2 ^ 64 - 2))) as Hx.
  { unfold irsem.binop. simpl. by rewrite uint_land_small. }
  eapply triple_weaken.
  { oread. tstep triple_getRegisterValue. oread. tstep triple_const.
    tstep triple_address. tstep triple_const.
    rewrite uint_sint in Hv2 by done. rewrite (uint_small _ JALR_ALIGN_MASK) in Hv2 by done.
    tstep triple_binop. oread.
    eapply (triple_bind _ 2 0 _ _ (xset R r0 (u64 (riscv.address i + 4))) M
              _ _ _ _ (λ _ _, True)).
    { unfold REG_ZERO, xset. destruct (Z.eqb_spec r0 0) as [->|Hr0].
      - eapply triple_weaken; [by apply (triple_ret _ _ _ _ (λ _ _, True))|lia|done].
      - eapply triple_weaken.
        { tstep triple_const. rewrite uint_sint in Hv4 by done.
          eapply (triple_setRegisterValue _ R M r0) in Hv4; [|side]. unfold xset in Hv4.
          rewrite (proj2 (Z.eqb_neq r0 0)) in Hv4 by done. exact Hv4. }
        { simpl; lia. } { done. } }
    intros [] E6 HE6 _. apply triple_goto. intros E' HE.
    eapply is_val_mono in HE; [|eapply is_val_mono in HE6; [|exact Hv3]; exact HE6].
    unfold is_val in HE. simpl. by rewrite HE. }
  { simpl; lia. } { intros ?? H; exact H. }
Qed.
Lemma triple_terminator E R M i :
  isTerminator i = true ->
  isa.operands_fit (riscv.opcode i) (riscv.operands i) = true ->
  ∃ pc, rvsem.target i (rvsem.mkState R M) = Some pc
        ∧ triple E 8 R M (liftTerminator i (u64 (riscv.address i + 4)))
            (rvsem.linked i R) M (goes_to (if is_ret i then 0 else pc)).
Proof.
  intros Ht Hf. pose proof (fit_small i Hf) as Hsm. unfold rvsem.target, rvsem.linked.
  destruct (is_ret i) eqn:Hr.
  { pose proof (triple_RET E R M i (u64 (riscv.address i + 4)) Hr).
    unfold is_ret in Hr. destruct (riscv.opcode i) eqn:Hop; try discriminate Hr.
    destruct (riscv.operands i) as [|[] [|[] [|[] []]]]; try discriminate Hr.
    apply andb_true_iff in Hr as [[->%Z.eqb_eq _]%andb_true_iff _].
    eexists. by split. }
  unfold isTerminator in Ht.
  destruct (riscv.opcode i) eqn:Hop; try discriminate Ht; clear Ht;
    destruct (riscv.operands i) as [|[] ops] eqn:Ho; try discriminate Hf;
    operand_shape Hf; clear Hf; simpl; (eexists; split; [reflexivity|]);
    first [ eapply triple_JAL | eapply triple_JALR
          | unfold liftTerminator; rewrite Hop; eapply triple_conditional ];
    first [eassumption | reflexivity].
Qed.
End lifter.

(** ** The write-back *)

Section writeback.
Context (mapped : Z → bool) (first : Z) (R0 : regs) (M0 : mem).
Local Abbreviation inv := (inv mapped first).

Definition write_regs (P R : regs) (l : list Z) : regs :=
  foldl (λ P r, wr P r (rd R r)) P l.

Lemma write_regs_lookup P R l r :
  write_regs P R l !! r = if decide (r ∈ l) then Some (rd R r) else P !! r.
Proof.
  revert P. induction l as [|x l IH]; intros P; cbn [write_regs foldl].
  { by rewrite decide_False by set_solver. }
  fold (write_regs (wr P x (rd R x)) R l).
  rewrite IH. destruct (decide (r ∈ l)) as [Hin|Hin].
  - by rewrite decide_True by set_solver.
  - unfold wr. destruct (decide (x = r)) as [->|].
    + by rewrite lookup_insert_eq, decide_True by set_solver.
    + by rewrite lookup_insert_ne, decide_False by set_solver.
Qed.

Lemma writeBack_run l : ∀ P s E R M,
  inv R0 M0 P s E R M -> Forall (.∈ modifiedRegisters s) l ->
  nextValueId s + Z.of_nat (length l) < 2 ^ 64 ->
  ∃ s', writeBack l s = (Ok tt, s') ∧ inv R0 M0 (write_regs P R l) s' E R M
        ∧ modifiedRegisters s' = modifiedRegisters s
        ∧ nextValueId s' = nextValueId s + Z.of_nat (length l).
Proof.
  induction l as [|r l IH]; intros P s E R M Hi Hl Hn; simpl in *.
  { exists s. split_and!; [done..|lia]. }
  inv Hl as [|?? Hr Hl']. destruct (inv_mod _ _ _ _ _ _ _ _ _ Hi r Hr) as ([v Hv] & HR & Hr32).
  unfold get. rewrite run_bind, Hv, run_bind. cbv beta iota delta [mret stateM_ret].
  rewrite run_bind, run_addInstruction.
  pose proof (inv_pos _ _ _ _ _ _ _ _ _ Hi).
  pose proof (ids_push first (ir.RegWrite r v) s ltac:(lia)
                (inv_ids _ _ _ _ _ _ _ _ _ Hi)) as Hids.
  destruct (IH (wr P r (rd R r)) (push (ir.RegWrite r v) s) E R M)
    as (s' & Hs & Hi' & Hm & Hn').
  - unfold push in *. simpl in *. rewrite uint_small in * by (unfold in_u; lia).
    split; simpl; try lia; try apply Hi; [| |exact Hids| |].
    + erewrite irsem.run_snoc by apply Hi. unfold irsem.step. simpl.
      apply (inv_cached _ _ _ _ _ _ _ _ _ Hi) in Hv as [_ ->]. done.
    + apply Forall_app_2; [apply Hi|]. constructor; [|done].
      by apply bool_decide_eq_true_2.
    + intros w Hw%(inv_fresh _ _ _ _ _ _ _ _ _ Hi). lia.
    + intros r' Hr'. unfold wr. rewrite lookup_insert_ne by (intros ->; done).
      by apply Hi.
  - done.
  - unfold push; simpl. rewrite uint_small by (unfold in_u; lia). lia.
  - exists s'. split_and!; try done. unfold push in Hn'; simpl in Hn'.
    rewrite uint_small in Hn' by (unfold in_u; lia). lia.
Qed.

Context (iterate : gset Z → list Z).
Context (iterate_elements : ∀ X, iterate X ≡ₚ elements X).

(** Whatever order the hash set is walked in, the registers of the machine
    are written back. *)
Lemma finalize_run s E R M :
  inv R0 M0 R0 s E R M -> budget s < 2 ^ 64 ->
  ∃ s', finalizeRegisterWrites iterate s = (Ok tt, s') ∧ inv R0 M0 R s' E R M
        ∧ budget s' <= 2 * budget s.
Proof.
  intros Hi Hb. unfold finalizeRegisterWrites, get. rewrite run_bind.
  pose proof (iterate_elements (modifiedRegisters s)) as Hit.
  assert (length (iterate (modifiedRegisters s)) = size (modifiedRegisters s)) as Hlen
    by (by rewrite Hit).
  pose proof (inv_pos _ _ _ _ _ _ _ _ _ Hi). unfold budget in *.
  destruct (writeBack_run (iterate (modifiedRegisters s)) R0 s E R M)
    as (s' & Hs & Hi' & Hm & Hn); [done| ..].
  { apply Forall_forall. intros r. by rewrite Hit, elem_of_elements. }
  { lia. }
  exists s'. split_and!; [done| |rewrite Hm; lia].
  replace R with (write_regs R0 R (iterate (modifiedRegisters s))) at 1; [done|].
  apply map_eq. intros r. rewrite write_regs_lookup.
  case_decide as Hr; rewrite Hit, elem_of_elements in Hr.
  - symmetry. by apply Hi.
  - symmetry. by apply Hi.
Qed.
End writeback.
