(* ===== verification/LifterBlock.v ===== *)
(** * Basic blocks of the lifter

    [Lifter.liftBasicBlock] as a whole: the block it returns takes registers
    and memory where the RISC-V block takes them and leaves the program counter
    of its last instruction, whatever order the hash set of modified registers
    is walked in; and the three places where it does not do what the
    instruction set says. *)
From S2P Require Import Prelude Error Riscv Decoder RiscvEncoding DecoderCorrect.
From S2P Require Import IR Machine IRSemantics RiscvSemantics Lifter LifterCorrect.
Import machine Lifter.

(** Instructions the lifter handles, inside a block and at its end. *)
Definition liftable (i : riscv.Instruction) : bool :=
  supported (riscv.opcode i) && isa.operands_fit (riscv.opcode i) (riscv.operands i).

Definition ends_block (i : riscv.Instruction) : bool :=
  liftable i
  || isTerminator i && isa.operands_fit (riscv.opcode i) (riscv.operands i).

(** A block [body ++ [t]], and room for its value ids. *)
Definition block_fits (body : list riscv.Instruction) (t : riscv.Instruction) : bool :=
  forallb liftable body && ends_block t.

Definition ids_left (s : Lifter.t) (n : nat) : Prop :=
  0 <= nextValueId s ∧ 2 * (nextValueId s + 8 * Z.of_nat n) + 24 < 2 ^ 64.

Lemma supported_not_terminator i :
  supported (riscv.opcode i) = true -> isTerminator i = false.
Proof. unfold isTerminator. by destruct (riscv.opcode i). Qed.

Lemma linked_not_terminator i R : isTerminator i = false -> rvsem.linked i R = R.
Proof. unfold isTerminator, rvsem.linked. by destruct (riscv.opcode i). Qed.

Lemma inv_start mapped R M n :
  0 <= n -> inv mapped n R M R (mkLifter n ∅ ∅ []) ∅ R M.
Proof.
  intros Hn. split; simpl; try done; try set_solver.
  - rewrite Z.sub_diag. split; [lia|done].
  - intros v [x Hv]. by rewrite lookup_empty in Hv.
Qed.

(** When every address is mapped the supported instructions always execute. *)
Lemma exec_everywhere upper i st :
  liftable i = true -> is_Some (rvsem.exec upper everywhere i st).
Proof.
  intros [Hs Hf]%andb_true_iff. unfold rvsem.exec.
  destruct (riscv.opcode i) eqn:Hop; try discriminate Hs; clear Hs;
    destruct (riscv.operands i) as [|[] ops]; try discriminate Hf;
    operand_shape Hf; clear Hf; simpl;
    rewrite ?accessible_everywhere; simpl; by eexists.
Qed.

Lemma execs_everywhere upper body st :
  forallb liftable body = true -> is_Some (rvsem.execs upper everywhere body st).
Proof.
  revert st. induction body as [|i body IH]; intros st; simpl; [by eexists|].
  intros [Hi Hb]%andb_true_iff.
  destruct (exec_everywhere upper i st Hi) as [st' ->]. by apply IH.
Qed.

Lemma rv_block_execs upper mapped body t st :
  rvsem.block upper mapped (body ++ [t]) st
  = st1 ← rvsem.execs upper mapped body st; rvsem.block upper mapped [t] st1.
Proof.
  revert st. induction body as [|i body IH]; intros st; [done|].
  cbn [rvsem.execs app].
  transitivity (s ← rvsem.exec upper mapped i st; rvsem.block upper mapped (body ++ [t]) s).
  - by destruct body.
  - destruct (rvsem.exec upper mapped i st); simpl; [apply IH|done].
Qed.

Section loop.
Context (mapped : Z → bool) (first : Z) (iterate : gset Z → list Z).

(** The loop runs over the straight-line part of a block. *)
Lemma liftLoop_body R0 M0 body rest st : ∀ s E R M,
  forallb liftable body = true ->
  inv mapped first R0 M0 R0 s E R M -> budget s + 8 * Z.of_nat (length body) < 2 ^ 64 ->
  rvsem.execs rvsem.upper_field mapped body (rvsem.mkState R M) = Some st ->
  ∃ s' E', liftLoop iterate (body ++ rest) s = liftLoop iterate rest s'
    ∧ inv mapped first R0 M0 R0 s' E' (rvsem.vregs st) (rvsem.vmem st)
    ∧ budget s' <= budget s + 8 * Z.of_nat (length body).
Proof.
  induction body as [|i body IH]; intros s E R M Hb Hi Hn Hx; simpl in *.
  { injection Hx as <-. eexists s, E. split_and!; [done..|lia]. }
  apply andb_true_iff in Hb as [[Hs Hf]%andb_true_iff Hb].
  apply bind_Some in Hx as ([R1 M1] & Hi1 & Hx).
  rewrite (supported_not_terminator i Hs).
  pose proof (triple_liftSingle mapped first R0 M0 R0 E R M i _ Hs Hf Hi1) as Ht.
  destruct (Ht s E) as (u & s1 & E1 & Hs1 & _ & Hinv & Hn1 & _); [done|done|lia|].
  rewrite run_bind, Hs1.
  destruct (IH s1 E1 R1 M1) as (s' & E' & ? & ? & ?); [done|done|lia|done|].
  exists s', E'. split_and!; [done..|lia].
Qed.
End loop.

Section block.
Context (mapped : Z → bool) (first : Z) (iterate : gset Z → list Z).
Context (iterate_elements : ∀ X, iterate X ≡ₚ elements X).

(** What the block's last instruction leaves. *)
Definition ended (s' : Lifter.t) (b : ir.BasicBlock) : Prop :=
  ir.instructions b = currentInstructions s'
  ∧ Forall (λ i, irsem.in_form (ir.kind i) = true) (currentInstructions s')
  ∧ 0 <= first <= nextValueId s'
  ∧ map ir.valueId (currentInstructions s') = seqZ first (nextValueId s' - first).

(** The state a terminator leaves, and the block it ends. *)
Lemma lift_ends R0 M0 s E R M t :
  ends_block t = true -> inv mapped first R0 M0 R0 s E R M ->
  2 * budget s + 24 < 2 ^ 64 ->
  is_Some (rvsem.block rvsem.upper_field mapped [t] (rvsem.mkState R M)) ->
  ∃ b s' pc,
    (term ← liftLoop iterate [t];
     term ← (if negb (isTerminator t) then
               finalizeRegisterWrites iterate ;;
               mret (ir.Branch (u64 (riscv.address t + 4)))
             else mret (default (ir.Branch 0) term));
     s ← get;
     mret (ir.mkBasicBlock (currentInstructions s) term)) s = (Ok b, s')
    ∧ ended s' b
    ∧ nextValueId s' <= 2 * budget s + 24
    ∧ ∃ R' M', irsem.run_block mapped b R0 M0
               = Some (R', M', if is_ret t then 0 else pc)
    ∧ rvsem.block rvsem.upper_field mapped [t] (rvsem.mkState R M)
      = Some (rvsem.linked t R', M', pc)
    ∧ (isTerminator t = true ->
       R' = R ∧ M' = M ∧ rvsem.target t (rvsem.mkState R M) = Some pc).
Proof.
  intros He Hi Hn Hdef. cbn [liftLoop rvsem.block] in *.
  change (rvsem.transfers t) with (isTerminator t) in *. unfold ends_block in He.
  destruct (isTerminator t) eqn:Ht.
  - assert (isa.operands_fit (riscv.opcode t) (riscv.operands t) = true) as Hf.
    { apply orb_true_iff in He as [[_ ?]%andb_true_iff|[_ ?]%andb_true_iff]; done. }
    destruct (finalize_run mapped first R0 M0 iterate iterate_elements s E R M)
      as (s1 & Hs1 & Hi1 & Hn1); [done|lia|].
    destruct (triple_terminator mapped first R0 M0 R E R M t Ht Hf) as (pc & Hpc & Htr).
    destruct (Htr s1 E) as (term & s2 & E2 & Hs2 & _ & Hi2 & Hn2 & Hgo); [done|done|lia|].
    eexists _, s2, pc. split.
    { rewrite !run_bind, Hs1, run_bind, Hs2. reflexivity. }
    split; [by destruct Hi2|]. split; [unfold budget in *; lia|].
    exists R, M. rewrite Hpc. split; [|done].
    unfold irsem.run_block. simpl. rewrite (inv_run _ _ _ _ _ _ _ _ _ Hi2). simpl.
    by rewrite Hgo.
  - assert (liftable t = true) as [Hs Hf]%andb_true_iff
      by (by rewrite orb_false_r in He).
    destruct (rvsem.exec rvsem.upper_field mapped t (rvsem.mkState R M))
      as [[R1 M1]|] eqn:Hx; [|by destruct Hdef].
    pose proof (triple_liftSingle mapped first R0 M0 R0 E R M t _ Hs Hf Hx) as Htr.
    destruct (Htr s E) as (u & s1 & E1 & Hs1 & _ & Hi1 & Hn1 & _); [done|done|lia|].
    destruct (finalize_run mapped first R0 M0 iterate iterate_elements s1 E1 R1 M1)
      as (s2 & Hs2 & Hi2 & Hn2); [done|lia|].
    eexists _, s2, (u64 (riscv.address t + 4)). split.
    { rewrite !run_bind, Hs1. simpl. rewrite run_bind, run_bind, Hs2. reflexivity. }
    split; [by destruct Hi2|]. split; [unfold budget in *; lia|].
    exists R1, M1. rewrite (linked_not_terminator t) by done. split; [|done].
    assert (is_ret t = false) as ->.
    { unfold is_ret. by destruct (riscv.opcode t). }
    unfold irsem.run_block. simpl. by rewrite (inv_run _ _ _ _ _ _ _ _ _ Hi2).
Qed.
End block.

(** A block that ends in a terminator leaves its body's registers and memory to
    the block after it. *)
Definition ends_in mapped body t R0 M0 R' M' pc : Prop :=
  rvsem.execs rvsem.upper_field mapped body (rvsem.mkState R0 M0)
    = Some (rvsem.mkState R' M')
  ∧ rvsem.target t (rvsem.mkState R' M') = Some pc.

Lemma lift_block mapped iterate body t s R0 M0 :
  (∀ X, iterate X ≡ₚ elements X) ->
  block_fits body t = true -> ids_left s (length body) ->
  is_Some (rvsem.block rvsem.upper_field mapped (body ++ [t]) (rvsem.mkState R0 M0)) ->
  ∃ b s' R' M' pc,
    liftBasicBlock iterate (body ++ [t]) s = (Ok b, s')
    ∧ ended (nextValueId s) s' b
    ∧ nextValueId s' <= 2 * (nextValueId s + 8 * Z.of_nat (length body)) + 24
    ∧ irsem.run_block mapped b R0 M0 = Some (R', M', if is_ret t then 0 else pc)
    ∧ rvsem.block rvsem.upper_field mapped (body ++ [t]) (rvsem.mkState R0 M0)
      = Some (rvsem.linked t R', M', pc)
    ∧ (isTerminator t = true -> ends_in mapped body t R0 M0 R' M' pc).
Proof.
  intros Hit [Hb Ht]%andb_true_iff [Hid Hn] Hdef. rewrite rv_block_execs in *.
  destruct (rvsem.execs rvsem.upper_field mapped body (rvsem.mkState R0 M0))
    as [[R M]|] eqn:Hx; [|by destruct Hdef].
  set (s0 := mkLifter (nextValueId s) ∅ ∅ []).
  assert (budget s0 = nextValueId s) as Hb0
    by (unfold budget, s0; cbn [nextValueId modifiedRegisters];
        rewrite (size_empty (C:=gset Z)); lia).
  destruct (liftLoop_body mapped (nextValueId s) iterate R0 M0 body [t]
              (rvsem.mkState R M) s0 ∅ R0 M0)
    as (s1 & E1 & Hl & Hi1 & Hn1); [done|by apply inv_start|lia|done|].
  destruct (lift_ends mapped (nextValueId s) iterate Hit R0 M0 s1 E1 R M t Ht Hi1
              ltac:(lia) Hdef)
    as (b & s' & pc & Hlift & Hend & Hlast & R' & M' & Hrun & Hblk & Hpc).
  exists b, s', R', M', pc. split_and!; try done; [|lia|by intros (-> & -> & ?)%Hpc].
  unfold liftBasicBlock. rewrite last_snoc, run_bind. unfold modify at 1.
  fold s0. rewrite run_bind, Hl, <- run_bind. exact Hlift.
Qed.

(** ** Properties *)

(** Jumps that write a return address. *)
Definition links (i : riscv.Instruction) : bool :=
  match riscv.opcode i, riscv.operands i with
  | (riscv.JAL | riscv.JALR), riscv.Register rd :: _ => negb (rd =? 0)
  | _, _ => false
  end.

Lemma linked_id i R : links i = false -> rvsem.linked i R = R.
Proof.
  unfold links, rvsem.linked, xset. intros H.
  destruct (riscv.opcode i), (riscv.operands i) as [|[] ?]; try done;
    by apply negb_false_iff in H as ->.
Qed.

Lemma is_ret_shape i :
  is_ret i = true ->
  riscv.opcode i = riscv.JALR
  ∧ riscv.operands i = [riscv.Register 0; riscv.Register 1; riscv.Immediate 0].
Proof.
  unfold is_ret. destruct (riscv.opcode i); try done.
  destruct (riscv.operands i) as [|[] [|[] [|[] []]]]; try done.
  by intros [[->%Z.eqb_eq ->%Z.eqb_eq]%andb_true_iff ->%Z.eqb_eq]%andb_true_iff.
Qed.

Lemma is_ret_links i : is_ret i = true -> links i = false.
Proof. intros [Hop Ho]%is_ret_shape. unfold links. by rewrite Hop, Ho. Qed.

Lemma block_everywhere upper body t st :
  block_fits body t = true -> is_Some (rvsem.block upper everywhere (body ++ [t]) st).
Proof.
  intros [Hb Ht]%andb_true_iff. rewrite rv_block_execs.
  destruct (execs_everywhere upper body st Hb) as [[R M] ->]. cbn [mbind option_bind].
  cbn [rvsem.block]. change (rvsem.transfers t) with (isTerminator t).
  unfold ends_block in Ht. destruct (isTerminator t) eqn:Htt.
  - assert (isa.operands_fit (riscv.opcode t) (riscv.operands t) = true) as Hf.
    { apply orb_true_iff in Ht as [[_ ?]%andb_true_iff|[_ ?]%andb_true_iff]; done. }
    destruct (triple_terminator everywhere 0 R M R ∅ R M t Htt Hf) as (pc & -> & _).
    by eexists.
  - rewrite orb_false_r in Ht.
    destruct (exec_everywhere upper t (rvsem.mkState R M) Ht) as [? ->]. by eexists.
Qed.

(** The block returned is fixed before any registers are: it is the one lifted
    for a machine whose memory is all mapped, where every supported instruction
    executes. *)
Lemma lift_block_uniform iterate body t s :
  (∀ X, iterate X ≡ₚ elements X) ->
  block_fits body t = true -> ids_left s (length body) ->
  ∃ b s', liftBasicBlock iterate (body ++ [t]) s = (Ok b, s')
    ∧ ended (nextValueId s) s' b
    ∧ nextValueId s' <= 2 * (nextValueId s + 8 * Z.of_nat (length body)) + 24
    ∧ ∀ mapped R M,
        is_Some (rvsem.block rvsem.upper_field mapped (body ++ [t]) (rvsem.mkState R M)) ->
        ∃ R' M' pc,
        irsem.run_block mapped b R M = Some (R', M', if is_ret t then 0 else pc)
        ∧ rvsem.block rvsem.upper_field mapped (body ++ [t]) (rvsem.mkState R M)
          = Some (rvsem.linked t R', M', pc)
        ∧ (isTerminator t = true -> ends_in mapped body t R M R' M' pc).
Proof.
  intros Hit Hb Hs.
  destruct (lift_block everywhere iterate body t s ∅ ∅ Hit Hb Hs)
    as (b & s' & _ & _ & _ & Hl & Hend & Hlast & _); [by apply block_everywhere|].
  exists b, s'. do 3 (split; [done|]). intros mapped R M Hdef.
  destruct (lift_block mapped iterate body t s R M Hit Hb Hs Hdef)
    as (b' & s'' & R' & M' & pc & Hl' & _ & _ & H).
  rewrite Hl in Hl'. simplify_eq. eauto.
Qed.

(** LUI and AUIPC, whose immediate the lifter shifts a second time. *)
Definition upper_op (op : riscv.Opcode) : bool :=
  match op with riscv.LUI | riscv.AUIPC => true | _ => false end.

Definition no_upper (l : list riscv.Instruction) : bool :=
  forallb (λ i, negb (upper_op (riscv.opcode i))) l.

Lemma exec_upper u1 u2 mapped i st :
  upper_op (riscv.opcode i) = false -> rvsem.exec u1 mapped i st = rvsem.exec u2 mapped i st.
Proof.
  intros Hu. unfold rvsem.exec. destruct (riscv.opcode i) eqn:E; try discriminate Hu; done.
Qed.

Lemma block_upper u1 u2 mapped l : ∀ st,
  no_upper l = true -> rvsem.block u1 mapped l st = rvsem.block u2 mapped l st.
Proof.
  induction l as [|i l IH]; intros st Hl; [done|].
  unfold no_upper in Hl. cbn [forallb] in Hl. apply andb_true_iff in Hl as [Hi%negb_true_iff Hl].
  cbn [rvsem.block]. rewrite (exec_upper u1 u2) by done. destruct l as [|j l]; [done|].
  destruct (rvsem.exec u2 mapped i st); [|done]. cbn [mbind option_bind]. by apply IH.
Qed.

(** C4: for every block of supported instructions other than LUI and AUIPC that
    does not end in a jump that links a register, lifting succeeds and the IR
    block leaves exactly the registers, the memory and the program counter the
    RV64I instructions leave (0 in the place of the program counter after RET),
    from every initial state in which they execute (every one when all of
    memory is mapped) and for every iteration order of the set of modified
    registers. *)
Theorem liftBasicBlock_refines iterate body t s :
  (∀ X, iterate X ≡ₚ elements X) ->
  block_fits body t = true -> no_upper (body ++ [t]) = true -> links t = false ->
  ids_left s (length body) ->
  ∃ b s', liftBasicBlock iterate (body ++ [t]) s = (Ok b, s')
    ∧ (∀ mapped R M R' M' pc,
         rvsem.block rvsem.upper_value mapped (body ++ [t]) (rvsem.mkState R M)
         = Some (R', M', pc) ->
         irsem.run_block mapped b R M = Some (R', M', if is_ret t then 0 else pc))
    ∧ ∀ R M, is_Some (rvsem.block rvsem.upper_value everywhere (body ++ [t])
                        (rvsem.mkState R M)).
Proof.
  intros Hit Hb Hu Hl Hs.
  destruct (lift_block_uniform iterate body t s Hit Hb Hs) as (b & s' & H & _ & _ & HRM).
  exists b, s'. split; [done|]. split; [|intros; by apply block_everywhere].
  intros mapped R M R1 M1 pc1 Hrv. rewrite (block_upper _ rvsem.upper_field) in Hrv by done.
  destruct (HRM mapped R M) as (R' & M' & pc & -> & Hblk & _); [by eexists|].
  rewrite linked_id in Hblk by done. by simplify_eq.
Qed.

(** C30: a block that ends in [jalr x0, 0(x1)] computes the right registers and
    memory, and leaves program counter zero, the value that stops the
    dispatcher, instead of the address in [x1]: a guest function that returns
    to a guest caller ends the translation. *)
Theorem liftBasicBlock_ret_stops iterate body t s :
  (∀ X, iterate X ≡ₚ elements X) ->
  block_fits body t = true -> ids_left s (length body) -> is_ret t = true ->
  ∃ b s', liftBasicBlock iterate (body ++ [t]) s = (Ok b, s')
    ∧ ∀ mapped R M,
        is_Some (rvsem.block rvsem.upper_field mapped (body ++ [t]) (rvsem.mkState R M)) ->
        ∃ R' M',
        irsem.run_block mapped b R M = Some (R', M', 0)
        ∧ rvsem.block rvsem.upper_field mapped (body ++ [t]) (rvsem.mkState R M)
          = Some (R', M', xget R' 1 &. (2 ^ 64 - 2)).
Proof.
  intros Hit Hb Hs Hr.
  destruct (lift_block_uniform iterate body t s Hit Hb Hs) as (b & s' & H & _ & _ & HRM).
  exists b, s'. split; [done|]. intros mapped R M Hdef.
  destruct (HRM mapped R M Hdef) as (R' & M' & pc & Hrun & Hblk & Hpc). rewrite Hr in Hrun.
  exists R', M'. split; [done|]. rewrite Hblk, linked_id by (by apply is_ret_links).
  apply is_ret_shape in Hr as [Hop Ho].
  unfold isTerminator in Hpc. rewrite Hop in Hpc. destruct (Hpc eq_refl) as [_ Htg].
  clear Hpc. rename Htg into Hpc. unfold rvsem.target in Hpc. rewrite Hop, Ho in Hpc.
  simpl in Hpc.
  rewrite Z.add_0_r, uint_small in Hpc by apply xget_range. by simplify_eq.
Qed.

Lemma xget_xset_eq R r v : r ≠ 0 -> in_u 64 v -> xget (xset R r v) r = v.
Proof. intros Hr%Z.eqb_neq Hv. unfold xget, xset. rewrite Hr. by apply rd_wr_eq. Qed.

Lemma xget_xset_ne R r r' v : r ≠ r' -> xget (xset R r v) r' = xget R r'.
Proof.
  intros Hr. unfold xset, xget. destruct (r =? 0); [done|]. by rewrite rd_wr_ne.
Qed.

Lemma links_terminates t : links t = true -> isTerminator t = true.
Proof. unfold links, isTerminator. by destruct (riscv.opcode t). Qed.

Lemma links_register t :
  links t = true ->
  ∃ rd, rd ≠ 0 ∧ ∀ R, rvsem.linked t R = xset R rd (u64 (riscv.address t + 4)).
Proof.
  unfold links, rvsem.linked. intros H.
  destruct (riscv.opcode t), (riscv.operands t) as [|[rd|] ?]; try done;
    apply negb_true_iff, Z.eqb_neq in H; by exists rd.
Qed.

Lemma block_linked upper mapped body t st st1 pc :
  isTerminator t = true ->
  rvsem.execs upper mapped body st = Some st1 -> rvsem.target t st1 = Some pc ->
  rvsem.block upper mapped (body ++ [t]) st
  = Some (rvsem.linked t (rvsem.vregs st1), rvsem.vmem st1, pc).
Proof.
  intros Ht Hx Hpc. rewrite rv_block_execs, Hx. cbn [mbind option_bind rvsem.block].
  change (rvsem.transfers t) with (isTerminator t). by rewrite Ht, Hpc.
Qed.

Lemma terminator_target t st :
  isTerminator t = true -> isa.operands_fit (riscv.opcode t) (riscv.operands t) = true ->
  is_Some (rvsem.target t st).
Proof.
  intros Ht Hf. destruct st as [R M].
  destruct (triple_terminator everywhere 0 R M R ∅ R M t Ht Hf) as (pc & -> & _).
  by eexists.
Qed.

(** C31: (defect) a block that ends in a call, JAL or JALR with a link register,
    goes to the right place with the right memory, but its registers are those
    its body leaves: the return address is not written, and the IR block does
    not do what the instructions do unless the link register held it already.
    (The write-back of the registers is emitted before the terminator sets the
    link register.) *)
Theorem liftBasicBlock_link_lost iterate body t s :
  (∀ X, iterate X ≡ₚ elements X) ->
  block_fits body t = true -> ids_left s (length body) -> links t = true ->
  ∃ b s', liftBasicBlock iterate (body ++ [t]) s = (Ok b, s')
    ∧ ∀ mapped R M st,
        rvsem.execs rvsem.upper_field mapped body (rvsem.mkState R M) = Some st ->
        ∃ rd pc,
        irsem.run_block mapped b R M = Some (rvsem.vregs st, rvsem.vmem st, pc)
        ∧ rvsem.block rvsem.upper_field mapped (body ++ [t]) (rvsem.mkState R M)
          = Some (xset (rvsem.vregs st) rd (u64 (riscv.address t + 4)), rvsem.vmem st, pc)
        ∧ (xget (rvsem.vregs st) rd ≠ u64 (riscv.address t + 4) ->
           irsem.run_block mapped b R M
           ≠ rvsem.block rvsem.upper_field mapped (body ++ [t]) (rvsem.mkState R M)).
Proof.
  intros Hit Hb Hs Hl. pose proof (links_terminates t Hl) as Ht.
  destruct (links_register t Hl) as (rd & Hrd & Hlink).
  destruct (lift_block_uniform iterate body t s Hit Hb Hs) as (b & s' & H & _ & _ & HRM).
  exists b, s'. split; [done|]. intros mapped R M st Hx.
  destruct (terminator_target t st Ht) as [pc Hpc].
  { apply andb_true_iff in Hb as [_ Hb]. unfold ends_block, liftable in Hb.
    apply orb_true_iff in Hb as [[_ ?]%andb_true_iff|[_ ?]%andb_true_iff]; done. }
  pose proof (block_linked rvsem.upper_field mapped body t _ st pc Ht Hx Hpc) as Hblk.
  destruct (HRM mapped R M) as (R' & M' & pc' & Hrun & _ & Hend); [by eexists|].
  destruct (Hend Ht) as [Hx' Hpc']. rewrite Hx in Hx'. injection Hx' as ->.
  rewrite Hpc in Hpc'. injection Hpc' as <-.
  replace (is_ret t) with false in Hrun
    by (symmetry; apply not_true_is_false; intros Hr%is_ret_links; congruence).
  rewrite Hlink in Hblk. exists rd, pc. split; [done|]. split; [done|].
  rewrite Hrun, Hblk. intros Hne E. injection E as E. apply Hne.
  apply (f_equal (λ R, xget R rd)) in E. rewrite xget_xset_eq in E; [done|done|].
  by apply uint_range.
Qed.

(** The straight-line part of a block, when only the loop matters. *)
Lemma liftLoop_prefix iterate body rest s :
  forallb liftable body = true -> ids_left s (length body) ->
  ∃ s', liftLoop iterate (body ++ rest) (mkLifter (nextValueId s) ∅ ∅ [])
        = liftLoop iterate rest s'.
Proof.
  intros Hb [Hid Hn].
  assert (budget (mkLifter (nextValueId s) ∅ ∅ []) = nextValueId s) as Hb0.
  { unfold budget. cbn [nextValueId modifiedRegisters].
    rewrite (size_empty (C:=gset Z)). lia. }
  destruct (execs_everywhere rvsem.upper_field body (rvsem.mkState ∅ ∅) Hb) as [st Hst].
  destruct (liftLoop_body everywhere (nextValueId s) iterate ∅ ∅ body rest st
              (mkLifter (nextValueId s) ∅ ∅ []) ∅ ∅ ∅)
    as (s' & _ & ? & _); [done|by apply inv_start|lia|done|].
  by exists s'.
Qed.

(** C29: a block that contains an instruction without a case in
    [liftSingleInstruction] (LBU, LHU, SB, SH, SUBW, the word shifts, ECALL,
    EBREAK) is refused with an [UnsupportedInstructionError] that prints it,
    whatever follows. *)
Theorem liftBasicBlock_unsupported iterate body i rest s :
  forallb liftable body = true -> ids_left s (length body) ->
  supported (riscv.opcode i) = false -> isTerminator i = false ->
  fst (liftBasicBlock iterate (body ++ i :: rest) s)
  = Err (UnsupportedInstructionError
           ("Unsupported RISC-V instruction: " +:+ riscv.toString i)).
Proof.
  intros Hb Hs Hi Ht. unfold liftBasicBlock. rewrite run_bind.
  destruct (liftLoop_prefix iterate body (i :: rest) s Hb Hs) as (s' & Hl).
  unfold modify at 1. rewrite run_bind, Hl. cbn [liftLoop]. rewrite Ht, run_bind.
  unfold liftSingleInstruction. by destruct (riscv.opcode i).
Qed.

(** The immediate of a decoded LUI is the value to load, a multiple of 4096. *)
Lemma decoded_lui data offset pc i :
  Forall (in_u 8) data -> 0 <= offset -> Decoder.decode data offset pc = Ok i ->
  riscv.opcode i = riscv.LUI ->
  ∃ rd imm, riscv.operands i = [riscv.Register rd; riscv.Immediate imm]
            ∧ in_s 32 imm ∧ imm mod 4096 = 0.
Proof.
  intros Hd Ho H Hop. apply decoded_fit in H; [|done..].
  unfold isa.operands_fit in H. rewrite Hop in H. simpl in H.
  destruct (riscv.operands i) as [|[] [|[] []]]; try done.
  apply andb_true_iff in H as [_ [? ?]%bool_decide_eq_true]. eauto 6.
Qed.

Lemma lui_block upper mapped i rd imm R M :
  riscv.opcode i = riscv.LUI ->
  riscv.operands i = [riscv.Register rd; riscv.Immediate imm] ->
  rvsem.block upper mapped [i] (rvsem.mkState R M)
  = Some (xset R rd (u64 (upper imm)), M, u64 (riscv.address i + 4)).
Proof.
  destruct i as [op ops w a]; simpl. intros -> ->. done.
Qed.

Lemma upper_distinct R r imm :
  in_s 32 imm -> r ≠ 0 -> imm ≠ 0 ->
  xset R r (u64 (imm * 2 ^ 12)) ≠ xset R r (u64 imm).
Proof.
  intros Hi Hr H0 E. unfold xset in E.
  rewrite (proj2 (Z.eqb_neq r 0)) in E by done.
  apply (f_equal (λ R, rd R r)) in E.
  rewrite !rd_wr_eq in E by (by apply uint_range).
  unfold in_s in Hi. change (2 ^ (32 - 1)) with 2147483648 in Hi.
  unfold uint in E. revert E. shifts_to_mul. dlia.
Qed.

(** C35: (defect) the immediate of LUI is shifted twice: the decoder delivers it
    shifted left by 12 and the lifter shifts it by 12 again, so that a decoded
    [lui rd, imm] with a destination other than [x0] loads [imm * 2^12] where
    the instruction set says [imm], a different value unless [imm] is 0. *)
Theorem lui_shifted_twice iterate data offset pc i s :
  (∀ X, iterate X ≡ₚ elements X) -> ids_left s 0 ->
  Forall (in_u 8) data -> 0 <= offset -> Decoder.decode data offset pc = Ok i ->
  riscv.opcode i = riscv.LUI ->
  ∃ rd imm b s', riscv.operands i = [riscv.Register rd; riscv.Immediate imm]
    ∧ liftBasicBlock iterate [i] s = (Ok b, s')
    ∧ ∀ mapped R M,
      irsem.run_block mapped b R M
      = Some (xset R rd (u64 (imm * 2 ^ 12)), M, u64 (riscv.address i + 4))
      ∧ rvsem.block rvsem.upper_value mapped [i] (rvsem.mkState R M)
        = Some (xset R rd (u64 imm), M, u64 (riscv.address i + 4))
      ∧ (rd ≠ 0 -> imm ≠ 0 ->
         irsem.run_block mapped b R M
         ≠ rvsem.block rvsem.upper_value mapped [i] (rvsem.mkState R M)).
Proof.
  intros Hit Hs Hd Ho H Hop.
  pose proof (decoded_fit _ _ _ _ Hd Ho H) as Hf.
  destruct (decoded_lui _ _ _ _ Hd Ho H Hop) as (rd & imm & Hops & Himm & _).
  assert (isTerminator i = false) as Ht by (unfold isTerminator; by rewrite Hop).
  assert (block_fits [] i = true) as Hb.
  { unfold block_fits, ends_block, liftable, supported. by rewrite Hf, Hop. }
  destruct (lift_block_uniform iterate [] i s Hit Hb Hs) as (b & s' & Hl & _ & _ & HRM).
  exists rd, imm, b, s'. split; [done|]. split; [done|]. intros mapped R M.
  pose proof (lui_block rvsem.upper_field mapped i rd imm R M Hop Hops) as Hf1.
  destruct (HRM mapped R M) as (R' & M' & pc' & -> & Hblk & _); [by eexists|]. clear HRM.
  simpl app in Hblk. rewrite Hf1 in Hblk.
  rewrite (lui_block rvsem.upper_value mapped i rd imm) by done.
  rewrite linked_not_terminator in Hblk by done. injection Hblk as <- <- <-.
  replace (is_ret i) with false by (unfold is_ret; by rewrite Hop).
  split; [done|]. split; [done|]. intros Hrd Hi0 E. injection E as E.
  by apply (upper_distinct R rd imm).
Qed.


(** ** Witnesses *)

(** [addi x3, x1, 5; sd x3, 8(x2); lui x4] and
    [bltu x1, x3, 0x20] at 0x1000, from the decoded operands. *)
Definition sample_body : list riscv.Instruction :=
  [ riscv.mkInstruction riscv.ADDI
      [riscv.Register 3; riscv.Register 1; riscv.Immediate 5] 0 0x1000;
    riscv.mkInstruction riscv.SD
      [riscv.Register 2; riscv.Register 3; riscv.Immediate 8] 0 0x1004;
    riscv.mkInstruction riscv.LUI
      [riscv.Register 4; riscv.Immediate 0x5000] 0 0x1008 ].
Definition sample_branch : riscv.Instruction :=
  riscv.mkInstruction riscv.BLTU
    [riscv.Register 1; riscv.Register 3; riscv.Immediate 0x20] 0 0x100c.
Definition sample_call : riscv.Instruction :=
  riscv.mkInstruction riscv.JAL [riscv.Register 1; riscv.Immediate 0x40] 0 0x100c.
Definition sample_ret : riscv.Instruction :=
  riscv.mkInstruction riscv.JALR
    [riscv.Register 0; riscv.Register 1; riscv.Immediate 0] 0 0x100c.

Definition sorted_iterate (X : gset Z) : list Z := elements X.

(** In a state where only the stored word is mapped. *)
Definition sample_mapped (a : Z) : bool := (8 <=? a) && (a <? 16).

(** The body without its LUI. *)
Lemma liftBasicBlock_refines_witness :
  ∃ b s' R' M',
    liftBasicBlock sorted_iterate (take 2 sample_body ++ [sample_branch]) new = (Ok b, s')
    ∧ irsem.run_block sample_mapped b {[1 := 7]} ∅ = Some (R', M', 0x102c)
    ∧ xget R' 3 = 12 ∧ load 8 M' 8 = 12.
Proof.
  destruct (liftBasicBlock_refines sorted_iterate (take 2 sample_body) sample_branch new)
    as (b & s' & Hl & HRM & _);
    [done|reflexivity|reflexivity|reflexivity|split; vm_compute; congruence|].
  eexists b, s', _, _. split; [exact Hl|]. split.
  - apply HRM. vm_compute. reflexivity.
  - split; vm_compute; reflexivity.
Defined.

Lemma liftBasicBlock_ret_stops_witness :
  ∃ b s', liftBasicBlock sorted_iterate (sample_body ++ [sample_ret]) new = (Ok b, s')
    ∧ ∃ R' M', irsem.run_block everywhere b {[1 := 0x2000]} ∅ = Some (R', M', 0)
               ∧ xget R' 1 = 0x2000.
Proof.
  destruct (liftBasicBlock_ret_stops sorted_iterate sample_body sample_ret new)
    as (b & s' & Hl & HRM);
    [done|reflexivity|split; vm_compute; congruence|reflexivity|].
  exists b, s'. split; [exact Hl|].
  destruct (HRM everywhere {[1 := 0x2000]} ∅) as (R' & M' & Hrun & Hblk);
    [by eexists|].
  exists R', M'. split; [exact Hrun|].
  apply (f_equal (fmap (λ x, xget x.1.1 1))) in Hblk.
  assert ((λ x, xget x.1.1 1)
    <$> rvsem.block rvsem.upper_field everywhere (sample_body ++ [sample_ret])
          (rvsem.mkState {[1 := 0x2000]} ∅) = Some 0x2000) as E
    by (vm_compute; reflexivity).
  rewrite E in Hblk. by injection Hblk as Hx.
Defined.

Lemma liftBasicBlock_link_lost_witness :
  ∃ b s',
    liftBasicBlock sorted_iterate (sample_body ++ [sample_call]) new = (Ok b, s')
    ∧ irsem.run_block everywhere b ∅ ∅
      ≠ rvsem.block rvsem.upper_field everywhere (sample_body ++ [sample_call])
          (rvsem.mkState ∅ ∅).
Proof.
  destruct (liftBasicBlock_link_lost sorted_iterate sample_body sample_call new)
    as (b & s' & Hl & HRM);
    [done|reflexivity|split; vm_compute; congruence|reflexivity|].
  exists b, s'. split; [exact Hl|].
  destruct (execs_everywhere rvsem.upper_field sample_body (rvsem.mkState ∅ ∅) eq_refl)
    as [st Hst].
  destruct (HRM everywhere ∅ ∅ st Hst) as (rd & pc & Hrun & Hblk & Hne). apply Hne.
  assert ((λ r, (xget r.1.1 1, xget r.1.1 3)) <$>
    rvsem.block rvsem.upper_field everywhere (sample_body ++ [sample_call])
      (rvsem.mkState ∅ ∅) = Some (0x1010, 5)) as E by (vm_compute; reflexivity).
  assert ((λ st, xget (rvsem.vregs st) 1) <$>
    rvsem.execs rvsem.upper_field everywhere sample_body (rvsem.mkState ∅ ∅) = Some 0) as E0
    by (vm_compute; reflexivity).
  rewrite Hst in E0. injection E0 as E0. rewrite Hblk in E. injection E as E _.
  destruct (decide (rd = 1)) as [->|Hrd]; [by rewrite E0|].
  rewrite xget_xset_ne in E by congruence. by rewrite E0 in E.
Defined.

Lemma liftBasicBlock_unsupported_witness :
  fst (liftBasicBlock sorted_iterate
         (sample_body ++ [riscv.mkInstruction riscv.ECALL [] 0x73 0x100c]) new)
  = Err (UnsupportedInstructionError
           ("Unsupported RISC-V instruction: " +:+
            riscv.toString (riscv.mkInstruction riscv.ECALL [] 0x73 0x100c))).
Proof.
  apply liftBasicBlock_unsupported;
    [reflexivity|split; vm_compute; congruence|reflexivity|reflexivity].
Defined.

(** [lui x5, 0x12345] as the decoder returns it. *)
Lemma lui_shifted_twice_witness :
  ∃ i b s', Decoder.decode (isa.word_bytes 0x123452b7) 0 0x1000 = Ok i
    ∧ liftBasicBlock sorted_iterate [i] new = (Ok b, s')
    ∧ irsem.run_block everywhere b ∅ ∅ ≠ rvsem.block rvsem.upper_value everywhere [i] (rvsem.mkState ∅ ∅).
Proof.
  destruct (lui_shifted_twice sorted_iterate (isa.word_bytes 0x123452b7) 0 0x1000
    (riscv.mkInstruction riscv.LUI
       [riscv.Register 5; riscv.Immediate 0x12345000] 0x123452b7 0x1000) new)
    as (r & imm & b & s' & Hops & Hl & HRM);
    [done|split; vm_compute; congruence
    |repeat constructor; vm_compute; congruence|lia|vm_compute; reflexivity|reflexivity|].
  exists (riscv.mkInstruction riscv.LUI
       [riscv.Register 5; riscv.Immediate 0x12345000] 0x123452b7 0x1000), b, s'.
  split; [vm_compute; reflexivity|]. split; [exact Hl|].
  cbn in Hops. injection Hops as <- <-. apply HRM; lia.
Defined.
