(* ===== verification/LifterForms.v ===== *)
(** * The operations a lifted block contains

    Blocks of RISC-V instructions other than the ones whose ARM64 code the
    encoder has wrong or refuses lift to IR without the IR operations behind
    them. *)
From S2P Require Import Prelude Error Riscv IR Machine IRSemantics Lifter.
Import Lifter.

(** Instructions whose lifting needs none of the operations [plain_kind]
    excludes. *)
Definition plain_op (op : riscv.Opcode) : bool :=
  match op with
  | riscv.XOR | riscv.XORI | riscv.SRL | riscv.SRLI | riscv.LWU => false
  | _ => true
  end.

Definition all_plain (l : list ir.Instruction) : Prop :=
  Forall (λ i, irsem.plain_kind (ir.kind i) = true) l.

(** A computation of the lifter that emits plain instructions only. *)
Definition emits_plain {A} (m : M A) : Prop :=
  ∀ s a s', m s = (Ok a, s') -> all_plain (currentInstructions s) ->
            all_plain (currentInstructions s').

Lemma plain_ret {A} (a : A) : emits_plain (mret a).
Proof. by intros s b s' [= _ <-]. Qed.
Lemma plain_throw {A} e : emits_plain (throw e : M A).
Proof. by intros s b s'. Qed.
Lemma plain_lift {A} (r : result A) : emits_plain (lift r).
Proof. by intros s b s' [= _ <-]. Qed.
Lemma plain_get : emits_plain get.
Proof. by intros s b s' [= _ <-]. Qed.
Lemma plain_bind {A B} (m : M A) (f : A → M B) :
  emits_plain m -> (∀ a, emits_plain (f a)) -> emits_plain (m ≫= f).
Proof. intros Hm Hf s b s' (a & s1 & H1 & H2)%run_bind_Ok Hs. eapply Hf; [done|]. by eapply Hm. Qed.
Lemma plain_modify f :
  (∀ s, currentInstructions (f s) = currentInstructions s) -> emits_plain (modify f).
Proof. intros Hf s b s' [= _ <-]. by rewrite Hf. Qed.

Lemma plain_add k : irsem.plain_kind k = true -> emits_plain (addInstruction k).
Proof.
  intros Hk s b s' [= _ <-] Hs. cbn. apply Forall_app. split; [done|]. by constructor.
Qed.

Create HintDb plain.
#[local] Hint Resolve plain_ret plain_throw plain_lift plain_get plain_bind plain_add : plain.

Lemma plain_getRegister r : emits_plain (getRegisterValue r).
Proof.
  unfold getRegisterValue. destruct (_ =? _); [by apply plain_add|].
  apply plain_bind; [apply plain_get|]. intros s. destruct (_ !! _); [apply plain_ret|].
  apply plain_bind; [by apply plain_add|]. intros v.
  apply plain_bind; [by apply plain_modify|]. intros _. apply plain_ret.
Qed.

Lemma plain_setRegister r v : emits_plain (setRegisterValue r v).
Proof.
  unfold setRegisterValue. destruct (negb _); [|apply plain_ret].
  apply plain_bind; [by apply plain_modify|]. intros _. by apply plain_modify.
Qed.
#[local] Hint Resolve plain_getRegister plain_setRegister : plain.

Ltac plain_step :=
  first
    [ apply plain_ret | apply plain_throw | apply plain_lift | apply plain_get
    | apply plain_getRegister | apply plain_setRegister
    | apply plain_add; reflexivity
    | apply plain_bind; [|intros ?]
    | match goal with
      | |- emits_plain (if ?c then _ else _) => destruct c
      | |- emits_plain (match ?c with _ => _ end) => destruct c
      end ].

Lemma liftSingle_plain i :
  plain_op (riscv.opcode i) = true -> emits_plain (liftSingleInstruction i).
Proof.
  intros Hp. unfold liftSingleInstruction.
  destruct (riscv.opcode i); try discriminate Hp;
    unfold liftRTypeBinaryOp, liftITypeBinaryOp, liftWTypeBinaryOp, liftWTypeImmOp,
      liftLoadInstruction, liftStoreInstruction, unsupported, createConstant, createBinaryOp,
      createLoad, createStore, createSext, createZext, createTrunc, reg, imm;
    cbn [bool_decide];
    repeat first [rewrite bool_decide_true by done | rewrite bool_decide_false by naive_solver];
    repeat plain_step.
Qed.

Lemma liftTerminator_plain i ft : emits_plain (liftTerminator i ft).
Proof.
  unfold liftTerminator, createConditionalBranch, isRet, createConstant, createBinaryOp,
    unsupported, reg, imm.
  repeat plain_step.
Qed.

Lemma writeBack_plain regs : emits_plain (writeBack regs).
Proof.
  induction regs as [|r regs IH]; cbn [writeBack]; [apply plain_ret|].
  repeat first [plain_step | apply IH | by apply plain_modify].
Qed.

Lemma liftLoop_plain iterate insts :
  forallb (λ i, plain_op (riscv.opcode i)) insts = true -> emits_plain (liftLoop iterate insts).
Proof.
  induction insts as [|i insts IH]; cbn [liftLoop forallb]; [intros _; apply plain_ret|].
  intros [Hi Hs]%andb_true_iff. destruct (isTerminator i).
  - unfold finalizeRegisterWrites.
    repeat first [plain_step | apply writeBack_plain | apply liftTerminator_plain].
  - apply plain_bind; [by apply liftSingle_plain|]. intros _. by apply IH.
Qed.

(** The instructions of a lifted block. *)
Lemma lifted_plain iterate insts s b s' :
  forallb (λ i, plain_op (riscv.opcode i)) insts = true ->
  liftBasicBlock iterate insts s = (Ok b, s') -> all_plain (ir.instructions b).
Proof.
  intros Hi H. unfold liftBasicBlock in H.
  apply run_bind_Ok in H as ([] & s1 & [= <-] & H).
  apply run_bind_Ok in H as (t1 & s2 & H2 & H).
  apply run_bind_Ok in H as (t2 & s3 & H3 & [= <- <-]). cbn [ir.instructions].
  assert (all_plain (currentInstructions s2)) as Hs2.
  { eapply liftLoop_plain; [done..|]. constructor. }
  match type of H3 with ?m s2 = _ => assert (emits_plain m) as Hm end.
  { unfold finalizeRegisterWrites. repeat first [plain_step | apply writeBack_plain]. }
  by eapply Hm.
Qed.
