(* ===== verification/Arm64.v ===== *)
(** * ARM64 instructions (lib/ARM64/Instruction.h, Instruction.cpp)

    The target instruction set as the selector builds it and the encoder
    consumes it: operands are physical registers, virtual registers or
    immediates.  The C++ scoped enumerations share enumerator names ([B] is an
    opcode and a data size): the data sizes are [Size_B] to [Size_X] here. *)
From S2P Require Import Prelude Error.

Module arm64.

(** [enum class Register : uint8_t] *)
Inductive Register :=
  | X0 | X1 | X2 | X3 | X4 | X5 | X6 | X7 | X8 | X9 | X10 | X11 | X12 | X13
  | X14 : Register
  | X15 | X16 | X17 | X18 | X19 | X20 | X21 | X22 | X23 | X24 | X25 | X26
  | X27 | X28
  | X29 : Register (* frame pointer *)
  | X30 : Register (* link register *)
  | XSP : Register (* stack pointer *).

(** The enumerator's value. *)
Definition register_number (r : Register) : Z :=
  match r with
  | X0 => 0 | X1 => 1 | X2 => 2 | X3 => 3 | X4 => 4 | X5 => 5 | X6 => 6
  | X7 => 7 | X8 => 8 | X9 => 9 | X10 => 10 | X11 => 11 | X12 => 12
  | X13 => 13 | X14 => 14 | X15 => 15 | X16 => 16 | X17 => 17 | X18 => 18
  | X19 => 19 | X20 => 20 | X21 => 21 | X22 => 22 | X23 => 23 | X24 => 24
  | X25 => 25 | X26 => 26 | X27 => 27 | X28 => 28 | X29 => 29 | X30 => 30
  | XSP => 31
  end.

(** [static_cast<Register>(n)] for the value of an enumerator. *)
Definition register_of_number (n : Z) : Register :=
  match n with
  | 0 => X0 | 1 => X1 | 2 => X2 | 3 => X3 | 4 => X4 | 5 => X5 | 6 => X6
  | 7 => X7 | 8 => X8 | 9 => X9 | 10 => X10 | 11 => X11 | 12 => X12
  | 13 => X13 | 14 => X14 | 15 => X15 | 16 => X16 | 17 => X17 | 18 => X18
  | 19 => X19 | 20 => X20 | 21 => X21 | 22 => X22 | 23 => X23 | 24 => X24
  | 25 => X25 | 26 => X26 | 27 => X27 | 28 => X28 | 29 => X29 | 30 => X30
  | _ => XSP
  end.

Inductive Opcode :=
  (* Arithmetic *)
  | ADD | SUB | MUL | UDIV | SDIV
  (* Bitwise *)
  | AND | ORR | EOR | LSL | LSR | ASR
  (* Load/Store *)
  | LDR | STR
  (* Compare and branch *)
  | CMP | B | B_EQ | B_NE | B_LT | B_LE | B_GT | B_GE
  (* Conditional operations *)
  | CSEL | CSET
  (* Extension *)
  | SXTB | SXTH | SXTW | UXTB | UXTH
  (* Other *)
  | MOV | MOVN | MOVZ | MOVK | RET.

Inductive DataSize := Size_B | Size_H | Size_W | Size_X.

(** [enum class Condition : uint8_t], in the order of the enumerators. *)
Inductive Condition :=
  | EQ | NE | CS | CC | MI | PL | VS | VC | HI | LS | GE | LT | GT | LE | AL
  | NV.

Definition condition_number (c : Condition) : Z :=
  match c with
  | EQ => 0 | NE => 1 | CS => 2 | CC => 3 | MI => 4 | PL => 5 | VS => 6
  | VC => 7 | HI => 8 | LS => 9 | GE => 10 | LT => 11 | GT => 12 | LE => 13
  | AL => 14 | NV => 15
  end.

(** [std::variant<Register, VirtualRegister, Immediate>]; a virtual register is
    an [uint32_t], an immediate holds an [uint64_t]. *)
Inductive Operand :=
  | Reg (r : Register)
  | VirtualRegister (v : Z)
  | Immediate (value : Z).

(** The seven instruction structures; the offset of a memory instruction is an
    [int32_t], [imm16] an [uint16_t], [shift] an [uint8_t], a branch target an
    [uint64_t]. *)
Inductive InstructionKind :=
  | ThreeOperandInst (opcode : Opcode) (size : DataSize) (dest src1 src2 : Operand)
  | TwoOperandInst (opcode : Opcode) (size : DataSize) (dest src : Operand)
  | MemoryInst (opcode : Opcode) (size : DataSize) (reg baseReg : Operand) (offset : Z)
  | MoveWideInst (opcode : Opcode) (size : DataSize) (dest : Operand) (imm16 shift : Z)
  | BranchInst (opcode : Opcode) (target : Z)
  | ConditionalInst (opcode : Opcode) (size : DataSize) (dest : Operand)
      (condition : Condition)
  | ConditionalSelectInst (opcode : Opcode) (size : DataSize)
      (dest src1 src2 : Operand) (condition : Condition).

Record Instruction := mkInstruction { kind : InstructionKind }.

#[global] Instance Register_eq_dec : EqDecision Register.
Proof. solve_decision. Defined.
#[global] Instance Opcode_eq_dec : EqDecision Opcode.
Proof. solve_decision. Defined.
#[global] Instance DataSize_eq_dec : EqDecision DataSize.
Proof. solve_decision. Defined.
#[global] Instance Condition_eq_dec : EqDecision Condition.
Proof. solve_decision. Defined.
#[global] Instance Operand_eq_dec : EqDecision Operand.
Proof. solve_decision. Defined.
#[global] Instance InstructionKind_eq_dec : EqDecision InstructionKind.
Proof. solve_decision. Defined.
#[global] Instance Instruction_eq_dec : EqDecision Instruction.
Proof. solve_decision. Defined.

(** ** Printing *)

Definition registerToString (reg : Register) : string :=
  match reg with
  | X0 => "x0" | X8 => "x8" | X16 => "x16" | X24 => "x24"
  | X1 => "x1" | X9 => "x9" | X17 => "x17" | X25 => "x25"
  | X2 => "x2" | X10 => "x10" | X18 => "x18" | X26 => "x26"
  | X3 => "x3" | X11 => "x11" | X19 => "x19" | X27 => "x27"
  | X4 => "x4" | X12 => "x12" | X20 => "x20" | X28 => "x28"
  | X5 => "x5" | X13 => "x13" | X21 => "x21" | X29 => "x29"
  | X6 => "x6" | X14 => "x14" | X22 => "x22" | X30 => "x30"
  | X7 => "x7" | X15 => "x15" | X23 => "x23" | XSP => "sp"
  end.

Definition opcodeToString (opcode : Opcode) : string :=
  match opcode with
  | ADD => "add" | SUB => "sub" | MUL => "mul" | UDIV => "udiv"
  | SDIV => "sdiv" | AND => "and" | ORR => "orr" | EOR => "eor"
  | LSL => "lsl" | LSR => "lsr" | ASR => "asr" | LDR => "ldr" | STR => "str"
  | CMP => "cmp" | B => "b" | B_EQ => "b.eq" | B_NE => "b.ne"
  | B_LT => "b.lt" | B_LE => "b.le" | B_GT => "b.gt" | B_GE => "b.ge"
  | CSEL => "csel" | CSET => "cset" | SXTB => "sxtb" | SXTH => "sxth"
  | SXTW => "sxtw" | UXTB => "uxtb" | UXTH => "uxth" | MOV => "mov"
  | MOVN => "movn" | MOVZ => "movz" | MOVK => "movk" | RET => "ret"
  end.

Definition dataSizeToString (size : DataSize) : string :=
  match size with
  | Size_B => "b" | Size_H => "h" | Size_W => "w" | Size_X => "x"
  end.

Definition conditionToString (condition : Condition) : string :=
  match condition with
  | EQ => "eq" | NE => "ne" | CS => "cs" | CC => "cc" | MI => "mi"
  | PL => "pl" | VS => "vs" | VC => "vc" | HI => "hi" | LS => "ls"
  | GE => "ge" | LT => "lt" | GT => "gt" | LE => "le" | AL => "al"
  | NV => "nv"
  end.

Definition operandToString (operand : Operand) : string :=
  match operand with
  | Reg r => registerToString r
  | VirtualRegister v => "v" +:+ to_string v
  | Immediate value => "#" +:+ to_string value
  end.

Definition toString (inst : Instruction) : string :=
  match kind inst with
  | ThreeOperandInst opcode _ dest src1 src2 =>
      opcodeToString opcode +:+ " " +:+ operandToString dest +:+ ", " +:+
      operandToString src1 +:+ ", " +:+ operandToString src2
  | TwoOperandInst opcode _ dest src =>
      opcodeToString opcode +:+ " " +:+ operandToString dest +:+ ", " +:+
      operandToString src
  | MemoryInst opcode _ reg baseReg offset =>
      opcodeToString opcode +:+ " " +:+ operandToString reg +:+ ", [" +:+
      operandToString baseReg +:+
      (if negb (offset =? 0) then ", #" +:+ to_string offset else "") +:+ "]"
  | MoveWideInst opcode _ dest imm16 shift =>
      opcodeToString opcode +:+ " " +:+ operandToString dest +:+ ", #" +:+
      to_string imm16 +:+
      (if negb (shift =? 0) then ", lsl #" +:+ to_string shift else "")
  | BranchInst opcode target =>
      opcodeToString opcode +:+ " 0x" +:+ to_hex target
  | ConditionalInst opcode _ dest condition =>
      opcodeToString opcode +:+ " " +:+ operandToString dest +:+ ", " +:+
      conditionToString condition
  | ConditionalSelectInst opcode _ dest src1 src2 condition =>
      opcodeToString opcode +:+ " " +:+ operandToString dest +:+ ", " +:+
      operandToString src1 +:+ ", " +:+ operandToString src2 +:+ ", " +:+
      conditionToString condition
  end.

(** ** Facts *)

Lemma register_number_range r : 0 <= register_number r < 32.
Proof. by destruct r. Qed.

Lemma condition_number_range c : 0 <= condition_number c < 16.
Proof. by destruct c. Qed.

Lemma register_of_to r : register_of_number (register_number r) = r.
Proof. by destruct r. Qed.

#[global] Instance register_number_inj : Inj (=) (=) register_number.
Proof. intros r s H. by rewrite <- (register_of_to r), H, register_of_to. Qed.

(** Does an operand still name a virtual register? *)
Definition is_virtual (o : Operand) : bool :=
  match o with VirtualRegister _ => true | _ => false end.

(** The operands of an instruction, in the order of its structure. *)
Definition operands (i : Instruction) : list Operand :=
  match kind i with
  | ThreeOperandInst _ _ d s1 s2 | ConditionalSelectInst _ _ d s1 s2 _ => [d; s1; s2]
  | TwoOperandInst _ _ d s => [d; s]
  | MemoryInst _ _ r b _ => [r; b]
  | MoveWideInst _ _ d _ _ | ConditionalInst _ _ d _ => [d]
  | BranchInst _ _ => []
  end.

End arm64.
