(* ===== verification/Encoder.v ===== *)
(** * The encoder (lib/ARM64/Encoder.cpp)

    [Encoder::encodeInstruction] as a function to [result]: the 32-bit word of
    an instruction as its four little-endian bytes, or the [EncodingError] it
    throws.  All words are [uint32_t]: every [encoded = ...] is [u32] of the
    or-ed fields. *)
From S2P Require Import Prelude Error Arm64.

Module Encoder.
Import arm64.

Definition encodeRegister (operand : Operand) : result Z :=
  match operand with
  | Reg r => if bool_decide (r = XSP) then Ok 31 else Ok (register_number r)
  | VirtualRegister _ =>
      Err (EncodingError "Cannot encode virtual register - register allocation required")
  | Immediate _ => Err (EncodingError "Invalid operand type for register encoding")
  end.

Definition isImmediate (operand : Operand) : bool :=
  match operand with Immediate _ => true | _ => false end.

Definition getSfBit (size : DataSize) : Z :=
  if bool_decide (size = Size_X) then 1 else 0.

Definition getConditionCode (opcode : Opcode) : result Z :=
  match opcode with
  | B_EQ => Ok 0x0
  | B_NE => Ok 0x1
  | B_LT => Ok 0xb
  | B_LE => Ok 0xd
  | B_GT => Ok 0xc
  | B_GE => Ok 0xa
  | _ => Err (EncodingError "Unsupported condition code opcode")
  end.

(** [uint32_t imm = ...value; if (imm > 0xFFF) throw ...]: the value is
    truncated to 32 bits before it is tested. *)
Definition imm12 (value : Z) (msg : string) : result Z :=
  let imm := u32 value in
  if 0xFFF <? imm then Err (EncodingError msg) else Ok imm.

Definition datasize (sf : Z) : Z := if sf =? 1 then 64 else 32.

Definition encodeThreeOperandInst (opcode : Opcode) (size : DataSize)
    (dest src1 src2 : Operand) : result Z :=
  let sf := getSfBit size in
  rd ← encodeRegister dest;
  rn ← encodeRegister src1;
  match opcode with
  | ADD =>
      match src2 with
      | Immediate value =>
          imm ← imm12 value "ADD immediate value too large (>12 bits)";
          let sh := 0 in
          Ok (u32 (sf <<. 31 |. 0x22 <<. 23 |. sh <<. 22 |. imm <<. 10 |. rn <<. 5 |. rd))
      | _ =>
          rm ← encodeRegister src2;
          let shift := 0 in
          let imm6 := 0 in
          Ok (u32 (sf <<. 31 |. 0x0b <<. 24 |. shift <<. 22 |. rm <<. 16
                   |. imm6 <<. 10 |. rn <<. 5 |. rd))
      end
  | SUB =>
      match src2 with
      | Immediate value =>
          imm ← imm12 value "SUB immediate value too large (>12 bits)";
          let sh := 0 in
          Ok (u32 (sf <<. 31 |. 0xa2 <<. 23 |. sh <<. 22 |. imm <<. 10 |. rn <<. 5 |. rd))
      | _ =>
          rm ← encodeRegister src2;
          let shift := 0 in
          let imm6 := 0 in
          Ok (u32 (sf <<. 31 |. 0x4b <<. 24 |. shift <<. 22 |. rm <<. 16
                   |. imm6 <<. 10 |. rn <<. 5 |. rd))
      end
  | AND =>
      if isImmediate src2 then Err (EncodingError "AND with immediate not supported")
      else
        rm ← encodeRegister src2;
        let shift := 0 in
        let imm6 := 0 in
        Ok (u32 (sf <<. 31 |. 0x05 <<. 25 |. shift <<. 23 |. rm <<. 16
                 |. imm6 <<. 10 |. rn <<. 5 |. rd))
  | ORR =>
      if isImmediate src2 then Err (EncodingError "ORR with immediate not supported")
      else
        rm ← encodeRegister src2;
        let shift := 0 in
        let imm6 := 0 in
        Ok (u32 (sf <<. 31 |. 0x15 <<. 25 |. shift <<. 23 |. rm <<. 16
                 |. imm6 <<. 10 |. rn <<. 5 |. rd))
  | EOR =>
      if isImmediate src2 then Err (EncodingError "EOR with immediate not supported")
      else
        rm ← encodeRegister src2;
        let shift := 0 in
        let imm6 := 0 in
        Ok (u32 (sf <<. 31 |. 0x35 <<. 25 |. shift <<. 23 |. rm <<. 16
                 |. imm6 <<. 10 |. rn <<. 5 |. rd))
  | MUL =>
      if isImmediate src2 then Err (EncodingError "MUL with immediate not supported")
      else
        rm ← encodeRegister src2;
        let ra := 31 in
        Ok (u32 (sf <<. 31 |. 0xd8 <<. 21 |. rm <<. 16 |. ra <<. 10 |. rn <<. 5 |. rd))
  | CMP =>
      match src2 with
      | Immediate value =>
          imm ← imm12 value "CMP immediate value too large (>12 bits)";
          let sh := 0 in
          let xzr := 31 in
          Ok (u32 (sf <<. 31 |. 0xe2 <<. 23 |. sh <<. 22 |. imm <<. 10 |. rn <<. 5 |. xzr))
      | _ =>
          rm ← encodeRegister src2;
          let shift := 0 in
          let imm6 := 0 in
          let xzr := 31 in
          Ok (u32 (sf <<. 31 |. 0x6b <<. 24 |. shift <<. 22 |. rm <<. 16
                   |. imm6 <<. 10 |. rn <<. 5 |. xzr))
      end
  | LSL =>
      match src2 with
      | Immediate shiftAmount =>
          let datasize := datasize sf in
          if datasize <=? shiftAmount then
            Err (EncodingError "LSL shift amount out of range")
          else
            let N := sf in
            let immr := u32 ((datasize - shiftAmount) mod datasize) in
            let imms := u32 (datasize - 1 - shiftAmount) in
            Ok (u32 (sf <<. 31 |. 0xa6 <<. 23 |. N <<. 22 |. immr <<. 16
                     |. imms <<. 10 |. rn <<. 5 |. rd))
      | _ =>
          rm ← encodeRegister src2;
          Ok (u32 (sf <<. 31 |. 0xd6 <<. 21 |. rm <<. 16 |. 0x8 <<. 10
                   |. rn <<. 5 |. rd))
      end
  | LSR =>
      match src2 with
      | Immediate shiftAmount =>
          let datasize := datasize sf in
          if datasize <=? shiftAmount then
            Err (EncodingError "LSR shift amount out of range")
          else
            let N := sf in
            let immr := u32 shiftAmount in
            let imms := datasize - 1 in
            Ok (u32 (sf <<. 31 |. 0xa6 <<. 23 |. N <<. 22 |. immr <<. 16
                     |. imms <<. 10 |. rn <<. 5 |. rd))
      | _ =>
          rm ← encodeRegister src2;
          Ok (u32 (sf <<. 31 |. 0x1ac <<. 20 |. rm <<. 16 |. 0x6 <<. 10
                   |. rn <<. 5 |. rd))
      end
  | ASR =>
      match src2 with
      | Immediate shiftAmount =>
          let datasize := datasize sf in
          if datasize <=? shiftAmount then
            Err (EncodingError "ASR shift amount out of range")
          else
            let N := sf in
            let immr := u32 shiftAmount in
            let imms := datasize - 1 in
            Ok (u32 (sf <<. 31 |. 0x26 <<. 23 |. N <<. 22 |. immr <<. 16
                     |. imms <<. 10 |. rn <<. 5 |. rd))
      | _ =>
          rm ← encodeRegister src2;
          Ok (u32 (sf <<. 31 |. 0x1ac <<. 20 |. rm <<. 16 |. 0xa <<. 10
                   |. rn <<. 5 |. rd))
      end
  | _ => Err (EncodingError "Unsupported three-operand instruction opcode")
  end.

Definition encodeTwoOperandInst (opcode : Opcode) (size : DataSize)
    (dest src : Operand) : result Z :=
  let sf := getSfBit size in
  rd ← encodeRegister dest;
  match opcode with
  | MOV =>
      match src with
      | Immediate imm =>
          if 0xFFFF <? imm then
            Err (EncodingError "MOV immediate value too large (>16 bits)")
          else
            let hw := 0 in
            Ok (u32 (sf <<. 31 |. 0xa5 <<. 23 |. hw <<. 21 |. (imm &. 0xFFFF) <<. 5 |. rd))
      | _ =>
          rm ← encodeRegister src;
          let shift := 0 in
          let imm6 := 0 in
          let rn_xzr := 31 in
          Ok (u32 (sf <<. 31 |. 0x15 <<. 25 |. shift <<. 23 |. rm <<. 16
                   |. imm6 <<. 10 |. rn_xzr <<. 5 |. rd))
      end
  | SXTB =>
      rn ← encodeRegister src;
      let N := sf in
      let immr := 0 in
      let imms := 7 in
      Ok (u32 (sf <<. 31 |. 0x26 <<. 23 |. N <<. 22 |. immr <<. 16
               |. imms <<. 10 |. rn <<. 5 |. rd))
  | SXTH =>
      rn ← encodeRegister src;
      let N := sf in
      let immr := 0 in
      let imms := 15 in
      Ok (u32 (sf <<. 31 |. 0x26 <<. 23 |. N <<. 22 |. immr <<. 16
               |. imms <<. 10 |. rn <<. 5 |. rd))
  | SXTW =>
      rn ← encodeRegister src;
      let N := 1 in
      let immr := 0 in
      let imms := 31 in
      Ok (u32 (1 <<. 31 |. 0x26 <<. 23 |. N <<. 22 |. immr <<. 16
               |. imms <<. 10 |. rn <<. 5 |. rd))
  | RET =>
      rn ← encodeRegister src;
      Ok (u32 (0xD65F0000 |. rn <<. 5))
  | MOVN =>
      match src with
      | Immediate imm =>
          if 0xFFFF <? imm then
            Err (EncodingError "MOVN immediate value too large (>16 bits)")
          else
            let hw := 0 in
            Ok (u32 (sf <<. 31 |. 0x25 <<. 23 |. hw <<. 21 |. (imm &. 0xFFFF) <<. 5 |. rd))
      | _ => Err (EncodingError "MOVN only supports immediate operands")
      end
  | CMP =>
      rn ← encodeRegister dest;
      match src with
      | Immediate value =>
          imm ← imm12 value "CMP immediate value too large (>12 bits)";
          let sh := 0 in
          let xzr := 31 in
          Ok (u32 (sf <<. 31 |. 0xe2 <<. 23 |. sh <<. 22 |. imm <<. 10 |. rn <<. 5 |. xzr))
      | _ =>
          rm ← encodeRegister src;
          let shift := 0 in
          let imm6 := 0 in
          let xzr := 31 in
          Ok (u32 (sf <<. 31 |. 0x6b <<. 24 |. shift <<. 22 |. rm <<. 16
                   |. imm6 <<. 10 |. rn <<. 5 |. xzr))
      end
  | _ => Err (EncodingError "Unsupported two-operand instruction opcode")
  end.

(** The [size] field of a memory instruction. *)
Definition size_field (size : DataSize) : Z :=
  match size with Size_B => 0 | Size_H => 1 | Size_W => 2 | Size_X => 3 end.

(** [offset] is an [int32_t]: [%] truncates towards zero, [>>] is arithmetic. *)
Definition encodeMemoryInst (opcode : Opcode) (dsize : DataSize)
    (reg baseReg : Operand) (offset : Z) : result Z :=
  rt ← encodeRegister reg;
  rn ← encodeRegister baseReg;
  let size := size_field dsize in
  match opcode with
  | LDR =>
      if (0 <=? offset) && (Z.rem offset (1 <<. size) =? 0) then
        let scaledOffset := u32 (offset >>. size) in
        if scaledOffset <=? 0xFFF then
          Ok (u32 (size <<. 30 |. 0xe5 <<. 22 |. scaledOffset <<. 10 |. rn <<. 5 |. rt))
        else Err (EncodingError "LDR scaled offset too large (>4095)")
      else if (-256 <=? offset) && (offset <=? 255) then
        Ok (u32 (size <<. 30 |. 0xe0 <<. 22 |. (offset &. 0x1FF) <<. 12
                 |. 0x3 <<. 10 |. rn <<. 5 |. rt))
      else Err (EncodingError "LDR offset out of range")
  | STR =>
      if (0 <=? offset) && (Z.rem offset (1 <<. size) =? 0) then
        let scaledOffset := u32 (offset >>. size) in
        if scaledOffset <=? 0xFFF then
          Ok (u32 (size <<. 30 |. 0xe4 <<. 22 |. scaledOffset <<. 10 |. rn <<. 5 |. rt))
        else Err (EncodingError "STR scaled offset too large (>4095)")
      else if (-256 <=? offset) && (offset <=? 255) then
        Ok (u32 (size <<. 30 |. 0xe0 <<. 22 |. (offset &. 0x1FF) <<. 12
                 |. 0x1 <<. 10 |. rn <<. 5 |. rt))
      else Err (EncodingError "STR offset out of range")
  | _ => Err (EncodingError "Unsupported memory instruction opcode")
  end.

Definition encodeBranchInst (opcode : Opcode) (target : Z) : result Z :=
  let offset := i64 target in
  if (offset <? -0x2000000) || (0x1FFFFFF <? offset) then
    Err (EncodingError "Branch target out of range")
  else
    let imm26 := u32 ((offset >>. 2) &. 0x3FFFFFF) in
    match opcode with
    | B => Ok (u32 (0x05 <<. 26 |. imm26))
    | B_EQ | B_NE | B_LT | B_LE | B_GT | B_GE =>
        if (offset <? -0x40000) || (0x3FFFF <? offset) then
          Err (EncodingError "Conditional branch target out of range")
        else
          let imm19 := u32 ((offset >>. 2) &. 0x7FFFF) in
          cond ← getConditionCode opcode;
          Ok (u32 (0x2a <<. 25 |. imm19 <<. 5 |. cond))
    | _ => Err (EncodingError "Unsupported branch instruction opcode")
    end.

Definition encodeMoveWideInst (opcode : Opcode) (size : DataSize) (dest : Operand)
    (imm16 shift : Z) : result Z :=
  let sf := getSfBit size in
  rd ← encodeRegister dest;
  let hw := shift / 16 in
  if 3 <? hw then
    Err (EncodingError "Invalid shift amount for move wide instruction")
  else
    match opcode with
    | MOVZ => Ok (u32 (sf <<. 31 |. 0xa5 <<. 23 |. hw <<. 21 |. imm16 <<. 5 |. rd))
    | MOVK => Ok (u32 (sf <<. 31 |. 0xe5 <<. 23 |. hw <<. 21 |. imm16 <<. 5 |. rd))
    | _ => Err (EncodingError "Unsupported move wide instruction opcode")
    end.

Definition encodeConditionalInst (opcode : Opcode) (size : DataSize) (dest : Operand)
    (condition : Condition) : result Z :=
  let sf := getSfBit size in
  rd ← encodeRegister dest;
  match opcode with
  | CSET =>
      let cond := Z.lxor (condition_number condition) 1 in
      Ok (u32 (sf <<. 31 |. 0xd4 <<. 21 |. 0x1f <<. 16 |. cond <<. 12
               |. 0x1 <<. 10 |. 0x1f <<. 5 |. rd))
  | _ => Err (EncodingError "Unsupported conditional instruction")
  end.

Definition encodeConditionalSelectInst (opcode : Opcode) (size : DataSize)
    (dest src1 src2 : Operand) (condition : Condition) : result Z :=
  let sf := getSfBit size in
  rd ← encodeRegister dest;
  rn ← encodeRegister src1;
  match opcode with
  | CSEL =>
      if isImmediate src1 || isImmediate src2 then
        Err (EncodingError "CSEL with immediate operands not supported")
      else
        rm ← encodeRegister src2;
        let cond := condition_number condition in
        Ok (u32 (sf <<. 31 |. 0xd4 <<. 21 |. rm <<. 16 |. cond <<. 12
                 |. rn <<. 5 |. rd))
  | _ => Err (EncodingError "Unsupported conditional select instruction")
  end.

(** The visitor of [encodeInstruction]. *)
Definition encodeWord (inst : Instruction) : result Z :=
  match kind inst with
  | ThreeOperandInst opcode size dest src1 src2 =>
      encodeThreeOperandInst opcode size dest src1 src2
  | TwoOperandInst opcode size dest src => encodeTwoOperandInst opcode size dest src
  | MemoryInst opcode size reg baseReg offset =>
      encodeMemoryInst opcode size reg baseReg offset
  | MoveWideInst opcode size dest imm16 shift =>
      encodeMoveWideInst opcode size dest imm16 shift
  | BranchInst opcode target => encodeBranchInst opcode target
  | ConditionalInst opcode size dest condition =>
      encodeConditionalInst opcode size dest condition
  | ConditionalSelectInst opcode size dest src1 src2 condition =>
      encodeConditionalSelectInst opcode size dest src1 src2 condition
  end.

Definition encodeInstruction (inst : Instruction) : result (list Z) :=
  encoded ← encodeWord inst;
  Ok [u8 (encoded &. 0xFF); u8 ((encoded >>. 8) &. 0xFF);
      u8 ((encoded >>. 16) &. 0xFF); u8 ((encoded >>. 24) &. 0xFF)].

End Encoder.
