(* ===== verification/A64.v ===== *)
(** * A64 machine words (reference)

    The decoding of 32-bit A64 words, after the Arm architecture reference
    manual (section C4, top level encodings), for the instruction classes the
    encoder of lib/ARM64/Encoder.cpp produces, with the reserved and unallocated
    encodings of these classes left undefined.  It is the specification the
    encoder is compared with; it models no code of the repository.  Register
    fields stay numbers: 31 is the stack pointer or the zero register depending
    on the instruction. *)
From S2P Require Import Prelude.

Module a64.

Inductive logical := AND | ORR | EOR | ANDS | BIC | ORN | EON | BICS.
Inductive wide := MOVN | MOVZ | MOVK.
Inductive shiftv := LSLV | LSRV | ASRV | RORV.
Inductive index := Unscaled | PostIndex | PreIndex.

(** [sf] is true for the 64-bit form. *)
Inductive instr :=
  | AddSubImm (sf sub setflags : bool) (sh imm12 rn rd : Z)
  | AddSubReg (sf sub setflags : bool) (shift imm6 rm rn rd : Z)
  | Logical (sf : bool) (op : logical) (shift imm6 rm rn rd : Z)
  | MoveWide (sf : bool) (op : wide) (hw imm16 rd : Z)
  | SBFM (sf : bool) (immr imms rn rd : Z)
  | UBFM (sf : bool) (immr imms rn rd : Z)
  | MADD (sf : bool) (ra rm rn rd : Z)
  | ShiftV (sf : bool) (op : shiftv) (rm rn rd : Z)
  | CSEL (sf : bool) (cond rm rn rd : Z)
  | CSINC (sf : bool) (cond rm rn rd : Z)
  | LoadUnsigned (size imm12 rn rt : Z)
  | StoreUnsigned (size imm12 rn rt : Z)
  | LoadIndexed (size : Z) (mode : index) (imm9 rn rt : Z)
  | StoreIndexed (size : Z) (mode : index) (imm9 rn rt : Z)
  | Branch (imm26 : Z)
  | BranchCond (cond imm19 : Z)
  | Ret (rn : Z).

Definition flag (b : Z) : bool := b =? 1.

(** Data processing (immediate), bits 28-26 = 100. *)
Definition decode_dp_imm (w : Z) : option instr :=
  let sf := flag (bits 31 1 w) in
  let rn := bits 5 5 w in
  let rd := bits 0 5 w in
  let narrow x := negb sf && (32 <=? x) in
  match bits 23 3 w with
  | 2 => (* add/subtract (immediate) *)
      Some (AddSubImm sf (flag (bits 30 1 w)) (flag (bits 29 1 w))
              (bits 22 1 w) (bits 10 12 w) rn rd)
  | 5 => (* move wide (immediate) *)
      let hw := bits 21 2 w in
      if negb sf && (2 <=? hw) then None
      else match bits 29 2 w with
           | 0 => Some (MoveWide sf MOVN hw (bits 5 16 w) rd)
           | 2 => Some (MoveWide sf MOVZ hw (bits 5 16 w) rd)
           | 3 => Some (MoveWide sf MOVK hw (bits 5 16 w) rd)
           | _ => None
           end
  | 6 => (* bitfield *)
      let immr := bits 16 6 w in
      let imms := bits 10 6 w in
      if negb (bits 22 1 w =? bits 31 1 w) || narrow immr || narrow imms then None
      else match bits 29 2 w with
           | 0 => Some (SBFM sf immr imms rn rd)
           | 2 => Some (UBFM sf immr imms rn rd)
           | _ => None
           end
  | _ => None
  end.

(** Data processing (register), bits 27-25 = 101. *)
Definition decode_dp_reg (w : Z) : option instr :=
  let sf := flag (bits 31 1 w) in
  let rm := bits 16 5 w in
  let rn := bits 5 5 w in
  let rd := bits 0 5 w in
  let imm6 := bits 10 6 w in
  match bits 24 5 w with
  | 10 => (* logical (shifted register) *)
      if negb sf && (32 <=? imm6) then None
      else
        let op :=
          match bits 29 2 w, bits 21 1 w with
          | 0, 0 => AND | 0, _ => BIC
          | 1, 0 => ORR | 1, _ => ORN
          | 2, 0 => EOR | 2, _ => EON
          | _, 0 => ANDS | _, _ => BICS
          end in
        Some (Logical sf op (bits 22 2 w) imm6 rm rn rd)
  | 11 => (* add/subtract (shifted register); bit 21 set: extended register *)
      if (bits 21 1 w =? 1) || (bits 22 2 w =? 3) || negb sf && (32 <=? imm6) then None
      else Some (AddSubReg sf (flag (bits 30 1 w)) (flag (bits 29 1 w))
                   (bits 22 2 w) imm6 rm rn rd)
  | 26 =>
      match bits 29 2 w, bits 21 3 w with
      | 0, 6 => (* data processing (2 source) *)
          match imm6 with
          | 8 => Some (ShiftV sf LSLV rm rn rd)
          | 9 => Some (ShiftV sf LSRV rm rn rd)
          | 10 => Some (ShiftV sf ASRV rm rn rd)
          | 11 => Some (ShiftV sf RORV rm rn rd)
          | _ => None
          end
      | 0, 4 => (* conditional select *)
          match bits 10 2 w with
          | 0 => Some (CSEL sf (bits 12 4 w) rm rn rd)
          | 1 => Some (CSINC sf (bits 12 4 w) rm rn rd)
          | _ => None
          end
      | _, _ => None
      end
  | 27 => (* data processing (3 source): MADD only *)
      if (bits 29 2 w =? 0) && (bits 21 3 w =? 0) && (bits 15 1 w =? 0) then
        Some (MADD sf (bits 10 5 w) rm rn rd)
      else None
  | _ => None
  end.

(** Loads and stores of one general-purpose register, bits 29-27 = 111 and
    bit 26 (SIMD) clear. *)
Definition decode_ldst (w : Z) : option instr :=
  let size := bits 30 2 w in
  let rn := bits 5 5 w in
  let rt := bits 0 5 w in
  match bits 24 2 w, bits 22 2 w with
  | 1, 0 => Some (StoreUnsigned size (bits 10 12 w) rn rt)
  | 1, 1 => Some (LoadUnsigned size (bits 10 12 w) rn rt)
  | 0, opc =>
      let mode := match bits 10 2 w with
                  | 0 => Some Unscaled | 1 => Some PostIndex | 3 => Some PreIndex
                  | _ => None
                  end in
      if bits 21 1 w =? 1 then None
      else match mode, opc with
           | Some m, 0 => Some (StoreIndexed size m (bits 12 9 w) rn rt)
           | Some m, 1 => Some (LoadIndexed size m (bits 12 9 w) rn rt)
           | _, _ => None
           end
  | _, _ => None
  end.

Definition decode_branch (w : Z) : option instr :=
  if bits 26 6 w =? 5 then Some (Branch (bits 0 26 w))
  else if (bits 24 8 w =? 84) && (bits 4 1 w =? 0) then
    Some (BranchCond (bits 0 4 w) (bits 5 19 w))
  else if (bits 10 22 w =? 0x3597c0) && (bits 0 5 w =? 0) then
    Some (Ret (bits 5 5 w))
  else None.

Definition decode (w : Z) : option instr :=
  if bits 26 3 w =? 4 then decode_dp_imm w
  else if bits 26 3 w =? 5 then decode_branch w
  else if bits 25 3 w =? 5 then decode_dp_reg w
  else if bits 26 4 w =? 14 then decode_ldst w
  else None.

(** Instruction fetch: a little-endian word. *)
Definition fetch (l : list Z) : option Z :=
  match l with
  | [b0; b1; b2; b3] => Some (b0 + b1 * 2 ^ 8 + b2 * 2 ^ 16 + b3 * 2 ^ 24)
  | _ => None
  end.

End a64.
