(* ===== verification/A64Semantics.v ===== *)
(** * Semantics of A64 instructions (reference)

    The effect of the decoded instructions of A64.v on general-purpose
    registers, condition flags and memory, after the Arm architecture reference
    manual.  Register 31 is the zero register; the uses of 31 as the stack
    pointer, branches and the ill-defined write-back forms have no meaning
    here.  An instruction's effect is computed before it is applied
    ([effect]), so that renaming registers is a statement about effects. *)
From S2P Require Import Prelude Machine A64.

Module a64sem.
Import machine.

(** The condition flags. *)
Record flags := mkFlags { fN : bool; fZ : bool; fC : bool; fV : bool }.

Record state := mkState { xr : regs; fl : flags; hm : mem }.

Definition xget (X : regs) (r : Z) : Z := if r =? 31 then 0 else rd X r.
Definition xset (X : regs) (r v : Z) : regs := if r =? 31 then X else wr X r v.

(** Registers written, flags and memory afterwards. *)
Record effect := mkEffect { writes : list (Z * Z); eflags : flags; emem : mem }.

Definition apply_writes (l : list (Z * Z)) (X : regs) : regs :=
  foldl (λ X w, xset X w.1 w.2) X l.

Definition width (sf : bool) : Z := if sf then 64 else 32.

(** ** Flags and conditions *)

(** [SUBS] on [w]-bit operands: carry is set when there is no borrow. *)
Definition sub_flags (w a b : Z) : flags :=
  let r := uint w (a - b) in
  mkFlags (2 ^ (w - 1) <=? r) (r =? 0) (b <=? a)
    (negb (bool_decide (in_s w (sint w a - sint w b)))).

Definition add_flags (w a b : Z) : flags :=
  let r := uint w (a + b) in
  mkFlags (2 ^ (w - 1) <=? r) (r =? 0) (2 ^ w <=? a + b)
    (negb (bool_decide (in_s w (sint w a + sint w b)))).

Definition logic_flags (w r : Z) : flags :=
  mkFlags (2 ^ (w - 1) <=? r) (r =? 0) false false.

(** [ConditionHolds]: the low bit of the number negates, but for 15. *)
Definition base_condition (c : Z) (f : flags) : bool :=
  match c / 2 with
  | 0 => fZ f
  | 1 => fC f
  | 2 => fN f
  | 3 => fV f
  | 4 => fC f && negb (fZ f)
  | 5 => eqb (fN f) (fV f)
  | 6 => eqb (fN f) (fV f) && negb (fZ f)
  | _ => true
  end.

Definition holds (c : Z) (f : flags) : bool :=
  if (c mod 2 =? 1) && negb (c =? 15) then negb (base_condition c f)
  else base_condition c f.

(** ** Operands *)

Definition ror (w v n : Z) : Z := uint w ((v >>. n) |. (v <<. (w - n))).

(** A register operand shifted by a constant: LSL, LSR, ASR, ROR. *)
Definition shifted (w kind amount v : Z) : Z :=
  let v := uint w v in
  match kind with
  | 0 => uint w (v <<. amount)
  | 1 => v >>. amount
  | 2 => uint w (sint w v >>. amount)
  | _ => ror w v amount
  end.

(** Bit field moves; [ext] extends the field of the given width. *)
Definition bitfield (w : Z) (ext : Z → Z → Z) (immr imms v : Z) : Z :=
  let v := uint w v in
  if immr <=? imms then ext (imms - immr + 1) (v >>. immr)
  else uint w (ext (imms + 1) v <<. (w - immr)).

Definition logical_op (op : a64.logical) (w a b : Z) : Z :=
  match op with
  | a64.AND | a64.ANDS => a &. b
  | a64.ORR => a |. b
  | a64.EOR => Z.lxor a b
  | a64.BIC | a64.BICS => a &. uint w (Z.lnot b)
  | a64.ORN => a |. uint w (Z.lnot b)
  | a64.EON => Z.lxor a (uint w (Z.lnot b))
  end.

Definition sets_flags (op : a64.logical) : bool :=
  match op with a64.ANDS | a64.BICS => true | _ => false end.

Definition bytes (size : Z) : nat := Z.to_nat (2 ^ size).

Definition writes_back (mode : a64.index) : bool :=
  match mode with a64.Unscaled => false | _ => true end.

(** ** Instructions *)

Definition eval (i : a64.instr) (s : state) : option effect :=
  let x := xget (xr s) in
  let value r v := Some (mkEffect [(r, v)] (fl s) (hm s)) in
  match i with
  | a64.AddSubImm sf sub setflags sh imm12 rn rd =>
      (* 31 is the stack pointer, but for the destination of ADDS and SUBS *)
      if (rn =? 31) || (rd =? 31) && negb setflags then None
      else
        let w := width sf in
        let a := uint w (x rn) in
        let b := imm12 * 2 ^ (if sh =? 1 then 12 else 0) in
        let r := uint w (if (sub : bool) then a - b else a + b) in
        let f := if (sub : bool) then sub_flags w a b else add_flags w a b in
        Some (mkEffect [(rd, r)] (if (setflags : bool) then f else fl s) (hm s))
  | a64.AddSubReg sf sub setflags shift imm6 rm rn rd =>
      let w := width sf in
      let a := uint w (x rn) in
      let b := shifted w shift imm6 (x rm) in
      let r := uint w (if (sub : bool) then a - b else a + b) in
      let f := if (sub : bool) then sub_flags w a b else add_flags w a b in
      Some (mkEffect [(rd, r)] (if (setflags : bool) then f else fl s) (hm s))
  | a64.Logical sf op shift imm6 rm rn rd =>
      let w := width sf in
      let r := logical_op op w (uint w (x rn)) (shifted w shift imm6 (x rm)) in
      Some (mkEffect [(rd, r)] (if sets_flags op then logic_flags w r else fl s) (hm s))
  | a64.MoveWide sf op hw imm16 rd =>
      let w := width sf in
      let k := 16 * hw in
      value rd
        match op with
        | a64.MOVN => uint w (Z.lnot (imm16 <<. k))
        | a64.MOVZ => uint w (imm16 <<. k)
        | a64.MOVK => uint w (x rd - bits k 16 (x rd) * 2 ^ k + imm16 * 2 ^ k)
        end
  | a64.SBFM sf immr imms rn rd =>
      let w := width sf in
      value rd (bitfield w (λ n v, uint w (sint n v)) immr imms (x rn))
  | a64.UBFM sf immr imms rn rd =>
      let w := width sf in
      value rd (bitfield w uint immr imms (x rn))
  | a64.MADD sf ra rm rn rd => value rd (uint (width sf) (x ra + x rn * x rm))
  | a64.ShiftV sf op rm rn rd =>
      let w := width sf in
      let n := x rm mod w in
      let v := uint w (x rn) in
      value rd
        match op with
        | a64.LSLV => uint w (v <<. n)
        | a64.LSRV => v >>. n
        | a64.ASRV => uint w (sint w v >>. n)
        | a64.RORV => ror w v n
        end
  | a64.CSEL sf cond rm rn rd =>
      value rd (uint (width sf) (if holds cond (fl s) then x rn else x rm))
  | a64.CSINC sf cond rm rn rd =>
      value rd (uint (width sf) (if holds cond (fl s) then x rn else x rm + 1))
  | a64.LoadUnsigned size imm12 rn rt =>
      if rn =? 31 then None
      else value rt (load (bytes size) (hm s) (u64 (x rn + imm12 * 2 ^ size)))
  | a64.StoreUnsigned size imm12 rn rt =>
      if rn =? 31 then None
      else Some (mkEffect [] (fl s)
             (store (bytes size) (hm s) (u64 (x rn + imm12 * 2 ^ size)) (x rt)))
  | a64.LoadIndexed size mode imm9 rn rt =>
      if (rn =? 31) || (rn =? rt) && writes_back mode then None
      else
        let a := u64 (x rn + sint 9 imm9) in
        match mode with
        | a64.Unscaled => value rt (load (bytes size) (hm s) a)
        | a64.PreIndex =>
            Some (mkEffect [(rt, load (bytes size) (hm s) a); (rn, a)] (fl s) (hm s))
        | a64.PostIndex =>
            Some (mkEffect [(rt, load (bytes size) (hm s) (x rn)); (rn, a)] (fl s) (hm s))
        end
  | a64.StoreIndexed size mode imm9 rn rt =>
      if (rn =? 31) || (rn =? rt) && writes_back mode then None
      else
        let a := u64 (x rn + sint 9 imm9) in
        match mode with
        | a64.Unscaled =>
            Some (mkEffect [] (fl s) (store (bytes size) (hm s) a (x rt)))
        | a64.PreIndex =>
            Some (mkEffect [(rn, a)] (fl s) (store (bytes size) (hm s) a (x rt)))
        | a64.PostIndex =>
            Some (mkEffect [(rn, a)] (fl s) (store (bytes size) (hm s) (x rn) (x rt)))
        end
  | a64.Branch _ | a64.BranchCond _ _ | a64.Ret _ => None
  end.

Definition exec (i : a64.instr) (s : state) : option state :=
  e ← eval i s;
  Some (mkState (apply_writes (writes e) (xr s)) (eflags e) (emem e)).

(** Straight-line code up to the return instruction: the state there and the
    address returned to. *)
Fixpoint run (l : list a64.instr) (s : state) : option (state * Z) :=
  match l with
  | [] => None
  | a64.Ret rn :: _ => Some (s, xget (xr s) rn)
  | i :: l => s ← exec i s; run l s
  end.

(** Machine code: fetch, decode, execute. *)
Fixpoint run_code (code : list Z) (s : state) : option (state * Z) :=
  match code with
  | b0 :: b1 :: b2 :: b3 :: code =>
      i ← a64.fetch [b0; b1; b2; b3] ≫= a64.decode;
      match i with
      | a64.Ret rn => Some (s, xget (xr s) rn)
      | _ => s ← exec i s; run_code code s
      end
  | _ => None
  end.

(** ** Comparisons *)

Lemma sint_signed w x :
  0 < w -> in_u w x -> sint w x = if 2 ^ (w - 1) <=? x then x - 2 ^ w else x.
Proof.
  intros Hw Hx. pose proof (pow2_half w Hw). unfold in_u in Hx.
  destruct (Z.leb_spec (2 ^ (w - 1)) x); [apply sint_neg; lia|].
  apply sint_small; [done|]. unfold in_s. lia.
Qed.

Lemma uint_diff w a b :
  0 < w -> in_u w a -> in_u w b -> uint w (a - b) = if a <? b then a - b + 2 ^ w else a - b.
Proof.
  unfold in_u. intros Hw Ha Hb. destruct (Z.ltb_spec a b).
  - unfold uint. rewrite <- (Z.mod_add _ 1), Z.mod_small by lia. lia.
  - apply uint_small. unfold in_u. lia.
Qed.

(** The conditions after a comparison of 64-bit values. *)
Lemma holds_compare a b :
  in_u 64 a -> in_u 64 b ->
  let f := sub_flags 64 a b in
  holds 0 f = (a =? b) ∧ holds 1 f = negb (a =? b)
  ∧ holds 2 f = (b <=? a) ∧ holds 3 f = (a <? b)
  ∧ holds 8 f = (b <? a) ∧ holds 9 f = (a <=? b)
  ∧ holds 10 f = (i64 b <=? i64 a) ∧ holds 11 f = (i64 a <? i64 b)
  ∧ holds 12 f = (i64 b <? i64 a) ∧ holds 13 f = (i64 a <=? i64 b).
Proof.
  intros Ha Hb. unfold sub_flags, holds, base_condition. cbn [fN fZ fC fV].
  rewrite (sint_signed 64 a), (sint_signed 64 b), (uint_diff 64) by (done || lia).
  unfold in_u, in_s in *. simpl Z.sub.
  change (2 ^ (64 - 1)) with 9223372036854775808 in *.
  change (2 ^ 64) with 18446744073709551616 in *.
  split_and!; cbn [Z.modulo Z.div Z.eqb]; simpl;
  destruct (Z.ltb_spec a b), (Z.leb_spec 9223372036854775808 a),
    (Z.leb_spec 9223372036854775808 b); try case_bool_decide; simpl;
    repeat match goal with
      | |- context [?x <=? ?y] => destruct (Z.leb_spec x y)
      | |- context [?x <? ?y] => destruct (Z.ltb_spec x y)
      | |- context [?x =? ?y] => destruct (Z.eqb_spec x y)
      end; simpl; try done; lia.
Qed.

(** The low bit of a condition's number negates it. *)
Lemma holds_negated c f :
  0 <= c < 14 -> holds (Z.lxor c 1) f = negb (holds c f).
Proof.
  intros Hc.
  assert (c = 0 ∨ c = 1 ∨ c = 2 ∨ c = 3 ∨ c = 4 ∨ c = 5 ∨ c = 6 ∨ c = 7 ∨ c = 8
          ∨ c = 9 ∨ c = 10 ∨ c = 11 ∨ c = 12 ∨ c = 13) as Hin by lia.
  by destruct_or! Hin; subst; destruct f as [[] [] [] []].
Qed.

End a64sem.
