(* ===== verification/Arm64Meaning.v ===== *)
(** * What an ARM64 instruction object means (reference)

    The A64 instruction each [arm64.Instruction] (lib/ARM64/Instruction.h)
    stands for, as the assembly mnemonics of the architecture manual have it.
    The encoder is compared with it (EncoderCorrect.v); together with the
    semantics of A64 it also gives a meaning to code over virtual registers,
    the output of the instruction selector. *)
From S2P Require Import Prelude Error Arm64 Encoder A64 A64Semantics.
Import arm64 Encoder.

(** The register an operand names: the machine's registers are 0 to 31, the
    virtual registers of code before register allocation come after them. *)
Definition num (o : Operand) : Z :=
  match o with
  | Reg r => register_number r
  | VirtualRegister v => 32 + v
  | Immediate _ => 0
  end.

Definition is64 (size : DataSize) : bool := bool_decide (size = Size_X).

Definition intended_three (op : Opcode) (size : DataSize) (d s1 s2 : Operand)
    : option a64.instr :=
  let sf := is64 size in
  let ds := if sf then 64 else 32 in
  match op, s2 with
  | ADD, Immediate v => Some (a64.AddSubImm sf false false 0 v (num s1) (num d))
  | SUB, Immediate v => Some (a64.AddSubImm sf true false 0 v (num s1) (num d))
  | CMP, Immediate v => Some (a64.AddSubImm sf true true 0 v (num s1) 31)
  | LSL, Immediate v =>
      Some (a64.UBFM sf ((ds - v) mod ds) (ds - 1 - v) (num s1) (num d))
  | LSR, Immediate v => Some (a64.UBFM sf v (ds - 1) (num s1) (num d))
  | ASR, Immediate v => Some (a64.SBFM sf v (ds - 1) (num s1) (num d))
  | ADD, _ => Some (a64.AddSubReg sf false false 0 0 (num s2) (num s1) (num d))
  | SUB, _ => Some (a64.AddSubReg sf true false 0 0 (num s2) (num s1) (num d))
  | CMP, _ => Some (a64.AddSubReg sf true true 0 0 (num s2) (num s1) 31)
  | AND, _ => Some (a64.Logical sf a64.AND 0 0 (num s2) (num s1) (num d))
  | ORR, _ => Some (a64.Logical sf a64.ORR 0 0 (num s2) (num s1) (num d))
  | EOR, _ => Some (a64.Logical sf a64.EOR 0 0 (num s2) (num s1) (num d))
  | MUL, _ => Some (a64.MADD sf 31 (num s2) (num s1) (num d))
  | LSL, _ => Some (a64.ShiftV sf a64.LSLV (num s2) (num s1) (num d))
  | LSR, _ => Some (a64.ShiftV sf a64.LSRV (num s2) (num s1) (num d))
  | ASR, _ => Some (a64.ShiftV sf a64.ASRV (num s2) (num s1) (num d))
  | _, _ => None
  end.

Definition intended_two (op : Opcode) (size : DataSize) (d s : Operand)
    : option a64.instr :=
  let sf := is64 size in
  match op, s with
  | MOV, Immediate v => Some (a64.MoveWide sf a64.MOVZ 0 v (num d))
  | MOV, _ => Some (a64.Logical sf a64.ORR 0 0 (num s) 31 (num d))
  | MOVN, Immediate v => Some (a64.MoveWide sf a64.MOVN 0 v (num d))
  | CMP, Immediate v => Some (a64.AddSubImm sf true true 0 v (num d) 31)
  | CMP, _ => Some (a64.AddSubReg sf true true 0 0 (num s) (num d) 31)
  | SXTB, _ => Some (a64.SBFM sf 0 7 (num s) (num d))
  | SXTH, _ => Some (a64.SBFM sf 0 15 (num s) (num d))
  | SXTW, _ => Some (a64.SBFM true 0 31 (num s) (num d))
  | UXTB, _ => Some (a64.UBFM sf 0 7 (num s) (num d))
  | UXTH, _ => Some (a64.UBFM sf 0 15 (num s) (num d))
  | RET, _ => Some (a64.Ret (num s))
  | _, _ => None
  end.

(** Is a memory offset in the range of the scaled, unsigned form? *)
Definition scaled (size : DataSize) (offset : Z) : bool :=
  (0 <=? offset) && (offset mod 2 ^ size_field size =? 0).

Definition intended_memory (op : Opcode) (size : DataSize) (r b : Operand) (offset : Z)
    : option a64.instr :=
  let sz := size_field size in
  match op, scaled size offset with
  | LDR, true => Some (a64.LoadUnsigned sz (offset / 2 ^ sz) (num b) (num r))
  | STR, true => Some (a64.StoreUnsigned sz (offset / 2 ^ sz) (num b) (num r))
  | LDR, false =>
      Some (a64.LoadIndexed sz a64.Unscaled (offset mod 2 ^ 9) (num b) (num r))
  | STR, false =>
      Some (a64.StoreIndexed sz a64.Unscaled (offset mod 2 ^ 9) (num b) (num r))
  | _, _ => None
  end.

Definition branch_condition (op : Opcode) : option Condition :=
  match op with
  | B_EQ => Some EQ | B_NE => Some NE | B_LT => Some LT
  | B_LE => Some LE | B_GT => Some GT | B_GE => Some GE
  | _ => None
  end.

Definition intended (i : Instruction) : option a64.instr :=
  match kind i with
  | ThreeOperandInst op size d s1 s2 => intended_three op size d s1 s2
  | TwoOperandInst op size d s => intended_two op size d s
  | MemoryInst op size r b offset => intended_memory op size r b offset
  | MoveWideInst op size d imm16 shift =>
      match op with
      | MOVZ => Some (a64.MoveWide (is64 size) a64.MOVZ (shift / 16) imm16 (num d))
      | MOVK => Some (a64.MoveWide (is64 size) a64.MOVK (shift / 16) imm16 (num d))
      | _ => None
      end
  | BranchInst op target =>
      match op, branch_condition op with
      | B, _ => Some (a64.Branch (bits 2 26 target))
      | _, Some c => Some (a64.BranchCond (condition_number c) (bits 2 19 target))
      | _, None => None
      end
  | ConditionalInst CSET size d c =>
      Some (a64.CSINC (is64 size) (Z.lxor (condition_number c) 1) 31 31 (num d))
  | ConditionalSelectInst CSEL size d s1 s2 c =>
      Some (a64.CSEL (is64 size) (condition_number c) (num s2) (num s1) (num d))
  | _ => None
  end.

(** Running code, before or after register allocation: up to the return. *)
Fixpoint run_insts (l : list Instruction) (s : a64sem.state) : option (a64sem.state * Z) :=
  match l with
  | [] => None
  | i :: l =>
      m ← intended i;
      match m with
      | a64.Ret rn => Some (s, a64sem.xget (a64sem.xr s) rn)
      | _ => s ← a64sem.exec m s; run_insts l s
      end
  end.

(** Straight-line code. *)
Fixpoint exec_insts (l : list Instruction) (s : a64sem.state) : option a64sem.state :=
  match l with
  | [] => Some s
  | i :: l => m ← intended i; s ← a64sem.exec m s; exec_insts l s
  end.

Lemma exec_insts_app l1 l2 s : exec_insts (l1 ++ l2) s = exec_insts l1 s ≫= exec_insts l2.
Proof.
  revert s. induction l1 as [|i l1 IH]; intros s; simpl; [done|].
  destruct (intended i) as [m|]; simpl; [|done].
  destruct (a64sem.exec m s); simpl; [apply IH|done].
Qed.

Lemma run_insts_app l1 l2 s s' :
  exec_insts l1 s = Some s' -> run_insts (l1 ++ l2) s = run_insts l2 s'.
Proof.
  revert s. induction l1 as [|i l1 IH]; intros s; simpl; [by intros [= ->]|].
  destruct (intended i) as [m|]; simpl; [|done]. intros H.
  apply bind_Some in H as (s1 & Hs1 & H). rewrite <- (IH _ H).
  destruct m; try (by rewrite Hs1); done.
Qed.

Lemma run_insts_step i l s m :
  intended i = Some m -> (∀ rn, m ≠ a64.Ret rn) ->
  run_insts (i :: l) s = a64sem.exec m s ≫= run_insts l.
Proof.
  intros Hm Hr. cbn [run_insts]. rewrite Hm. cbn [mbind option_bind].
  destruct m; try done. by edestruct Hr.
Qed.

Lemma run_insts_ret i l s rn :
  intended i = Some (a64.Ret rn) ->
  run_insts (i :: l) s = Some (s, a64sem.xget (a64sem.xr s) rn).
Proof. intros Hm. cbn [run_insts]. by rewrite Hm. Qed.

Lemma is_ret_dec m : (∃ rn, m = a64.Ret rn) ∨ ∀ rn, m ≠ a64.Ret rn.
Proof. destruct m; first [left; by eexists | by right]. Qed.
