(* ===== verification/EncoderCorrect.v ===== *)
(** * Correctness of the encoder

    Every word [Encoder.encodeWord] returns, but for the cases [faithful]
    excludes, decodes (A64.v) as the instruction it was asked for; the excluded
    cases are defects, stated as theorems of their own. *)
From S2P Require Import Prelude Error Arm64 Encoder A64 Arm64Meaning.
Import arm64 Encoder.

(** ** Words as sums of fields *)

(** The layouts of the encoder: constant top bits and or-ed fields. *)
Lemma word_R C rm x rn rd :
  0 <= C -> C mod 2 ^ 21 = 0 -> 0 <= rm < 32 -> 0 <= x < 64 -> 0 <= rn < 32 ->
  0 <= rd < 32 ->
  C |. rm <<. 16 |. x <<. 10 |. rn <<. 5 |. rd
  = (((C / 2 ^ 21 * 2 ^ 5 + rm) * 2 ^ 6 + x) * 2 ^ 5 + rn) * 2 ^ 5 + rd.
Proof.
  intros. rewrite !Z.shiftl_mul_pow2 by lia.
  rewrite (lor_add_hi 21 C) by dlia. rewrite (lor_add_hi 16 (C + _)) by dlia.
  rewrite (lor_add_hi 10 (C + _ + _)) by dlia. rewrite (lor_add_hi 5 (C + _ + _ + _)) by dlia.
  shifts_to_mul. dlia.
Qed.

(** Two six-bit fields (bitfield moves). *)
Lemma word_BF C immr imms rn rd :
  0 <= C -> C mod 2 ^ 22 = 0 -> 0 <= immr < 64 -> 0 <= imms < 64 -> 0 <= rn < 32 ->
  0 <= rd < 32 ->
  C |. immr <<. 16 |. imms <<. 10 |. rn <<. 5 |. rd
  = (((C / 2 ^ 22 * 2 ^ 6 + immr) * 2 ^ 6 + imms) * 2 ^ 5 + rn) * 2 ^ 5 + rd.
Proof.
  intros. rewrite !Z.shiftl_mul_pow2 by lia.
  rewrite (lor_add_hi 22 C) by dlia. rewrite (lor_add_hi 16 (C + _)) by dlia.
  rewrite (lor_add_hi 10 (C + _ + _)) by dlia. rewrite (lor_add_hi 5 (C + _ + _ + _)) by dlia.
  shifts_to_mul. dlia.
Qed.

(** A twelve-bit immediate. *)
Lemma word_I C imm rn rd :
  0 <= C -> C mod 2 ^ 22 = 0 -> 0 <= imm < 4096 -> 0 <= rn < 32 -> 0 <= rd < 32 ->
  C |. imm <<. 10 |. rn <<. 5 |. rd
  = ((C / 2 ^ 22 * 2 ^ 12 + imm) * 2 ^ 5 + rn) * 2 ^ 5 + rd.
Proof.
  intros. rewrite !Z.shiftl_mul_pow2 by lia.
  rewrite (lor_add_hi 22 C) by dlia. rewrite (lor_add_hi 10 (C + _)) by dlia.
  rewrite (lor_add_hi 5 (C + _ + _)) by dlia. shifts_to_mul. dlia.
Qed.

(** A sixteen-bit immediate. *)
Lemma word_W C imm rd :
  0 <= C -> C mod 2 ^ 21 = 0 -> 0 <= imm < 65536 -> 0 <= rd < 32 ->
  C |. imm <<. 5 |. rd = (C / 2 ^ 21 * 2 ^ 16 + imm) * 2 ^ 5 + rd.
Proof.
  intros. rewrite !Z.shiftl_mul_pow2 by lia.
  rewrite (lor_add_hi 21 C) by dlia. rewrite (lor_add_hi 5 (C + _)) by dlia.
  shifts_to_mul. dlia.
Qed.

(** A nine-bit offset and the addressing mode. *)
Lemma word_X C imm9 x rn rt :
  0 <= C -> C mod 2 ^ 21 = 0 -> 0 <= imm9 < 512 -> 0 <= x < 4 -> 0 <= rn < 32 ->
  0 <= rt < 32 ->
  C |. imm9 <<. 12 |. x <<. 10 |. rn <<. 5 |. rt
  = (((C / 2 ^ 21 * 2 ^ 9 + imm9) * 2 ^ 2 + x) * 2 ^ 5 + rn) * 2 ^ 5 + rt.
Proof.
  intros. rewrite !Z.shiftl_mul_pow2 by lia.
  rewrite (lor_add_hi 21 C) by dlia. rewrite (lor_add_hi 12 (C + _)) by dlia.
  rewrite (lor_add_hi 10 (C + _ + _)) by dlia. rewrite (lor_add_hi 5 (C + _ + _ + _)) by dlia.
  shifts_to_mul. dlia.
Qed.

(** A condition and its two low bits. *)
Lemma word_C C rm cond x rn rd :
  0 <= C -> C mod 2 ^ 21 = 0 -> 0 <= rm < 32 -> 0 <= cond < 16 -> 0 <= x < 4 ->
  0 <= rn < 32 -> 0 <= rd < 32 ->
  C |. rm <<. 16 |. cond <<. 12 |. x <<. 10 |. rn <<. 5 |. rd
  = ((((C / 2 ^ 21 * 2 ^ 5 + rm) * 2 ^ 4 + cond) * 2 ^ 2 + x) * 2 ^ 5 + rn) * 2 ^ 5 + rd.
Proof.
  intros. rewrite !Z.shiftl_mul_pow2 by lia.
  rewrite (lor_add_hi 21 C) by dlia. rewrite (lor_add_hi 16 (C + _)) by dlia.
  rewrite (lor_add_hi 12 (C + _ + _)) by dlia. rewrite (lor_add_hi 10 (C + _ + _ + _)) by dlia.
  rewrite (lor_add_hi 5 (C + _ + _ + _ + _)) by dlia. shifts_to_mul. dlia.
Qed.

(** The values the C++ types of the fields hold. *)
Definition operand_ok (o : Operand) : bool :=
  match o with Immediate v => bool_decide (in_u 64 v) | _ => true end.

Definition fields_ok (i : Instruction) : bool :=
  forallb operand_ok (operands i) &&
  match kind i with
  | MemoryInst _ _ _ _ offset => bool_decide (in_s 32 offset)
  | MoveWideInst _ _ _ imm16 shift => bool_decide (in_u 16 imm16 ∧ in_u 8 shift)
  | BranchInst _ target => bool_decide (in_u 64 target)
  | _ => true
  end.

(** The instructions the encoder has right. *)
Definition small_imm (o : Operand) : bool :=
  match o with Immediate v => bool_decide (in_u 32 v) | _ => true end.

Definition faithful (i : Instruction) : bool :=
  match kind i with
  | ThreeOperandInst EOR _ _ _ _ => false
  | ThreeOperandInst LSR _ _ _ s2 => isImmediate s2
  | ThreeOperandInst (ADD | SUB | CMP) _ _ _ s => small_imm s
  | TwoOperandInst CMP _ _ s => small_imm s
  | MemoryInst _ size _ _ offset => scaled size offset
  | MoveWideInst _ size _ _ shift => is64 size || (shift <? 32)
  | _ => true
  end.

(** ** Words the encoder gets right *)

Lemma encodeRegister_Ok o n :
  encodeRegister o = Ok n -> isImmediate o = false ∧ n = num o ∧ 0 <= n < 32.
Proof.
  destruct o as [r| |]; try done. simpl. case_bool_decide as H; [subst|];
    intros [= <-]; (split; [done|split; [done|]]); [lia|apply register_number_range].
Qed.

Lemma getSfBit_is64 size : getSfBit size = if is64 size then 1 else 0.
Proof. done. Qed.

(** [w] is a word that decodes as [m]. *)
Definition decodes (w : Z) (m : option a64.instr) : Prop :=
  in_u 32 w ∧ a64.decode w = m ∧ is_Some m.

(** Put or-ed fields in positional form and evaluate the reference decoder. *)
Ltac word_side :=
  lazymatch goal with
  | |- _ mod _ = 0 => reflexivity
  | |- _ <= _ < _ => lia
  | |- _ => apply Z.leb_le; reflexivity
  end.
Ltac constants :=
  repeat match goal with
    | |- context [?a / 2 ^ ?k] =>
        let v := eval vm_compute in (a / 2 ^ k) in change (a / 2 ^ k) with v
    end.
Ltac positional :=
  first [ rewrite word_C by word_side | rewrite word_R by word_side
        | rewrite word_I by word_side | rewrite word_BF by word_side
        | rewrite word_X by word_side | rewrite word_W by word_side ].
Ltac is_literal x :=
  lazymatch x with Zpos _ => idtac | Z0 => idtac | _ => fail end.
Ltac eval_stage :=
  fields;
  repeat match goal with
    | |- context [bits ?l ?n ?c] =>
        is_literal c; let v := eval vm_compute in (bits l n c) in
        change (bits l n c) with v
    | |- context [?a =? ?b] =>
        is_literal a; is_literal b; let v := eval vm_compute in (a =? b) in
        change (a =? b) with v
    | |- context [32 <=? ?x] => rewrite (proj2 (Z.leb_gt 32 x)) by lia
    end;
  cbv beta iota zeta delta [negb orb andb a64.flag].
Ltac eval_decode :=
  unfold a64.decode; eval_stage;
  unfold a64.decode_dp_imm, a64.decode_dp_reg, a64.decode_ldst, a64.decode_branch;
  eval_stage; reflexivity.
Ltac close_sum :=
  constants; rewrite (uint_small 32) by (unfold in_u; lia);
  split; [unfold in_u; lia|]; split; [eval_decode|eexists; reflexivity].
Ltac close_word := unfold decodes; positional; close_sum.

(** Read a register operand, or a bounded immediate, from a successful run. *)
Ltac read_register H r :=
  let Hr := fresh "Hr" in let Hb := fresh "Hb" in
  apply bind_Ok in H as (r & (_ & Hr & Hb)%encodeRegister_Ok & H);
  try rewrite <- Hr; clear Hr.

Lemma imm12_Ok v msg n :
  imm12 v msg = Ok n -> n = u32 v ∧ 0 <= n < 4096.
Proof.
  unfold imm12. pose proof (uint_range 32 v ltac:(lia)) as [? _].
  destruct (Z.ltb_spec 0xfff (u32 v)); [done|]. intros [= <-]. split; [done|lia].
Qed.

Ltac read_imm12 H n :=
  let Hn := fresh "Hn" in let Hb := fresh "Hb" in
  apply bind_Ok in H as (n & [Hn Hb]%imm12_Ok & H);
  rewrite uint_small in Hn by (eapply bool_decide_eq_true_1; eassumption);
  rewrite <- Hn; clear Hn.

Lemma ubfm_word (sf : bool) immr imms rn rd :
  0 <= immr < (if sf then 64 else 32) -> 0 <= imms < (if sf then 64 else 32) ->
  0 <= rn < 32 -> 0 <= rd < 32 ->
  let b := if sf then 1 else 0 in
  decodes (u32 (b <<. 31 |. 0xa6 <<. 23 |. b <<. 22 |. immr <<. 16
                |. imms <<. 10 |. rn <<. 5 |. rd))
    (Some (a64.UBFM sf immr imms rn rd)).
Proof.
  intros ???? b. subst b. unfold decodes.
  destruct sf; rewrite word_BF by word_side; close_sum.
Qed.

Lemma sbfm_word (sf : bool) immr imms rn rd :
  0 <= immr < (if sf then 64 else 32) -> 0 <= imms < (if sf then 64 else 32) ->
  0 <= rn < 32 -> 0 <= rd < 32 ->
  let b := if sf then 1 else 0 in
  decodes (u32 (b <<. 31 |. 0x26 <<. 23 |. b <<. 22 |. immr <<. 16
                |. imms <<. 10 |. rn <<. 5 |. rd))
    (Some (a64.SBFM sf immr imms rn rd)).
Proof.
  intros ???? b. subst b. unfold decodes.
  destruct sf; rewrite word_BF by word_side; close_sum.
Qed.

Lemma datasize_is64 size :
  datasize (getSfBit size) = if is64 size then 64 else 32.
Proof. unfold datasize. rewrite getSfBit_is64. by destruct (is64 size). Qed.

Ltac small_shift_fields :=
  repeat match goal with
    | |- context [u32 ?x] =>
        lazymatch x with
        | Z.lor _ _ => fail
        | _ => rewrite (uint_small 32 x) by (unfold in_u; lia)
        end
    end.

Lemma three_ok op size d s1 s2 w :
  operand_ok s2 = true ->
  faithful (mkInstruction (ThreeOperandInst op size d s1 s2)) = true ->
  encodeThreeOperandInst op size d s1 s2 = Ok w ->
  decodes w (intended_three op size d s1 s2).
Proof.
  intros Hf Hw H. unfold encodeThreeOperandInst, intended_three in *.
  rewrite datasize_is64, getSfBit_is64 in H.
  read_register H rd. read_register H rn.
  destruct op; try discriminate H; try discriminate Hw; cbn [faithful kind] in Hw;
    destruct s2 as [r|v|v]; try discriminate H; try discriminate Hw;
    cbn [isImmediate] in *;
    try (read_register H rm; destruct (is64 size); injection H as <-; close_word);
    try (read_imm12 H imm; destruct (is64 size); injection H as <-; close_word).
  all: apply bool_decide_eq_true in Hf; unfold in_u in Hf.
  all: pose proof (Z.mod_pos_bound (64 - v) 64); pose proof (Z.mod_pos_bound (32 - v) 32);
    destruct (is64 size); cbv iota in H;
    match type of H with (if ?c then _ else _) = _ => destruct c eqn:Hc end;
    [discriminate H|apply Z.leb_gt in Hc|discriminate H|apply Z.leb_gt in Hc];
    injection H as <-;
    small_shift_fields;
    lazymatch goal with
    | |- decodes _ (Some (a64.UBFM ?sf ?r ?s ?n ?d)) => apply (ubfm_word sf r s n d)
    | |- decodes _ (Some (a64.SBFM ?sf ?r ?s ?n ?d)) => apply (sbfm_word sf r s n d)
    end; cbv iota; lia.
Qed.

Lemma land_low x n : 0 <= n -> 0 <= x < 2 ^ n -> x &. (2 ^ n - 1) = x.
Proof.
  intros. replace (2 ^ n - 1) with (Z.ones n) by (rewrite Z.ones_equiv; lia).
  by rewrite Z.land_ones, Z.mod_small.
Qed.

Lemma word_RET rn :
  0 <= rn < 32 -> 0xD65F0000 |. rn <<. 5 = (0x3597c0 * 2 ^ 5 + rn) * 2 ^ 5 + 0.
Proof.
  intros. rewrite !Z.shiftl_mul_pow2 by lia.
  rewrite (lor_add_hi 10) by (try reflexivity; lia). lia.
Qed.

Ltac read_imm16 H v :=
  let Hc := fresh "Hc" in
  destruct (Z.ltb_spec 0xFFFF v) as [?|Hc]; [discriminate H|];
  change 0xFFFF with (2 ^ 16 - 1) in H at 1; rewrite (land_low v 16) in H by lia.

Lemma two_ok op size d s w :
  operand_ok s = true ->
  faithful (mkInstruction (TwoOperandInst op size d s)) = true ->
  encodeTwoOperandInst op size d s = Ok w ->
  decodes w (intended_two op size d s).
Proof.
  intros Hf Hw H. unfold encodeTwoOperandInst, intended_two in *.
  rewrite getSfBit_is64 in H. apply bind_Ok in H as (rd & Hrd & H).
  pose proof Hrd as (_ & Hn & Hb)%encodeRegister_Ok. rewrite <- Hn. clear Hn.
  destruct op; try discriminate H; cbn [faithful kind] in Hw;
    destruct s as [r|v|v]; try discriminate H;
    try (rewrite Hrd in H; cbn [mbind result_bind] in H);
    try (read_imm12 H imm);
    try (read_register H rm);
    try (apply bool_decide_eq_true in Hf; unfold in_u in Hf; read_imm16 H v);
    destruct (is64 size); injection H as <-; try close_word.
  all: unfold decodes; rewrite word_RET by lia; close_sum.
Qed.

Lemma conditional_ok op size d c w :
  encodeConditionalInst op size d c = Ok w ->
  decodes w (intended (mkInstruction (ConditionalInst op size d c))).
Proof.
  intros H. unfold encodeConditionalInst in H. unfold intended. cbn [kind].
  rewrite getSfBit_is64 in H. read_register H rd.
  destruct op; try discriminate H.
  assert (0 <= Z.lxor (condition_number c) 1 < 16) as Hc by (by destruct c).
  revert Hc H. generalize (Z.lxor (condition_number c) 1) as k. intros k Hc H.
  destruct (is64 size); injection H as <-; close_word.
Qed.

Lemma select_ok op size d s1 s2 c w :
  encodeConditionalSelectInst op size d s1 s2 c = Ok w ->
  decodes w (intended (mkInstruction (ConditionalSelectInst op size d s1 s2 c))).
Proof.
  intros H. unfold encodeConditionalSelectInst in H. unfold intended. cbn [kind].
  rewrite getSfBit_is64 in H. read_register H rd. read_register H rn.
  destruct op; try discriminate H.
  destruct (isImmediate s1 || isImmediate s2); [discriminate H|]. read_register H rm.
  pose proof (condition_number_range c).
  destruct (is64 size); injection H as <-; unfold decodes.
  all: match goal with |- context [u32 (?a |. ?b <<. 12 |. ?c |. ?d)] =>
      replace (a |. b <<. 12) with (a |. b <<. 12 |. 0 <<. 10) by (by rewrite Z.lor_0_r) end.
  all: rewrite word_C by word_side; close_sum.
Qed.

Lemma wide_ok op size d imm16 shift w :
  in_u 16 imm16 -> in_u 8 shift -> is64 size || (shift <? 32) = true ->
  encodeMoveWideInst op size d imm16 shift = Ok w ->
  decodes w (intended (mkInstruction (MoveWideInst op size d imm16 shift))).
Proof.
  intros Hi Hs Hw H. unfold encodeMoveWideInst in H. unfold intended. cbn [kind].
  rewrite getSfBit_is64 in H. read_register H rd. unfold in_u in *.
  destruct (Z.ltb_spec 3 (shift / 16)); [discriminate H|].
  assert (0 <= shift / 16) by (apply Z.div_pos; lia).
  assert (is64 size = true ∨ shift / 16 < 2) as Hsf.
  { apply orb_true_iff in Hw as [?|?%Z.ltb_lt]; [by left|right; dlia]. }
  assert (shift / 16 = 0 ∨ shift / 16 = 1 ∨ shift / 16 = 2 ∨ shift / 16 = 3)
    as [E|[E|[E|E]]] by lia; rewrite E in *;
    destruct op; try discriminate H; destruct (is64 size);
    try (destruct Hsf; [discriminate|lia]);
    injection H as <-; close_word.
Qed.

(** *** Memory accesses *)

Lemma size_field_range size : 0 <= size_field size < 4.
Proof. by destruct size. Qed.

Lemma scaled_spec size offset :
  (0 <=? offset) && (Z.rem offset (1 <<. size_field size) =? 0) = scaled size offset.
Proof.
  unfold scaled. destruct (Z.leb_spec 0 offset); [|done]. simpl.
  rewrite Z.shiftl_1_l, Z.rem_mod_nonneg; [done|lia|].
  apply Z.pow_pos_nonneg; pose proof (size_field_range size); lia.
Qed.

Lemma memory_ok op size r b offset w :
  in_s 32 offset -> scaled size offset = true ->
  encodeMemoryInst op size r b offset = Ok w ->
  decodes w (intended_memory op size r b offset).
Proof.
  intros Ho Hs H. unfold encodeMemoryInst, intended_memory in *.
  read_register H rt. read_register H rn. rewrite scaled_spec, Hs in *.
  apply andb_true_iff in Hs as [Hs%Z.leb_le _].
  pose proof (size_field_range size) as Hsz.
  rewrite Z.shiftr_div_pow2 in H by lia.
  assert (0 <= offset / 2 ^ size_field size <= offset) as Hd.
  { split; [apply Z.div_pos; [lia|apply Z.pow_pos_nonneg; lia]|].
    apply Z.div_le_upper_bound; [apply Z.pow_pos_nonneg; lia|].
    assert (1 <= 2 ^ size_field size) by (apply (Z.pow_le_mono_r 2 0); lia). nia. }
  unfold in_s in Ho. rewrite (uint_small 32 (offset / _)) in H by (unfold in_u; lia).
  revert Hd H. generalize (offset / 2 ^ size_field size) as k. intros k Hd H.
  destruct (Z.leb_spec k 0xFFF); [|by destruct op].
  destruct op; try discriminate H; injection H as <-; destruct size; close_word.
Qed.

(** *** Branches *)

Lemma word_B imm26 :
  0 <= imm26 < 2 ^ 26 -> 5 <<. 26 |. imm26 = 5 * 2 ^ 26 + imm26.
Proof. intros. by apply lor_shiftl_add. Qed.

(** [0x2a = 0b0101010]: bit 24 of the word is clear, bit 4 too. *)
Lemma word_BC imm19 cond :
  0 <= imm19 < 2 ^ 19 -> 0 <= cond < 16 ->
  0x2a <<. 25 |. imm19 <<. 5 |. cond
  = ((84 * 2 ^ 19 + imm19) * 2 ^ 1 + 0) * 2 ^ 4 + cond.
Proof.
  intros. rewrite !Z.shiftl_mul_pow2 by lia.
  rewrite (lor_add_hi 24 (0x2a * _)) by (try reflexivity; lia).
  rewrite (lor_add_hi 5 (_ + _)) by dlia. shifts_to_mul. lia.
Qed.

Lemma branch_ok op target w :
  encodeBranchInst op target = Ok w ->
  decodes w (intended (mkInstruction (BranchInst op target))).
Proof.
  intros H. unfold encodeBranchInst, intended in *. cbn [kind].
  change 0x3FFFFFF with (2 ^ 26 - 1) in H. change 0x7FFFF with (2 ^ 19 - 1) in H.
  rewrite !shiftr_land_bits, !bits_sint in H by lia.
  pose proof (bits_range 2 26 target ltac:(lia)) as H26.
  pose proof (bits_range 2 19 target ltac:(lia)) as H19.
  rewrite (uint_small 32 (bits 2 26 target)), (uint_small 32 (bits 2 19 target)) in H
    by (unfold in_u; lia).
  revert H26 H19 H. generalize (bits 2 26 target) as k26. generalize (bits 2 19 target) as k19.
  intros k19 k26 H26 H19 H.
  destruct (_ || _); [discriminate H|].
  destruct op; try discriminate H; cbn [branch_condition condition_number].
  { injection H as <-. unfold decodes. rewrite word_B by lia.
    rewrite (uint_small 32) by (unfold in_u; lia). split; [unfold in_u; lia|].
    split; [eval_decode|eauto]. }
  all: destruct (_ || _); [discriminate H|]; injection H as <-.
  all: unfold decodes; rewrite word_BC by lia;
    rewrite (uint_small 32) by (unfold in_u; lia); split; [unfold in_u; lia|];
    split; [eval_decode|eauto].
Qed.

(** ** Properties *)

(** What the processor fetches and decodes where the encoder's bytes are. *)
Definition assembled (i : Instruction) : result (option a64.instr) :=
  bytes ← encodeInstruction i; Ok (a64.fetch bytes ≫= a64.decode).

Lemma bytes_of_word w :
  in_u 32 w ->
  [u8 (w &. 0xFF); u8 ((w >>. 8) &. 0xFF); u8 ((w >>. 16) &. 0xFF);
   u8 ((w >>. 24) &. 0xFF)]
  = [bits 0 8 w; bits 8 8 w; bits 16 8 w; bits 24 8 w].
Proof.
  intros Hw. change 0xFF with (2 ^ 8 - 1). rewrite <- (Z.shiftr_0_r w) at 1.
  rewrite !shiftr_land_bits by lia. pose proof (λ lo, bits_range lo 8 w ltac:(lia)).
  by rewrite !(uint_small 8) by (unfold in_u; auto).
Qed.

Lemma fetch_bytes w :
  in_u 32 w -> a64.fetch [bits 0 8 w; bits 8 8 w; bits 16 8 w; bits 24 8 w] = Some w.
Proof.
  unfold in_u, a64.fetch, bits. intros Hw. f_equal. shifts_to_mul. dlia.
Qed.

Lemma assembled_word i w :
  encodeWord i = Ok w -> in_u 32 w -> assembled i = Ok (a64.decode w).
Proof.
  intros H Hw. unfold assembled, encodeInstruction. rewrite H. cbn [mbind result_bind].
  by rewrite bytes_of_word, fetch_bytes.
Qed.

Lemma encodeWord_decodes i w :
  fields_ok i = true -> faithful i = true -> encodeWord i = Ok w ->
  decodes w (intended i).
Proof.
  intros [Ho Hk]%andb_true_iff Hw H. destruct i as [[]]; cbn [kind] in *.
  - apply three_ok; [|done..]. simpl in Ho.
    apply andb_true_iff in Ho as [_ Ho]. apply andb_true_iff in Ho as [_ Ho].
    by apply andb_true_iff in Ho as [? _].
  - apply two_ok; [|done..]. simpl in Ho.
    apply andb_true_iff in Ho as [_ Ho]. by apply andb_true_iff in Ho as [? _].
  - apply memory_ok; [by apply bool_decide_eq_true in Hk|done..].
  - apply bool_decide_eq_true in Hk as [??]. by apply wide_ok.
  - by apply branch_ok.
  - by apply conditional_ok.
  - by apply select_ok.
Qed.

Lemma encoded_decodes i bytes :
  fields_ok i = true -> faithful i = true -> encodeInstruction i = Ok bytes ->
  length bytes = 4%nat ∧ Forall (in_u 8) bytes
  ∧ ∃ m, intended i = Some m ∧ a64.fetch bytes ≫= a64.decode = Some m.
Proof.
  intros Hf Hw H. unfold encodeInstruction in H.
  apply bind_Ok in H as (w & H & Hb). injection Hb as <-.
  destruct (encodeWord_decodes i w Hf Hw H) as (Hr & Hd & m & Hm).
  rewrite bytes_of_word by done. split; [done|]. split.
  - repeat constructor; apply bits_range; lia.
  - exists m. split; [done|]. rewrite fetch_bytes by done. simpl. by rewrite Hd.
Qed.

(** C7: the four bytes of an encoded instruction decode, under the reference
    decoder, as the instruction asked for, for every instruction the encoder
    accepts but those [faithful] excludes. *)
Theorem encode_decodes i bytes :
  fields_ok i = true -> faithful i = true -> encodeInstruction i = Ok bytes ->
  length bytes = 4%nat ∧ Forall (in_u 8) bytes
  ∧ ∃ m, intended i = Some m ∧ a64.fetch bytes ≫= a64.decode = Some m.
Proof. apply encoded_decodes. Qed.

(** *** Errors *)

Definition throws_encoding {A} (r : result A) : Prop :=
  ∀ e, r = Err e -> ∃ msg, e = EncodingError msg.

Lemma throws_Ok {A} (a : A) : throws_encoding (Ok a).
Proof. by intros e. Qed.
Lemma throws_Err {A} msg : throws_encoding (@Err A (EncodingError msg)).
Proof. intros e [= <-]. eauto. Qed.
Lemma throws_bind {A B} (m : result A) (f : A -> result B) :
  throws_encoding m -> (∀ a, throws_encoding (f a)) -> throws_encoding (m ≫= f).
Proof. intros Hm Hf e [H|(a & _ & H)]%bind_Err; [by apply Hm|by eapply Hf]. Qed.

Create HintDb throws.
#[local] Hint Resolve throws_Ok throws_Err throws_bind : throws.

Lemma throws_register o : throws_encoding (encodeRegister o).
Proof. destruct o; simpl; [case_bool_decide| |]; auto with throws. Qed.
Lemma throws_condition op : throws_encoding (getConditionCode op).
Proof. destruct op; simpl; auto with throws. Qed.
Lemma throws_imm12 v msg : throws_encoding (imm12 v msg).
Proof. unfold imm12. destruct (_ <? _); auto with throws. Qed.
#[local] Hint Resolve throws_register throws_condition throws_imm12 : throws.

Ltac throws :=
  repeat first
    [ apply throws_Ok | apply throws_Err | apply throws_register
    | apply throws_condition | apply throws_imm12
    | apply throws_bind; [|intros ?]
    | match goal with
      | |- throws_encoding (if ?c then _ else _) => destruct c
      | |- throws_encoding (match ?c with _ => _ end) => destruct c
      end ].

Lemma encodeWord_throws i : throws_encoding (encodeWord i).
Proof.
  destruct i as [[]]; unfold encodeWord; cbn [kind];
    unfold encodeThreeOperandInst, encodeTwoOperandInst, encodeMemoryInst,
      encodeMoveWideInst, encodeBranchInst, encodeConditionalInst,
      encodeConditionalSelectInst; cbv zeta; throws.
Qed.

Lemma encodeInstruction_throws i : throws_encoding (encodeInstruction i).
Proof. apply throws_bind; [apply encodeWord_throws|intros; apply throws_Ok]. Qed.

Lemma encodeRegister_physical o n : encodeRegister o = Ok n -> is_virtual o = false.
Proof. by destruct o. Qed.

Lemma encodeWord_physical i w :
  encodeWord i = Ok w -> existsb is_virtual (operands i) = false.
Proof.
  destruct i as [[]]; unfold encodeWord, operands; cbn [kind existsb]; intros H;
    unfold encodeThreeOperandInst, encodeTwoOperandInst, encodeMemoryInst,
      encodeMoveWideInst, encodeConditionalInst, encodeConditionalSelectInst in H;
    try (apply bind_Ok in H as (? & ->%encodeRegister_physical & H));
    try (apply bind_Ok in H as (? & ->%encodeRegister_physical & H));
    rewrite ?orb_false_r; try done; cbn [orb].
  - destruct src2; try done. by destruct opcode.
  - destruct src; try done. destruct opcode; try done.
    by apply bind_Ok in H as (? & _ & H).
  - destruct src2; try done. destruct opcode; try done.
    simpl in H. by destruct (isImmediate src1).
Qed.

(** C23: the encoder throws nothing but [EncodingError], and it throws for every
    instruction that still names a virtual register: code the register
    allocator left unfinished is never turned into machine code. *)
Theorem encode_rejects_virtual i :
  (∀ e, encodeInstruction i = Err e -> ∃ msg, e = EncodingError msg)
  ∧ (existsb is_virtual (operands i) = true ->
     ∃ msg, encodeInstruction i = Err (EncodingError msg)).
Proof.
  pose proof (encodeInstruction_throws i) as Ht. split; [exact Ht|]. intros Hv.
  destruct (encodeInstruction i) as [bs|e] eqn:H.
  - apply bind_Ok in H as (w & H & _). apply encodeWord_physical in H. congruence.
  - destruct (Ht e eq_refl) as [msg ->]. eauto.
Qed.

(** *** Defects *)

Lemma encodeRegister_Reg r : encodeRegister (Reg r) = Ok (register_number r).
Proof. simpl. case_bool_decide; by subst. Qed.

Ltac reg_bounds :=
  repeat match goal with
    | |- context [register_number ?r] =>
        lazymatch goal with
        | H : 0 <= register_number r < 32 |- _ => fail
        | _ => pose proof (register_number_range r)
        end
    end.

Lemma assembled_decodes i w m :
  encodeWord i = Ok w -> decodes w (Some m) -> assembled i = Ok (Some m).
Proof. intros H (Hw & <- & _). by apply assembled_word. Qed.

(** C36: (defect) an exclusive or of registers is encoded as [ANDS], which stores
    the conjunction and overwrites the flags. *)
Theorem encode_EOR_is_ANDS size d n m :
  assembled (mkInstruction (ThreeOperandInst EOR size (Reg d) (Reg n) (Reg m)))
  = Ok (Some (a64.Logical (is64 size) a64.ANDS 0 0 (register_number m)
                (register_number n) (register_number d))).
Proof.
  eapply assembled_decodes.
  - unfold encodeWord, encodeThreeOperandInst. cbn [kind isImmediate].
    rewrite !encodeRegister_Reg. reflexivity.
  - rewrite getSfBit_is64. reg_bounds. destruct (is64 size); close_word.
Qed.

(** C37: (defect) a logical shift right by a register is encoded as an
    unallocated word: executing it is an illegal instruction. *)
Theorem encode_LSR_unallocated size d n m :
  assembled (mkInstruction (ThreeOperandInst LSR size (Reg d) (Reg n) (Reg m)))
  = Ok None.
Proof.
  eassert (encodeWord (mkInstruction
    (ThreeOperandInst LSR size (Reg d) (Reg n) (Reg m))) = Ok _) as H.
  { unfold encodeWord, encodeThreeOperandInst. cbn [kind isImmediate].
    rewrite !encodeRegister_Reg. reflexivity. }
  rewrite getSfBit_is64 in H. revert H. reg_bounds. intros Henc.
  destruct (is64 size); rewrite word_R in Henc by word_side; revert Henc; constants;
    intros Henc; rewrite (uint_small 32) in Henc by (unfold in_u; lia);
    (rewrite (assembled_word _ _ Henc); [|unfold in_u; lia]); f_equal; eval_decode.
Qed.

(** C38: (defect) a load or store whose offset is negative or not a multiple of
    the access size is encoded as a store with write-back: the word of a load
    stores to memory (pre-indexed), that of a store is post-indexed; both
    modify the base register. *)
Theorem encode_unscaled_is_writeback size r b offset :
  -256 <= offset <= 255 -> scaled size offset = false ->
  let store mode := a64.StoreIndexed (size_field size) mode (offset mod 2 ^ 9)
                      (register_number b) (register_number r) in
  assembled (mkInstruction (MemoryInst LDR size (Reg r) (Reg b) offset))
  = Ok (Some (store a64.PreIndex))
  ∧ assembled (mkInstruction (MemoryInst STR size (Reg r) (Reg b) offset))
    = Ok (Some (store a64.PostIndex)).
Proof.
  intros Ho Hs store. subst store.
  pose proof (Z.mod_pos_bound offset (2 ^ 9) ltac:(lia)) as H9.
  assert (offset &. 0x1FF = offset mod 2 ^ 9) as E.
  { change 0x1FF with (Z.ones 9). by rewrite Z.land_ones. }
  revert E H9. generalize (offset mod 2 ^ 9) as k. intros k E H9.
  assert ((-256 <=? offset) && (offset <=? 255) = true) as Hr.
  { apply andb_true_iff. split; apply Z.leb_le; lia. }
  split; eapply assembled_decodes; try
    (unfold encodeWord, encodeMemoryInst; cbn [kind]; rewrite !encodeRegister_Reg;
     cbn [mbind result_bind]; rewrite scaled_spec, Hs, Hr, E; reflexivity).
  all: reg_bounds; destruct size; close_word.
Qed.

(** Read the range check of an immediate that passes it, or is refused. *)
Ltac truncated_word Hl :=
  unfold encodeWord, encodeThreeOperandInst, encodeTwoOperandInst, imm12; cbn [kind];
  rewrite !encodeRegister_Reg; cbn [mbind result_bind];
  rewrite (proj2 (Z.ltb_ge _ _) Hl); reflexivity.
Ltac refused_word Hl :=
  unfold assembled, encodeInstruction, encodeWord, encodeThreeOperandInst,
    encodeTwoOperandInst, imm12; cbn [kind];
  rewrite !encodeRegister_Reg; cbn [mbind result_bind];
  rewrite (proj2 (Z.ltb_lt _ _) Hl); reflexivity.

(** C39: (defect) the range check of the immediate of ADD, SUB and CMP is made
    on its low 32 bits: a value of any size whose low word is below 4096 is
    encoded with the low word in its place, and only the others are refused. *)
Theorem encode_immediate_truncates size d n v :
  let outcome msg sub flags rd :=
    if u32 v <=? 0xFFF
    then Ok (Some (a64.AddSubImm (is64 size) sub flags 0 (u32 v) (register_number n) rd))
    else Err (EncodingError msg) in
  assembled (mkInstruction (ThreeOperandInst ADD size (Reg d) (Reg n) (Immediate v)))
    = outcome "ADD immediate value too large (>12 bits)" false false (register_number d)
  ∧ assembled (mkInstruction (ThreeOperandInst SUB size (Reg d) (Reg n) (Immediate v)))
    = outcome "SUB immediate value too large (>12 bits)" true false (register_number d)
  ∧ assembled (mkInstruction (ThreeOperandInst CMP size (Reg d) (Reg n) (Immediate v)))
    = outcome "CMP immediate value too large (>12 bits)" true true 31
  ∧ assembled (mkInstruction (TwoOperandInst CMP size (Reg n) (Immediate v)))
    = outcome "CMP immediate value too large (>12 bits)" true true 31.
Proof.
  intros outcome. subst outcome. cbv beta.
  pose proof (uint_range 32 v ltac:(lia)) as [Hr _].
  destruct (Z.leb_spec (u32 v) 0xFFF) as [Hl|Hl].
  - repeat split; (eapply assembled_decodes; [truncated_word Hl|]);
      revert Hl Hr; generalize (u32 v) as k; intros k Hl Hr;
      rewrite getSfBit_is64; reg_bounds; destruct (is64 size); close_word.
  - repeat split; refused_word Hl.
Qed.

(** ** Witnesses *)

(** [sub w3, w4, #17]. *)
Lemma encode_decodes_witness :
  ∃ m, intended (mkInstruction (ThreeOperandInst SUB Size_W (Reg X3) (Reg X4)
                                  (Immediate 17))) = Some m
       ∧ a64.fetch [0x83; 0x44; 0; 0x51] ≫= a64.decode = Some m.
Proof.
  apply (encode_decodes (mkInstruction (ThreeOperandInst SUB Size_W (Reg X3) (Reg X4)
           (Immediate 17))) [0x83; 0x44; 0; 0x51]); vm_compute; reflexivity.
Defined.

(** [ldr x1, [x2, #-8]]. *)
Lemma encode_unscaled_is_writeback_witness :
  assembled (mkInstruction (MemoryInst LDR Size_X (Reg X1) (Reg X2) (-8)))
  = Ok (Some (a64.StoreIndexed 3 a64.PreIndex 504 2 1)).
Proof.
  apply (encode_unscaled_is_writeback Size_X X1 X2 (-8)); [lia|reflexivity].
Defined.
