(* ===== verification/GuestState.v ===== *)
(** * The guest state structure (lib/GuestState.h)

    The structure native code reaches through X0: the register array, the
    program counter and the description of the shadow memory, with the byte
    offsets [offsetof] gives its members on LP64 targets.  Constructor and
    [writeRegister] are here; the destructor, which unmaps the shadow memory, is
    [BinaryTranslator.destroy]. *)
From S2P Require Import Prelude Error.

Module GuestState.

Record t := mkGuestState {
  x : list Z;              (* uint64_t x[32] *)
  pc : Z;                  (* uint64_t *)
  shadowMemory : Z;        (* void *, nullptr = 0 *)
  shadowMemorySize : Z;    (* size_t *)
  guestMemoryBase : Z;     (* uint64_t *)
}.

(** [GuestState()] *)
Definition new : t := mkGuestState (replicate 32 0) 0 0 0 0.

(** [writeRegister(uint8_t reg, uint64_t value)]: writes to [x0] and to
    numbers past the file are ignored. *)
Definition writeRegister (s : t) (reg value : Z) : t :=
  if (32 <=? reg) || (reg =? 0) then s
  else mkGuestState (<[Z.to_nat reg := value]> (x s)) (pc s) (shadowMemory s)
         (shadowMemorySize s) (guestMemoryBase s).

(** [offsetof]: eight-byte members, no padding. *)
Definition offset_x (reg : Z) : Z := 8 * reg.
Definition offset_pc : Z := 256.
Definition offset_shadowMemory : Z := 264.
Definition offset_shadowMemorySize : Z := 272.
Definition offset_guestMemoryBase : Z := 280.

(** ** The register file *)

Definition well_formed (s : t) : Prop :=
  length (x s) = 32%nat ∧ x s !! 0%nat = Some 0 ∧ Forall (in_u 64) (x s).

Lemma new_well_formed : well_formed new.
Proof. split_and!; [done|done|]. repeat constructor; done. Qed.

Lemma writeRegister_well_formed s reg value :
  well_formed s -> 0 <= reg -> in_u 64 value -> well_formed (writeRegister s reg value).
Proof.
  intros (Hl & H0 & Hx) Hr Hv. unfold writeRegister.
  destruct (Z.leb_spec 32 reg); [done|].
  destruct (Z.eqb_spec reg 0) as [->|Hne]; [done|]. simpl. split_and!; simpl.
  - by rewrite length_insert.
  - rewrite list_lookup_insert_ne by lia. done.
  - by apply Forall_insert.
Qed.

Lemma length_writeRegister s reg value :
  length (x (writeRegister s reg value)) = length (x s).
Proof. unfold writeRegister. destruct (_ || _); [done|]. apply length_insert. Qed.

Lemma writeRegister_lookup s reg value r :
  length (x s) = 32%nat -> 0 < reg < 32 -> 0 <= r < 32 ->
  x (writeRegister s reg value) !! Z.to_nat r
  = if r =? reg then Some value else x s !! Z.to_nat r.
Proof.
  intros Hl Hr Hr'. unfold writeRegister.
  rewrite (proj2 (Z.leb_gt 32 reg)), (proj2 (Z.eqb_neq reg 0)) by lia. simpl.
  destruct (Z.eqb_spec r reg) as [->|Hne].
  - rewrite list_lookup_insert_eq; [done|]. lia.
  - rewrite list_lookup_insert_ne; [done|]. lia.
Qed.

End GuestState.
