(* ===== verification/InstructionSelector.v ===== *)
(** * The instruction selector (lib/Lowering/InstructionSelector.h, .cpp)

    IR blocks to ARM64 instructions over virtual registers.  The members of
    [InstructionSelector] are the record [t]; its member functions are
    computations in the state-and-error monad. *)
From S2P Require Import Prelude Error IR Arm64 GuestState.

Module Selector.

Record t := mkSelector {
  nextVirtualReg : Z;                 (* uint32_t *)
  irToVReg : gmap Z Z;
  valueTypes : gmap Z ir.Type_;
}.

Abbreviation M := (stateM t).

(** [InstructionSelector::InstructionSelector() : nextVirtualReg(0) {}] *)
Definition new : t := mkSelector 0 ∅ ∅.

Definition REGISTER_SIZE_BYTES : Z := 8.

Definition vreg (v : Z) : arm64.Operand := arm64.VirtualRegister v.
Definition X0 : arm64.Operand := arm64.Reg arm64.X0.
Definition X30 : arm64.Operand := arm64.Reg arm64.X30.

Definition comparisonCondition (opcode : ir.BinaryOpcode) : option arm64.Condition :=
  match opcode with
  | ir.Eq => Some arm64.EQ
  | ir.Ne => Some arm64.NE
  | ir.Lt => Some arm64.LT
  | ir.Le => Some arm64.LE
  | ir.Gt => Some arm64.GT
  | ir.Ge => Some arm64.GE
  | ir.LtU => Some arm64.CC
  | ir.LeU => Some arm64.LS
  | ir.GtU => Some arm64.HI
  | ir.GeU => Some arm64.CS
  | _ => None
  end.

Definition getVirtualRegister (valueId : Z) : M (option Z) :=
  s ← get; mret (irToVReg s !! valueId).

Definition getVirtualRegisterOrThrow (valueId : Z) : M Z :=
  v ← getVirtualRegister valueId;
  match v with
  | Some v => mret v
  | None => throw (LoweringError ("No virtual register assigned to IR value "
                                    +:+ to_string valueId))
  end.

(** [nextVirtualReg++] *)
Definition freshVirtualReg : M Z :=
  s ← get;
  modify (λ s, mkSelector (u32 (nextVirtualReg s + 1)) (irToVReg s) (valueTypes s)) ;;
  mret (nextVirtualReg s).

Definition assignVirtualRegister (valueId : Z) : M Z :=
  existing ← getVirtualRegister valueId;
  match existing with
  | Some v => mret v
  | None =>
      v ← freshVirtualReg;
      modify (λ s, mkSelector (nextVirtualReg s) (<[valueId := v]> (irToVReg s))
                     (valueTypes s)) ;;
      mret v
  end.

Definition recordValueType (valueId : Z) (type : ir.Type_) : M unit :=
  modify (λ s, mkSelector (nextVirtualReg s) (irToVReg s)
                 (<[valueId := type]> (valueTypes s))).

Definition getValueType (valueId : Z) : M ir.Type_ :=
  s ← get; mret (default ir.i64 (valueTypes s !! valueId)).

Definition irTypeToDataSize (type : ir.Type_) : arm64.DataSize :=
  match type with
  | ir.i1 | ir.i8 => arm64.Size_B
  | ir.i16 => arm64.Size_H
  | ir.i32 => arm64.Size_W
  | ir.i64 => arm64.Size_X
  end.

Definition irBinaryOpToARM64 (opcode : ir.BinaryOpcode) : result arm64.Opcode :=
  match opcode with
  | ir.Add => Ok arm64.ADD
  | ir.Sub => Ok arm64.SUB
  | ir.Mul => Ok arm64.MUL
  | ir.DivU => Ok arm64.UDIV
  | ir.Div => Ok arm64.SDIV
  | ir.And => Ok arm64.AND
  | ir.Or => Ok arm64.ORR
  | ir.Xor => Ok arm64.EOR
  | ir.Shl => Ok arm64.LSL
  | ir.Shr => Ok arm64.LSR
  | ir.Sar => Ok arm64.ASR
  | _ => Err (LoweringError "Unexpected opcode in irBinaryOpToARM64")
  end.

(** The loop over the four 16-bit chunks: the shifts left to visit, and whether
    no chunk has been emitted yet. *)
Fixpoint constChunks (value : Z) (dataSize : arm64.DataSize)
    (targetOperand : arm64.Operand) (shifts : list Z) (firstChunk : bool)
    : list arm64.Instruction * bool :=
  match shifts with
  | [] => ([], firstChunk)
  | shift :: shifts =>
      let chunk := u16 ((value >>. shift) &. 0xFFFF) in
      if chunk =? 0 then constChunks value dataSize targetOperand shifts firstChunk
      else
        let opcode := if firstChunk then arm64.MOVZ else arm64.MOVK in
        let inst := arm64.mkInstruction
                      (arm64.MoveWideInst opcode dataSize targetOperand chunk (u8 shift)) in
        let '(rest, first) := constChunks value dataSize targetOperand shifts false in
        (inst :: rest, first)
  end.

Definition selectConstIntoRegister (type : ir.Type_) (value : Z)
    (targetOperand : arm64.Operand) : list arm64.Instruction :=
  let dataSize := irTypeToDataSize type in
  if (value <? 0) && (-65536 <=? value) then
    let movnImm := u64 (Z.lnot value) in
    [arm64.mkInstruction (arm64.TwoOperandInst arm64.MOVN dataSize targetOperand
                            (arm64.Immediate movnImm))]
  else if (0 <=? value) && (value <=? 0xFFFF) then
    [arm64.mkInstruction (arm64.TwoOperandInst arm64.MOV dataSize targetOperand
                            (arm64.Immediate (u64 value)))]
  else
    let '(result, firstChunk) :=
      constChunks (u64 value) dataSize targetOperand [0; 16; 32; 48] true in
    if firstChunk then
      result ++ [arm64.mkInstruction
                   (arm64.MoveWideInst arm64.MOVZ dataSize targetOperand 0 0)]
    else result.

Definition selectConst (type : ir.Type_) (value resultId : Z) : M (list arm64.Instruction) :=
  destReg ← assignVirtualRegister resultId;
  mret (selectConstIntoRegister type value (vreg destReg)).

(** The instructions and [hostAddrReg], an out parameter of the source. *)
Definition generateAddressTranslation (guestAddrReg : Z)
    : M (list arm64.Instruction * Z) :=
  hostAddrReg ← freshVirtualReg;
  guestBaseReg ← freshVirtualReg;
  shadowBaseReg ← freshVirtualReg;
  mret
    ([arm64.mkInstruction (arm64.MemoryInst arm64.LDR arm64.Size_X (vreg guestBaseReg) X0
        (i32 GuestState.offset_guestMemoryBase));
      arm64.mkInstruction (arm64.MemoryInst arm64.LDR arm64.Size_X (vreg shadowBaseReg) X0
        (i32 GuestState.offset_shadowMemory));
      arm64.mkInstruction (arm64.ThreeOperandInst arm64.SUB arm64.Size_X (vreg hostAddrReg)
        (vreg guestAddrReg) (vreg guestBaseReg));
      arm64.mkInstruction (arm64.ThreeOperandInst arm64.ADD arm64.Size_X (vreg hostAddrReg)
        (vreg hostAddrReg) (vreg shadowBaseReg))], hostAddrReg).

Definition selectBinaryOp (op : ir.BinaryOpcode) (type : ir.Type_) (lhs rhs resultId : Z)
    : M (list arm64.Instruction) :=
  destReg ← assignVirtualRegister resultId;
  lhsReg ← getVirtualRegisterOrThrow lhs;
  rhsReg ← getVirtualRegisterOrThrow rhs;
  match comparisonCondition op with
  | Some condition =>
      mret
        [arm64.mkInstruction (arm64.TwoOperandInst arm64.CMP arm64.Size_X
           (vreg lhsReg) (vreg rhsReg));
         arm64.mkInstruction (arm64.ConditionalInst arm64.CSET arm64.Size_X
           (vreg destReg) condition)]
  | None =>
      opcode ← lift (irBinaryOpToARM64 op);
      mret
        [arm64.mkInstruction (arm64.ThreeOperandInst opcode (irTypeToDataSize type)
           (vreg destReg) (vreg lhsReg) (vreg rhsReg))]
  end.

Definition selectLoad (type : ir.Type_) (address resultId : Z)
    : M (list arm64.Instruction) :=
  destReg ← assignVirtualRegister resultId;
  guestAddrReg ← getVirtualRegisterOrThrow address;
  tr ← generateAddressTranslation guestAddrReg;
  let '(addrTranslation, hostAddrReg) := tr in
  mret (addrTranslation ++
    [arm64.mkInstruction (arm64.MemoryInst arm64.LDR (irTypeToDataSize type)
       (vreg destReg) (vreg hostAddrReg) 0)]).

Definition selectStore (value address : Z) : M (list arm64.Instruction) :=
  valueReg ← getVirtualRegisterOrThrow value;
  guestAddrReg ← getVirtualRegisterOrThrow address;
  valueType ← getValueType value;
  tr ← generateAddressTranslation guestAddrReg;
  let '(addrTranslation, hostAddrReg) := tr in
  mret (addrTranslation ++
    [arm64.mkInstruction (arm64.MemoryInst arm64.STR (irTypeToDataSize valueType)
       (vreg valueReg) (vreg hostAddrReg) 0)]).

Definition selectSext (toType : ir.Type_) (operand resultId : Z) : M arm64.Instruction :=
  destReg ← assignVirtualRegister resultId;
  srcReg ← getVirtualRegisterOrThrow operand;
  fromType ← getValueType operand;
  let opcode :=
    match fromType with
    | ir.i8 => arm64.SXTB
    | ir.i16 => arm64.SXTH
    | ir.i32 => arm64.SXTW
    | _ => arm64.MOV
    end in
  mret (arm64.mkInstruction (arm64.TwoOperandInst opcode (irTypeToDataSize toType)
          (vreg destReg) (vreg srcReg))).

Definition selectZext (toType : ir.Type_) (operand resultId : Z) : M arm64.Instruction :=
  destReg ← assignVirtualRegister resultId;
  srcReg ← getVirtualRegisterOrThrow operand;
  fromType ← getValueType operand;
  let opcode :=
    match fromType with
    | ir.i8 => arm64.UXTB
    | ir.i16 => arm64.UXTH
    | ir.i32 => arm64.MOV
    | _ => arm64.MOV
    end in
  mret (arm64.mkInstruction (arm64.TwoOperandInst opcode (irTypeToDataSize toType)
          (vreg destReg) (vreg srcReg))).

Definition selectTrunc (toType : ir.Type_) (operand resultId : Z) : M arm64.Instruction :=
  destReg ← assignVirtualRegister resultId;
  srcReg ← getVirtualRegisterOrThrow operand;
  mret (arm64.mkInstruction (arm64.TwoOperandInst arm64.MOV (irTypeToDataSize toType)
          (vreg destReg) (vreg srcReg))).

(** [static_cast<int32_t>(regNumber * REGISTER_SIZE_BYTES)] *)
Definition registerOffset (regNumber : Z) : Z := i32 (regNumber * REGISTER_SIZE_BYTES).

Definition selectRegRead (regNumber resultId : Z) : M arm64.Instruction :=
  destReg ← assignVirtualRegister resultId;
  mret (arm64.mkInstruction (arm64.MemoryInst arm64.LDR arm64.Size_X (vreg destReg) X0
          (registerOffset regNumber))).

Definition selectRegWrite (regNumber value : Z) : M arm64.Instruction :=
  valueReg ← getVirtualRegisterOrThrow value;
  mret (arm64.mkInstruction (arm64.MemoryInst arm64.STR arm64.Size_X (vreg valueReg) X0
          (registerOffset regNumber))).

Definition single (m : M arm64.Instruction) : M (list arm64.Instruction) :=
  i ← m; mret [i].

Definition selectInstruction (inst : ir.Instruction) : M (list arm64.Instruction) :=
  let id := ir.valueId inst in
  match ir.kind inst with
  | ir.BinaryOp op type lhs rhs =>
      recordValueType id type ;; selectBinaryOp op type lhs rhs id
  | ir.Load type address => recordValueType id type ;; selectLoad type address id
  | ir.Store value address => selectStore value address
  | ir.Const type value => recordValueType id type ;; selectConst type value id
  | ir.Sext toType operand =>
      recordValueType id toType ;; single (selectSext toType operand id)
  | ir.Zext toType operand =>
      recordValueType id toType ;; single (selectZext toType operand id)
  | ir.Trunc toType operand =>
      recordValueType id toType ;; single (selectTrunc toType operand id)
  | ir.RegRead regNumber =>
      recordValueType id ir.i64 ;; single (selectRegRead regNumber id)
  | ir.RegWrite regNumber value => single (selectRegWrite regNumber value)
  end.

Definition ret : arm64.Instruction :=
  arm64.mkInstruction (arm64.TwoOperandInst arm64.RET arm64.Size_X X30 X30).

(** The value ids of the two targets are taken from the counter of virtual
    registers. *)
Definition selectCondBranch (condition trueBlock falseBlock : Z)
    : M (list arm64.Instruction) :=
  condReg ← getVirtualRegisterOrThrow condition;
  let cmp := arm64.mkInstruction (arm64.TwoOperandInst arm64.CMP arm64.Size_X
               (vreg condReg) (arm64.Immediate 0)) in
  trueValueId ← freshVirtualReg;
  trueTempReg ← assignVirtualRegister trueValueId;
  trueInsts ← selectConst ir.i64 (i64 trueBlock) trueValueId;
  falseValueId ← freshVirtualReg;
  falseTempReg ← assignVirtualRegister falseValueId;
  falseInsts ← selectConst ir.i64 (i64 falseBlock) falseValueId;
  targetReg ← freshVirtualReg;
  mret ([cmp] ++ trueInsts ++ falseInsts ++
    [arm64.mkInstruction (arm64.ConditionalSelectInst arm64.CSEL arm64.Size_X
       (vreg targetReg) (vreg trueTempReg) (vreg falseTempReg) arm64.NE);
     arm64.mkInstruction (arm64.TwoOperandInst arm64.MOV arm64.Size_X X0 (vreg targetReg));
     ret]).

Definition selectTerminator (term : ir.Terminator) : M (list arm64.Instruction) :=
  match term with
  | ir.Branch targetBlock =>
      mret (selectConstIntoRegister ir.i64 (i64 targetBlock) X0 ++ [ret])
  | ir.CondBranch condition trueBlock falseBlock =>
      selectCondBranch condition trueBlock falseBlock
  | ir.Return (Some value) =>
      srcReg ← getVirtualRegisterOrThrow value;
      mret [arm64.mkInstruction (arm64.TwoOperandInst arm64.MOV arm64.Size_X X0 (vreg srcReg));
            ret]
  | ir.Return None => mret (selectConstIntoRegister ir.i64 0 X0 ++ [ret])
  end.

Definition selectInstructions (block : ir.BasicBlock) : M (list arm64.Instruction) :=
  selected ← mapM_state selectInstruction (ir.instructions block);
  termSelected ← selectTerminator (ir.terminator block);
  mret (concat selected ++ termSelected).

End Selector.
