(* ===== verification/Liveness.v ===== *)
(** * Live intervals (lib/Lowering/LivenessAnalysis.h, .cpp)

    One interval per virtual register an instruction defines, from the last
    definition to the last use, sorted by start for the linear scan.

    [computeLiveIntervals] walks an [std::unordered_map], whose order is
    unspecified (the parameter [iterate]), and orders the intervals with
    [std::sort], which does not fix the order of equal elements: [sort] is a
    merge sort here, and Liveness's theorems show that neither choice matters. *)
From S2P Require Import Prelude Error Arm64.

Module Liveness.
Import arm64.

Record LiveInterval := mkInterval {
  virtualRegister : Z;   (* uint32_t *)
  start : nat;           (* size_t *)
  end_ : nat;            (* size_t *)
}.

#[global] Instance LiveInterval_eq_dec : EqDecision LiveInterval.
Proof. solve_decision. Defined.

Definition overlaps (this other : LiveInterval) : bool :=
  negb ((end_ this <? start other)%nat || (end_ other <? start this)%nat).

Definition getVirtualRegisterFromOperand (operand : Operand) : option Z :=
  match operand with VirtualRegister v => Some v | _ => None end.

(** [if (auto vreg = ...) set.insert( *vreg)] *)
Definition insert_vreg (operand : Operand) (set : gset Z) : gset Z :=
  match getVirtualRegisterFromOperand operand with
  | Some v => {[v]} ∪ set
  | None => set
  end.

Definition getUsedVirtualRegisters (inst : Instruction) : gset Z :=
  match kind inst with
  | ThreeOperandInst _ _ _ src1 src2 => insert_vreg src2 (insert_vreg src1 ∅)
  | TwoOperandInst opcode _ dest src =>
      let used := insert_vreg src ∅ in
      if bool_decide (opcode = CMP) then insert_vreg dest used else used
  | MemoryInst opcode _ reg baseReg _ =>
      let used := insert_vreg baseReg ∅ in
      if bool_decide (opcode = STR) then insert_vreg reg used else used
  | ConditionalSelectInst _ _ _ src1 src2 _ => insert_vreg src2 (insert_vreg src1 ∅)
  | _ => ∅
  end.

Definition getDefinedVirtualRegisters (inst : Instruction) : gset Z :=
  match kind inst with
  | ThreeOperandInst _ _ dest _ _ => insert_vreg dest ∅
  | TwoOperandInst opcode _ dest _ =>
      if negb (bool_decide (opcode = CMP)) then insert_vreg dest ∅ else ∅
  | MemoryInst opcode _ reg _ _ =>
      if bool_decide (opcode = LDR) then insert_vreg reg ∅ else ∅
  | MoveWideInst _ _ dest _ _ => insert_vreg dest ∅
  | ConditionalInst _ _ dest _ => insert_vreg dest ∅
  | ConditionalSelectInst _ _ dest _ _ _ => insert_vreg dest ∅
  | BranchInst _ _ => ∅
  end.

(** [defSites] and [useSites]. *)
Record t := mkLiveness {
  defSites : gmap Z nat;
  useSites : gmap Z (list nat);
}.

Definition def_site (i : nat) (v : Z) (s : t) : t :=
  mkLiveness (<[v := i]> (defSites s)) (useSites s).

(** [useSites[vreg].push_back(i)] *)
Definition use_site (i : nat) (v : Z) (s : t) : t :=
  mkLiveness (defSites s)
    (<[v := default [] (useSites s !! v) ++ [i]]> (useSites s)).

(** The body of the loop of [computeUseDef]: definitions, then uses. *)
Definition visit (i : nat) (inst : Instruction) (s : t) : t :=
  let s := foldr (def_site i) s (elements (getDefinedVirtualRegisters inst)) in
  foldr (use_site i) s (elements (getUsedVirtualRegisters inst)).

Fixpoint visit_from (i : nat) (instructions : list Instruction) (s : t) : t :=
  match instructions with
  | [] => s
  | inst :: rest => visit_from (S i) rest (visit i inst s)
  end.

Definition computeUseDef (instructions : list Instruction) : t :=
  visit_from 0 instructions (mkLiveness ∅ ∅).

(** [*std::max_element(...)] of a non-empty vector. *)
Definition max_element (l : list nat) : nat := foldr Nat.max 0%nat l.

Definition interval_of (s : t) (vreg : Z) (defSite : nat) : LiveInterval :=
  mkInterval vreg defSite
    (match useSites s !! vreg with
     | Some sites => max_element sites
     | None => defSite
     end).

Definition by_start (a b : LiveInterval) : Prop := (start a <= start b)%nat.

#[global] Instance by_start_dec : RelDecision by_start.
Proof. intros a b. unfold by_start. apply _. Defined.

Definition computeLiveIntervals (iterate : gmap Z nat → list (Z * nat))
    (instructions : list Instruction) : list LiveInterval :=
  let s := computeUseDef instructions in
  merge_sort by_start
    (map (λ '(v, d), interval_of s v d) (iterate (defSites s))).

End Liveness.
