(* ===== verification/RegisterAllocator.v ===== *)
(** * The register allocator (lib/Lowering/RegisterAllocator.h, .cpp)

    Linear scan over the sorted intervals, without spilling.  The members of
    [RegisterAllocator] are the record [t]. *)
From S2P Require Import Prelude Error Arm64 Liveness.

Module Allocator.
Import arm64 Liveness.

Record ActiveInterval := mkActive {
  interval : LiveInterval;
  physicalReg : Register;
}.

Record t := mkAllocator {
  allocation : gmap Z Register;
  activeIntervals : list ActiveInterval;
}.

Abbreviation M := (stateM t).

Definition new : t := mkAllocator ∅ [].

Definition availableRegisters : list Register :=
  [X1; X2; X3; X4; X5; X6; X7; X8; X9; X10; X11; X12; X13; X14; X15]
  ++ [X16; X17; X18; X19; X20; X21; X22; X23; X24; X25; X26; X27; X28].

(** [std::none_of(active, physicalReg == reg)] *)
Definition is_free (active : list ActiveInterval) (reg : Register) : bool :=
  forallb (λ a, negb (bool_decide (physicalReg a = reg))) active.

Definition getNextAvailableRegister (active : list ActiveInterval) : option Register :=
  List.find (is_free active) availableRegisters.

Definition expireOldIntervals (currentPoint : nat) (active : list ActiveInterval)
    : list ActiveInterval :=
  List.filter (λ a, negb (end_ (interval a) <? currentPoint)%nat) active.

Definition getPhysicalRegister (alloc : gmap Z Register) (vreg : Z) : option Register :=
  alloc !! vreg.

Definition getPhysicalRegisterOrThrow (alloc : gmap Z Register) (vreg : Z)
    : result Register :=
  match getPhysicalRegister alloc vreg with
  | Some r => Ok r
  | None => Err (LoweringError ("No physical register assigned to virtual register "
                                  +:+ to_string vreg))
  end.

Definition replaceOperandRegister (alloc : gmap Z Register) (operand : Operand)
    : result Operand :=
  match operand with
  | Reg _ => Ok operand
  | VirtualRegister vreg =>
      physReg ← getPhysicalRegisterOrThrow alloc vreg; Ok (Reg physReg)
  | Immediate _ => Ok operand
  end.

Definition replaceVirtualRegisters (alloc : gmap Z Register) (inst : Instruction)
    : result Instruction :=
  let replace := replaceOperandRegister alloc in
  match kind inst with
  | ThreeOperandInst op size dest src1 src2 =>
      dest ← replace dest; src1 ← replace src1; src2 ← replace src2;
      Ok (mkInstruction (ThreeOperandInst op size dest src1 src2))
  | TwoOperandInst op size dest src =>
      dest ← replace dest; src ← replace src;
      Ok (mkInstruction (TwoOperandInst op size dest src))
  | MemoryInst op size reg baseReg offset =>
      reg ← replace reg; baseReg ← replace baseReg;
      Ok (mkInstruction (MemoryInst op size reg baseReg offset))
  | MoveWideInst op size dest imm16 shift =>
      dest ← replace dest;
      Ok (mkInstruction (MoveWideInst op size dest imm16 shift))
  | BranchInst op target => Ok (mkInstruction (BranchInst op target))
  | ConditionalInst op size dest condition =>
      dest ← replace dest;
      Ok (mkInstruction (ConditionalInst op size dest condition))
  | ConditionalSelectInst op size dest src1 src2 condition =>
      dest ← replace dest; src1 ← replace src1; src2 ← replace src2;
      Ok (mkInstruction (ConditionalSelectInst op size dest src1 src2 condition))
  end.

(** The scan: false when it runs out of registers. *)
Fixpoint scan (liveIntervals : list LiveInterval) : M bool :=
  match liveIntervals with
  | [] => mret true
  | i :: rest =>
      modify (λ s, mkAllocator (allocation s)
                     (expireOldIntervals (start i) (activeIntervals s))) ;;
      s ← get;
      match getNextAvailableRegister (activeIntervals s) with
      | None => mret false
      | Some physReg =>
          modify (λ s, mkAllocator (<[virtualRegister i := physReg]> (allocation s))
                         (activeIntervals s ++ [mkActive i physReg])) ;;
          scan rest
      end
  end.

(** [std::is_sorted] by start. *)
Fixpoint is_sorted (l : list LiveInterval) : bool :=
  match l with
  | a :: ((b :: _) as rest) => (start a <=? start b)%nat && is_sorted rest
  | _ => true
  end.

(** The instructions are an in-out parameter: returned with the flag. *)
Definition allocateRegisters (instructions : list Instruction)
    (liveIntervals : list LiveInterval) : M (bool * list Instruction) :=
  modify (λ _, new) ;;
  if negb (is_sorted liveIntervals) then
    throw (undefined_behaviour "assertion failed: is_sorted")
  else
    ok ← scan liveIntervals;
    if (ok : bool) then
      s ← get;
      insts ← lift (mapM_result (replaceVirtualRegisters (allocation s)) instructions);
      mret (true, insts)
    else mret (false, instructions).

End Allocator.
