(* ===== verification/ELFReader.v ===== *)
(** * The ELF reader (lib/ELFReader.h, ELFReader.cpp)

    The ELF parser itself is the third-party library ELFIO: its operations are
    the record [ELFIO], a parameter of the model.  The constants are those of
    the ELF specification. *)
From S2P Require Import Prelude Error.

Module ELFReader.

(** ** The operations of ELFIO the reader calls *)

Record ELFIO := mkELFIO {
  Reader : Type;
  Section_ : Type;
  (* [reader.load(path)], on a default-constructed reader *)
  load : string → option Reader;
  get_class : Reader → Z;
  get_machine : Reader → Z;
  get_type : Reader → Z;
  get_entry : Reader → Z;
  sections : Reader → list Section_;
  get_name : Section_ → string;
  get_flags : Section_ → Z;
  get_address : Section_ → Z;
  (* the bytes behind the pointer [get_data] returns, None for nullptr *)
  get_data : Section_ → option (list Z);
  get_size : Section_ → Z;
  sec_type : Section_ → Z;
  (* [symbol_section_accessor(reader, sec).get_symbol(i, ...)] for i below
     [get_symbols_num()]: name and value, None where it returns false *)
  symbols : Reader → Section_ → list (option (string * Z));
}.

Definition ELFCLASS64 : Z := 2.
Definition EM_RISCV : Z := 243.
Definition ET_EXEC : Z := 2.
Definition SHF_EXECINSTR : Z := 4.
Definition SHT_SYMTAB : Z := 2.
Definition SHT_DYNSYM : Z := 11.

Record TextSection := mkText {
  virtualAddress : Z;   (* uint64_t *)
  data : list Z;        (* std::vector<uint8_t> *)
}.

Section reader.
Context (E : ELFIO).

Record t := mkReader {
  reader : option (Reader E);   (* None: nothing loaded yet *)
  entryPoint : Z;
  textSection : TextSection;
}.

(** [ELFReader::ELFReader() : entryPoint(0) {}] *)
Definition new : t := mkReader None 0 (mkText 0 []).

(** The loop that looks for [.text], with its break. *)
Definition findText (r : Reader E) : option (Section_ E) :=
  List.find (λ sec, String.eqb (get_name E sec) ".text") (sections E r).

Definition loadFile (filePath : string) : stateM t unit :=
  match load E filePath with
  | None => throw (ELFError ("Failed to load ELF file: " +:+ filePath))
  | Some r =>
      modify (λ s, mkReader (Some r) (entryPoint s) (textSection s)) ;;
      if negb (get_class E r =? ELFCLASS64) then
        throw (ELFError "Not a 64-bit ELF file")
      else if negb (get_machine E r =? EM_RISCV) then
        throw (ELFError ("Not a RISC-V ELF file (machine type: "
                           +:+ to_string (get_machine E r) +:+ ")"))
      else if negb (get_type E r =? ET_EXEC) then
        throw (ELFError "Not an executable ELF file")
      else
        modify (λ s, mkReader (reader s) (get_entry E r) (textSection s)) ;;
        match findText r with
        | None => throw (ELFError "No .text section found in ELF file")
        | Some textSec =>
            if Z.land (get_flags E textSec) SHF_EXECINSTR =? 0 then
              throw (ELFError ".text section is not executable")
            else
              modify (λ s, mkReader (reader s) (entryPoint s)
                             (mkText (get_address E textSec) (data (textSection s)))) ;;
              match get_data E textSec with
              | None => throw (ELFError "Failed to read .text section data")
              | Some bytes =>
                  let size := Z.to_nat (get_size E textSec) in
                  if (length bytes <? size)%nat then
                    throw (undefined_behaviour "read past the section data")
                  else
                    modify (λ s, mkReader (reader s) (entryPoint s)
                                   (mkText (virtualAddress (textSection s))
                                      (take size bytes)))
              end
        end
  end.

Definition is_symbol_table (sec : Section_ E) : bool :=
  (sec_type E sec =? SHT_SYMTAB) || (sec_type E sec =? SHT_DYNSYM).

Fixpoint findSymbol (functionName : string) (l : list (option (string * Z))) : option Z :=
  match l with
  | [] => None
  | Some (name, value) :: l =>
      if String.eqb name functionName then Some value else findSymbol functionName l
  | None :: l => findSymbol functionName l
  end.

Fixpoint findInSections (functionName : string) (r : Reader E)
    (l : list (Section_ E)) : option Z :=
  match l with
  | [] => None
  | sec :: l =>
      if is_symbol_table sec then
        match findSymbol functionName (symbols E r sec) with
        | Some value => Some value
        | None => findInSections functionName r l
        end
      else findInSections functionName r l
  end.

Definition getFunctionAddress (s : t) (functionName : string) : option Z :=
  match reader s with
  | Some r => findInSections functionName r (sections E r)
  | None => None
  end.

(** ** What loading establishes *)

(** The file conditions [loadFile] checks. *)
Definition acceptable (r : Reader E) (sec : Section_ E) : Prop :=
  get_class E r = ELFCLASS64 ∧ get_machine E r = EM_RISCV ∧ get_type E r = ET_EXEC
  ∧ findText r = Some sec ∧ Z.land (get_flags E sec) SHF_EXECINSTR ≠ 0.

Lemma loadFile_Ok path s u s' :
  loadFile path s = (Ok u, s') ->
  ∃ r sec bytes, load E path = Some r ∧ acceptable r sec
    ∧ get_data E sec = Some bytes
    ∧ s' = mkReader (Some r) (get_entry E r)
             (mkText (get_address E sec) (take (Z.to_nat (get_size E sec)) bytes)).
Proof.
  unfold loadFile, acceptable. intros H.
  destruct (load E path) as [r|]; [|done].
  rewrite run_bind in H. unfold modify at 1 in H.
  destruct (Z.eqb_spec (get_class E r) ELFCLASS64); [|done]. cbn [negb] in H.
  destruct (Z.eqb_spec (get_machine E r) EM_RISCV); [|done]. cbn [negb] in H.
  destruct (Z.eqb_spec (get_type E r) ET_EXEC); [|done]. cbn [negb] in H.
  rewrite run_bind in H. unfold modify at 1 in H.
  destruct (findText r) as [sec|] eqn:Hf; [|done].
  destruct (Z.eqb_spec (Z.land (get_flags E sec) SHF_EXECINSTR) 0); [done|].
  rewrite run_bind in H. unfold modify at 1 in H.
  destruct (get_data E sec) as [bytes|] eqn:Hd; [|done].
  destruct (_ <? _)%nat; [done|]. injection H as _ <-.
  exists r, sec, bytes. split_and!; done.
Qed.

Lemma findSymbol_Some name l v :
  findSymbol name l = Some v -> Some (name, v) ∈ l.
Proof.
  induction l as [|[[n w]|] l IH]; simpl; [done| |].
  - destruct (String.eqb_spec n name) as [->|]; [intros [= ->]; by left|].
    intros H. right. auto.
  - intros H. right. auto.
Qed.

Lemma findSymbol_None name l v :
  findSymbol name l = None -> Some (name, v) ∉ l.
Proof.
  induction l as [|[[n w]|] l IH]; simpl; intros H Hin; [set_solver| |].
  - destruct (String.eqb_spec n name); [done|].
    apply elem_of_cons in Hin as [[= -> ->]|Hin]; [done|by apply IH].
  - apply elem_of_cons in Hin as [?|Hin]; [done|by apply IH].
Qed.

End reader.

Arguments reader {E} _.
Arguments entryPoint {E} _.
Arguments textSection {E} _.

End ELFReader.
