(* ===== verification/ExecutionEngine.v ===== *)
(** * The execution engine (lib/ExecutionEngine.h, ExecutionEngine.cpp)

    Copies machine code to fresh pages, makes them executable and calls them.
    The operating system and the processor are the record [OS], a parameter of
    the model: a world of type [World] and the calls the code makes. *)
From S2P Require Import Prelude Error GuestState.

Module ExecutionEngine.

Record OS := mkOS {
  World : Type;
  getpagesize : Z;
  (* anonymous private [mmap] of a size, read/write: None for MAP_FAILED *)
  mmap : Z → World → option Z * World;
  (* [mprotect(memory, size, PROT_READ | PROT_EXEC)]: true for success *)
  mprotect : Z → Z → World → bool * World;
  munmap : Z → Z → World → World;
  memcpy : Z → list Z → World → World;
  (* the call of the function at an address with the guest state's address as
     argument: the value returned in X0 and the memory it leaves, None if it
     does not return *)
  call : Z → GuestState.t → World → option (Z * GuestState.t * World);
}.

Section engine.
Context (O : OS).

(** The guest state lives in the caller's object; the function mutates it. *)
Record t := mkState {
  guest : GuestState.t;
  world : World O;
}.

Definition set_world (w : World O) (s : t) : t := mkState (guest s) w.

Definition allocSize (codeSize : Z) : Z :=
  let pageSize := getpagesize O in
  u64 (u64 (u64 (codeSize + pageSize) - 1) / pageSize * pageSize).

Definition executeBlock (machineCode : list Z) : stateM t Z :=
  let size := allocSize (Z.of_nat (length machineCode)) in
  s ← get;
  let '(memory, w) := mmap O size (world s) in
  modify (set_world w) ;;
  match memory with
  | None => throw (RuntimeError "ExecutionEngine: mmap failed")
  | Some memory =>
      modify (λ s, set_world (memcpy O memory machineCode (world s)) s) ;;
      s ← get;
      let '(ok, w) := mprotect O memory size (world s) in
      modify (set_world w) ;;
      if negb ok then
        modify (λ s, set_world (munmap O memory size (world s)) s) ;;
        throw (RuntimeError "ExecutionEngine: Failed to set execute permissions")
      else
        s ← get;
        match call O memory (guest s) (world s) with
        | None => throw (undefined_behaviour "native code does not return")
        | Some (nextPC, g, w) =>
            modify (λ _, mkState g w) ;;
            modify (λ s, set_world (munmap O memory size (world s)) s) ;;
            mret nextPC
        end
  end.

(** ** Facts *)

(** The allocation holds the code and wastes less than a page. *)
Lemma allocSize_fits codeSize :
  0 < getpagesize O < 2 ^ 32 -> 0 <= codeSize < 2 ^ 32 ->
  codeSize <= allocSize codeSize < codeSize + getpagesize O
  ∧ (allocSize codeSize) mod (getpagesize O) = 0.
Proof.
  intros Hp Hc. unfold allocSize. set (p := getpagesize O) in *.
  rewrite (uint_small 64 (codeSize + p)) by (unfold in_u; lia).
  rewrite (uint_small 64 (codeSize + p - 1)) by (unfold in_u; lia).
  pose proof (Z.div_mod (codeSize + p - 1) p ltac:(lia)) as E.
  pose proof (Z.mod_pos_bound (codeSize + p - 1) p ltac:(lia)) as Hm.
  rewrite uint_small by (unfold in_u; nia).
  split; [nia|]. apply Z.mod_mul. lia.
Qed.

End engine.

Arguments mkState {O} guest world.
Arguments guest {O} t.
Arguments world {O} t.
Arguments set_world {O} w s.

End ExecutionEngine.
