(* ===== verification/BinaryTranslator.v ===== *)
(** * The binary translator (lib/BinaryTranslator.h, BinaryTranslator.cpp)

    The driver: load a binary, translate basic block after basic block and run
    each, until the program counter becomes zero or the block limit is reached.
    The members of [BinaryTranslator] are the record [t]; the ELF library, the
    operating system and the processor are parameters, and so are the two
    iteration orders of hash tables.  The progress messages written to the
    standard output are not modelled. *)
From S2P Require Import Prelude Error Riscv Decoder IR Lifter Arm64 Encoder GuestState.
From S2P Require Import InstructionSelector Liveness RegisterAllocator ELFReader.
From S2P Require Import ExecutionEngine.

Module BinaryTranslator.

Definition SHADOW_MEMORY_SIZE : Z := 8 * 1024 * 1024.
Definition STACK_RESERVE : Z := 1024.
Definition MAX_EXECUTION_BLOCKS : Z := 10000.

Section translator.
Context (E : ELFReader.ELFIO) (O : ExecutionEngine.OS).
Context (iterate_regs : gset Z → list Z) (iterate_defs : gmap Z nat → list (Z * nat)).

Record t := mkTranslator {
  elfReader : ELFReader.t E;
  guestState : GuestState.t;
  world : ExecutionEngine.World O;
  textSectionData : list Z;
  textBaseAddress : Z;
}.

Abbreviation M := (stateM t).

Definition set_guest (g : GuestState.t) (s : t) : t :=
  mkTranslator (elfReader s) g (world s) (textSectionData s) (textBaseAddress s).

(** A write to [guestState.x[i]], for a constant index below 32. *)
Definition set_x (i : nat) (v : Z) (g : GuestState.t) : GuestState.t :=
  GuestState.mkGuestState (<[i := v]> (GuestState.x g)) (GuestState.pc g)
    (GuestState.shadowMemory g) (GuestState.shadowMemorySize g)
    (GuestState.guestMemoryBase g).

Definition set_pc (v : Z) (g : GuestState.t) : GuestState.t :=
  GuestState.mkGuestState (GuestState.x g) v (GuestState.shadowMemory g)
    (GuestState.shadowMemorySize g) (GuestState.guestMemoryBase g).

(** Run a member function of the execution engine or of the ELF reader. *)
Definition on_engine {A} (m : stateM (ExecutionEngine.t O) A) : M A :=
  λ s, let '(r, s') := m (ExecutionEngine.mkState (guestState s) (world s)) in
       (r, mkTranslator (elfReader s) (ExecutionEngine.guest s')
             (ExecutionEngine.world s') (textSectionData s) (textBaseAddress s)).

Definition on_reader {A} (m : stateM (ELFReader.t E) A) : M A :=
  λ s, let '(r, e) := m (elfReader s) in
       (r, mkTranslator e (guestState s) (world s) (textSectionData s)
             (textBaseAddress s)).

(** The constructor's state before [initializeTranslator]. *)
Definition blank (w : ExecutionEngine.World O) : t :=
  mkTranslator (ELFReader.new E) GuestState.new w [] 0.

Definition initializeTranslator : M unit :=
  s ← get;
  let '(shadowMem, w) := ExecutionEngine.mmap O SHADOW_MEMORY_SIZE (world s) in
  modify (λ s, mkTranslator (elfReader s) (guestState s) w (textSectionData s)
                 (textBaseAddress s)) ;;
  match shadowMem with
  | None => throw (RuntimeError "Failed to allocate shadow memory")
  | Some shadowMem =>
      let stackTop := SHADOW_MEMORY_SIZE - STACK_RESERVE in
      modify (λ s, set_guest
        (set_x 2 stackTop
           (GuestState.mkGuestState (GuestState.x (guestState s))
              (GuestState.pc (guestState s)) shadowMem SHADOW_MEMORY_SIZE 0x0)) s)
  end.

Definition loadRISCVBinary (inputPath : string) : M unit :=
  on_reader (ELFReader.loadFile E inputPath) ;;
  modify (λ s,
    let text := ELFReader.textSection (elfReader s) in
    mkTranslator (elfReader s) (guestState s) (world s)
      (ELFReader.data text) (ELFReader.virtualAddress text)).

(** Selection, liveness, allocation: a failed allocation only prints a
    warning. *)
Definition translateToARM64 (irBlock : ir.BasicBlock)
    : result (list arm64.Instruction) :=
  arm64Instructions ← fst (Selector.selectInstructions irBlock Selector.new);
  let liveIntervals := Liveness.computeLiveIntervals iterate_defs arm64Instructions in
  r ← fst (Allocator.allocateRegisters arm64Instructions liveIntervals Allocator.new);
  let '(_, insts) := r in
  Ok (insts : list arm64.Instruction).

Definition isValidPC (s : t) (pc : Z) : bool :=
  (textBaseAddress s <=? pc)
  && (pc <? u64 (textBaseAddress s + Z.of_nat (length (textSectionData s)))).

Definition pc_message (prefix : string) (pc : Z) : string := prefix +:+ to_hex pc.

(** The decoding loop of [executeBlock]; [fuel] bounds its iterations. *)
Fixpoint decodeBlock (fuel : nat) (data : list Z) (offset currentPC : Z)
    (acc : list riscv.Instruction) : result (list riscv.Instruction) :=
  match fuel with
  | 0%nat => Ok acc
  | S fuel =>
      if offset <? Z.of_nat (length data) then
        inst ← Decoder.decode data offset currentPC;
        if negb (riscv.isValid inst) then
          Err (DecodingError (pc_message "Invalid instruction at PC=0x" currentPC))
        else
          let acc := acc ++ [inst] in
          if Lifter.isTerminator inst then Ok acc
          else decodeBlock fuel data (u64 (offset + 4)) (u64 (currentPC + 4)) acc
      else Ok acc
  end.

(** Everything [executeBlock] does before it runs the code. *)
Definition compileBlock (s : t) (pc : Z) : result (list Z) :=
  if negb (isValidPC s pc) then
    Err (RuntimeError (pc_message "PC out of bounds: 0x" pc))
  else
    let data := textSectionData s in
    let offset := u64 (pc - textBaseAddress s) in
    blockInstructions ← decodeBlock (S (length data)) data offset pc [];
    if bool_decide (blockInstructions = []) then
      Err (RuntimeError (pc_message "No instructions decoded for block at PC=0x" pc))
    else
      irBlock ← fst (Lifter.liftBasicBlock iterate_regs blockInstructions Lifter.new);
      arm64Instructions ← translateToARM64 irBlock;
      encoded ← mapM_result Encoder.encodeInstruction arm64Instructions;
      let machineCode := concat encoded in
      if bool_decide (machineCode = []) then
        Err (EncodingError "Failed to encode machine code")
      else Ok (machineCode : list Z).

Definition executeBlock (pc : Z) : M Z :=
  s ← get;
  machineCode ← lift (compileBlock s pc);
  on_engine (ExecutionEngine.executeBlock O machineCode).

(** The dispatch loop: [blocks] is [maxBlocks - blockCount]. *)
Fixpoint dispatch (blocks : nat) (currentPC : Z) : M unit :=
  match blocks with
  | 0%nat => mret tt
  | S blocks =>
      if currentPC =? 0 then mret tt
      else
        modify (λ s, set_guest (set_pc currentPC (guestState s)) s) ;;
        nextPC ← executeBlock currentPC;
        if nextPC =? 0 then mret tt else dispatch blocks nextPC
  end.

Definition getReturnValue (s : t) : Z :=
  i32 (nth 10 (GuestState.x (guestState s)) 0).

Definition executeFunction (inputPath functionName : string) : M Z :=
  loadRISCVBinary inputPath ;;
  s ← get;
  match ELFReader.getFunctionAddress E (elfReader s) functionName with
  | None => throw (ELFError ("Function '" +:+ functionName +:+ "' not found in binary"))
  | Some functionAddr =>
      modify (λ s, set_guest (set_pc functionAddr (guestState s)) s) ;;
      modify (λ s, set_guest (set_x 1 0 (guestState s)) s) ;;
      dispatch (Z.to_nat MAX_EXECUTION_BLOCKS) functionAddr ;;
      s ← get;
      mret (getReturnValue s)
  end.

(** The loop stops after eight arguments. *)
Fixpoint setArguments (i : Z) (args : list Z) (g : GuestState.t) : GuestState.t :=
  match args with
  | [] => g
  | a :: args =>
      if i <? 8 then setArguments (i + 1) args (GuestState.writeRegister g (u8 (10 + i)) a)
      else g
  end.

Definition setArgumentRegisters (args : list Z) : M unit :=
  modify (λ s, set_guest (setArguments 0 args (guestState s)) s).

(** [~BinaryTranslator()], which runs [~GuestState()]: the shadow memory is
    given back. *)
Definition destroy (s : t) : ExecutionEngine.World O :=
  let g := guestState s in
  if GuestState.shadowMemory g =? 0 then world s
  else ExecutionEngine.munmap O (GuestState.shadowMemory g)
         (GuestState.shadowMemorySize g) (world s).

End translator.
End BinaryTranslator.
