(* ===== verification/Main.v ===== *)
(** * The command line (tools/dinorisc/DinoRISCMain.cpp)

    [main]: argument count, conversion of the guest function's arguments with
    [std::stoull], construction and run of the translator, and the exit code of
    every outcome.  The progress messages of the translator are not part of the
    modelled output. *)
From S2P Require Import Prelude Error GuestState ELFReader ExecutionEngine BinaryTranslator.
From Stdlib Require Import Ascii.

Module Main.

(** ** [std::stoull(str)], base 10

    [strtoull]: leading white space, an optional sign, then decimal digits up
    to the first other character; a minus sign negates modulo 2^64.  No digits
    is [std::invalid_argument], a magnitude above 2^64 - 1 is
    [std::out_of_range]. *)

Definition is_space (c : ascii) : bool :=
  let n := Z.of_nat (nat_of_ascii c) in
  (n =? 32) || (9 <=? n) && (n <=? 13).

Definition digit (c : ascii) : option Z :=
  let n := Z.of_nat (nat_of_ascii c) in
  if (48 <=? n) && (n <=? 57) then Some (n - 48) else None.

Fixpoint skip_space (s : string) : string :=
  match s with
  | String c s' => if is_space c then skip_space s' else s
  | EmptyString => s
  end.

(** The value of the leading digits, and whether there is one. *)
Fixpoint digits (s : string) (acc : Z) (any : bool) : option Z :=
  match s with
  | String c s' =>
      match digit c with
      | Some d => digits s' (10 * acc + d) true
      | None => if any then Some acc else None
      end
  | EmptyString => if any then Some acc else None
  end.

Definition magnitude (s : string) : option Z :=
  match digits s 0 false with
  | Some v => if v <? 2 ^ 64 then Some v else None
  | None => None
  end.

(** None: it throws a [std::exception]. *)
Definition stoull (s : string) : option Z :=
  match skip_space s with
  | String "-" s' => v ← magnitude s'; Some (u64 (- v))
  | String "+" s' => magnitude s'
  | s' => magnitude s'
  end.

(** ** main *)

Inductive outcome :=
  (* return from main: exit code, what is written last to stdout and to stderr,
     without the newline at its end *)
  | Exit (code : Z) (out err : string)
  (* an exception left main, or undefined behaviour was reached *)
  | Uncaught (e : Error).

Section main.
Context (E : ELFReader.ELFIO) (O : ExecutionEngine.OS).
Context (iterate_regs : gset Z → list Z) (iterate_defs : gmap Z nat → list (Z * nat)).

Definition newline : string := String (ascii_of_nat 10) EmptyString.

Definition usage (programName : string) : string :=
  "Usage: " +:+ programName +:+ " <riscv_binary> <function_name> [arg1] [arg2] ..."
  +:+ newline +:+ "Executes RISC-V 64-bit binaries using dynamic binary translation"
  +:+ newline +:+ "Arguments are passed to the function as integer parameters (max 8)".

(** The argument loop: at most eight, or the first that is no integer. *)
Fixpoint parseArguments (argv : list string) (functionArgs : list Z)
    : list Z + string :=
  match argv with
  | [] => inl functionArgs
  | a :: argv =>
      if (length functionArgs <? 8)%nat then
        match stoull a with
        | Some arg => parseArguments argv (functionArgs ++ [arg])
        | None => inr a
        end
      else inl functionArgs
  end.

(** The body of the [try] block, from a fresh translator. *)
Definition run (inputPath functionName : string) (functionArgs : list Z)
    : stateM (BinaryTranslator.t E O) Z :=
  BinaryTranslator.initializeTranslator E O ;;
  BinaryTranslator.setArgumentRegisters E O functionArgs ;;
  BinaryTranslator.executeFunction E O iterate_regs iterate_defs inputPath functionName.

(** The [try] block with the end of the translator's life: on return and when
    an exception is caught alike its destructor runs. *)
Definition session (inputPath functionName : string) (functionArgs : list Z)
    (w : ExecutionEngine.World O) : result Z * ExecutionEngine.World O :=
  let x := run inputPath functionName functionArgs (BinaryTranslator.blank E O w) in
  (fst x, BinaryTranslator.destroy E O (snd x)).

Definition what (e : Error) : string :=
  match e with
  | ELFError w | DecodingError w | UnsupportedInstructionError w
  | EncodingError w | LoweringError w | RuntimeError w => w
  | bad_variant_access => "std::get: wrong index for variant"
  | undefined_behaviour w => w
  end.

(** [argv] with the program name first. *)
Definition main (argv : list string) (w : ExecutionEngine.World O) : outcome :=
  match argv with
  | programName :: inputPath :: functionName :: rest =>
      match parseArguments rest [] with
      | inr a =>
          Exit 1 "" ("Error: Invalid argument '" +:+ a +:+ "'. Arguments must be integers.")
      | inl functionArgs =>
          match fst (session inputPath functionName functionArgs w) with
          | Ok functionResult =>
              Exit 0 ("Function " +:+ functionName +:+ " returned: "
                        +:+ to_string functionResult) ""
          | Err e =>
              if is_dinorisc_Error e then Exit 1 "" ("Error: " +:+ what e)
              else Uncaught e
          end
      end
  | programName :: _ => Exit 1 (usage programName) ""
  | [] => Exit 1 (usage "") ""
  end.

End main.
End Main.
