(* ===== verification/HostState.v ===== *)
(** * The guest's state in the host's memory

    Native code reaches the guest's registers through the [GuestState]
    structure (lib/GuestState.h) whose address is in X0, and the guest's memory
    through the base address and the shadow memory pointer stored there.
    [represents] relates the abstract machine of Machine.v to such a host
    memory; the lemmas say that the accesses native code makes preserve it. *)
From S2P Require Import Prelude Error Machine GuestState.
Import machine.

(** ** Bytes *)

Lemma load_ext n H H' a a' :
  (∀ k, 0 <= k < Z.of_nat n -> load_byte H (a + k) = load_byte H' (a' + k)) ->
  load n H a = load n H' a'.
Proof.
  unfold load. revert a a'. induction n as [|n IH]; intros a a' Hk; [done|].
  f_equal.
  - specialize (Hk 0 ltac:(lia)). by rewrite !Z.add_0_r in Hk.
  - f_equal. apply IH. intros k Hk'. rewrite <- !Z.add_assoc. apply Hk. lia.
Qed.

Lemma load_byte_wrap H a : load_byte H (u64 a) = load_byte H a.
Proof. unfold load_byte. by rewrite uint_idemp. Qed.

Lemma load_wrap n H a : load n H (u64 a) = load n H a.
Proof.
  apply load_ext. intros k _. rewrite <- (load_byte_wrap _ (u64 a + k)), uint_add_l.
  apply load_byte_wrap.
Qed.

(** The byte at [b] after a store at [a]: its distance from [a] decides. *)
Lemma load_byte_store n m a v b :
  Z.of_nat n < 2 ^ 64 ->
  load_byte (store n m a v) b
  = if u64 (b - a) <? Z.of_nat n then u8 (v / 2 ^ (8 * u64 (b - a)))
    else load_byte m b.
Proof.
  revert m a v. induction n as [|n IH]; intros m a v Hn.
  - pose proof (uint_range 64 (b - a) ltac:(lia)) as [? _].
    destruct (Z.ltb_spec (u64 (b - a)) (Z.of_nat 0)); [lia|done].
  - change (store (S n) m a v) with (store n (<[u64 a := u8 v]> m) (a + 1) (v / 2 ^ 8)).
    rewrite IH by lia.
    assert (0 <= u64 (b - a) < 2 ^ 64) as Hr by (apply uint_range; lia).
    destruct (Z.eqb_spec (u64 (b - a)) 0) as [E0|E0].
    + assert (u64 b = u64 a) as Hba.
      { rewrite <- (Z.sub_simpl_r b a), <- uint_add_l, E0. by rewrite Z.add_0_l. }
      assert (u64 (b - (a + 1)) = 2 ^ 64 - 1) as ->.
      { replace (b - (a + 1)) with ((b - a) - 1) by lia.
        rewrite <- uint_sub_l, E0. done. }
      rewrite E0. rewrite (proj2 (Z.ltb_ge (2 ^ 64 - 1) (Z.of_nat n))) by lia.
      rewrite (proj2 (Z.ltb_lt 0 (Z.of_nat (S n)))) by lia.
      unfold load_byte. rewrite Hba, lookup_insert_eq. simpl.
      by rewrite uint_idemp, Z.div_1_r.
    + assert (u64 (b - (a + 1)) = u64 (b - a) - 1) as ->.
      { replace (b - (a + 1)) with ((b - a) - 1) by lia.
        rewrite <- uint_sub_l. apply uint_small. unfold in_u. lia. }
      destruct (Z.ltb_spec (u64 (b - a) - 1) (Z.of_nat n)),
        (Z.ltb_spec (u64 (b - a)) (Z.of_nat (S n))); try lia.
      * rewrite Z.div_div by (try lia; apply Z.pow_pos_nonneg; lia).
        rewrite <- Z.pow_add_r by lia. do 3 f_equal. lia.
      * unfold load_byte. rewrite lookup_insert_ne; [done|]. intros Hab. apply E0.
        by rewrite <- uint_sub_r, Hab, uint_sub_r, Z.sub_diag.
Qed.

Lemma store_wrap n m a v b :
  Z.of_nat n < 2 ^ 64 ->
  load_byte (store n m (u64 a) v) b = load_byte (store n m a v) b.
Proof. intros. rewrite !load_byte_store by done. by rewrite uint_sub_r. Qed.

(** A store beside a load. *)
Lemma load_store_disjoint n k m a b v :
  Z.of_nat n < 2 ^ 64 ->
  (∀ j, 0 <= j < Z.of_nat k -> Z.of_nat n <= u64 (b + j - a)) ->
  load k (store n m a v) b = load k m b.
Proof.
  intros Hn Hj. apply load_ext. intros j Hk. rewrite load_byte_store by done.
  specialize (Hj j Hk). destruct (Z.ltb_spec (u64 (b + j - a)) (Z.of_nat n)); [lia|done].
Qed.

(** ** The representation *)

Section host.
(** The addresses of the [GuestState] structure and of the shadow memory, the
    guest address its first byte stands for, and the guest's mapped memory. *)
Context (gs base shadow : Z) (mapped : Z → bool).

Definition host (a : Z) : Z := u64 (a - base + shadow).

(** Mapped guest addresses are not translated into the structure. *)
Definition separate : Prop :=
  ∀ a k, mapped (u64 a) = true -> 0 <= k < 288 -> host a ≠ u64 (gs + k).

Record represents (R : regs) (m H : mem) : Prop := {
  rp_regs : ∀ r, 0 <= r < 32 -> load 8 H (gs + GuestState.offset_x r) = rd R r;
  rp_base : load 8 H (gs + GuestState.offset_guestMemoryBase) = base;
  rp_shadow : load 8 H (gs + GuestState.offset_shadowMemory) = shadow;
  rp_bytes : ∀ a, mapped (u64 a) = true -> load_byte H (host a) = load_byte m a;
}.

Lemma host_add a k : u64 (host a + k) = host (a + k).
Proof. unfold host. rewrite uint_add_l. f_equal. lia. Qed.

Lemma host_diff a b : u64 (host b - host a) = u64 (b - a).
Proof. unfold host. rewrite uint_sub_l, uint_sub_r. f_equal. lia. Qed.

Lemma represents_load R m H n a :
  represents R m H -> accessible mapped n a = true ->
  load n H (host a) = load n m a.
Proof.
  intros HR Ha. apply load_ext. intros k Hk.
  rewrite <- load_byte_wrap, host_add. apply HR. by eapply accessible_spec.
Qed.

(** The distance of a byte of the structure from a guest access. *)
Lemma separate_distance n a k :
  separate -> accessible mapped n a = true -> 0 <= k < 288 ->
  Z.of_nat n <= u64 (gs + k - host a).
Proof.
  intros Hsep Ha Hk. destruct (Z.le_gt_cases (Z.of_nat n) (u64 (gs + k - host a))); [done|].
  pose proof (uint_range 64 (gs + k - host a) ltac:(lia)) as [? _]. exfalso.
  apply (Hsep (a + u64 (gs + k - host a)) k); [by eapply accessible_spec|done|].
  rewrite <- host_add, uint_add_r. f_equal. lia.
Qed.

Lemma represents_store R m H n a v :
  separate -> Z.of_nat n < 2 ^ 64 ->
  represents R m H -> accessible mapped n a = true ->
  represents R (store n m a v) (store n H (host a) v).
Proof.
  intros Hsep Hn HR Ha.
  assert (∀ k, 0 <= k -> k + 8 <= 288 ->
            load 8 (store n H (host a) v) (gs + k) = load 8 H (gs + k)) as Hk.
  { intros k Hk0 Hk. apply load_store_disjoint; [done|]. intros j Hj.
    rewrite <- Z.add_assoc. apply separate_distance; [done..|lia]. }
  split.
  - intros r Hr. unfold GuestState.offset_x. rewrite Hk by lia. by apply HR.
  - rewrite Hk by done. apply HR.
  - rewrite Hk by done. apply HR.
  - intros b Hb. rewrite !load_byte_store by done. rewrite host_diff.
    destruct (_ <? _); [done|]. by apply HR.
Qed.

Lemma represents_reg_write R m H r v :
  separate -> represents R m H -> 0 <= r < 32 -> in_u 64 v ->
  represents (wr R r v) m (store 8 H (gs + GuestState.offset_x r) v).
Proof.
  intros Hsep HR Hr Hv. unfold GuestState.offset_x in *.
  assert (∀ k, 0 <= k -> k + 8 <= 288 -> k + 8 <= 8 * r ∨ 8 * r + 8 <= k ->
            load 8 (store 8 H (gs + 8 * r) v) (gs + k) = load 8 H (gs + k)) as Hk.
  { intros k Hk0 Hk Hd. apply load_store_disjoint; [done|]. intros j Hj.
    replace (gs + k + j - (gs + 8 * r)) with (k + j - 8 * r) by lia.
    unfold uint. destruct Hd.
    - rewrite <- (Z.mod_add _ 1), Z.mod_small by lia. lia.
    - rewrite Z.mod_small by lia. lia. }
  split.
  - intros r' Hr'. unfold GuestState.offset_x.
    destruct (Z.eq_dec r r') as [<-|Hne].
    + rewrite load_store by done. by rewrite rd_wr_eq, uint_small.
    + rewrite Hk by lia. rewrite rd_wr_ne by done. by apply HR.
  - unfold GuestState.offset_guestMemoryBase. rewrite Hk by lia. apply HR.
  - unfold GuestState.offset_shadowMemory. rewrite Hk by lia. apply HR.
  - intros a Ha. rewrite load_byte_store by done.
    destruct (Z.ltb_spec (u64 (host a - (gs + 8 * r))) (Z.of_nat 8)) as [Hlt|]; [|by apply HR].
    exfalso. pose proof (uint_range 64 (host a - (gs + 8 * r)) ltac:(lia)) as [? _].
    apply (Hsep a (8 * r + u64 (host a - (gs + 8 * r))) Ha); [lia|].
    rewrite Z.add_assoc, uint_add_r.
    replace (gs + 8 * r + (host a - (gs + 8 * r))) with (host a) by lia.
    symmetry. apply uint_small, uint_range. lia.
Qed.

(** ** The memory native code may change

    Bytes of the structure, and the bytes mapped guest addresses translate
    to. *)
Definition touched (b : Z) : Prop :=
  (∃ k, 0 <= k < 288 ∧ u64 b = u64 (gs + k)) ∨ ∃ a, mapped (u64 a) = true ∧ u64 b = host a.

Definition confined (H H' : mem) : Prop :=
  ∀ b, ¬ touched b -> load_byte H' b = load_byte H b.

Lemma confined_refl H : confined H H.
Proof. by intros b _. Qed.

Lemma confined_trans H1 H2 H3 : confined H1 H2 -> confined H2 H3 -> confined H1 H3.
Proof. intros C1 C2 b Hb. by rewrite C2, C1. Qed.

Lemma confined_store n H a v :
  Z.of_nat n < 2 ^ 64 ->
  (∀ k, 0 <= k < Z.of_nat n -> touched (a + k)) -> confined H (store n H a v).
Proof.
  intros Hn Ht b Hb. rewrite load_byte_store by done.
  destruct (Z.ltb_spec (u64 (b - a)) (Z.of_nat n)) as [Hlt|]; [|done]. exfalso. apply Hb.
  pose proof (uint_range 64 (b - a) ltac:(lia)) as [H0 _].
  assert (u64 (a + u64 (b - a)) = u64 b) as E.
  { rewrite uint_add_r. f_equal. lia. }
  destruct (Ht (u64 (b - a)) (conj H0 Hlt)) as [(k & Hk & Ek)|(a' & Ha & Ea)];
    rewrite E in *; [left|right]; eauto.
Qed.

Lemma confined_guest n H a v :
  Z.of_nat n < 2 ^ 64 -> accessible mapped n a = true -> confined H (store n H (host a) v).
Proof.
  intros Hn Ha. apply confined_store; [done|]. intros k Hk. right. exists (a + k).
  split; [by eapply accessible_spec|apply host_add].
Qed.

Lemma confined_structure H k v :
  0 <= k -> k + 8 <= 288 -> confined H (store 8 H (gs + k) v).
Proof.
  intros H0 Hk. apply confined_store; [done|]. intros j Hj. left. exists (k + j).
  split; [lia|]. f_equal. lia.
Qed.

End host.
