(* ===== verification/SelectedCode.v ===== *)
(** * What the instructions the selector emits do

    The effect, under the semantics of A64 (A64Semantics.v, Arm64Meaning.v), of
    each sequence of instructions lib/Lowering/InstructionSelector.cpp emits,
    over virtual registers. *)
From S2P Require Import Prelude Error IR Machine IRSemantics GuestState.
From S2P Require Import Arm64 Encoder A64 A64Semantics Arm64Meaning InstructionSelector HostState.
Import machine arm64 Encoder Selector.

(** The value of a virtual register. *)
Definition vget (X : regs) (v : Z) : Z := a64sem.xget X (32 + v).
Definition vset (X : regs) (v x : Z) : regs := a64sem.xset X (32 + v) x.

Lemma vget_range X v : in_u 64 (vget X v).
Proof.
  unfold vget, a64sem.xget. destruct (_ =? _); [by unfold in_u|apply rd_range].
Qed.

Lemma xget_xset X r r' x :
  r ≠ 31 -> in_u 64 x ->
  a64sem.xget (a64sem.xset X r x) r' = if r' =? r then x else a64sem.xget X r'.
Proof.
  intros Hr Hx. unfold a64sem.xget, a64sem.xset.
  rewrite (proj2 (Z.eqb_neq r 31)) by done.
  destruct (Z.eqb_spec r' r) as [->|Hne].
  - rewrite (proj2 (Z.eqb_neq r 31)) by done. by apply rd_wr_eq.
  - destruct (r' =? 31); [done|]. by apply rd_wr_ne.
Qed.

Lemma xget_vset X v r x :
  0 <= v -> in_u 64 x ->
  a64sem.xget (vset X v x) r = if r =? 32 + v then x else a64sem.xget X r.
Proof. intros. apply xget_xset; [lia|done]. Qed.

Lemma vget_vset X v w x :
  0 <= v -> in_u 64 x -> vget (vset X v x) w = if w =? v then x else vget X w.
Proof.
  intros. unfold vget at 1. rewrite xget_vset by done.
  destruct (Z.eqb_spec (32 + w) (32 + v)), (Z.eqb_spec w v); try lia; done.
Qed.

(** ** Words *)

Lemma shiftl_0 w x : uint w (uint w x <<. 0) = uint w x.
Proof. by rewrite Z.shiftl_0_r, uint_idemp. Qed.

Lemma is64_type t : is64 (irTypeToDataSize t) = bool_decide (t = ir.i64).
Proof. by destruct t. Qed.

Lemma width_type t :
  t = ir.i32 ∨ t = ir.i64 ->
  a64sem.width (is64 (irTypeToDataSize t)) = irsem.width t.
Proof. by intros [-> | ->]. Qed.

Lemma in_u_le w w' x : w <= w' -> in_u w x -> in_u w' x.
Proof.
  unfold in_u. intros Hw Hx. destruct (Z.le_gt_cases 0 w).
  - assert (2 ^ w <= 2 ^ w') by (by apply Z.pow_le_mono_r). lia.
  - rewrite (Z.pow_neg_r 2 w) in Hx by lia. lia.
Qed.

(** A bitwise operation stays in range. *)
Lemma uint_bitwise (f : Z → Z → Z) g w a b :
  0 <= w -> (∀ i, Z.testbit (f a b) i = g (Z.testbit a i) (Z.testbit b i)) ->
  g false false = false -> in_u w a -> in_u w b -> uint w (f a b) = f a b.
Proof.
  intros Hw Hf Hg Ha Hb. apply Z.bits_inj'. intros i Hi. unfold uint.
  destruct (Z.lt_ge_cases i w).
  - by rewrite Z.mod_pow2_bits_low.
  - rewrite Z.mod_pow2_bits_high, Hf by done.
    rewrite <- (Z.mod_small a (2 ^ w)), <- (Z.mod_small b (2 ^ w)) by done.
    by rewrite !Z.mod_pow2_bits_high.
Qed.

(** Compute the instruction meant and its effect. *)
Ltac exec1 :=
  cbn [exec_insts intended intended_three intended_two kind num vreg X0 X30
       mbind option_bind];
  unfold a64sem.exec;
  cbn [a64sem.eval a64sem.xr a64sem.fl a64sem.hm mbind option_bind a64sem.writes
       a64sem.eflags a64sem.emem a64sem.apply_writes foldl fst snd negb andb orb].

(** ** Arithmetic *)

Lemma exec_arith op o t d a b X fl H r :
  irBinaryOpToARM64 op = Ok o -> t = ir.i32 ∨ t = ir.i64 ->
  irsem.arith op (irsem.width t) (vget X a) (vget X b) = Some r ->
  in_u (irsem.width t) (vget X a) -> in_u (irsem.width t) (vget X b) ->
  exec_insts [mkInstruction (ThreeOperandInst o (irTypeToDataSize t) (vreg d) (vreg a) (vreg b))]
    (a64sem.mkState X fl H)
  = Some (a64sem.mkState (vset X d r) fl H).
Proof.
  intros Ho Ht Hr Ha Hb. pose proof (width_type t Ht) as Hw. unfold vget in *.
  destruct op; simpl in Ho; simplify_eq; simpl in Hr; simplify_eq;
    exec1; unfold a64sem.shifted; rewrite Hw, ?shiftl_0, ?(uint_small _ (a64sem.xget _ _)) by done;
    try reflexivity; cbn [a64sem.logical_op a64sem.sets_flags].
  - by rewrite (uint_bitwise Z.land andb) by (first [done | apply Z.lt_le_incl, irsem.width_pos | intros; apply Z.land_spec]).
  - by rewrite (uint_bitwise Z.lor orb) by (first [done | apply Z.lt_le_incl, irsem.width_pos | intros; apply Z.lor_spec]).
  - by rewrite (uint_bitwise Z.lxor xorb) by (first [done | apply Z.lt_le_incl, irsem.width_pos | intros; apply Z.lxor_spec]).
Qed.

(** ** Comparisons *)

Lemma comparison_holds op c a b :
  comparisonCondition op = Some c -> in_u 64 a -> in_u 64 b ->
  irsem.compare op a b = Some (a64sem.holds (condition_number c) (a64sem.sub_flags 64 a b))
  ∧ 0 <= condition_number c < 14.
Proof.
  intros Hc Ha Hb. destruct (a64sem.holds_compare a b Ha Hb)
    as (? & ? & ? & ? & ? & ? & ? & ? & ? & ?).
  destruct op; simpl in Hc; simplify_eq; (split; [|done]); simpl; by f_equal.
Qed.

Lemma exec_compare op c d a b X fl H k :
  comparisonCondition op = Some c -> irsem.compare op (vget X a) (vget X b) = Some k ->
  ∃ fl', exec_insts
    [mkInstruction (TwoOperandInst CMP Size_X (vreg a) (vreg b));
     mkInstruction (ConditionalInst CSET Size_X (vreg d) c)] (a64sem.mkState X fl H)
  = Some (a64sem.mkState (vset X d (b2z k)) fl' H).
Proof.
  intros Hc Hk.
  destruct (comparison_holds op c (vget X a) (vget X b) Hc (vget_range X a) (vget_range X b))
    as [Hk' Hr].
  rewrite Hk' in Hk. injection Hk as <-. unfold vget in *.
  exec1. unfold a64sem.shifted.
  rewrite shiftl_0, !(uint_small _ (a64sem.xget _ _)) by apply vget_range.
  rewrite a64sem.holds_negated by done.
  eexists. unfold vset. do 2 f_equal.
  destruct (a64sem.holds _ _); reflexivity.
Qed.

(** ** Constants *)

(** Only register [r] differs. *)
Definition changes (r : Z) (X X' : regs) : Prop :=
  ∀ r', r' ≠ r -> a64sem.xget X' r' = a64sem.xget X r'.

Lemma changes_xset r X x : r ≠ 31 -> in_u 64 x -> changes r X (a64sem.xset X r x).
Proof. intros ?? r' Hr'. rewrite xget_xset by done. by rewrite (proj2 (Z.eqb_neq r' r)). Qed.

Lemma changes_trans r X1 X2 X3 : changes r X1 X2 -> changes r X2 X3 -> changes r X1 X3.
Proof. intros H1 H2 r' Hr'. by rewrite H2, H1. Qed.

Lemma mod_chunk value k :
  0 <= k -> value mod 2 ^ (k + 16) = value mod 2 ^ k + bits k 16 value * 2 ^ k.
Proof. intros. unfold bits. rewrite Z.pow_add_r, Z.rem_mul_r by lia. lia. Qed.

(** One move of a chunk: the first clears the rest of the register. *)
Lemma exec_chunk (first : bool) size target value k X fl H :
  let r := num target in
  let w := a64sem.width (is64 size) in
  r ≠ 31 -> 0 <= k < 64 -> k mod 16 = 0 -> in_u w value ->
  (if first then value mod 2 ^ k = 0 else a64sem.xget X r = value mod 2 ^ k) ->
  exec_insts [mkInstruction (MoveWideInst (if first then MOVZ else MOVK) size target
                               (bits k 16 value) (u8 k))] (a64sem.mkState X fl H)
  = Some (a64sem.mkState (a64sem.xset X r (value mod 2 ^ (k + 16))) fl H).
Proof.
  intros r w Hr Hk Hm Hv Hfirst.
  assert (16 * (u8 k / 16) = k) as Hhw.
  { rewrite uint_small by (unfold in_u; lia). dlia. }
  pose proof (mod_chunk value k ltac:(lia)) as Hc.
  assert (0 <= value mod 2 ^ (k + 16) <= value) as Hle.
  { unfold in_u in Hv. split; [apply Z.mod_pos_bound; apply Z.pow_pos_nonneg; lia|].
    apply Z.mod_le; [lia|]. apply Z.pow_pos_nonneg; lia. }
  exec1. unfold in_u in Hv. destruct first; exec1; rewrite Hhw; fold w; fold r.
  - rewrite Z.shiftl_mul_pow2, uint_small by (try unfold in_u; lia). do 3 f_equal. lia.
  - assert (bits k 16 (a64sem.xget X r) = 0) as Hb.
    { rewrite Hfirst. unfold bits. rewrite Z.div_small; [done|].
      apply Z.mod_pos_bound, Z.pow_pos_nonneg; lia. }
    rewrite Hb, Hfirst, uint_small by (unfold in_u; lia). do 3 f_equal. lia.
Qed.

(** Move instructions build the low bits of a value chunk by chunk: with
    [n] chunks from bit [k] left, register [r] holds the bits below [k], or
    nothing has been emitted and they are all zero. *)
Lemma exec_chunks value size target : ∀ n k first X fl H,
  let r := num target in
  let w := a64sem.width (is64 size) in
  r ≠ 31 -> 0 <= k -> k + 16 * Z.of_nat n <= 64 -> k mod 16 = 0 -> in_u w value ->
  (if (first : bool) then value mod 2 ^ k = 0 else a64sem.xget X r = value mod 2 ^ k) ->
  let '(l, first') :=
    constChunks value size target ((λ j, k + 16 * j) <$> seqZ 0 (Z.of_nat n)) first in
  ∃ X', exec_insts l (a64sem.mkState X fl H) = Some (a64sem.mkState X' fl H)
    ∧ changes r X X'
    ∧ if (first' : bool) then value mod 2 ^ (k + 16 * Z.of_nat n) = 0
      else a64sem.xget X' r = value mod 2 ^ (k + 16 * Z.of_nat n).
Proof.
  induction n as [|n IH]; intros k first X fl H r w Hr Hk Hn Hm Hv Hfirst.
  { simpl. exists X. by rewrite Z.add_0_r. }
  rewrite seqZ_cons by lia. cbn [fmap list_fmap constChunks]. rewrite Z.mul_0_r, Z.add_0_r.
  assert (u16 ((value >>. k) &. 0xFFFF) = bits k 16 value) as ->.
  { change 0xFFFF with (2 ^ 16 - 1). rewrite shiftr_land_bits by lia.
    apply uint_small, bits_range. lia. }
  assert ((λ j, k + 16 * j) <$> seqZ (Z.succ 0) (Z.pred (Z.of_nat (S n)))
          = (λ j, (k + 16) + 16 * j) <$> seqZ 0 (Z.of_nat n)) as ->.
  { replace (Z.pred (Z.of_nat (S n))) with (Z.of_nat n) by lia.
    change (Z.succ 0) with (1 + 0). rewrite <- fmap_add_seqZ, <- list_fmap_compose.
    apply list_fmap_ext. intros; simpl; lia. }
  replace (k + 16 * Z.of_nat (S n)) with ((k + 16) + 16 * Z.of_nat n) by lia.
  pose proof (mod_chunk value k Hk) as Hc.
  assert ((k + 16) mod 16 = 0) as Hm' by dlia.
  destruct (Z.eqb_spec (bits k 16 value) 0) as [Hz|Hz].
  - apply (IH (k + 16) first X fl H); try done; [lia..|].
    by rewrite Hc, Hz, Z.mul_0_l, Z.add_0_r.
  - pose proof (exec_chunk first size target value k X fl H Hr ltac:(lia) Hm Hv Hfirst) as Hx.
    set (X1 := a64sem.xset X (num target) (value mod 2 ^ (k + 16))) in *.
    assert (in_u 64 (value mod 2 ^ (k + 16))) as Hin.
    { unfold in_u. pose proof (Z.mod_pos_bound value (2 ^ (k + 16))).
      assert (2 ^ (k + 16) <= 2 ^ 64) by (apply Z.pow_le_mono_r; lia).
      assert (0 < 2 ^ (k + 16)) by (apply Z.pow_pos_nonneg; lia). lia. }
    specialize (IH (k + 16) false X1 fl H Hr ltac:(lia) ltac:(lia) Hm' Hv).
    cbv zeta in IH. unfold X1 in IH at 1. rewrite xget_xset, Z.eqb_refl in IH by done.
    specialize (IH eq_refl).
    destruct (constChunks _ _ _ _ false) as [l first'].
    destruct IH as (X' & Hl & Hch & Hres). exists X'. split; [|split; [|done]].
    + change (?i :: l) with ([i] ++ l). rewrite exec_insts_app.
      rewrite Hx. exact Hl.
    + eapply changes_trans; [by apply changes_xset|done].
Qed.

(** How a register holds a typed value: 8- and 16-bit values leave the upper
    bits open. *)
Definition val_rel (t : ir.Type_) (h x : Z) : Prop :=
  match t with
  | ir.i8 | ir.i16 => uint (irsem.width t) h = x
  | _ => h = x
  end.

Lemma val_rel_small t h : val_rel t (uint (irsem.width t) h) (uint (irsem.width t) h).
Proof. destruct t; simpl; by rewrite ?uint_idemp. Qed.

(** A result computed in a 32- or 64-bit register. *)
Lemma val_rel_result t x :
  t ≠ ir.i1 ->
  val_rel t (uint (a64sem.width (bool_decide (t = ir.i64))) x) (uint (irsem.width t) x).
Proof.
  intros. destruct t; simpl; try done; unfold uint; symmetry;
    [symmetry; apply (mod_mod_pow2 x 8 32)|symmetry; apply (mod_mod_pow2 x 16 32)]; lia.
Qed.

Lemma width_sf sf : a64sem.width sf <= 64 ∧ 32 <= a64sem.width sf.
Proof. by destruct sf. Qed.

(** The word the chunks of a constant make up, at the width of its type. *)
Lemma const_word t v :
  irsem.in_form (ir.Const t v) = true -> (v <? 0) && (-65536 <=? v) = false ->
  let w := a64sem.width (is64 (irTypeToDataSize t)) in
  in_u w (u64 v) ∧ u64 v mod 2 ^ 64 = uint w v.
Proof.
  intros [_ Ht]%andb_true_iff Hneg w.
  pose proof (width_sf (is64 (irTypeToDataSize t))) as [Hw1 Hw2]. fold w in Hw1, Hw2.
  assert (in_u w (u64 v)) as Hvw.
  { unfold w. rewrite is64_type. case_bool_decide; [by apply uint_range|].
    rewrite orb_false_l in Ht. apply bool_decide_eq_true in Ht as [_ Ht].
    rewrite uint_small; unfold in_u; simpl; lia. }
  split; [done|]. fold (u64 (u64 v)). rewrite uint_idemp, <- (uint_small w (u64 v)) by done.
  unfold uint. apply mod_mod_pow2. lia.
Qed.

Lemma exec_const t v target X fl H :
  let r := num target in
  r ≠ 31 -> irsem.in_form (ir.Const t v) = true ->
  ∃ X', exec_insts (selectConstIntoRegister t v target) (a64sem.mkState X fl H)
        = Some (a64sem.mkState X' fl H)
    ∧ changes r X X' ∧ val_rel t (a64sem.xget X' r) (uint (irsem.width t) v).
Proof.
  intros r Hr Hform. pose proof (const_word t v Hform) as Hword.
  apply andb_true_iff in Hform as [Hv Ht]. apply bool_decide_eq_true in Hv.
  assert (t ≠ ir.i1) as Hi1.
  { apply orb_true_iff in Ht as [->%bool_decide_eq_true|[? _]%bool_decide_eq_true]; done. }
  pose proof (width_sf (is64 (irTypeToDataSize t))) as [Hw1 Hw2].
  set (w := a64sem.width (is64 (irTypeToDataSize t))) in *.
  assert (∀ x, in_u 64 (uint w x)) as Hw64.
  { intros x. apply (in_u_le w); [done|]. apply uint_range. lia. }
  assert (val_rel t (uint w v) (uint (irsem.width t) v)) as Hrel.
  { unfold w. rewrite is64_type. by apply val_rel_result. }
  unfold selectConstIntoRegister.
  destruct ((v <? 0) && (-65536 <=? v)) eqn:Hneg;
    [|destruct ((0 <=? v) && (v <=? 0xFFFF)) eqn:Hpos].
  - (* MOVN *)
    apply andb_true_iff in Hneg as [?%Z.ltb_lt ?%Z.leb_le].
    exists (a64sem.xset X r (uint w v)). split; [|split].
    + exec1. rewrite Z.shiftl_0_r, (uint_small 64) by (unfold in_u, Z.lnot; lia).
      by rewrite Z.lnot_involutive.
    + by apply changes_xset.
    + by rewrite xget_xset, Z.eqb_refl.
  - (* MOVZ *)
    apply andb_true_iff in Hpos as [?%Z.leb_le ?%Z.leb_le].
    exists (a64sem.xset X r (uint w v)). split; [|split].
    + exec1. by rewrite Z.shiftl_0_r, (uint_small 64) by (unfold in_u; lia).
    + by apply changes_xset.
    + by rewrite xget_xset, Z.eqb_refl.
  - (* MOVZ, MOVK *)
    destruct (Hword eq_refl) as [Hvw Huv]. fold w in Hvw, Huv.
    pose proof (exec_chunks (u64 v) (irTypeToDataSize t) target 4 0 true X fl H Hr
                  ltac:(lia) ltac:(lia) eq_refl Hvw (Zmod_1_r _)) as Hch.
    change ((λ j, 0 + 16 * j) <$> seqZ 0 (Z.of_nat 4)) with [0; 16; 32; 48] in Hch.
    change (0 + 16 * Z.of_nat 4) with 64 in Hch.
    destruct (constChunks _ _ _ _ _) as [l first].
    destruct Hch as (X' & Hl & Hc & Hres). rewrite Huv in Hres.
    destruct first.
    + exists (a64sem.xset X' r 0). rewrite exec_insts_app, Hl. split; [|split].
      * exec1. done.
      * eapply changes_trans; [done|]. by apply changes_xset.
      * rewrite xget_xset, Z.eqb_refl by done. by rewrite Hres in Hrel.
    + exists X'. split; [done|]. split; [done|]. fold r in Hres. by rewrite Hres.
Qed.

(** ** Memory *)

Lemma scaled_offset size off :
  scaled size off = true -> off / 2 ^ size_field size * 2 ^ size_field size = off.
Proof.
  unfold scaled. intros [_ Hm%Z.eqb_eq]%andb_true_iff.
  destruct size; simpl in *; dlia.
Qed.

Lemma exec_ldr size r b off X fl H :
  scaled size off = true -> num b ≠ 31 ->
  exec_insts [mkInstruction (MemoryInst LDR size r b off)] (a64sem.mkState X fl H)
  = Some (a64sem.mkState
      (a64sem.xset X (num r)
         (load (a64sem.bytes (size_field size)) H (u64 (a64sem.xget X (num b) + off)))) fl H).
Proof.
  intros Hs Hb. exec1. unfold intended_memory. rewrite Hs. exec1.
  rewrite (proj2 (Z.eqb_neq _ _)) by done. exec1. by rewrite scaled_offset.
Qed.

Lemma exec_str size r b off X fl H :
  scaled size off = true -> num b ≠ 31 ->
  exec_insts [mkInstruction (MemoryInst STR size r b off)] (a64sem.mkState X fl H)
  = Some (a64sem.mkState X fl
      (store (a64sem.bytes (size_field size)) H (u64 (a64sem.xget X (num b) + off))
         (a64sem.xget X (num r)))).
Proof.
  intros Hs Hb. exec1. unfold intended_memory. rewrite Hs. exec1.
  rewrite (proj2 (Z.eqb_neq _ _)) by done. exec1. by rewrite scaled_offset.
Qed.

Lemma bytes_type t : a64sem.bytes (size_field (irTypeToDataSize t)) = irsem.bytes t.
Proof. by destruct t. Qed.

Lemma registerOffset_small r : 0 <= r < 32 -> registerOffset r = GuestState.offset_x r.
Proof.
  intros. unfold registerOffset, REGISTER_SIZE_BYTES, GuestState.offset_x.
  rewrite sint_small; [lia|lia|]. unfold in_s. simpl. lia.
Qed.

Lemma scaled_register r : 0 <= r < 32 -> scaled Size_X (GuestState.offset_x r) = true.
Proof.
  intros. unfold scaled, GuestState.offset_x. apply andb_true_iff. split.
  - apply Z.leb_le. lia.
  - apply Z.eqb_eq. simpl. dlia.
Qed.

(** Register [v] only, and temporaries from [n] up. *)
Definition changes_above (n : Z) (X X' : regs) : Prop :=
  ∀ r, r < 32 + n -> a64sem.xget X' r = a64sem.xget X r.

Lemma changes_above_vset n v X x :
  0 <= n <= v -> in_u 64 x -> changes_above n X (vset X v x).
Proof.
  intros Hv Hx r Hr. rewrite xget_vset by (done || lia).
  by rewrite (proj2 (Z.eqb_neq r (32 + v))) by lia.
Qed.

Lemma changes_above_refl n X : changes_above n X X.
Proof. by intros r ?. Qed.
#[local] Hint Resolve changes_above_refl : core.

Lemma changes_above_trans n X1 X2 X3 :
  changes_above n X1 X2 -> changes_above n X2 X3 -> changes_above n X1 X3.
Proof. intros H1 H2 r Hr. by rewrite H2, H1. Qed.

(** The address translation: [host = guest - base + shadow], in fresh
    registers. *)
Definition translation (guest hostr gbase sbase : Z) : list Instruction :=
  [mkInstruction (MemoryInst LDR Size_X (vreg gbase) X0
      (i32 GuestState.offset_guestMemoryBase));
   mkInstruction (MemoryInst LDR Size_X (vreg sbase) X0
      (i32 GuestState.offset_shadowMemory));
   mkInstruction (ThreeOperandInst SUB Size_X (vreg hostr) (vreg guest) (vreg gbase));
   mkInstruction (ThreeOperandInst ADD Size_X (vreg hostr) (vreg hostr) (vreg sbase))].

Lemma exec_translation guest n X fl H base shadow :
  0 <= guest < n -> 
  let gs := a64sem.xget X 0 in
  load 8 H (gs + GuestState.offset_guestMemoryBase) = base ->
  load 8 H (gs + GuestState.offset_shadowMemory) = shadow ->
  ∃ X', exec_insts (translation guest n (n + 1) (n + 2)) (a64sem.mkState X fl H)
        = Some (a64sem.mkState X' fl H)
    ∧ changes_above n X X' ∧ vget X' n = host base shadow (vget X guest).
Proof.
  intros Hg gs Hb Hs. unfold translation.
  assert (∀ a, in_u 64 (load 8 H a)) as Hl by (intros a; apply (load_range 8)).
  change (i32 GuestState.offset_guestMemoryBase) with GuestState.offset_guestMemoryBase.
  change (i32 GuestState.offset_shadowMemory) with GuestState.offset_shadowMemory.
  change [?a; ?b; ?c; ?d] with ([a] ++ [b] ++ [c; d]).
  rewrite exec_insts_app, exec_ldr by done. cbn [mbind option_bind].
  rewrite exec_insts_app, exec_ldr by done. cbn [mbind option_bind].
  change (a64sem.bytes (size_field Size_X)) with 8%nat.
  cbn [num X0 vreg register_number]. rewrite !load_wrap.
  change (a64sem.xset X (32 + (n + 1)) ?x) with (vset X (n + 1) x).
  rewrite xget_vset, (proj2 (Z.eqb_neq 0 (32 + (n + 1)))) by (done || lia).
  fold gs. rewrite Hb, Hs.
  assert (in_u 64 base ∧ in_u 64 shadow) as [Hb64 Hs64]
    by (rewrite <- Hb, <- Hs; split; apply Hl).
  change (a64sem.xset ?Y (32 + (n + 2)) ?x) with (vset Y (n + 2) x).
  set (Y := vset (vset X (n + 1) base) (n + 2) shadow).
  assert (∀ v, 0 <= v -> vget Y v = if v =? n + 2 then shadow else if v =? n + 1 then base else vget X v)
    as HY by (intros; unfold Y; by rewrite !vget_vset by (done || lia)).
  change [?a; ?b] with ([a] ++ [b]). rewrite exec_insts_app.
  assert (in_u 64 (uint 64 (vget Y guest - vget Y (n + 1)))) as Hd by by apply uint_range.
  pose proof (exec_arith ir.Sub SUB ir.i64 n guest (n + 1) Y fl H _ eq_refl (or_intror eq_refl)
    eq_refl (vget_range _ _) (vget_range _ _)) as Hsub.
  cbn [irTypeToDataSize irsem.width] in Hsub. rewrite Hsub. clear Hsub.
  cbn [mbind option_bind]. set (Z := vset Y n _).
  pose proof (exec_arith ir.Add ADD ir.i64 n n (n + 2) Z fl H _ eq_refl (or_intror eq_refl)
    eq_refl (vget_range _ _) (vget_range _ _)) as Hadd.
  cbn [irTypeToDataSize irsem.width] in Hadd. rewrite Hadd. clear Hadd.
  eexists. split; [reflexivity|]. split.
  - unfold Z, Y. by repeat (eapply changes_above_trans;
      [|apply changes_above_vset; [lia|first [done | by apply uint_range]]]).
  - rewrite vget_vset, Z.eqb_refl by (lia || by apply uint_range).
    unfold Z at 1 2. rewrite !vget_vset, Z.eqb_refl by (lia || done).
    rewrite (proj2 (Z.eqb_neq (n + 2) n)), !HY by lia.
    rewrite !(proj2 (Z.eqb_neq _ (n + 2))), Z.eqb_refl, Z.eqb_refl,
      (proj2 (Z.eqb_neq guest (n + 1))) by lia.
    unfold host. by rewrite uint_add_l.
Qed.

(** ** Conversions *)

Lemma val_rel_low t h x k :
  val_rel t h x -> 0 <= k <= irsem.width t -> uint k h = uint k x.
Proof.
  intros Hr Hk. destruct t; simpl in Hr, Hk; subst; try done;
    unfold uint; by rewrite mod_mod_pow2.
Qed.

Lemma sint_low w x y : 0 < w -> uint w x = uint w y -> sint w x = sint w y.
Proof. intros Hw E. by rewrite <- (sint_of_uint w x), E, sint_of_uint. Qed.

Lemma exec_mov size d a X fl H :
  exec_insts [mkInstruction (TwoOperandInst MOV size (vreg d) (vreg a))]
    (a64sem.mkState X fl H)
  = Some (a64sem.mkState (vset X d (uint (a64sem.width (is64 size)) (vget X a))) fl H).
Proof.
  exec1. unfold a64sem.shifted. rewrite shiftl_0. cbn [a64sem.logical_op a64sem.sets_flags].
  change (a64sem.xget X 31) with 0. by rewrite Z.lor_0_l.
Qed.

Definition sext_opcode (t : ir.Type_) : Opcode :=
  match t with ir.i8 => SXTB | ir.i16 => SXTH | ir.i32 => SXTW | _ => MOV end.
Definition zext_opcode (t : ir.Type_) : Opcode :=
  match t with ir.i8 => UXTB | ir.i16 => UXTH | ir.i32 => MOV | _ => MOV end.

Lemma bitfield_low w ext k v : 0 <= k -> a64sem.bitfield w ext 0 k v = ext (k + 1) (uint w v).
Proof.
  intros. unfold a64sem.bitfield. rewrite (proj2 (Z.leb_le 0 k)) by done.
  by rewrite Z.shiftr_0_r, Z.sub_0_r.
Qed.

Lemma exec_sext ft t d a X fl H x :
  1 < irsem.width ft < irsem.width t -> val_rel ft (vget X a) x ->
  ∃ r, exec_insts
         [mkInstruction (TwoOperandInst (sext_opcode ft) (irTypeToDataSize t) (vreg d) (vreg a))]
         (a64sem.mkState X fl H) = Some (a64sem.mkState (vset X d r) fl H)
    ∧ in_u 64 r ∧ val_rel t r (uint (irsem.width t) (sint (irsem.width ft) x)).
Proof.
  intros Hw Hr. set (w := a64sem.width (is64 (irTypeToDataSize t))).
  exists (uint w (sint (irsem.width ft) x)).
  assert (sint (irsem.width ft) (vget X a) = sint (irsem.width ft) x) as Hs.
  { apply sint_low; [lia|]. apply (val_rel_low ft); [done|lia]. }
  pose proof (width_sf (is64 (irTypeToDataSize t))) as [Hw1 Hw2]. fold w in Hw1, Hw2.
  split; [|split].
  - rewrite <- Hs. unfold vget.
    destruct ft, t; simpl in Hw; try lia; cbn [sext_opcode]; exec1;
      rewrite bitfield_low by done; unfold vset, w; do 4 f_equal;
      apply sint_low; try done; unfold uint; apply mod_mod_pow2; simpl; lia.
  - apply (in_u_le w); [done|]. apply uint_range. lia.
  - unfold w. rewrite is64_type. apply val_rel_result. intros ->. simpl in Hw. lia.
Qed.

Lemma exec_zext ft t d a X fl H x :
  irsem.width ft < irsem.width t -> val_rel ft (vget X a) x -> in_u (irsem.width ft) x ->
  exec_insts
    [mkInstruction (TwoOperandInst (zext_opcode ft) (irTypeToDataSize t) (vreg d) (vreg a))]
    (a64sem.mkState X fl H) = Some (a64sem.mkState (vset X d x) fl H).
Proof.
  intros Hw Hr Hx. set (w := a64sem.width (is64 (irTypeToDataSize t))).
  pose proof (width_sf (is64 (irTypeToDataSize t))) as [Hw1 Hw2]. fold w in Hw1, Hw2.
  assert (zext_opcode ft = MOV -> irsem.width ft <= w ∧ vget X a = x) as Hm.
  { intros Hm. destruct ft, t; simpl in *; try lia; done. }
  destruct (decide (zext_opcode ft = MOV)) as [Hop|Hop].
  - destruct (Hm Hop) as [? E]. rewrite Hop, exec_mov, E. fold w.
    rewrite uint_small; [done|]. by apply (in_u_le (irsem.width ft)).
  - unfold vget in *. destruct ft; try done; simpl in Hr; cbn [zext_opcode]; exec1;
      rewrite bitfield_low by done; unfold vset; do 3 f_equal;
      rewrite <- Hr; fold w; unfold uint; apply mod_mod_pow2; lia.
Qed.

Lemma exec_trunc ft t d a X fl H x :
  1 < irsem.width t < irsem.width ft -> val_rel ft (vget X a) x ->
  ∃ r, exec_insts
         [mkInstruction (TwoOperandInst MOV (irTypeToDataSize t) (vreg d) (vreg a))]
         (a64sem.mkState X fl H) = Some (a64sem.mkState (vset X d r) fl H)
    ∧ in_u 64 r ∧ val_rel t r (uint (irsem.width t) x).
Proof.
  intros Hw Hr. pose proof (width_sf (is64 (irTypeToDataSize t))) as [Hw1 Hw2].
  eexists. split; [apply exec_mov|]. split.
  - apply (in_u_le _ _ _ Hw1). apply uint_range. lia.
  - rewrite <- (val_rel_low ft (vget X a) x (irsem.width t)), is64_type by (done || lia).
    apply val_rel_result. intros ->. simpl in Hw. lia.
Qed.
