(* ===== verification/SelectorCorrect.v ===== *)
(** * Correctness of the instruction selector

    The code selected for an IR block, run over virtual registers on a host
    state that represents the guest's registers and memory (HostState.v), does
    to that representation what the semantics of the block (IRSemantics.v) does
    to the guest's state, and returns the next program counter in X0. *)
From S2P Require Import Prelude Error IR Machine IRSemantics GuestState.
From S2P Require Import Arm64 Encoder A64 A64Semantics Arm64Meaning InstructionSelector.
From S2P Require Import HostState SelectedCode.
Import machine arm64 Encoder Selector.

(** ** The selector's state *)

(** The state of the selector after a new result: [id] has the next register
    and the type [t]; [k] registers have been taken. *)
Definition assigned (s : Selector.t) (id : Z) (t : ir.Type_) (k : Z) : Selector.t :=
  mkSelector (nextVirtualReg s + k) (<[id := nextVirtualReg s]> (irToVReg s))
    (<[id := t]> (valueTypes s)).

(** The state after [k] temporaries. *)
Definition taken (s : Selector.t) (k : Z) : Selector.t :=
  mkSelector (nextVirtualReg s + k) (irToVReg s) (valueTypes s).

Lemma taken_assigned s id t j k : taken (assigned s id t j) k = assigned s id t (j + k).
Proof. unfold taken, assigned. cbn. by rewrite Z.add_assoc. Qed.

(** What the selector knows about the values computed so far, and where they
    are: the registers of different values differ. *)
Record tracks (s : Selector.t) (E : irsem.env) (X : regs) : Prop := {
  tk_value : ∀ id t x, E !! id = Some (t, x) ->
    ∃ v, irToVReg s !! id = Some v ∧ valueTypes s !! id = Some t
         ∧ val_rel t (vget X v) x;
  tk_range : ∀ id v, irToVReg s !! id = Some v -> 0 <= v < nextVirtualReg s;
  tk_inj : ∀ id id' v, irToVReg s !! id = Some v -> irToVReg s !! id' = Some v -> id = id';
  tk_fresh : ∀ id, E !! id = None -> irToVReg s !! id = None;
  tk_typed : irsem.well_typed E;
  tk_next : 0 <= nextVirtualReg s;
}.

Lemma vget_above n X X' v : changes_above n X X' -> v < n -> vget X' v = vget X v.
Proof. intros Hc Hv. apply Hc. lia. Qed.

(** A new result in the next register. *)
Lemma tracks_assigned s E X X' id t x k :
  tracks s E X -> E !! id = None -> 1 <= k ->
  changes_above (nextVirtualReg s) X X' ->
  val_rel t (vget X' (nextVirtualReg s)) x -> in_u (irsem.width t) x ->
  tracks (assigned s id t k) (<[id := (t, x)]> E) X'.
Proof.
  intros HT Hid Hk Hc Hr Hx. pose proof (tk_fresh _ _ _ HT id Hid) as Hf.
  pose proof (tk_next _ _ _ HT) as Hn. split; cbn [assigned irToVReg nextVirtualReg valueTypes].
  - intros id' t' x' [[<- [= <- <-]]|[Hne H']]%lookup_insert_Some.
    + exists (nextVirtualReg s). rewrite !lookup_insert_eq. auto.
    + destruct (tk_value _ _ _ HT _ _ _ H') as (v & Hv & Ht & Hrel). exists v.
      rewrite !lookup_insert_ne by done. split; [done|]. split; [done|].
      rewrite (vget_above _ _ _ _ Hc); [done|]. apply (tk_range _ _ _ HT) in Hv. lia.
  - intros id' v [[<- <-]|[Hne H']]%lookup_insert_Some; [lia|].
    apply (tk_range _ _ _ HT) in H'. lia.
  - intros i1 i2 v [[<- <-]|[? H1]]%lookup_insert_Some [[<- H2]|[? H2]]%lookup_insert_Some;
      try done.
    + apply (tk_range _ _ _ HT) in H2. lia.
    + subst. apply (tk_range _ _ _ HT) in H1. lia.
    + by eapply HT.
  - intros id' [H' Hne]%lookup_insert_None. rewrite lookup_insert_ne by done.
    by apply (tk_fresh _ _ _ HT).
  - intros id' t' x' [[<- [= <- <-]]|[Hne H']]%lookup_insert_Some; [done|].
    by eapply (tk_typed _ _ _ HT).
  - lia.
Qed.

Lemma tracks_taken s E X X' k :
  tracks s E X -> 0 <= k -> changes_above (nextVirtualReg s) X X' -> tracks (taken s k) E X'.
Proof.
  intros HT Hk Hc. pose proof (tk_next _ _ _ HT) as Hn.
  split; cbn [taken irToVReg nextVirtualReg valueTypes]; try apply HT.
  - intros id t x H. destruct (tk_value _ _ _ HT _ _ _ H) as (v & Hv & Ht & Hrel). exists v.
    split; [done|]. split; [done|].
    rewrite (vget_above _ _ _ _ Hc); [done|]. apply (tk_range _ _ _ HT) in Hv. lia.
  - intros id v Hv. apply (tk_range _ _ _ HT) in Hv. lia.
  - lia.
Qed.

(** ** Running the selector's operations *)

(** Unfold the monad. *)
Ltac run_state :=
  cbv [mbind stateM_bind mret stateM_ret get modify lift freshVirtualReg getVirtualRegister
       recordValueType single];
  cbn [irToVReg nextVirtualReg valueTypes].

Lemma run_assign s id :
  irToVReg s !! id = None -> 0 <= nextVirtualReg s -> nextVirtualReg s + 1 < 2 ^ 32 ->
  assignVirtualRegister id s
  = (Ok (nextVirtualReg s),
     mkSelector (nextVirtualReg s + 1) (<[id := nextVirtualReg s]> (irToVReg s))
       (valueTypes s)).
Proof.
  intros Hid ??. unfold assignVirtualRegister. run_state. rewrite Hid. run_state. by rewrite uint_small by (unfold in_u; lia).
Qed.

Lemma run_fresh s :
  0 <= nextVirtualReg s -> nextVirtualReg s + 1 < 2 ^ 32 ->
  freshVirtualReg s = (Ok (nextVirtualReg s), taken s 1).
Proof. intros. run_state. by rewrite uint_small by (unfold in_u; lia). Qed.

Lemma run_getOrThrow s id v :
  irToVReg s !! id = Some v -> getVirtualRegisterOrThrow id s = (Ok v, s).
Proof. intros H. unfold getVirtualRegisterOrThrow. run_state. by rewrite H. Qed.

Lemma run_getType s id t : valueTypes s !! id = Some t -> getValueType id s = (Ok t, s).
Proof. intros H. unfold getValueType. run_state. by rewrite H. Qed.

Lemma run_translation s guest :
  0 <= nextVirtualReg s -> nextVirtualReg s + 3 < 2 ^ 32 ->
  let n := nextVirtualReg s in
  generateAddressTranslation guest s
  = (Ok (translation guest n (n + 1) (n + 2), n), taken s 3).
Proof.
  intros ?? n. unfold generateAddressTranslation. run_state.
  rewrite !uint_small by (unfold in_u; fold n; lia).
  unfold taken. fold n. by rewrite <- !Z.add_assoc.
Qed.

(** An operand, looked up before or after the result has been given its
    register. *)
Lemma tracks_operand s E X id t k a ta x :
  tracks s E X -> E !! id = None -> E !! a = Some (ta, x) ->
  ∃ v, 0 <= v < nextVirtualReg s ∧ val_rel ta (vget X v) x ∧ in_u (irsem.width ta) x
    ∧ getVirtualRegisterOrThrow a s = (Ok v, s) ∧ getValueType a s = (Ok ta, s)
    ∧ let s' := assigned s id t k in
      getVirtualRegisterOrThrow a s' = (Ok v, s') ∧ getValueType a s' = (Ok ta, s').
Proof.
  intros HT Hid Ha. destruct (tk_value _ _ _ HT _ _ _ Ha) as (v & Hv & Ht & Hr).
  assert (id ≠ a) as Hne by congruence.
  exists v. split; [by eapply tk_range|]. split; [done|].
  split; [by eapply (tk_typed _ _ _ HT)|].
  split; [by apply run_getOrThrow|]. split; [by apply run_getType|]. split.
  - apply run_getOrThrow. cbn. by rewrite lookup_insert_ne.
  - apply run_getType. cbn. by rewrite lookup_insert_ne.
Qed.

(** A result's type is recorded before its register is chosen. *)
Lemma run_new s id t :
  irToVReg s !! id = None -> 0 <= nextVirtualReg s -> nextVirtualReg s + 1 < 2 ^ 32 ->
  assignVirtualRegister id
    (mkSelector (nextVirtualReg s) (irToVReg s) (<[id := t]> (valueTypes s)))
  = (Ok (nextVirtualReg s), assigned s id t 1).
Proof. intros. by rewrite run_assign. Qed.

(** Invert the definedness of an instruction's semantics. *)
Ltac inv_sem :=
  repeat match goal with
    | H : (ensure _ ≫= _) = Some _ |- _ => apply ensure_Some in H as [? H]
    | H : (_ ≫= (λ '(_, _), _)) = Some _ |- _ => apply bind_Some in H as ([? ?] & ? & H)
    | H : (_ ≫= _) = Some _ |- _ => apply bind_Some in H as (? & ? & H)
    | H : bool_decide _ = true |- _ => apply bool_decide_eq_true in H
    | H : _ && _ = true |- _ => apply andb_true_iff in H as [? ?]
    | H : _ ∧ _ |- _ => destruct H
    end; simplify_eq.

Section correct.
Context (gs base shadow : Z) (mapped : Z → bool).
Context (Hsep : separate gs base shadow mapped).

(** The host state stands for the state of the IR's semantics. *)
Record stands (s : Selector.t) (st : irsem.state) (X : regs) (H : mem) : Prop := {
  st_tracks : tracks s (irsem.venv st) X;
  st_represents : represents gs base shadow mapped (irsem.vregs st) (irsem.vmem st) H;
  st_gs : a64sem.xget X 0 = gs;
}.

(** The code [l], selected in state [s] and leaving [s'], takes a host state
    that stands for [st] to one that stands for [st']. *)
Definition selects (m : M (list Instruction)) (s : Selector.t) (st' : irsem.state)
    (X : regs) (fl : a64sem.flags) (H : mem) : Prop :=
  ∃ l s', m s = (Ok l, s')
    ∧ nextVirtualReg s <= nextVirtualReg s' <= nextVirtualReg s + 4
    ∧ ∃ X' fl' H', exec_insts l (a64sem.mkState X fl H) = Some (a64sem.mkState X' fl' H')
        ∧ stands s' st' X' H' ∧ changes_above (nextVirtualReg s) X X'
        ∧ confined gs base shadow mapped H H'.

Lemma changes_above_gs s X X' :
  0 <= nextVirtualReg s -> changes_above (nextVirtualReg s) X X' ->
  a64sem.xget X' 0 = a64sem.xget X 0.
Proof. intros ? Hc. apply Hc. lia. Qed.

(** An instruction with a result, computed by [l] in the next register. *)
Lemma selects_value m s st id t x k l X fl H X' fl' :
  stands s st X H -> irsem.venv st !! id = None -> 1 <= k <= 4 ->
  m s = (Ok l, assigned s id t k) ->
  exec_insts l (a64sem.mkState X fl H) = Some (a64sem.mkState X' fl' H) ->
  changes_above (nextVirtualReg s) X X' ->
  val_rel t (vget X' (nextVirtualReg s)) x -> in_u (irsem.width t) x ->
  selects m s (irsem.mkState (<[id := (t, x)]> (irsem.venv st)) (irsem.vregs st) (irsem.vmem st))
    X fl H.
Proof.
  intros [HT HR Hgs] Hid Hk Hm Hl Hc Hr Hx.
  exists l, (assigned s id t k). split; [done|]. split; [cbn; lia|].
  exists X', fl', H. split; [done|]. split; [|done]. split.
  - by eapply tracks_assigned; try lia.
  - done.
  - rewrite (changes_above_gs s X X'); [done| |done]. apply HT.
Qed.

(** As above, for the common case of one write to that register. *)
Lemma selects_write m s st id t x r l X fl H fl' :
  stands s st X H -> irsem.venv st !! id = None ->
  m s = (Ok l, assigned s id t 1) ->
  exec_insts l (a64sem.mkState X fl H)
  = Some (a64sem.mkState (vset X (nextVirtualReg s) r) fl' H) ->
  in_u 64 r -> val_rel t r x -> in_u (irsem.width t) x ->
  selects m s (irsem.mkState (<[id := (t, x)]> (irsem.venv st)) (irsem.vregs st) (irsem.vmem st))
    X fl H.
Proof.
  intros HS Hid Hm Hl Hr Hrel Hx. pose proof (tk_next _ _ _ (st_tracks _ _ _ _ HS)) as Hn.
  eapply selects_value; [done|done| |done|done| | |done]; [done| |].
  - by apply changes_above_vset.
  - by rewrite vget_vset, Z.eqb_refl by done.
Qed.

(** ** Instructions *)

Lemma arith_opcode op w a b r :
  irsem.arith op w a b = Some r ->
  comparisonCondition op = None ∧ ∃ o, irBinaryOpToARM64 op = Ok o.
Proof. destruct op; intros; simplify_eq/=; eauto. Qed.

Lemma compare_condition op a b k :
  irsem.compare op a b = Some k -> ∃ c, comparisonCondition op = Some c.
Proof. destruct op; intros; simplify_eq/=; eauto. Qed.

Lemma operand_type_compare op t a b k :
  irsem.compare op a b = Some k -> irsem.operand_type op t = ir.i64.
Proof. by destruct op. Qed.
Lemma operand_type_arith op t a b :
  irsem.compare op a b = None -> irsem.operand_type op t = t.
Proof. by destruct op. Qed.

Lemma compare_None op a b : irsem.compare op a b = None -> comparisonCondition op = None.
Proof. by destruct op. Qed.

Section step.
Context (s : Selector.t) (st : irsem.state) (X : regs) (fl : a64sem.flags) (H : mem).
Context (HS : stands s st X H) (Hsmall : nextVirtualReg s + 4 < 2 ^ 32).

Abbreviation env := (irsem.venv st).

#[local] Lemma next_pos : 0 <= nextVirtualReg s.
Proof. apply HS. Qed.

#[local] Lemma run_result id t :
  env !! id = None ->
  assignVirtualRegister id
    (mkSelector (nextVirtualReg s) (irToVReg s) (<[id := t]> (valueTypes s)))
  = (Ok (nextVirtualReg s), assigned s id t 1).
Proof.
  intros Hid. pose proof next_pos. apply run_new; [|done|lia].
  by apply (tk_fresh _ _ _ (st_tracks _ _ _ _ HS)).
Qed.

#[local] Lemma operand id t k a ta x :
  env !! id = None -> env !! a = Some (ta, x) ->
  ∃ v, 0 <= v < nextVirtualReg s ∧ val_rel ta (vget X v) x ∧ in_u (irsem.width ta) x
    ∧ getVirtualRegisterOrThrow a s = (Ok v, s) ∧ getValueType a s = (Ok ta, s)
    ∧ let s' := assigned s id t k in
      getVirtualRegisterOrThrow a s' = (Ok v, s') ∧ getValueType a s' = (Ok ta, s').
Proof. intros. eapply tracks_operand; [apply HS|done..]. Qed.

(** Value producing instructions: the values of the operands. *)
Abbreviation value_case i t x :=
  (selects (selectInstruction i) s
     (irsem.mkState (<[ir.valueId i := (t, x)]> env) (irsem.vregs st) (irsem.vmem st)) X fl H)
  (only parsing).

Lemma select_Const id t v :
  env !! id = None -> irsem.in_form (ir.Const t v) = true ->
  value_case (ir.mkInstruction id (ir.Const t v)) t (uint (irsem.width t) v).
Proof.
  intros Hid Hf. pose proof next_pos.
  destruct (exec_const t v (vreg (nextVirtualReg s)) X fl H) as (X' & Hl & Hc & Hr);
    [simpl; lia|done|].
  eapply (selects_value _ _ _ _ _ _ 1); [done..| |exact Hl| | |].
  - unfold selectInstruction, selectConst. cbn [ir.kind ir.valueId]. run_state.
    by rewrite run_result.
  - intros r Hr'. apply Hc. simpl. lia.
  - exact Hr.
  - apply uint_range. pose proof (irsem.width_pos t). lia.
Qed.

Lemma select_BinaryOp id op t a b va vb v :
  env !! id = None ->
  env !! a = Some (irsem.operand_type op t, va) ->
  env !! b = Some (irsem.operand_type op t, vb) ->
  irsem.binop op t va vb = Some v ->
  value_case (ir.mkInstruction id (ir.BinaryOp op t a b)) t v.
Proof.
  intros Hid Ha Hb Hv. pose proof (irsem.binop_range _ _ _ _ _ Hv) as Hvr.
  destruct (operand id t 1 a _ _ Hid Ha) as (ra & Hra & Hrela & Hxa & _ & _ & Hga & _).
  destruct (operand id t 1 b _ _ Hid Hb) as (rb & Hrb & Hrelb & Hxb & _ & _ & Hgb & _).
  unfold irsem.binop in Hv. destruct (irsem.compare op va vb) as [k|] eqn:Hk.
  - injection Hv as <-. destruct (compare_condition _ _ _ _ Hk) as [c Hc].
    rewrite (operand_type_compare _ t _ _ _ Hk) in Hrela, Hrelb. simpl in Hrela, Hrelb. subst.
    destruct (exec_compare op c (nextVirtualReg s) ra rb X fl H k Hc Hk) as [fl' Hl].
    eapply selects_write; [done..| |exact Hl| | |done].
    + unfold selectInstruction, selectBinaryOp. cbn [ir.kind ir.valueId]. run_state.
      by rewrite run_result, Hga, Hgb, Hc.
    + by apply b2z_range.
    + destruct t; simpl; try done; by apply uint_small, b2z_range.
  - assert (t = ir.i32 ∨ t = ir.i64) as Ht by (destruct t; try done; auto).
    assert (irsem.arith op (irsem.width t) va vb = Some v) as Hv' by (by destruct Ht; subst).
    rewrite (operand_type_arith _ t _ _ Hk) in Hrela, Hrelb, Hxa, Hxb.
    assert (vget X ra = va ∧ vget X rb = vb) as [<- <-] by (by destruct Ht; subst).
    destruct (arith_opcode _ _ _ _ _ Hv') as (Hc & o & Ho).
    pose proof (exec_arith op o t (nextVirtualReg s) ra rb X fl H v Ho Ht Hv' Hxa Hxb) as Hl.
    eapply selects_write; [done..| |exact Hl| | |done].
    + unfold selectInstruction, selectBinaryOp. cbn [ir.kind ir.valueId]. run_state.
      by rewrite run_result, Hga, Hgb, Hc, Ho.
    + by destruct Ht; subst; [apply (in_u_le 32)|].
    + by destruct Ht; subst.
Qed.

Lemma select_Sext id t a ft x :
  env !! id = None -> env !! a = Some (ft, x) -> 1 < irsem.width ft < irsem.width t ->
  value_case (ir.mkInstruction id (ir.Sext t a)) t
    (uint (irsem.width t) (sint (irsem.width ft) x)).
Proof.
  intros Hid Ha Hw.
  destruct (operand id t 1 a _ _ Hid Ha) as (ra & Hra & Hrel & Hx & _ & _ & Hga & Hta).
  destruct (exec_sext ft t (nextVirtualReg s) ra X fl H x Hw Hrel) as (r & Hl & Hr & Hrelr).
  eapply selects_write; [done..| |exact Hl|done|done|].
  - unfold selectInstruction, selectSext. cbn [ir.kind ir.valueId]. run_state.
    by rewrite run_result, Hga, Hta.
  - apply uint_range, Z.lt_le_incl, irsem.width_pos.
Qed.

Lemma select_Zext id t a ft x :
  env !! id = None -> env !! a = Some (ft, x) -> irsem.width ft < irsem.width t ->
  value_case (ir.mkInstruction id (ir.Zext t a)) t (uint (irsem.width t) x).
Proof.
  intros Hid Ha Hw.
  destruct (operand id t 1 a _ _ Hid Ha) as (ra & Hra & Hrel & Hx & _ & _ & Hga & Hta).
  pose proof (exec_zext ft t (nextVirtualReg s) ra X fl H x Hw Hrel Hx) as Hl.
  assert (in_u (irsem.width t) x) as Hxt by (eapply in_u_le; [|done]; lia).
  rewrite (uint_small _ _ Hxt).
  eapply selects_write; [done..| |exact Hl| | |done].
  - unfold selectInstruction, selectZext. cbn [ir.kind ir.valueId]. run_state.
    rewrite run_result, Hga, Hta by done. by destruct ft.
  - eapply in_u_le; [|done]. by destruct t.
  - destruct t; simpl in *; try done; by apply uint_small.
Qed.

Lemma select_Trunc id t a ft x :
  env !! id = None -> env !! a = Some (ft, x) -> 1 < irsem.width t < irsem.width ft ->
  value_case (ir.mkInstruction id (ir.Trunc t a)) t (uint (irsem.width t) x).
Proof.
  intros Hid Ha Hw.
  destruct (operand id t 1 a _ _ Hid Ha) as (ra & Hra & Hrel & Hx & _ & _ & Hga & Hta).
  destruct (exec_trunc ft t (nextVirtualReg s) ra X fl H x Hw Hrel) as (r & Hl & Hr & Hrelr).
  eapply selects_write; [done..| |exact Hl|done|done|].
  - unfold selectInstruction, selectTrunc. cbn [ir.kind ir.valueId]. run_state.
    by rewrite run_result, Hga.
  - apply uint_range, Z.lt_le_incl, irsem.width_pos.
Qed.

(** The address of a guest register's cell. *)
#[local] Lemma cell_address r :
  0 <= r < 32 ->
  registerOffset r = GuestState.offset_x r ∧ scaled Size_X (registerOffset r) = true.
Proof.
  intros Hr. rewrite registerOffset_small by done. split; [done|]. by apply scaled_register.
Qed.

Lemma select_RegRead id r :
  env !! id = None -> 0 <= r < 32 ->
  value_case (ir.mkInstruction id (ir.RegRead r)) ir.i64 (rd (irsem.vregs st) r).
Proof.
  intros Hid Hr. destruct (cell_address r Hr) as [Hoff Hsc].
  pose proof (exec_ldr Size_X (vreg (nextVirtualReg s)) Selector.X0 _ X fl H Hsc
                ltac:(done)) as Hl.
  cbn [num vreg Selector.X0 register_number] in Hl. rewrite (st_gs _ _ _ _ HS) in Hl.
  change (a64sem.bytes (size_field Size_X)) with 8%nat in Hl.
  rewrite load_wrap, Hoff, (rp_regs _ _ _ _ _ _ _ (st_represents _ _ _ _ HS) r Hr) in Hl.
  eapply selects_write; [done..| |exact Hl| |done|]; [|apply rd_range..].
  unfold selectInstruction, selectRegRead. cbn [ir.kind ir.valueId]. run_state.
  by rewrite run_result, Hoff.
Qed.

(** The host address computed for a guest address. *)
Lemma translated guest n a :
  nextVirtualReg s <= n -> 0 <= guest < n -> vget X guest = a ->
  ∃ X', exec_insts (translation guest n (n + 1) (n + 2)) (a64sem.mkState X fl H)
        = Some (a64sem.mkState X' fl H)
    ∧ changes_above n X X' ∧ vget X' n = host base shadow a.
Proof.
  intros Hn Hg <-. pose proof next_pos. destruct HS as [_ HR Hgs].
  apply exec_translation; [done| |]; rewrite Hgs; apply HR.
Qed.

Lemma select_Load id t a x :
  env !! id = None -> env !! a = Some (ir.i64, x) -> t ≠ ir.i1 ->
  accessible mapped (irsem.bytes t) x = true ->
  value_case (ir.mkInstruction id (ir.Load t a)) t
    (uint (irsem.width t) (load (irsem.bytes t) (irsem.vmem st) x)).
Proof.
  intros Hid Ha Ht Hacc. pose proof next_pos as Hn. set (n := nextVirtualReg s) in *.
  destruct (operand id t 1 a _ _ Hid Ha) as (ra & Hra & Hrel & Hx & _ & _ & Hga & _).
  simpl in Hrel. fold n in Hra.
  destruct (translated ra (n + 1) x) as (X1 & Hl1 & Hc1 & Hh); [lia|lia|done|].
  set (r := load (irsem.bytes t) (irsem.vmem st) x).
  assert (in_u (irsem.width t) r) as Hrr.
  { pose proof (load_range (irsem.bytes t) (irsem.vmem st) x). by destruct t. }
  assert (in_u 64 r) as Hr64 by (eapply in_u_le; [|done]; by destruct t).
  assert (exec_insts
    (translation ra (n + 1) (n + 1 + 1) (n + 1 + 2) ++
     [mkInstruction (MemoryInst LDR (irTypeToDataSize t) (vreg n) (vreg (n + 1)) 0)])
    (a64sem.mkState X fl H) = Some (a64sem.mkState (vset X1 n r) fl H)) as Hl.
  { rewrite exec_insts_app, Hl1. cbn [mbind option_bind].
    rewrite exec_ldr by (done || simpl; lia). rewrite bytes_type. do 3 f_equal.
    change (a64sem.xget X1 (num (vreg (n + 1)))) with (vget X1 (n + 1)).
    rewrite Hh, load_wrap, Z.add_0_r. eapply represents_load; [apply HS|done]. }
  fold r in Hl |- *. clearbody r.
  eapply (selects_value _ _ _ _ _ _ 4); [exact HS|exact Hid|lia| |exact Hl| | |].
  - unfold selectInstruction, selectLoad. cbn [ir.kind ir.valueId]. run_state.
    rewrite run_result, Hga by done.
    by rewrite run_translation, taken_assigned by (cbn; lia).
  - eapply changes_above_trans; [|apply changes_above_vset; [lia|exact Hr64]].
    intros r' Hr'. apply Hc1. lia.
  - fold n. rewrite vget_vset, Z.eqb_refl, (uint_small _ r) by (done || exact Hrr).
    destruct t; first [reflexivity | exact (uint_small _ _ Hrr)].
  - apply uint_range, Z.lt_le_incl, irsem.width_pos.
Qed.

(** Instructions without a result. *)
Lemma store_value_rel t n m a h x :
  n = irsem.bytes t -> val_rel t h x -> store n m a h = store n m a x.
Proof.
  intros -> Hr. rewrite <- (store_uint _ _ _ h), <- (store_uint _ _ _ x).
  destruct t; simpl in Hr; by rewrite <- ?Hr, ?uint_idemp.
Qed.

Lemma store_address n m a b v : u64 a = u64 b -> store n m a v = store n m b v.
Proof.
  revert m a b v. induction n as [|n IH]; intros m a b v Hab; [done|].
  change (store (S n) ?m ?a ?v) with (store n (<[u64 a := u8 v]> m) (a + 1) (v / 2 ^ 8)).
  rewrite Hab. apply IH. rewrite <- (uint_add_l 64 a), <- (uint_add_l 64 b). by rewrite Hab.
Qed.

Lemma select_RegWrite id r a x :
  0 <= r < 32 -> env !! a = Some (ir.i64, x) ->
  selects (selectInstruction (ir.mkInstruction id (ir.RegWrite r a))) s
    (irsem.mkState env (wr (irsem.vregs st) r x) (irsem.vmem st)) X fl H.
Proof.
  intros Hr Ha. destruct (cell_address r Hr) as [Hoff Hsc].
  destruct (tk_value _ _ _ (st_tracks _ _ _ _ HS) _ _ _ Ha) as (v & Hv & _ & Hrel).
  simpl in Hrel. subst x.
  pose proof (exec_str Size_X (vreg v) Selector.X0 _ X fl H Hsc ltac:(done)) as Hl.
  cbn [num vreg Selector.X0 register_number] in Hl. rewrite (st_gs _ _ _ _ HS) in Hl.
  change (a64sem.bytes (size_field Size_X)) with 8%nat in Hl.
  rewrite (store_address _ _ _ (gs + registerOffset r)) in Hl by apply uint_idemp.
  eexists _, s. split; [|split; [lia|]].
  - unfold selectInstruction, selectRegWrite. cbn [ir.kind ir.valueId]. run_state.
    by rewrite (run_getOrThrow _ _ _ Hv).
  - eexists _, _, _. split; [exact Hl|]. split; [|split; [done|]].
    + split; cbn; try apply HS.
      rewrite Hoff. apply represents_reg_write; [done| |done|]; [apply HS|apply vget_range].
    + rewrite Hoff. apply confined_structure; unfold GuestState.offset_x; lia.
Qed.

Lemma select_Store id v a t x y :
  env !! v = Some (t, x) -> env !! a = Some (ir.i64, y) ->
  accessible mapped (irsem.bytes t) y = true ->
  selects (selectInstruction (ir.mkInstruction id (ir.Store v a))) s
    (irsem.mkState env (irsem.vregs st) (store (irsem.bytes t) (irsem.vmem st) y x)) X fl H.
Proof.
  intros Hv Ha Hacc. pose proof next_pos as Hn. set (n := nextVirtualReg s) in *.
  destruct (tk_value _ _ _ (st_tracks _ _ _ _ HS) _ _ _ Hv) as (rv & Hrv & Htv & Hrelv).
  destruct (tk_value _ _ _ (st_tracks _ _ _ _ HS) _ _ _ Ha) as (ra & Hra & Hta & Hrela).
  pose proof (tk_range _ _ _ (st_tracks _ _ _ _ HS) _ _ Hrv) as Hrv'.
  pose proof (tk_range _ _ _ (st_tracks _ _ _ _ HS) _ _ Hra) as Hra'. fold n in Hrv', Hra'.
  simpl in Hrela.
  destruct (translated ra n y) as (X1 & Hl1 & Hc1 & Hh); [lia|lia|done|].
  eexists _, (taken s 3). split; [|split; [cbn; lia|]].
  - unfold selectInstruction, selectStore. cbn [ir.kind ir.valueId]. run_state.
    rewrite (run_getOrThrow _ _ _ Hrv), (run_getOrThrow _ _ _ Hra), (run_getType _ _ _ Htv).
    by rewrite run_translation by lia.
  - eexists X1, fl, _. split; [|split].
    + fold n. rewrite exec_insts_app, Hl1. cbn [mbind option_bind].
      rewrite exec_str by (done || simpl; lia). rewrite bytes_type, Z.add_0_r. reflexivity.
    + 
      change (a64sem.xget X1 (num (vreg ?r))) with (vget X1 r).
      fold n. rewrite Hh, (vget_above _ _ _ _ Hc1) by lia.
      rewrite (store_value_rel t _ _ _ (vget X rv) x) by done.
      rewrite (store_address _ _ (u64 _) (host base shadow y)) by apply uint_idemp.
      split; cbn [irsem.venv irsem.vregs irsem.vmem].
      * apply (tracks_taken s env X); [apply HS|lia|done].
      * apply represents_store; [done|by destruct t|apply HS|done].
      * rewrite (changes_above_gs s X X1) by done. apply HS.
    + split; [done|].
      change (a64sem.xget X1 (num (vreg n))) with (vget X1 n). rewrite Hh.
      rewrite (store_address _ _ (u64 _) (host base shadow y)) by apply uint_idemp.
      apply confined_guest; [by destruct t|done].
Qed.

End step.

Lemma select_step s st i st' X fl H :
  stands s st X H -> nextVirtualReg s + 4 < 2 ^ 32 ->
  irsem.step mapped i st = Some st' -> irsem.in_form (ir.kind i) = true ->
  irsem.venv st !! ir.valueId i = None ->
  selects (selectInstruction i) s st' X fl H.
Proof.
  intros HS Hn Hst Hf Hid. destruct i as [id k]. cbn in Hid.
  destruct k; cbn in Hst; inv_sem;
    try match goal with H : irsem.eval _ _ _ _ _ = _ |- _ => cbn in H end;
    inv_sem; cbn [irsem.in_form ir.kind] in Hf.
  - by apply select_Const.
  - by eapply select_BinaryOp.
  - by eapply select_Sext.
  - by eapply select_Zext.
  - by eapply select_Trunc.
  - apply bool_decide_eq_true in Hf. by eapply select_Load.
  - by eapply select_Store.
  - apply bool_decide_eq_true in Hf. by eapply select_RegRead.
  - apply bool_decide_eq_true in Hf. by eapply select_RegWrite.
Qed.

(** ** Sequences *)

Lemma step_venv i st st' id :
  irsem.step mapped i st = Some st' -> id ≠ ir.valueId i ->
  irsem.venv st' !! id = irsem.venv st !! id.
Proof.
  intros Hst Hne. destruct i as [id' k]. cbn in Hne.
  destruct k; cbn in Hst; inv_sem; cbn; try done; by rewrite lookup_insert_ne.
Qed.

Lemma changes_above_le n n' X X' : n' <= n -> changes_above n X X' -> changes_above n' X X'.
Proof. intros Hn Hc r Hr. apply Hc. lia. Qed.

Lemma select_run : ∀ l s st st' X fl H,
  stands s st X H -> nextVirtualReg s + 4 * Z.of_nat (length l) < 2 ^ 32 ->
  irsem.run mapped l st = Some st' ->
  Forall (λ i, irsem.in_form (ir.kind i) = true) l -> NoDup (ir.valueId <$> l) ->
  (∀ i, i ∈ l -> irsem.venv st !! ir.valueId i = None) ->
  ∃ ls s', mapM_state selectInstruction l s = (Ok ls, s')
    ∧ nextVirtualReg s <= nextVirtualReg s' <= nextVirtualReg s + 4 * Z.of_nat (length l)
    ∧ ∃ X' fl' H',
        exec_insts (concat ls) (a64sem.mkState X fl H) = Some (a64sem.mkState X' fl' H')
        ∧ stands s' st' X' H' ∧ changes_above (nextVirtualReg s) X X'
        ∧ confined gs base shadow mapped H H'.
Proof.
  induction l as [|i l IH]; intros s st st' X fl H HS Hn Hrun Hf Hnd Hid.
  { simpl in Hrun. simplify_eq. exists [], s. split; [done|]. split; [lia|].
    exists X, fl, H. split; [done|]. split; [done|]. split; [by intros r ?|apply confined_refl]. }
  simpl in Hrun. apply bind_Some in Hrun as (st1 & Hst & Hrun).
  apply Forall_cons in Hf as [Hf Hfs]. rewrite fmap_cons in Hnd.
  apply NoDup_cons in Hnd as [Hni Hnd]. cbn [length] in *.
  destruct (select_step s st i st1 X fl H HS ltac:(lia) Hst Hf (Hid i ltac:(by left)))
    as (l1 & s1 & Hl1 & Hn1 & X1 & fl1 & H1 & He1 & HS1 & Hc1 & Hcf1).
  destruct (IH s1 st1 st' X1 fl1 H1) as (ls & s' & Hls & Hn' & X' & fl' & H' & He & HS' & Hc & Hcf);
    [done|lia|done..| |].
  { intros j Hj. rewrite (step_venv _ _ _ _ Hst); [apply Hid; by right|].
    intros E. apply Hni. rewrite <- E. apply list_elem_of_fmap. eauto. }
  exists (l1 :: ls), s'. split; [|split; [lia|]].
  - cbn [mapM_state]. rewrite run_bind, Hl1, run_bind, Hls. done.
  - exists X', fl', H'. split; [|split; [done|split]].
    + cbn [concat]. by rewrite exec_insts_app, He1.
    + intros r Hr. rewrite Hc by lia. by apply Hc1.
    + by eapply confined_trans.
Qed.

(** ** Terminators *)

(** The code ends by returning through X30, the next program counter in X0. *)
Definition returns (l : list Instruction) (pc : Z) (X : regs) (fl : a64sem.flags) (H : mem)
    : Prop :=
  ∃ X' fl', run_insts l (a64sem.mkState X fl H)
      = Some (a64sem.mkState X' fl' H, a64sem.xget X 30)
    ∧ a64sem.xget X' 0 = u64 pc
    ∧ ∀ r, 0 < r < 32 -> a64sem.xget X' r = a64sem.xget X r.

Lemma run_ret X fl H :
  run_insts [ret] (a64sem.mkState X fl H)
  = Some (a64sem.mkState X fl H, a64sem.xget X 30).
Proof. done. Qed.

(** Code that leaves the program counter in X0, and then returns. *)
Lemma returns_ret l pc X fl H X' fl' :
  exec_insts l (a64sem.mkState X fl H) = Some (a64sem.mkState X' fl' H) ->
  a64sem.xget X' 0 = u64 pc ->
  (∀ r, 0 < r < 32 -> a64sem.xget X' r = a64sem.xget X r) ->
  returns (l ++ [ret]) pc X fl H.
Proof.
  intros Hl H0 Hr. exists X', fl'. split; [|done].
  by rewrite (run_insts_app _ _ _ _ Hl), run_ret, Hr.
Qed.

Lemma in_form_target b : irsem.in_form (ir.Const ir.i64 (i64 b)) = true.
Proof. apply andb_true_iff. split; [|done]. by apply bool_decide_eq_true, sint_range. Qed.

Lemma returns_const pc X fl H :
  returns (selectConstIntoRegister ir.i64 (i64 pc) Selector.X0 ++ [ret]) pc X fl H.
Proof.
  destruct (exec_const ir.i64 (i64 pc) Selector.X0 X fl H) as (X' & Hl & Hc & Hr);
    [done|apply in_form_target|].
  eapply returns_ret; [done| |].
  - simpl in Hr. rewrite Hr. by apply uint_sint.
  - intros r Hr'. apply Hc. simpl. lia.
Qed.

(** Registers of different values differ, also those of the pseudo values the
    selector makes up for the targets of a conditional branch. *)
Definition distinct (s : Selector.t) : Prop :=
  0 <= nextVirtualReg s
  ∧ (∀ id v, irToVReg s !! id = Some v -> 0 <= v < nextVirtualReg s)
  ∧ ∀ id id' v, irToVReg s !! id = Some v -> irToVReg s !! id' = Some v -> id = id'.

Lemma tracks_distinct s E X : tracks s E X -> distinct s.
Proof. intros HT. split; [apply HT|]. split; [by eapply tk_range|by eapply tk_inj]. Qed.

(** A fresh pseudo value and its register, new or (when the number is also the
    id of a value) the one that value has. *)
Lemma run_pseudo s :
  distinct s -> nextVirtualReg s + 2 < 2 ^ 32 ->
  let id := nextVirtualReg s in
  ∃ v s', assignVirtualRegister id (taken s 1) = (Ok v, s')
    ∧ assignVirtualRegister id s' = (Ok v, s')
    ∧ distinct s' ∧ nextVirtualReg s < nextVirtualReg s' <= nextVirtualReg s + 2
    ∧ irToVReg s' !! id = Some v
    ∧ ∀ id' v', irToVReg s !! id' = Some v' -> irToVReg s' !! id' = Some v'.
Proof.
  intros (Hn & Hr & Hi) Hs n. unfold taken, distinct.
  destruct (irToVReg s !! n) as [v|] eqn:Hv.
  - exists v, (taken s 1). unfold assignVirtualRegister, taken. run_state. fold n. rewrite Hv.
    split_and!; try done; cbn; try lia. intros id w Hw. apply Hr in Hw. lia.
  - exists (n + 1), (mkSelector (n + 1 + 1) (<[n := n + 1]> (irToVReg s)) (valueTypes s)).
    split_and!; try done; cbn; try lia.
    + apply (run_assign (taken s 1)); cbn; [done|lia|lia].
    + unfold assignVirtualRegister. run_state. by rewrite lookup_insert_eq.
    + intros id w [[<- <-]|[? Hw]]%lookup_insert_Some; [lia|]. apply Hr in Hw. lia.
    + intros i1 i2 w [[<- <-]|[? H1]]%lookup_insert_Some [[<- H2]|[? H2]]%lookup_insert_Some;
        [done|apply Hr in H2; lia|subst; apply Hr in H1; lia|by eapply Hi].
    + by rewrite lookup_insert_eq.
    + intros id w Hw. rewrite lookup_insert_ne; [done|congruence].
Qed.

(** The code of a conditional branch on register [c]. *)
Definition branch_code (c v1 v2 target t f : Z) : list Instruction :=
  [mkInstruction (TwoOperandInst CMP Size_X (vreg c) (Immediate 0))]
  ++ selectConstIntoRegister ir.i64 (i64 t) (vreg v1)
  ++ selectConstIntoRegister ir.i64 (i64 f) (vreg v2)
  ++ [mkInstruction (ConditionalSelectInst CSEL Size_X (vreg target) (vreg v1) (vreg v2) NE);
      mkInstruction (TwoOperandInst MOV Size_X Selector.X0 (vreg target)); ret].

Lemma run_CondBranch s c t f x :
  distinct s -> nextVirtualReg s + 5 < 2 ^ 32 -> irToVReg s !! c = Some x ->
  ∃ v1 v2 target s', selectCondBranch c t f s = (Ok (branch_code x v1 v2 target t f), s')
    ∧ 0 <= v1 ∧ 0 <= v2 ∧ 0 <= target ∧ v1 ≠ v2.
Proof.
  intros Hd Hn Hc.
  destruct (run_pseudo s Hd ltac:(lia)) as (v1 & s1 & A1 & A1' & Hd1 & Hn1 & Hv1 & Hm1).
  destruct (run_pseudo s1 Hd1 ltac:(lia)) as (v2 & s2 & A2 & A2' & Hd2 & Hn2 & Hv2 & Hm2).
  exists v1, v2, (nextVirtualReg s2), (taken s2 1). split_and!.
  - unfold selectCondBranch, selectConst. cbv [mbind stateM_bind mret stateM_ret].
    pose proof (proj1 Hd). pose proof (proj1 Hd1). pose proof (proj1 Hd2).
    by rewrite (run_getOrThrow _ _ _ Hc), run_fresh, A1, A1', run_fresh, A2, A2', run_fresh
      by lia.
  - by apply (proj1 (proj2 Hd1) _ _ Hv1).
  - by apply (proj1 (proj2 Hd2) _ _ Hv2).
  - apply Hd2.
  - intros <-. destruct Hd2 as (_ & _ & Hi). apply Hm2 in Hv1.
    pose proof (Hi _ _ _ Hv1 Hv2). lia.
Qed.

Lemma exec_test c X fl H :
  0 <= c ->
  ∃ fl', exec_insts [mkInstruction (TwoOperandInst CMP Size_X (vreg c) (Immediate 0))]
           (a64sem.mkState X fl H) = Some (a64sem.mkState X fl' H)
    ∧ a64sem.holds (condition_number NE) fl' = negb (vget X c =? 0).
Proof.
  intros Hc. exec1. rewrite (uint_small _ (a64sem.xget _ _)) by apply vget_range.
  rewrite (proj2 (Z.eqb_neq (32 + c) 31)) by lia.
  eexists. split; [reflexivity|].
  destruct (a64sem.holds_compare (vget X c) 0) as (_ & E & _);
    [apply vget_range|done|exact E].
Qed.

Lemma exec_select d a b c X fl H :
  exec_insts [mkInstruction (ConditionalSelectInst CSEL Size_X (vreg d) (vreg a) (vreg b) c)]
    (a64sem.mkState X fl H)
  = Some (a64sem.mkState
      (vset X d (if a64sem.holds (condition_number c) fl then vget X a else vget X b)) fl H).
Proof.
  exec1. rewrite uint_small; [done|].
  destruct (a64sem.holds _ _); apply vget_range.
Qed.

Lemma exec_result a X fl H :
  exec_insts [mkInstruction (TwoOperandInst MOV Size_X Selector.X0 (vreg a))]
    (a64sem.mkState X fl H) = Some (a64sem.mkState (a64sem.xset X 0 (vget X a)) fl H).
Proof.
  exec1. unfold a64sem.shifted. rewrite shiftl_0. cbn [a64sem.logical_op a64sem.sets_flags].
  change (a64sem.xget X 31) with 0. rewrite Z.lor_0_l, uint_small by apply vget_range. done.
Qed.

(** The value moved to X0 is the result. *)
Lemma returns_value a pc X fl H :
  vget X a = u64 pc ->
  returns ([mkInstruction (TwoOperandInst MOV Size_X Selector.X0 (vreg a))] ++ [ret]) pc X fl H.
Proof.
  intros Ha. eapply returns_ret; [apply exec_result| |].
  - by rewrite xget_xset, Z.eqb_refl by (done || apply vget_range).
  - intros r Hr. rewrite xget_xset by (done || apply vget_range).
    by rewrite (proj2 (Z.eqb_neq r 0)) by lia.
Qed.

(** Code that keeps the machine's registers before code that returns. *)
Lemma returns_app l1 l2 pc X fl H X' fl' :
  exec_insts l1 (a64sem.mkState X fl H) = Some (a64sem.mkState X' fl' H) ->
  changes_above 0 X X' -> returns l2 pc X' fl' H -> returns (l1 ++ l2) pc X fl H.
Proof.
  intros He Hc (X2 & fl2 & Hrun & H0 & Hr). exists X2, fl2.
  rewrite (run_insts_app _ _ _ _ He), Hrun. split; [|split; [done|]].
  - by rewrite (Hc 30) by lia.
  - intros r Hr'. rewrite Hr by done. apply Hc. lia.
Qed.

(** What a move of a branch target leaves. *)
Lemma exec_target t v X fl H :
  0 <= v ->
  ∃ X', exec_insts (selectConstIntoRegister ir.i64 (i64 t) (vreg v)) (a64sem.mkState X fl H)
        = Some (a64sem.mkState X' fl H)
    ∧ changes (32 + v) X X' ∧ vget X' v = u64 t.
Proof.
  intros Hv. destruct (exec_const ir.i64 (i64 t) (vreg v) X fl H) as (X' & Hl & Hc & Hr);
    [simpl; lia|apply in_form_target|].
  exists X'. split; [done|]. split; [exact Hc|].
  simpl in Hr. unfold vget. rewrite Hr. by apply uint_sint.
Qed.

Lemma returns_branch c v1 v2 target t f X fl H :
  0 <= c -> 0 <= v1 -> 0 <= v2 -> 0 <= target -> v1 ≠ v2 ->
  returns (branch_code c v1 v2 target t f) (if vget X c =? 0 then f else t) X fl H.
Proof.
  intros Hc0 H1 H2 H3 Hne. destruct (exec_test c X fl H Hc0) as (fl' & Ht & Hholds).
  destruct (exec_target t v1 X fl' H H1) as (X1 & Hl1 & Hc1 & Hr1).
  destruct (exec_target f v2 X1 fl' H H2) as (X2 & Hl2 & Hc2 & Hr2).
  unfold branch_code.
  eapply returns_app; [exact Ht|done|].
  eapply returns_app; [exact Hl1|intros r Hr; apply Hc1; lia|].
  eapply returns_app; [exact Hl2|intros r Hr; apply Hc2; lia|].
  change [?a; ?b; ?c] with ([a] ++ [b] ++ [c]).
  eapply returns_app; [apply exec_select| |apply returns_value].
  - apply changes_above_vset; [lia|]. case_match; apply vget_range.
  - rewrite vget_vset, Z.eqb_refl by (done || case_match; apply vget_range).
    rewrite Hholds, Hr2. unfold vget. rewrite Hc2 by lia. fold (vget X1 v1). rewrite Hr1.
    by destruct (_ =? _).
Qed.

Lemma select_terminator s st X fl H t pc :
  stands s st X H -> nextVirtualReg s + 5 < 2 ^ 32 ->
  irsem.next_pc t (irsem.venv st) = Some pc ->
  ∃ l s', selectTerminator t s = (Ok l, s') ∧ returns l pc X fl H.
Proof.
  intros HS Hn Hpc. pose proof (tracks_distinct _ _ _ (st_tracks _ _ _ _ HS)) as Hd.
  destruct t as [b|c t f|[v|]]; cbn in Hpc; inv_sem.
  - eexists _, _. split; [reflexivity|]. apply returns_const.
  - edestruct (tk_value _ _ _ (st_tracks _ _ _ _ HS)) as (x & Hx & _ & Hrel); [eassumption|].
    simpl in Hrel. subst.
    destruct (run_CondBranch s c t f x Hd Hn Hx) as (v1 & v2 & tg & s' & Hs & ? & ? & ? & ?).
    eexists _, _. split; [exact Hs|]. apply returns_branch; try done.
    by apply (proj1 (proj2 Hd) _ _ Hx).
  - edestruct (tk_value _ _ _ (st_tracks _ _ _ _ HS)) as (x & Hx & _ & Hrel); [eassumption|].
    simpl in Hrel. subst. eexists _, _. split.
    + cbn [selectTerminator]. run_state. by rewrite (run_getOrThrow _ _ _ Hx).
    + apply returns_value. symmetry. apply uint_small, vget_range.
  - eexists _, _. split; [reflexivity|]. apply (returns_const 0).
Qed.

End correct.

(** ** Properties *)

(** What the code of a block must do: from a host state that represents the
    guest's, return to X30 in one that represents the state the block leaves,
    with the next program counter in X0, the machine's other registers and the
    rest of the host's memory unchanged. *)
Definition runs_as (gs base shadow : Z) (mapped : Z → bool) (l : list Instruction)
    (X : regs) (fl : a64sem.flags) (H : mem) (r : regs * mem * Z) : Prop :=
  let '(R', m', pc) := r in
  ∃ st', run_insts l (a64sem.mkState X fl H) = Some (st', a64sem.xget X 30)
    ∧ represents gs base shadow mapped R' m' (a64sem.hm st')
    ∧ a64sem.xget (a64sem.xr st') 0 = u64 pc
    ∧ (∀ r, 0 < r < 32 -> a64sem.xget (a64sem.xr st') r = a64sem.xget X r)
    ∧ confined gs base shadow mapped H (a64sem.hm st').

(** A block in SSA form whose constants and registers are in range. *)
Definition selectable (b : ir.BasicBlock) : Prop :=
  Forall (λ i, irsem.in_form (ir.kind i) = true) (ir.instructions b)
  ∧ NoDup (ir.valueId <$> ir.instructions b)
  ∧ 4 * Z.of_nat (length (ir.instructions b)) + 5 < 2 ^ 32.

Lemma selected_runs b gs base shadow mapped R m r X fl H :
  selectable b -> separate gs base shadow mapped ->
  irsem.run_block mapped b R m = Some r ->
  represents gs base shadow mapped R m H -> a64sem.xget X 0 = gs ->
  ∃ l s', selectInstructions b new = (Ok l, s')
    ∧ runs_as gs base shadow mapped l X fl H r.
Proof.
  intros (Hf & Hnd & Hlen) Hsep Hr HR Hgs. destruct r as [[R' m'] pc].
  unfold irsem.run_block in Hr.
  apply bind_Some in Hr as (st' & Hrun & Hr). apply bind_Some in Hr as (pc' & Hpc & [= <- <- <-]).
  destruct (select_run gs base shadow mapped Hsep (ir.instructions b) new
              (irsem.mkState ∅ R m) st' X fl H)
    as (ls & s1 & Hls & Hn & X1 & fl1 & H1 & He & HS & Hc & Hcf); try done.
  { change (nextVirtualReg new) with 0. lia. }
  change (nextVirtualReg new) with 0 in *.
  destruct (select_terminator gs base shadow mapped s1 st' X1 fl1 H1
              (ir.terminator b) pc' HS)
    as (lt & s2 & Hlt & X2 & fl2 & Hret & H0 & Hfr); [lia|done|].
  exists (concat ls ++ lt), s2. split.
  - unfold selectInstructions. by rewrite run_bind, Hls, run_bind, Hlt.
  - assert (∀ r, 0 <= r < 32 -> a64sem.xget X1 r = a64sem.xget X r) as Hx.
    { intros r Hr. apply Hc. lia. }
    eexists. rewrite (run_insts_app _ _ _ _ He), Hret, Hx by lia. split; [done|].
    cbn [a64sem.hm a64sem.xr]. split; [apply HS|]. split; [done|]. split; [|done].
    intros r Hr. rewrite Hfr by done. apply Hx. lia.
Qed.

(** C5: instruction selection refines the IR.  Whenever a block in SSA form has
    a meaning, the selector succeeds on it, and its code, run over virtual
    registers from any host state that represents the guest's state (the
    [GuestState] structure at the address in X0, the shadow memory for the
    mapped guest memory), leaves a host state that represents the guest state
    after the block, with the next program counter in X0, every other machine
    register as it was, and no byte of the host's memory changed outside the
    structure and the shadow memory. *)
Theorem selectInstructions_refines b gs base shadow mapped R m r X fl H :
  selectable b -> separate gs base shadow mapped ->
  irsem.run_block mapped b R m = Some r ->
  represents gs base shadow mapped R m H -> a64sem.xget X 0 = gs ->
  ∃ l s', selectInstructions b new = (Ok l, s')
    ∧ runs_as gs base shadow mapped l X fl H r.
Proof. apply selected_runs. Qed.

(** ** Witness *)

(** A guest memory of 16 bytes at 0x2000, shadowed at 0x8000; the structure is
    at 0x1000. *)
Definition sample_guest (a : Z) : bool := (0x2000 <=? a) && (a <? 0x2010).

Lemma sample_address a :
  sample_guest (u64 a) = true ->
  host 0x2000 0x8000 a = u64 a + 0x6000 ∧ 0x2000 <= u64 a < 0x2010.
Proof.
  intros [Hlo%Z.leb_le Hhi%Z.ltb_lt]%andb_true_iff. split; [|lia]. unfold host.
  replace (a - 0x2000 + 0x8000) with (a + 0x6000) by lia.
  rewrite <- uint_add_l. apply uint_small. unfold in_u. lia.
Qed.

Lemma sample_separate : separate 0x1000 0x2000 0x8000 sample_guest.
Proof.
  intros a k [-> Ha]%sample_address Hk. rewrite (uint_small 64 (0x1000 + k)) by (unfold in_u; lia). lia.
Qed.

(** The host's memory for a guest whose registers are all zero, but x10. *)
Definition sample_host : mem :=
  store 8 (store 8 (store 8 ∅ (0x1000 + GuestState.offset_x 10) 0x2008)
             (0x1000 + GuestState.offset_guestMemoryBase) 0x2000)
    (0x1000 + GuestState.offset_shadowMemory) 0x8000.

Lemma sample_represents :
  represents 0x1000 0x2000 0x8000 sample_guest {[10 := 0x2008]} ∅ sample_host.
Proof.
  split.
  - intros r Hr. assert (r ∈ seqZ 0 32) as Hin by (by apply elem_of_seqZ).
    revert Hin. generalize r. apply Forall_forall.
    apply (bool_decide_unpack _). vm_compute. exact I.
  - vm_compute. reflexivity.
  - vm_compute. reflexivity.
  - intros a [-> Ha]%sample_address.
    unfold load_byte at 2. rewrite lookup_empty. cbn [default].
    assert (u64 a ∈ seqZ 0x2000 16) as Hin by (apply elem_of_seqZ; lia).
    revert Hin. generalize (u64 a). apply Forall_forall.
    apply (bool_decide_unpack _). vm_compute. exact I.
Qed.

(** [sb x10, 1(x10)] and a jump. *)
Definition sample_block : ir.BasicBlock :=
  ir.mkBasicBlock
    [ir.mkInstruction 1 (ir.RegRead 10); ir.mkInstruction 2 (ir.Const ir.i64 1);
     ir.mkInstruction 3 (ir.BinaryOp ir.Add ir.i64 1 2); ir.mkInstruction 4 (ir.Trunc ir.i8 1);
     ir.mkInstruction 5 (ir.Store 4 3)] (ir.Branch 0x4000).

Lemma selectInstructions_refines_witness :
  ∃ l s' R' m', selectInstructions sample_block new = (Ok l, s')
    ∧ load_byte m' 0x2009 = 8
    ∧ runs_as 0x1000 0x2000 0x8000 sample_guest l {[0 := 0x1000]}
        (a64sem.mkFlags false false false false) sample_host (R', m', 0x4000).
Proof.
  edestruct (selectInstructions_refines sample_block 0x1000 0x2000 0x8000 sample_guest
              {[10 := 0x2008]} ∅) with (X := {[0 := 0x1000]} : regs)
    (fl := a64sem.mkFlags false false false false) (H := sample_host)
    as (l & s' & Hl & Hr).
  - split; [|split; [|vm_compute; reflexivity]]; apply (bool_decide_unpack _); vm_compute; exact I.
  - exact sample_separate.
  - vm_compute. reflexivity.
  - exact sample_represents.
  - reflexivity.
  - eexists l, s', _, _. split; [exact Hl|]. split; [|exact Hr]. vm_compute. reflexivity.
Defined.
