(* ===== verification/LivenessCorrect.v ===== *)
(** * Correctness of the liveness analysis

    The tables [computeUseDef] builds, the intervals made of them, and their
    independence of hash-table order and of how [std::sort] treats equal keys:
    an instruction defines at most one virtual register, so that no two
    intervals start at the same place. *)
From S2P Require Import Prelude Error Arm64 Liveness.
Import arm64 Liveness.

(** ** Positions of definitions and uses *)

(** The virtual register an instruction defines. *)
Definition def_of (inst : Instruction) : option Z :=
  match kind inst with
  | ThreeOperandInst _ _ dest _ _ => getVirtualRegisterFromOperand dest
  | TwoOperandInst CMP _ _ _ => None
  | TwoOperandInst _ _ dest _ => getVirtualRegisterFromOperand dest
  | MemoryInst LDR _ reg _ _ => getVirtualRegisterFromOperand reg
  | MemoryInst _ _ _ _ _ => None
  | MoveWideInst _ _ dest _ _ => getVirtualRegisterFromOperand dest
  | ConditionalInst _ _ dest _ => getVirtualRegisterFromOperand dest
  | ConditionalSelectInst _ _ dest _ _ _ => getVirtualRegisterFromOperand dest
  | BranchInst _ _ => None
  end.

Definition defines (v : Z) (inst : Instruction) : bool :=
  bool_decide (v ∈ getDefinedVirtualRegisters inst).
Definition uses (v : Z) (inst : Instruction) : bool :=
  bool_decide (v ∈ getUsedVirtualRegisters inst).

Fixpoint positions (P : Instruction → bool) (i : nat) (l : list Instruction) : list nat :=
  match l with
  | [] => []
  | inst :: l => (if P inst then [i] else []) ++ positions P (S i) l
  end.

Lemma elem_of_insert_vreg o (X : gset Z) v :
  v ∈ insert_vreg o X ↔ o = VirtualRegister v ∨ v ∈ X.
Proof. unfold insert_vreg. destruct o; simpl; set_solver. Qed.

Lemma def_of_spec inst v : v ∈ getDefinedVirtualRegisters inst ↔ def_of inst = Some v.
Proof.
  assert (∀ o, v ∈ insert_vreg o ∅ ↔ getVirtualRegisterFromOperand o = Some v) as Ho.
  { intros o. rewrite elem_of_insert_vreg. destruct o; simpl; set_solver. }
  destruct inst as [[]]; unfold getDefinedVirtualRegisters, def_of; cbn [kind]; try apply Ho.
  - destruct opcode; simpl; try apply Ho. set_solver.
  - destruct opcode; simpl; try apply Ho; set_solver.
  - set_solver.
Qed.

Lemma elem_of_positions P i l n :
  n ∈ positions P i l ↔ ∃ k inst, l !! k = Some inst ∧ P inst = true ∧ n = (i + k)%nat.
Proof.
  revert i. induction l as [|x l IH]; intros i; cbn [positions].
  { split; [set_solver|]. by intros (k & inst & Hk & _). }
  rewrite elem_of_app, IH. split.
  - intros [Hn|(k & inst & Hk & HP & ->)].
    + destruct (P x) eqn:HP; [|set_solver]. apply list_elem_of_singleton in Hn as ->.
      exists 0%nat, x. split_and!; [done..|lia].
    + exists (S k), inst. split_and!; [done..|lia].
  - intros ([|k] & inst & Hk & HP & ->).
    + injection Hk as ->. left. rewrite HP. set_solver by lia.
    + right. exists k, inst. split_and!; [done..|lia].
Qed.

(** ** The tables *)

Lemma foldr_def_site i l s v :
  defSites (foldr (def_site i) s l) !! v = (if decide (v ∈ l) then Some i else defSites s !! v)
  ∧ useSites (foldr (def_site i) s l) = useSites s.
Proof.
  induction l as [|w l [IH1 IH2]]; cbn [foldr].
  { by rewrite decide_False by set_solver. }
  split; [|done]. unfold def_site at 1. cbn [defSites].
  destruct (decide (w = v)) as [->|Hne].
  - by rewrite lookup_insert_eq, decide_True by set_solver.
  - rewrite lookup_insert_ne, IH1 by done.
    destruct (decide (v ∈ l)); [rewrite decide_True|rewrite decide_False]; set_solver.
Qed.

Lemma foldr_use_site i l s v :
  NoDup l ->
  useSites (foldr (use_site i) s l) !! v
  = (if decide (v ∈ l) then Some (default [] (useSites s !! v) ++ [i])
     else useSites s !! v)
  ∧ defSites (foldr (use_site i) s l) = defSites s.
Proof.
  induction l as [|w l IH]; intros Hnd; cbn [foldr].
  { by rewrite decide_False by set_solver. }
  apply NoDup_cons in Hnd as [Hw Hnd]. destruct (IH Hnd) as [IH1 IH2].
  split; [|done]. unfold use_site at 1. cbn [useSites].
  destruct (decide (w = v)) as [->|Hne].
  - by rewrite lookup_insert_eq, IH1, decide_False, decide_True by set_solver.
  - rewrite lookup_insert_ne, IH1 by done.
    destruct (decide (v ∈ l)); [rewrite decide_True|rewrite decide_False]; set_solver.
Qed.

Lemma visit_tables i inst s v :
  defSites (visit i inst s) !! v = (if defines v inst then Some i else defSites s !! v)
  ∧ useSites (visit i inst s) !! v
    = (if uses v inst then Some (default [] (useSites s !! v) ++ [i]) else useSites s !! v).
Proof.
  unfold visit, defines, uses.
  set (s1 := foldr (def_site i) s (elements (getDefinedVirtualRegisters inst))).
  destruct (foldr_use_site i (elements (getUsedVirtualRegisters inst)) s1 v) as [H1 H2];
    [apply NoDup_elements|].
  destruct (foldr_def_site i (elements (getDefinedVirtualRegisters inst)) s v) as [H3 H4].
  fold s1 in H3, H4. rewrite H1, H2, H3, H4. split.
  - by rewrite (decide_ext _ _ _ _ (elem_of_elements _ _)); repeat case_decide; case_bool_decide.
  - by rewrite (decide_ext _ _ _ _ (elem_of_elements _ _)); repeat case_decide; case_bool_decide.
Qed.

Lemma visit_from_tables i l s v :
  defSites (visit_from i l s) !! v
  = match last (positions (defines v) i l) with
    | Some d => Some d
    | None => defSites s !! v
    end
  ∧ useSites (visit_from i l s) !! v
    = match positions (uses v) i l with
      | [] => useSites s !! v
      | ps => Some (default [] (useSites s !! v) ++ ps)
      end.
Proof.
  revert i s. induction l as [|inst l IH]; intros i s; cbn [visit_from positions]; [done|].
  destruct (IH (S i) (visit i inst s)) as [-> ->].
  destruct (visit_tables i inst s v) as [-> ->]. split.
  - destruct (defines v inst); [|done].
    cbn [app]. rewrite last_cons. by destruct (last _).
  - destruct (uses v inst); [|done].
    destruct (positions (uses v) (S i) l); simpl; [done|].
    by rewrite <- app_assoc.
Qed.

(** Last definition and uses of a register in a whole block. *)
Definition last_def (insts : list Instruction) (v : Z) : option nat :=
  last (positions (defines v) 0 insts).
Definition use_positions (insts : list Instruction) (v : Z) : list nat :=
  positions (uses v) 0 insts.

Lemma computeUseDef_tables insts v :
  defSites (computeUseDef insts) !! v = last_def insts v
  ∧ useSites (computeUseDef insts) !! v
    = match use_positions insts v with [] => None | ps => Some ps end.
Proof.
  unfold computeUseDef, last_def, use_positions.
  destruct (visit_from_tables 0 insts (mkLiveness ∅ ∅) v) as [-> ->].
  split; [by destruct (last _)|]. by destruct (positions _ _ _).
Qed.

Lemma last_positions P i l d :
  last (positions P i l) = Some d ->
  d ∈ positions P i l ∧ ∀ n, n ∈ positions P i l -> (n <= d)%nat.
Proof.
  revert i. induction l as [|x l IH]; intros i; cbn [positions]; [done|].
  destruct (P x); cbn [app]; [|apply IH].
  rewrite last_cons. destruct (last (positions P (S i) l)) as [e|] eqn:E.
  - intros [= ->]. destruct (IH _ E) as [Hin Hmax]. split; [by right|].
    intros n [->|Hn]%elem_of_cons; [|by apply Hmax].
    apply elem_of_positions in Hin as (k & ? & _ & _ & ->). lia.
  - intros [= ->]. apply last_None in E. rewrite E. split; [by left|].
    intros n [->|Hn]%elem_of_cons; [done|set_solver].
Qed.

Lemma last_def_Some insts v d :
  last_def insts v = Some d ->
  (∃ inst, insts !! d = Some inst ∧ def_of inst = Some v)
  ∧ ∀ k inst, insts !! k = Some inst -> def_of inst = Some v -> (k <= d)%nat.
Proof.
  intros [Hin Hmax]%last_positions. split.
  - apply elem_of_positions in Hin as (k & inst & Hk & Hd%bool_decide_eq_true & ->).
    exists inst. split; [done|]. by apply def_of_spec.
  - intros k inst Hk Hd. apply Hmax, elem_of_positions. exists k, inst.
    split_and!; [done| |done]. apply bool_decide_eq_true. by apply def_of_spec.
Qed.

Lemma last_def_None insts v :
  last_def insts v = None ↔ ∀ inst, inst ∈ insts -> def_of inst ≠ Some v.
Proof.
  unfold last_def. rewrite last_None. split.
  - intros E inst [k Hk]%list_elem_of_lookup Hd%def_of_spec.
    assert (k ∈ positions (defines v) 0 insts) as H.
    { apply elem_of_positions. exists k, inst. split_and!; [done| |done].
      by apply bool_decide_eq_true. }
    rewrite E in H. set_solver.
  - intros H. destruct (positions (defines v) 0 insts) as [|n l] eqn:E; [done|].
    assert (n ∈ positions (defines v) 0 insts) as Hn by (rewrite E; by left).
    apply elem_of_positions in Hn as (k & inst & Hk & Hd%bool_decide_eq_true & _).
    destruct (H inst); [by eapply list_elem_of_lookup_2|by apply def_of_spec].
Qed.

(** ** Intervals *)

Lemma elem_of_max_element l n : n ∈ l -> (n <= max_element l)%nat.
Proof.
  induction l as [|x l IH]; [set_solver|].
  change (max_element (x :: l)) with (Nat.max x (max_element l)).
  intros [->|Hn]%elem_of_cons; [lia|]. specialize (IH Hn). lia.
Qed.

Lemma max_element_in l : l ≠ [] -> max_element l ∈ l.
Proof.
  induction l as [|x l IH]; [done|]. intros _.
  change (max_element (x :: l)) with (Nat.max x (max_element l)).
  destruct l as [|y l].
  - rewrite Nat.max_0_r. by left.
  - destruct (Nat.max_spec x (max_element (y :: l))) as [[_ ->]|[_ ->]];
      [right; by apply IH|left].
Qed.

(** The interval of a register, from the positions of its occurrences. *)
Definition interval_for (insts : list Instruction) (v : Z) (d : nat) : LiveInterval :=
  mkInterval v d
    (match use_positions insts v with [] => d | ps => max_element ps end).

Lemma interval_of_tables insts v d :
  interval_of (computeUseDef insts) v d = interval_for insts v d.
Proof.
  unfold interval_of, interval_for. destruct (computeUseDef_tables insts v) as [_ ->].
  by destruct (use_positions insts v).
Qed.

Section intervals.
Context (iterate : gmap Z nat → list (Z * nat)).
Context (iterate_all : ∀ m, iterate m ≡ₚ map_to_list m).
Context (insts : list Instruction).

Abbreviation intervals := (computeLiveIntervals iterate insts).

Lemma elem_of_intervals iv :
  iv ∈ intervals ↔ ∃ v d, last_def insts v = Some d ∧ iv = interval_for insts v d.
Proof.
  unfold computeLiveIntervals. rewrite merge_sort_Permutation, list_elem_of_fmap.
  setoid_rewrite iterate_all. split.
  - intros ([v d] & -> & Hin%elem_of_map_to_list). exists v, d.
    destruct (computeUseDef_tables insts v) as [E _]. rewrite E in Hin.
    by rewrite interval_of_tables.
  - intros (v & d & Hd & ->). exists (v, d).
    destruct (computeUseDef_tables insts v) as [E _]. rewrite elem_of_map_to_list, E.
    by rewrite interval_of_tables.
Qed.

#[local] Instance by_start_total : Total by_start.
Proof. intros a b. unfold by_start. lia. Qed.
#[local] Instance by_start_trans : Transitive by_start.
Proof. intros a b c. unfold by_start. lia. Qed.

Lemma intervals_sorted : StronglySorted by_start intervals.
Proof. apply StronglySorted_merge_sort; apply _. Qed.

Lemma intervals_vregs_NoDup : NoDup (map virtualRegister intervals).
Proof.
  unfold computeLiveIntervals.
  eapply (NoDup_Permutation_proper _).
  { apply (fmap_Permutation virtualRegister). etrans; [apply merge_sort_Permutation|].
    apply fmap_Permutation, iterate_all. }
  rewrite <- list_fmap_compose.
  erewrite list_fmap_ext; [apply NoDup_fst_map_to_list|].
  by intros _ [v d] _.
Qed.

(** Two intervals that start at the same place are the same. *)
Lemma intervals_start_inj a b :
  a ∈ intervals -> b ∈ intervals -> start a = start b -> a = b.
Proof.
  intros (v & d & Hv & ->)%elem_of_intervals (w & e & Hw & ->)%elem_of_intervals E.
  cbn in E. subst e.
  apply last_def_Some in Hv as [(i & Hi & Hdi) _].
  apply last_def_Some in Hw as [(j & Hj & Hdj) _]. congruence.
Qed.
End intervals.

(** ** Properties *)

Lemma intervals_canonical iterate1 iterate2 insts l :
  (∀ m, iterate1 m ≡ₚ map_to_list m) -> (∀ m, iterate2 m ≡ₚ map_to_list m) ->
  l ≡ₚ map (λ '(v, d), interval_of (computeUseDef insts) v d)
         (iterate1 (defSites (computeUseDef insts))) ->
  StronglySorted by_start l ->
  l = computeLiveIntervals iterate2 insts.
Proof.
  intros H1 H2 Hl Hs.
  assert (l ≡ₚ computeLiveIntervals iterate2 insts) as Hp.
  { rewrite Hl. unfold computeLiveIntervals. rewrite merge_sort_Permutation.
    apply fmap_Permutation. by rewrite H1, H2. }
  eapply StronglySorted_unique_strong; [|exact Hs|by apply intervals_sorted|exact Hp].
  intros a b Ha Hb Hab Hba. rewrite Hp in Ha.
  eapply intervals_start_inj; [exact H2|done..|]. unfold by_start in *. lia.
Qed.

Lemma intervals_order iterate1 iterate2 insts :
  (∀ m, iterate1 m ≡ₚ map_to_list m) -> (∀ m, iterate2 m ≡ₚ map_to_list m) ->
  computeLiveIntervals iterate1 insts = computeLiveIntervals iterate2 insts.
Proof.
  intros H1 H2. apply (intervals_canonical iterate1 iterate2); [done|done| |].
  - unfold computeLiveIntervals. apply merge_sort_Permutation.
  - by apply intervals_sorted.
Qed.

(** C21: the intervals do not depend on the order the hash table of definitions
    is walked in, nor on how [std::sort] orders equal elements: any sorted
    arrangement of the intervals of any enumeration is the one computed. *)
Theorem live_intervals_canonical iterate1 iterate2 insts l :
  (∀ m, iterate1 m ≡ₚ map_to_list m) -> (∀ m, iterate2 m ≡ₚ map_to_list m) ->
  l ≡ₚ map (λ '(v, d), interval_of (computeUseDef insts) v d)
         (iterate1 (defSites (computeUseDef insts))) ->
  StronglySorted by_start l ->
  l = computeLiveIntervals iterate2 insts.
Proof. apply intervals_canonical. Qed.

(** C11: a virtual register gets an interval if and only if some instruction
    defines it, and one only; it starts at the last definition, ends at a use
    or at its start, and no use lies after its end. *)
Theorem live_intervals_spec iterate insts :
  (∀ m, iterate m ≡ₚ map_to_list m) ->
  StronglySorted by_start (computeLiveIntervals iterate insts)
  ∧ NoDup (map virtualRegister (computeLiveIntervals iterate insts))
  ∧ (∀ v, (∃ inst, inst ∈ insts ∧ def_of inst = Some v)
          ↔ ∃ iv, iv ∈ computeLiveIntervals iterate insts ∧ virtualRegister iv = v)
  ∧ ∀ iv, iv ∈ computeLiveIntervals iterate insts ->
      (∃ inst, insts !! start iv = Some inst ∧ def_of inst = Some (virtualRegister iv))
      ∧ (∀ k inst, insts !! k = Some inst -> def_of inst = Some (virtualRegister iv) ->
           (k <= start iv)%nat)
      ∧ (∀ k inst, insts !! k = Some inst -> uses (virtualRegister iv) inst = true ->
           (k <= end_ iv)%nat)
      ∧ (end_ iv = start iv
         ∨ ∃ inst, insts !! end_ iv = Some inst ∧ uses (virtualRegister iv) inst = true).
Proof.
  intros Hit. split_and!.
  - by apply intervals_sorted.
  - by apply intervals_vregs_NoDup.
  - intros v. split.
    + intros (inst & Hin & Hd). destruct (last_def insts v) as [d|] eqn:E.
      * exists (interval_for insts v d). split; [|done].
        apply elem_of_intervals; eauto.
      * pose proof (proj1 (last_def_None _ _) E inst Hin). done.
    + intros (iv & Hiv & <-). apply elem_of_intervals in Hiv as (v & d & Hd & ->); [|done].
      apply last_def_Some in Hd as [(inst & Hi & Hd) _]. exists inst. split; [|done].
      by eapply list_elem_of_lookup_2.
  - intros iv Hiv. apply elem_of_intervals in Hiv as (v & d & Hd & ->); [|done].
    apply last_def_Some in Hd as [Hdef Hmax]. split_and!; [done|done| |].
    + intros k inst Hk Hu. cbn [end_ interval_for virtualRegister] in *.
      assert (k ∈ use_positions insts v) as Hin.
      { apply elem_of_positions. by exists k, inst. }
      destruct (use_positions insts v) eqn:E; [set_solver|]. by apply elem_of_max_element.
    + cbn [end_ start interval_for virtualRegister].
      destruct (use_positions insts v) as [|n l] eqn:E; [by left|right].
      assert (max_element (n :: l) ∈ use_positions insts v) as Hin
        by (rewrite E; by apply max_element_in).
      apply elem_of_positions in Hin as (k & inst & Hk & Hu & Hm). rewrite Hm. eauto.
Qed.

(** ** Witnesses *)

(** [ldr v0, [x0, #80]; mov v1, #1; add v2, v0, v1; str v2, [x0, #80]]. *)
Definition sample_code : list Instruction :=
  [ mkInstruction (MemoryInst LDR Size_X (VirtualRegister 0) (Reg X0) 80);
    mkInstruction (TwoOperandInst MOV Size_X (VirtualRegister 1) (Immediate 1));
    mkInstruction (ThreeOperandInst ADD Size_X (VirtualRegister 2) (VirtualRegister 0)
                     (VirtualRegister 1));
    mkInstruction (MemoryInst STR Size_X (VirtualRegister 2) (Reg X0) 80) ].

Lemma live_intervals_canonical_witness :
  [mkInterval 0 0 2; mkInterval 1 1 2; mkInterval 2 2 3]
  = computeLiveIntervals map_to_list sample_code.
Proof.
  apply (live_intervals_canonical map_to_list map_to_list); [done|done| |].
  - apply (bool_decide_unpack _). vm_compute. exact I.
  - repeat constructor.
Defined.

Lemma live_intervals_spec_witness :
  (∃ inst, sample_code !! 2%nat = Some inst ∧ def_of inst = Some 2)
  ∧ ∃ inst, sample_code !! 3%nat = Some inst ∧ uses 2 inst = true.
Proof.
  destruct (live_intervals_spec map_to_list sample_code) as (_ & _ & _ & H); [done|].
  destruct (H (mkInterval 2 2 3)) as (Hd & _ & _ & [[=]|Hu]).
  - apply (bool_decide_unpack _). vm_compute. exact I.
  - by split.
Defined.
