(* ===== verification/AllocatorCorrect.v ===== *)
(** * Correctness of the linear scan

    The scan keeps apart the registers of intervals that overlap, takes them
    from X1 to X28, succeeds if and only if no more than 28 intervals are live
    at once, and rewrites every operand of the code. *)
From S2P Require Import Prelude Error Arm64 Encoder EncoderCorrect Liveness LivenessCorrect.
From S2P Require Import RegisterAllocator.
Import arm64 Liveness Allocator.

(** ** Finding a register *)

Lemma is_free_spec active r :
  is_free active r = true ↔ r ∉ map physicalReg active.
Proof.
  unfold is_free. rewrite forallb_forall, list_elem_of_fmap. split.
  - intros H (a & -> & Ha). specialize (H a). rewrite list_elem_of_In in Ha.
    apply H in Ha. by rewrite bool_decide_true in Ha.
  - intros H a Ha%list_elem_of_In. apply negb_true_iff, bool_decide_false.
    intros <-. apply H. by exists a.
Qed.

Lemma next_register_Some active r :
  getNextAvailableRegister active = Some r ->
  r ∈ availableRegisters ∧ r ∉ map physicalReg active.
Proof.
  intros H. apply find_some in H as [Hin Hf]. split.
  - by apply list_elem_of_In.
  - by apply is_free_spec.
Qed.

Lemma available_NoDup : NoDup availableRegisters.
Proof. apply (bool_decide_unpack _). vm_compute. exact I. Qed.

(** With fewer than 28 active intervals a register is found. *)
Lemma next_register_None active :
  getNextAvailableRegister active = None -> (28 <= length active)%nat.
Proof.
  intros H. assert (availableRegisters ⊆ map physicalReg active) as Hs.
  { intros r Hr%list_elem_of_In.
    destruct (decide (r ∈ map physicalReg active)) as [|Hn]; [done|].
    apply is_free_spec in Hn. by rewrite (find_none _ _ H _ Hr) in Hn. }
  pose proof (submseteq_length _ _ (NoDup_submseteq _ _ available_NoDup Hs)) as Hl.
  by rewrite length_map in Hl.
Qed.

(** ** The scan *)

(** Intervals of [l] still live when one that starts at [p] begins. *)
Definition live_at (p : nat) (l : list LiveInterval) : list LiveInterval :=
  List.filter (λ a, (p <=? end_ a)%nat) l.

(** What the scan has established after the intervals [done], the last of which
    started at [p]. *)
Record scan_inv (done : list LiveInterval) (p : nat) (s : Allocator.t) : Prop := {
  sc_dom : ∀ v, is_Some (allocation s !! v) ↔ v ∈ map virtualRegister done;
  sc_phys : ∀ v r, allocation s !! v = Some r -> r ∈ availableRegisters;
  sc_active : ∀ q, (p <= q)%nat ->
                map interval (expireOldIntervals q (activeIntervals s)) = live_at q done;
  sc_reg : ∀ a, a ∈ activeIntervals s ->
             allocation s !! virtualRegister (interval a) = Some (physicalReg a);
  sc_NoDup : NoDup (map physicalReg (activeIntervals s));
  sc_apart : ∀ i j a b, done !! i = Some a -> done !! j = Some b -> (i < j)%nat ->
               (start b <= end_ a)%nat ->
               allocation s !! virtualRegister a ≠ allocation s !! virtualRegister b;
}.

Lemma expire_expire q p l :
  (p <= q)%nat -> expireOldIntervals q (expireOldIntervals p l) = expireOldIntervals q l.
Proof.
  intros Hpq. induction l as [|a l IH]; [done|].
  unfold expireOldIntervals in *. cbn [List.filter].
  destruct (Nat.ltb_spec (end_ (interval a)) p); cbn [negb List.filter].
  - rewrite (proj2 (Nat.ltb_lt _ _)) by lia. done.
  - by rewrite IH.
Qed.

Lemma expire_app q l k :
  expireOldIntervals q (l ++ k) = expireOldIntervals q l ++ expireOldIntervals q k.
Proof. apply List.filter_app. Qed.

Lemma elem_of_expire q l a :
  a ∈ expireOldIntervals q l ↔ a ∈ l ∧ (q <= end_ (interval a))%nat.
Proof.
  unfold expireOldIntervals. rewrite !list_elem_of_In, List.filter_In.
  rewrite negb_true_iff, Nat.ltb_ge. done.
Qed.

Lemma elem_of_live_at q l a : a ∈ live_at q l ↔ a ∈ l ∧ (q <= end_ a)%nat.
Proof.
  unfold live_at. rewrite !list_elem_of_In, List.filter_In, Nat.leb_le. done.
Qed.

Lemma live_at_snoc q l i :
  live_at q (l ++ [i]) = live_at q l ++ (if (q <=? end_ i)%nat then [i] else []).
Proof. unfold live_at. by rewrite List.filter_app. Qed.

Lemma NoDup_expire q l :
  NoDup (map physicalReg l) -> NoDup (map physicalReg (expireOldIntervals q l)).
Proof.
  intros Hnd. eapply sublist_NoDup; [exact Hnd|]. clear Hnd. unfold expireOldIntervals.
  induction l as [|a l IH]; cbn; [constructor|].
  destruct (negb _); cbn; by constructor.
Qed.

Lemma scan_inv_start : scan_inv [] 0 new.
Proof.
  split; cbn; try done; try (by intros; set_solver).
  - intros v. split; [|set_solver]. intros [x Hx]. by rewrite lookup_empty in Hx.
  - constructor.
Qed.

(** One iteration of the loop. *)
Lemma scan_inv_step done p s i r :
  scan_inv done p s -> (p <= start i)%nat -> virtualRegister i ∉ map virtualRegister done ->
  getNextAvailableRegister (expireOldIntervals (start i) (activeIntervals s)) = Some r ->
  scan_inv (done ++ [i]) (start i)
    (mkAllocator (<[virtualRegister i := r]> (allocation s))
       (expireOldIntervals (start i) (activeIntervals s) ++ [mkActive i r])).
Proof.
  intros Hi Hp Hv [Hav Hfree]%next_register_Some.
  assert (∀ a, a ∈ done -> virtualRegister a ≠ virtualRegister i) as Hne.
  { intros a Ha E. apply Hv. rewrite <- E. by apply (list_elem_of_fmap_2 virtualRegister). }
  set (act := expireOldIntervals (start i) (activeIntervals s)) in *.
  assert (∀ a, a ∈ act -> allocation s !! virtualRegister (interval a) = Some (physicalReg a)
                          ∧ virtualRegister (interval a) ≠ virtualRegister i) as Hact.
  { intros a [Ha _]%elem_of_expire. apply (sc_reg _ _ _ Hi) in Ha. split; [done|].
    intros E. apply Hv. rewrite <- E. apply (sc_dom _ _ _ Hi). by eexists. }
  split; cbn [allocation activeIntervals].
  - intros v. rewrite map_app, elem_of_app, <- (sc_dom _ _ _ Hi), lookup_insert_is_Some.
    cbn. rewrite list_elem_of_singleton. destruct (decide (virtualRegister i = v)); naive_solver.
  - intros v r' [[_ <-]|[_ Hl]]%lookup_insert_Some; [done|]. by eapply Hi.
  - intros q Hq. rewrite expire_app, map_app, live_at_snoc. unfold act.
    rewrite expire_expire, (sc_active _ _ _ Hi) by lia. f_equal.
    unfold expireOldIntervals. cbn [List.filter interval].
    rewrite Nat.ltb_antisym, negb_involutive. by destruct (q <=? end_ i)%nat.
  - intros a [Ha| ->%list_elem_of_singleton]%elem_of_app; cbn.
    + destruct (Hact a Ha) as [Hl Hn]. by rewrite lookup_insert_ne.
    + apply lookup_insert_eq.
  - rewrite map_app. apply NoDup_app. split_and!; [by apply NoDup_expire, Hi| |].
    + intros x Hx ->%list_elem_of_singleton. done.
    + apply NoDup_singleton.
  - intros k j a b Ha Hb Hkj Hend.
    apply lookup_app_Some in Hb as [Hb|[Hj Hb]].
    + rewrite lookup_app_l in Ha by (apply lookup_lt_Some in Hb; lia).
      rewrite !lookup_insert_ne by (apply not_eq_sym, Hne; by eapply list_elem_of_lookup_2).
      by eapply Hi.
    + apply list_lookup_singleton_Some in Hb as [Hj0 ->].
      rewrite lookup_app_l in Ha by lia.
      assert (a ∈ done) as Had by (by eapply list_elem_of_lookup_2).
      rewrite lookup_insert_eq, lookup_insert_ne by (by apply not_eq_sym, Hne).
      assert (a ∈ live_at (start b) done) as Hla by (by apply elem_of_live_at).
      rewrite <- (sc_active _ _ _ Hi) in Hla by lia.
      apply list_elem_of_fmap in Hla as (x & -> & Hx).
      destruct (Hact x Hx) as [-> _]. intros [= E]. apply Hfree. rewrite <- E.
      by apply (list_elem_of_fmap_2 physicalReg).
Qed.

(** Never more than 28 intervals live at once, along the scan. *)
Fixpoint pressure_fits (done ivs : list LiveInterval) : bool :=
  match ivs with
  | [] => true
  | i :: rest => (length (live_at (start i) done) <? 28)%nat && pressure_fits (done ++ [i]) rest
  end.

Lemma next_register_pressure done p s q :
  scan_inv done p s -> (p <= q)%nat ->
  match getNextAvailableRegister (expireOldIntervals q (activeIntervals s)) with
  | Some _ => (length (live_at q done) < 28)%nat
  | None => (28 <= length (live_at q done))%nat
  end.
Proof.
  intros Hi Hq. set (act := expireOldIntervals q (activeIntervals s)).
  assert (length (live_at q done) = length act) as ->.
  { rewrite <- (sc_active _ _ _ Hi) by done. by rewrite length_map. }
  destruct (getNextAvailableRegister act) as [r|] eqn:Hn; [|by apply next_register_None].
  apply next_register_Some in Hn as [Hav Hf].
  assert (NoDup (r :: map physicalReg act)) as Hnd.
  { constructor; [done|]. by apply NoDup_expire, Hi. }
  assert (r :: map physicalReg act ⊆ availableRegisters) as Hs.
  { intros x [->|(a & -> & [Ha _]%elem_of_expire)%list_elem_of_fmap]%elem_of_cons; [done|].
    eapply (sc_phys _ _ _ Hi), (sc_reg _ _ _ Hi), Ha. }
  pose proof (submseteq_length _ _ (NoDup_submseteq _ _ Hnd Hs)) as Hl.
  cbn in Hl. rewrite length_map in Hl. lia.
Qed.

Lemma scan_run ivs : ∀ done p s,
  scan_inv done p s -> StronglySorted by_start ivs -> Forall (λ i, p <= start i)%nat ivs ->
  NoDup (map virtualRegister (done ++ ivs)) ->
  ∃ s', scan ivs s = (Ok (pressure_fits done ivs), s')
        ∧ (pressure_fits done ivs = true -> ∃ p', scan_inv (done ++ ivs) p' s').
Proof.
  induction ivs as [|i ivs IH]; intros done p s Hi Hs Hp Hnd.
  { exists s. split; [done|]. intros _. exists p. by rewrite app_nil_r. }
  apply Forall_cons in Hp as [Hpi Hp]. apply StronglySorted_inv in Hs as [Hs Hsi].
  cbn [scan pressure_fits]. rewrite run_bind. unfold modify at 1. rewrite run_bind.
  unfold get at 1. cbn [activeIntervals allocation].
  pose proof (next_register_pressure _ _ _ (start i) Hi Hpi) as Hpr.
  destruct (getNextAvailableRegister _) as [r|] eqn:Hr.
  - rewrite (proj2 (Nat.ltb_lt _ _)) by done. cbn [andb]. rewrite run_bind.
    unfold modify at 1. cbn [activeIntervals allocation].
    assert (virtualRegister i ∉ map virtualRegister done) as Hv.
    { rewrite map_app, NoDup_app in Hnd. intros Hin. destruct Hnd as (_ & Hnd & _).
      apply (Hnd _ Hin). left. }
    pose proof (scan_inv_step _ _ _ _ _ Hi Hpi Hv Hr) as Hi'.
    destruct (IH _ _ _ Hi' Hs) as (s' & Hrun & Hinv).
    + exact Hsi.
    + by rewrite <- app_assoc.
    + exists s'. split; [exact Hrun|]. intros H. destruct (Hinv H) as [p' H'].
      exists p'. by rewrite <- app_assoc in H'.
  - rewrite (proj2 (Nat.ltb_ge _ _)) by done. eexists. split; [reflexivity|done].
Qed.

Lemma is_sorted_StronglySorted ivs : StronglySorted by_start ivs -> is_sorted ivs = true.
Proof.
  induction 1 as [|a l Hs IH Ha]; [done|]. destruct l as [|b l]; [done|].
  cbn [is_sorted]. apply andb_true_iff. split; [|done].
  apply Forall_cons in Ha as [Ha _]. by apply Nat.leb_le.
Qed.

(** ** Rewriting the code *)

Lemma replaceOperand_physical alloc o o' :
  replaceOperandRegister alloc o = Ok o' -> is_virtual o' = false.
Proof.
  destruct o; cbn; [by intros [= <-]| |by intros [= <-]].
  intros (r & _ & [= <-])%bind_Ok. done.
Qed.

Ltac replaced :=
  repeat match goal with
    | H : _ ≫= _ = Ok _ |- _ =>
        let x := fresh "o" in
        apply bind_Ok in H as (x & ?Hx%replaceOperand_physical & H)
    end.

Lemma replace_physical alloc i i' :
  replaceVirtualRegisters alloc i = Ok i' -> existsb is_virtual (operands i') = false.
Proof.
  unfold replaceVirtualRegisters. destruct i as [[]]; cbn [kind]; intros H; replaced;
    injection H as <-; cbn;
    repeat match goal with Hx : is_virtual _ = false |- _ => rewrite Hx; clear Hx end; done.
Qed.

(** The code with every virtual register replaced by its allocation. *)
Definition rename_operand (alloc : gmap Z Register) (o : Operand) : Operand :=
  match o with VirtualRegister v => Reg (default X0 (alloc !! v)) | _ => o end.

Definition rename (alloc : gmap Z Register) (i : Instruction) : Instruction :=
  let f := rename_operand alloc in
  mkInstruction
    (match kind i with
     | ThreeOperandInst op size d s1 s2 => ThreeOperandInst op size (f d) (f s1) (f s2)
     | TwoOperandInst op size d s => TwoOperandInst op size (f d) (f s)
     | MemoryInst op size r b offset => MemoryInst op size (f r) (f b) offset
     | MoveWideInst op size d imm16 shift => MoveWideInst op size (f d) imm16 shift
     | BranchInst op target => BranchInst op target
     | ConditionalInst op size d c => ConditionalInst op size (f d) c
     | ConditionalSelectInst op size d s1 s2 c =>
         ConditionalSelectInst op size (f d) (f s1) (f s2) c
     end).

Definition allocated (alloc : gmap Z Register) (o : Operand) : Prop :=
  ∀ v, o = VirtualRegister v -> is_Some (alloc !! v).

#[global] Instance allocated_dec alloc o : Decision (allocated alloc o).
Proof.
  destruct o as [r|v|x]; [left; by intros ?| |left; by intros ?].
  destruct (alloc !! v) as [r|] eqn:E; [left|right].
  - intros ? [= <-]. eauto.
  - intros H. destruct (H v eq_refl) as [? H']. congruence.
Defined.

Lemma replaceOperand_spec alloc o :
  if decide (allocated alloc o) then replaceOperandRegister alloc o = Ok (rename_operand alloc o)
  else ∃ msg, replaceOperandRegister alloc o = Err (LoweringError msg).
Proof.
  destruct (decide (allocated alloc o)) as [Ha|Ha]; destruct o as [r|v|x]; cbn; try done;
    unfold getPhysicalRegisterOrThrow, getPhysicalRegister.
  - destruct (Ha v eq_refl) as [r Hr]. by rewrite Hr.
  - destruct Ha. by intros ?.
  - destruct (alloc !! v) as [r|] eqn:E; [|by eexists].
    destruct Ha. intros ? [= <-]. eauto.
  - destruct Ha. by intros ?.
Qed.

Lemma replace_spec alloc i :
  (Forall (allocated alloc) (operands i) ->
   replaceVirtualRegisters alloc i = Ok (rename alloc i))
  ∧ (¬ Forall (allocated alloc) (operands i) ->
     ∃ msg, replaceVirtualRegisters alloc i = Err (LoweringError msg)).
Proof.
  unfold replaceVirtualRegisters, operands, rename. split.
  - destruct i as [[]]; cbn [kind]; rewrite ?Forall_cons; intros H; destruct_and?;
      repeat match goal with
        | H : allocated alloc ?o |- _ =>
            let E := fresh in
            pose proof (replaceOperand_spec alloc o) as E;
            rewrite decide_True in E by done; rewrite E; clear H E
        end; done.
  - destruct i as [[]]; cbn [kind]; rewrite ?Forall_cons; intros H;
      repeat match goal with
        | |- context [replaceOperandRegister alloc ?o] =>
            let E := fresh in
            pose proof (replaceOperand_spec alloc o) as E;
            destruct (decide (allocated alloc o));
            [rewrite E; cbn [mbind result_bind]; clear E
            |destruct E as [? ->]; cbn [mbind result_bind]; by eexists]
        end; destruct H; auto.
Qed.

Lemma replace_all alloc insts :
  (Forall (λ i, Forall (allocated alloc) (operands i)) insts ->
   mapM_result (replaceVirtualRegisters alloc) insts = Ok (map (rename alloc) insts))
  ∧ (¬ Forall (λ i, Forall (allocated alloc) (operands i)) insts ->
     ∃ msg, mapM_result (replaceVirtualRegisters alloc) insts = Err (LoweringError msg)).
Proof.
  split.
  - induction 1 as [|i l Hi _ IH]; [done|]. cbn.
    by rewrite (proj1 (replace_spec alloc i) Hi), IH.
  - induction insts as [|i l IH]; intros H; [by destruct H|]. cbn.
    destruct (decide (Forall (allocated alloc) (operands i))) as [Hi|Hi].
    + rewrite (proj1 (replace_spec alloc i) Hi). cbn.
      destruct IH as [msg ->]; [|by eexists]. intros Hl. apply H. by constructor.
    + destruct (proj2 (replace_spec alloc i) Hi) as [msg ->]. by eexists.
Qed.

(** ** The allocation of a block *)

Section allocate.
Context (iterate : gmap Z nat → list (Z * nat)).
Context (iterate_all : ∀ m, iterate m ≡ₚ map_to_list m).

(** Every virtual register of the code has a definition. *)
Definition all_defined (insts : list Instruction) : Prop :=
  ∀ i v, i ∈ insts -> VirtualRegister v ∈ operands i ->
  ∃ j, j ∈ insts ∧ def_of j = Some v.

Lemma scan_intervals insts :
  let ivs := computeLiveIntervals iterate insts in
  ∃ s', scan ivs new = (Ok (pressure_fits [] ivs), s')
    ∧ (pressure_fits [] ivs = true -> ∃ p, scan_inv ivs p s').
Proof.
  intros ivs. apply (scan_run ivs [] 0 new).
  - apply scan_inv_start.
  - by apply intervals_sorted.
  - apply Forall_forall. intros. lia.
  - by apply intervals_vregs_NoDup.
Qed.

Lemma allocate_run insts s :
  let ivs := computeLiveIntervals iterate insts in
  ∃ s1, (pressure_fits [] ivs = true -> ∃ p, scan_inv ivs p s1)
    ∧ fst (allocateRegisters insts ivs s)
      = if pressure_fits [] ivs then
          insts' ← mapM_result (replaceVirtualRegisters (allocation s1)) insts;
          Ok (true, insts')
        else Ok (false, insts).
Proof.
  intros ivs. destruct (scan_intervals insts) as (s1 & Hrun & Hinv). fold ivs in Hrun, Hinv.
  exists s1. split; [done|]. unfold allocateRegisters.
  rewrite run_bind. unfold modify at 1.
  rewrite is_sorted_StronglySorted by (by apply intervals_sorted).
  cbn [negb]. rewrite run_bind. fold ivs. rewrite Hrun.
  destruct (pressure_fits [] ivs); [|done].
  rewrite run_bind. unfold get. rewrite run_bind. unfold lift.
  by destruct (mapM_result _ insts).
Qed.
End allocate.

(** ** Properties *)

Lemma inv_allocated iterate insts p s :
  (∀ m, iterate m ≡ₚ map_to_list m) ->
  scan_inv (computeLiveIntervals iterate insts) p s -> all_defined insts ->
  Forall (λ i, Forall (allocated (allocation s)) (operands i)) insts.
Proof.
  intros Hit Hi Hd. apply Forall_forall. intros i Hin. apply Forall_forall.
  intros o Ho v ->. apply (sc_dom _ _ _ Hi).
  destruct (Hd i v Hin Ho) as (j & Hj & Hdef).
  destruct (last_def insts v) as [d|] eqn:E.
  - apply (list_elem_of_fmap_2' virtualRegister _ (interval_for insts v d)); [|done].
    apply elem_of_intervals; eauto.
  - by destruct (proj1 (last_def_None _ _) E j Hj).
Qed.

(** What an allocation that finds registers returns. *)
Lemma allocation_found iterate insts s :
  (∀ m, iterate m ≡ₚ map_to_list m) -> all_defined insts ->
  let ivs := computeLiveIntervals iterate insts in
  pressure_fits [] ivs = true ->
  ∃ alloc,
    fst (allocateRegisters insts ivs s) = Ok (true, map (rename alloc) insts)
    ∧ (∀ v r, alloc !! v = Some r -> r ∈ availableRegisters)
    ∧ Forall (λ i, existsb is_virtual (operands i) = false) (map (rename alloc) insts)
    ∧ (∀ a, a ∈ ivs -> is_Some (alloc !! virtualRegister a))
    ∧ ∀ a b, a ∈ ivs -> b ∈ ivs -> a ≠ b -> overlaps a b = true ->
        ∃ ra rb, alloc !! virtualRegister a = Some ra
                 ∧ alloc !! virtualRegister b = Some rb ∧ ra ≠ rb.
Proof.
  intros Hit Hd ivs Hp. destruct (allocate_run iterate Hit insts s) as (s1 & Hinv & Hrun).
  fold ivs in Hinv, Hrun. rewrite Hp in Hinv, Hrun.
  destruct (Hinv eq_refl) as [p Hi]. exists (allocation s1).
  pose proof (inv_allocated iterate insts p s1 Hit Hi Hd) as Hall.
  pose proof (proj1 (replace_all (allocation s1) insts) Hall) as Hrep.
  assert (∀ x, x ∈ ivs -> ∃ r, allocation s1 !! virtualRegister x = Some r) as Hdom.
  { intros x Hx. apply (sc_dom _ _ _ Hi). by apply (list_elem_of_fmap_2 virtualRegister). }
  split_and!; [by rewrite Hrun, Hrep|apply Hi| |exact Hdom|].
  - apply Forall_forall. intros i' (i & -> & Hin)%list_elem_of_fmap.
    rewrite Forall_forall in Hall.
    pose proof (proj1 (replace_spec (allocation s1) i) (Hall i Hin)) as Hr.
    by eapply replace_physical.
  - intros a b Ha Hb Hab Hov.
    destruct (Hdom a Ha) as [ra Hra]. destruct (Hdom b Hb) as [rb Hrb].
    exists ra, rb. split_and!; [done|done|]. intros ->.
    apply list_elem_of_lookup in Ha as [i Hi']. apply list_elem_of_lookup in Hb as [j Hj].
    unfold overlaps in Hov. apply negb_true_iff, orb_false_iff in Hov as [H1 H2].
    apply Nat.ltb_ge in H1, H2.
    destruct (lt_eq_lt_dec i j) as [[Hij| ->]|Hij]; [|congruence|].
    + by destruct (sc_apart _ _ _ Hi i j a b Hi' Hj Hij H1); rewrite Hra, Hrb.
    + by destruct (sc_apart _ _ _ Hi j i b a Hj Hi' Hij H2); rewrite Hra, Hrb.
Qed.

(** C9: register allocation of code whose virtual registers are all defined
    throws nothing.  If at no interval's start 28 earlier intervals are still
    live, it returns true and the code under a renaming to X1..X28 that keeps
    overlapping intervals apart and leaves no virtual register; otherwise it
    returns false and the code unchanged. *)
Theorem allocation_correct iterate insts s :
  (∀ m, iterate m ≡ₚ map_to_list m) -> all_defined insts ->
  let ivs := computeLiveIntervals iterate insts in
  if pressure_fits [] ivs then
    ∃ alloc,
      fst (allocateRegisters insts ivs s) = Ok (true, map (rename alloc) insts)
      ∧ (∀ v r, alloc !! v = Some r -> r ∈ availableRegisters)
      ∧ Forall (λ i, existsb is_virtual (operands i) = false) (map (rename alloc) insts)
      ∧ ∀ a b, a ∈ ivs -> b ∈ ivs -> a ≠ b -> overlaps a b = true ->
          ∃ ra rb, alloc !! virtualRegister a = Some ra
                   ∧ alloc !! virtualRegister b = Some rb ∧ ra ≠ rb
  else fst (allocateRegisters insts ivs s) = Ok (false, insts).
Proof.
  intros Hit Hd ivs. destruct (pressure_fits [] ivs) eqn:Hp.
  - destruct (allocation_found iterate insts s Hit Hd Hp) as (alloc & ? & ? & ? & _ & ?).
    by exists alloc.
  - destruct (allocate_run iterate Hit insts s) as (s1 & _ & Hrun).
    fold ivs in Hrun. by rewrite Hp in Hrun.
Qed.

(** C22: code that mentions a virtual register no instruction defines makes the
    allocator throw [LoweringError], when the scan finds registers for the
    others. *)
Theorem allocation_undefined_register iterate insts s :
  (∀ m, iterate m ≡ₚ map_to_list m) ->
  pressure_fits [] (computeLiveIntervals iterate insts) = true -> ¬ all_defined insts ->
  ∃ msg, fst (allocateRegisters insts (computeLiveIntervals iterate insts) s)
         = Err (LoweringError msg).
Proof.
  intros Hit Hp Hd. destruct (allocate_run iterate Hit insts s) as (s1 & Hinv & Hrun).
  rewrite Hp in Hinv, Hrun. destruct (Hinv eq_refl) as [p Hi].
  destruct (proj2 (replace_all (allocation s1) insts)) as [msg Hm].
  - intros Hall. apply Hd. intros i v Hin Ho.
    rewrite Forall_forall in Hall. specialize (Hall i Hin). rewrite Forall_forall in Hall.
    pose proof (Hall _ Ho v eq_refl) as Hv. apply (sc_dom _ _ _ Hi) in Hv.
    apply list_elem_of_fmap in Hv as (iv & -> & Hiv).
    apply elem_of_intervals in Hiv as (w & d & Hw & ->); [|done].
    apply last_def_Some in Hw as [(j & Hj & Hdj) _]. exists j.
    split; [by eapply list_elem_of_lookup_2|done].
  - exists msg. by rewrite Hrun, Hm.
Qed.

(** ** Witnesses *)

Lemma sample_code_defined : all_defined sample_code.
Proof.
  intros i v Hi Hv.
  assert (v = 0 ∨ v = 1 ∨ v = 2) as [-> | [-> | ->]].
  { repeat (apply elem_of_cons in Hi as [->|Hi]); [..|by apply not_elem_of_nil in Hi];
      cbn in Hv; rewrite ?elem_of_cons, elem_of_nil in Hv; naive_solver. }
  - eexists. split; [left|reflexivity].
  - eexists. split; [right; left|reflexivity].
  - eexists. split; [right; right; left|reflexivity].
Qed.

Lemma allocation_correct_witness :
  fst (allocateRegisters sample_code (computeLiveIntervals map_to_list sample_code) new)
  = Ok (true,
      [ mkInstruction (MemoryInst LDR Size_X (Reg X1) (Reg X0) 80);
        mkInstruction (TwoOperandInst MOV Size_X (Reg X2) (Immediate 1));
        mkInstruction (ThreeOperandInst ADD Size_X (Reg X3) (Reg X1) (Reg X2));
        mkInstruction (MemoryInst STR Size_X (Reg X3) (Reg X0) 80) ])
  ∧ ∃ alloc, Forall (λ i, existsb is_virtual (operands i) = false)
               (map (rename alloc) sample_code).
Proof.
  split; [vm_compute; reflexivity|].
  pose proof (allocation_correct map_to_list sample_code new) as H.
  assert (pressure_fits [] (computeLiveIntervals map_to_list sample_code) = true) as Hp
    by (vm_compute; reflexivity).
  cbv zeta in H. rewrite Hp in H.
  destruct H as (alloc & _ & _ & Hv & _); [done|apply sample_code_defined|].
  exists alloc. exact Hv.
Defined.

(** [mov v1, v0], with [v0] never defined. *)
Lemma allocation_undefined_register_witness :
  let insts := [mkInstruction (TwoOperandInst MOV Size_X (VirtualRegister 1)
                                 (VirtualRegister 0))] in
  ∃ msg, fst (allocateRegisters insts (computeLiveIntervals map_to_list insts) new)
         = Err (LoweringError msg).
Proof.
  intros insts. apply allocation_undefined_register; [done|vm_compute; reflexivity|].
  intros H. destruct (H _ 0 (list_elem_of_here _ _)) as (j & Hj & Hd).
  - right. left.
  - apply list_elem_of_singleton in Hj as ->. discriminate Hd.
Defined.
