(* ===== verification/Renaming.v ===== *)
(** * Renaming the registers of code

    The instruction meant by an instruction whose virtual registers have been
    replaced, and its effect, when the values it reads are found under the new
    names: the part of the correctness of register allocation that is about
    one instruction. *)
From S2P Require Import Prelude Error Machine Arm64 Encoder A64 A64Semantics Arm64Meaning.
From S2P Require Import Liveness LivenessCorrect RegisterAllocator AllocatorCorrect.
Import machine arm64 Encoder.

(** ** Instructions of A64 *)

(** Registers read and written; [None] for the forms code of the selector does
    not have. *)
Definition reads_of (m : a64.instr) : list Z :=
  match m with
  | a64.AddSubImm _ _ _ _ _ rn _ => [rn]
  | a64.AddSubReg _ _ _ _ _ rm rn _ => [rm; rn]
  | a64.Logical _ _ _ _ rm rn _ => [rm; rn]
  | a64.MoveWide _ a64.MOVK _ _ rd => [rd]
  | a64.MoveWide _ _ _ _ _ => []
  | a64.SBFM _ _ _ rn _ | a64.UBFM _ _ _ rn _ => [rn]
  | a64.MADD _ ra rm rn _ => [ra; rm; rn]
  | a64.ShiftV _ _ rm rn _ => [rm; rn]
  | a64.CSEL _ _ rm rn _ | a64.CSINC _ _ rm rn _ => [rm; rn]
  | a64.LoadUnsigned _ _ rn _ | a64.LoadIndexed _ _ _ rn _ => [rn]
  | a64.StoreUnsigned _ _ rn rt | a64.StoreIndexed _ _ _ rn rt => [rn; rt]
  | a64.Branch _ | a64.BranchCond _ _ => []
  | a64.Ret rn => [rn]
  end.

Definition write_of (m : a64.instr) : option Z :=
  match m with
  | a64.AddSubImm _ _ _ _ _ _ rd | a64.AddSubReg _ _ _ _ _ _ _ rd
  | a64.Logical _ _ _ _ _ _ rd | a64.MoveWide _ _ _ _ rd
  | a64.SBFM _ _ _ _ rd | a64.UBFM _ _ _ _ rd | a64.MADD _ _ _ _ rd
  | a64.ShiftV _ _ _ _ rd | a64.CSEL _ _ _ _ rd | a64.CSINC _ _ _ _ rd
  | a64.LoadUnsigned _ _ _ rd | a64.LoadIndexed _ _ _ _ rd => Some rd
  | _ => None
  end.

(** Without write-back. *)
Definition plain (m : a64.instr) : bool :=
  match m with
  | a64.LoadIndexed _ mode _ _ _ | a64.StoreIndexed _ mode _ _ _ =>
      negb (a64sem.writes_back mode)
  | _ => true
  end.

Definition map_instr (f : Z → Z) (m : a64.instr) : a64.instr :=
  match m with
  | a64.AddSubImm sf sub fl sh imm rn rd => a64.AddSubImm sf sub fl sh imm (f rn) (f rd)
  | a64.AddSubReg sf sub fl sh imm rm rn rd =>
      a64.AddSubReg sf sub fl sh imm (f rm) (f rn) (f rd)
  | a64.Logical sf op sh imm rm rn rd => a64.Logical sf op sh imm (f rm) (f rn) (f rd)
  | a64.MoveWide sf op hw imm rd => a64.MoveWide sf op hw imm (f rd)
  | a64.SBFM sf r s rn rd => a64.SBFM sf r s (f rn) (f rd)
  | a64.UBFM sf r s rn rd => a64.UBFM sf r s (f rn) (f rd)
  | a64.MADD sf ra rm rn rd => a64.MADD sf (f ra) (f rm) (f rn) (f rd)
  | a64.ShiftV sf op rm rn rd => a64.ShiftV sf op (f rm) (f rn) (f rd)
  | a64.CSEL sf c rm rn rd => a64.CSEL sf c (f rm) (f rn) (f rd)
  | a64.CSINC sf c rm rn rd => a64.CSINC sf c (f rm) (f rn) (f rd)
  | a64.LoadUnsigned sz imm rn rt => a64.LoadUnsigned sz imm (f rn) (f rt)
  | a64.StoreUnsigned sz imm rn rt => a64.StoreUnsigned sz imm (f rn) (f rt)
  | a64.LoadIndexed sz mode imm rn rt => a64.LoadIndexed sz mode imm (f rn) (f rt)
  | a64.StoreIndexed sz mode imm rn rt => a64.StoreIndexed sz mode imm (f rn) (f rt)
  | a64.Branch imm => a64.Branch imm
  | a64.BranchCond c imm => a64.BranchCond c imm
  | a64.Ret rn => a64.Ret (f rn)
  end.

(** A renaming keeps the zero register apart. *)
Definition keeps_zero (f : Z → Z) : Prop := ∀ r, f r = 31 ↔ r = 31.

Lemma eqb_31 f r : keeps_zero f -> (f r =? 31) = (r =? 31).
Proof.
  intros Hf. destruct (Z.eqb_spec r 31) as [->|Hr].
  - apply Z.eqb_eq. by apply Hf.
  - apply Z.eqb_neq. intros H. apply Hr, Hf, H.
Qed.

(** An instruction's effect only depends on the registers it reads, and a
    renaming of registers renames the writes. *)
Lemma eval_map f m X X' fl H e :
  keeps_zero f -> plain m = true ->
  Forall (λ r, a64sem.xget X' (f r) = a64sem.xget X r) (reads_of m) ->
  a64sem.eval m (a64sem.mkState X fl H) = Some e ->
  a64sem.eval (map_instr f m) (a64sem.mkState X' fl H)
  = Some (a64sem.mkEffect ((λ w, (f w.1, w.2)) <$> a64sem.writes e) (a64sem.eflags e)
            (a64sem.emem e)).
Proof.
  intros Hf Hp Hr He.
  destruct m; try destruct op; try destruct mode; cbn in Hp, Hr, He; try done;
    cbn [map_instr a64sem.eval a64sem.xr a64sem.fl a64sem.hm];
    repeat (apply Forall_cons in Hr as [?E Hr]);
    rewrite ?(eqb_31 _ _ Hf);
    repeat match goal with E : a64sem.xget X' _ = _ |- _ => rewrite E; clear E end;
    repeat match type of He with (if ?c then _ else _) = _ => destruct c eqn:? end;
    simplify_eq/=; try done.
  all: rewrite andb_false_r, orb_false_r in *; by destruct (rn =? 31).
Qed.

Lemma eval_writes m s e :
  plain m = true -> a64sem.eval m s = Some e ->
  match write_of m with
  | Some r => ∃ x, a64sem.writes e = [(r, x)]
  | None => a64sem.writes e = []
  end.
Proof.
  intros Hp He. destruct m; try destruct mode; cbn in Hp, He; try done;
    repeat match type of He with (if ?c then _ else _) = _ => destruct c end;
    simplify_eq/=; eauto.
Qed.

(** ** Instruction objects *)

(** The machine's register for a register of the code before allocation. *)
Definition phys (alloc : gmap Z Register) (r : Z) : Z :=
  if r <? 32 then r else register_number (default arm64.X0 (alloc !! (r - 32))).

(** Operands as the selector makes them: X0, X30 or a virtual register. *)
Definition operand_form (o : Operand) : bool :=
  match o with
  | Reg r => bool_decide (r = X0) || bool_decide (r = X30)
  | VirtualRegister v => 0 <=? v
  | Immediate _ => true
  end.

Definition inst_form (i : Instruction) : bool :=
  forallb operand_form (operands i)
  && match kind i with
     | ThreeOperandInst CMP _ _ _ _ => false
     | MemoryInst op _ _ _ _ => bool_decide (op = LDR) || bool_decide (op = STR)
     | _ => true
     end.

Lemma num_rename alloc o :
  operand_form o = true -> num (rename_operand alloc o) = phys alloc (num o).
Proof.
  unfold phys. destruct o as [r|v|x]; cbn [operand_form rename_operand num].
  - intros [->%bool_decide_eq_true| ->%bool_decide_eq_true]%orb_true_iff; done.
  - intros Hv%Z.leb_le. rewrite (proj2 (Z.ltb_ge _ _)) by lia.
    by replace (32 + v - 32) with v by lia.
  - done.
Qed.

Ltac by_renaming alloc :=
  cbn [rename_operand intended_three intended_two fmap option_fmap option_map map_instr];
  rewrite <- ?(num_rename alloc) by done; try done.

(** The instruction meant after a renaming is the renamed instruction. *)
Lemma intended_rename alloc i :
  inst_form i = true ->
  intended (rename alloc i) = map_instr (phys alloc) <$> intended i.
Proof.
  unfold inst_form, operands. destruct i as [[]]; cbn [kind forallb]; intros [Ho _]%andb_true_iff;
    repeat match type of Ho with _ && _ = true =>
      let H := fresh "Ho" in apply andb_true_iff in Ho as [H Ho] end;
    unfold rename, intended; cbn [kind].
  - destruct opcode; try done; destruct src2; by_renaming alloc.
  - destruct opcode; try done; destruct src; by_renaming alloc.
  - unfold intended_memory. destruct opcode, (scaled size offset); by_renaming alloc.
  - destruct opcode; by_renaming alloc.
  - destruct opcode; by_renaming alloc.
  - destruct opcode; by_renaming alloc.
  - destruct opcode; by_renaming alloc.
Qed.

Lemma intended_plain i m : intended i = Some m -> plain m = true.
Proof.
  destruct i as [[]]; unfold intended, intended_three, intended_two, intended_memory;
    cbn [kind]; intros H.
  - destruct opcode, src2; by simplify_eq.
  - destruct opcode, src; by simplify_eq.
  - destruct opcode, (scaled size offset); by simplify_eq.
  - destruct opcode; by simplify_eq/=.
  - destruct opcode; by simplify_eq/=.
  - destruct opcode; by simplify_eq/=.
  - destruct opcode; by simplify_eq/=.
Qed.

(** The virtual registers an instruction reads: those the liveness analysis
    takes for its uses, and the destination of a MOVK, which keeps the other
    bits of the register. *)
Definition reads_set (i : Instruction) : gset Z :=
  match kind i with
  | MoveWideInst MOVK _ d _ _ => Liveness.insert_vreg d (Liveness.getUsedVirtualRegisters i)
  | _ => Liveness.getUsedVirtualRegisters i
  end.

Lemma reads_set_spec i v :
  v ∈ reads_set i -> uses v i = true ∨ def_of i = Some v.
Proof.
  unfold uses, reads_set. rewrite bool_decide_eq_true. destruct i as [[]]; cbn [kind]; auto.
  destruct opcode; auto. rewrite elem_of_insert_vreg. intros [->|?]; auto.
Qed.

Lemma uses_reads i v : uses v i = true -> v ∈ reads_set i.
Proof.
  unfold uses, reads_set. rewrite bool_decide_eq_true. destruct i as [[]]; cbn [kind]; auto.
  destruct opcode; auto. rewrite elem_of_insert_vreg. auto.
Qed.

(** A machine register code reads or writes directly. *)
Definition direct (r : Z) : Prop := r = 0 ∨ r = 30 ∨ r = 31.

Lemma num_form o :
  operand_form o = true -> direct (num o) ∨ ∃ v, o = VirtualRegister v ∧ num o = 32 + v ∧ 0 <= v.
Proof.
  unfold direct. destruct o as [r|v|x]; cbn.
  - intros [->%bool_decide_eq_true| ->%bool_decide_eq_true]%orb_true_iff; cbn; auto.
  - intros ?%Z.leb_le. eauto.
  - auto.
Qed.

(** [o] is the operand for a register in the lists above. *)
Definition among (P : Z → Prop) (r : Z) : Prop := direct r ∨ ∃ v, r = 32 + v ∧ 0 <= v ∧ P v.

Lemma among_operand P o :
  operand_form o = true -> (∀ v, o = VirtualRegister v -> P v) -> among P (num o).
Proof. intros [?|(v & -> & ? & ?)]%num_form HP; [by left|right; eauto]. Qed.

Ltac form_split :=
  unfold inst_form, operands in *;
  repeat match goal with
    | H : forallb _ _ = true |- _ => cbn [forallb kind] in H
    | H : _ && _ = true |- _ => apply andb_true_iff in H as [? ?]
    end.

Ltac listed := rewrite ?Forall_cons, ?Forall_nil; split_and?; try exact I.

Lemma three_reads op size d s1 s2 m :
  intended_three op size d s1 s2 = Some m ->
  Forall (λ r, r = num s1 ∨ r = num s2 ∨ r = 31) (reads_of m).
Proof.
  intros H. destruct op; try done; destruct s2; cbn in H; simplify_eq; cbn [reads_of];
    listed; auto.
Qed.

Lemma two_reads op size d s m :
  intended_two op size d s = Some m ->
  Forall (λ r, r = num s ∨ (op = CMP ∧ r = num d) ∨ r = 31) (reads_of m).
Proof.
  intros H. destruct op; try done; destruct s; cbn in H; simplify_eq; cbn [reads_of];
    listed; auto.
Qed.

Lemma memory_reads op size r b offset m :
  intended_memory op size r b offset = Some m ->
  Forall (λ x, x = num b ∨ (op = STR ∧ x = num r)) (reads_of m).
Proof.
  unfold intended_memory. intros H. destruct op; try done; destruct (scaled _ _);
    simplify_eq; cbn [reads_of]; listed; auto.
Qed.

Ltac used :=
  intros v ->; unfold reads_set; cbn -[Liveness.insert_vreg bool_decide];
  try case_bool_decide; rewrite ?elem_of_insert_vreg; first [done | solve [auto]].

Lemma intended_reads i m :
  inst_form i = true -> intended i = Some m -> Forall (among (λ v, v ∈ reads_set i)) (reads_of m).
Proof.
  intros Hf H. destruct i as [[]]; unfold intended in H; cbn [kind] in H; form_split.
  - eapply Forall_impl; [by eapply three_reads|].
    intros r [-> |[-> | ->]]; [apply among_operand; [done|used]..|left; unfold direct; auto].
  - eapply Forall_impl; [by eapply two_reads|].
    intros r [-> |[[-> ->]| ->]]; [apply among_operand; [done|used]..|left; unfold direct; auto].
  - eapply Forall_impl; [by eapply memory_reads|].
    intros x [-> |[-> ->]]; (apply among_operand; [done|used]).
  - destruct opcode; try done; simplify_eq; cbn [reads_of]; [by constructor|].
    listed. apply among_operand; [done|used].
  - destruct opcode; cbn in H; simplify_eq; cbn [reads_of]; by constructor.
  - destruct opcode; try done; simplify_eq; cbn [reads_of];
      listed; left; unfold direct; auto.
  - destruct opcode; try done; simplify_eq; cbn [reads_of];
      listed; (apply among_operand; [done|used]).
Qed.

(** The register written is the one the liveness analysis takes to be defined. *)
Definition write_def (i : Instruction) (w : option Z) : Prop :=
  match w with
  | Some r => (direct r ∧ def_of i = None) ∨ ∃ v, r = 32 + v ∧ 0 <= v ∧ def_of i = Some v
  | None => def_of i = None
  end.

Lemma write_def_operand i o :
  operand_form o = true -> def_of i = Liveness.getVirtualRegisterFromOperand o ->
  write_def i (Some (num o)).
Proof.
  intros Ho Hd. destruct (num_form o Ho) as [Hn|(v & -> & ? & ?)]; [|right; eauto].
  destruct o as [r|v|x]; [by left| |by left]. right. cbn in Ho. apply Z.leb_le in Ho. eauto.
Qed.

Lemma write_def_zero i : def_of i = None -> write_def i (Some 31).
Proof. intros. left. split; [unfold direct; auto|done]. Qed.

Lemma intended_write i m :
  inst_form i = true -> intended i = Some m -> (∀ rn, m ≠ a64.Ret rn) ->
  write_def i (write_of m).
Proof.
  intros Hf H Hret. apply andb_true_iff in Hf as [Hf Hc].
  destruct i as [[]]; unfold intended in H; cbn [kind] in H, Hc; form_split.
  - assert (write_of m = Some (num dest)) as ->; [|by apply write_def_operand].
    destruct opcode; try done; destruct src2; cbn in H; by simplify_eq.
  - destruct (decide (opcode = CMP)) as [->|Hop].
    + destruct src; cbn in H; simplify_eq; by apply write_def_zero.
    + assert (write_of m = Some (num dest)) as ->.
      { destruct opcode; try done; destruct src; cbn in H; simplify_eq; try done;
          by edestruct Hret. }
      apply write_def_operand; [done|]. by destruct opcode.
  - unfold intended_memory in H. destruct opcode; try done; destruct (scaled _ _);
      simplify_eq; cbn [write_of]; first [done | by apply write_def_operand].
  - destruct opcode; try done; simplify_eq; cbn [write_of]; by apply write_def_operand.
  - destruct opcode; cbn in H; simplify_eq; done.
  - destruct opcode; try done; simplify_eq; cbn [write_of]; by apply write_def_operand.
  - destruct opcode; try done; simplify_eq; cbn [write_of]; by apply write_def_operand.
Qed.

Lemma operand_read_or_defined i v :
  inst_form i = true -> VirtualRegister v ∈ operands i ->
  v ∈ reads_set i ∨ def_of i = Some v.
Proof.
  intros [_ Hf]%andb_true_iff Hv. unfold reads_set, operands in *.
  destruct i as [[]]; cbn [kind] in *; rewrite ?elem_of_cons, elem_of_nil in Hv;
    destruct_or?; try done; subst; unfold def_of; cbn -[Liveness.insert_vreg bool_decide];
    try by right.
  all: try (left; rewrite ?elem_of_insert_vreg; by auto).
  - case_bool_decide as Hop; [subst; left|right; by destruct opcode].
    rewrite ?elem_of_insert_vreg. by left.
  - left. case_bool_decide; rewrite ?elem_of_insert_vreg; auto.
  - apply orb_true_iff in Hf as [->%bool_decide_eq_true| ->%bool_decide_eq_true]; [by right|left].
    rewrite bool_decide_true, ?elem_of_insert_vreg by done. by left.
  - clear Hf. left. case_bool_decide; rewrite ?elem_of_insert_vreg; auto.
Qed.
