(* ===== verification/AllocationSemantics.v ===== *)
(** * Register allocation preserves the meaning of tidy code

    A live interval runs from the last definition of a register to its last
    use.  That is enough for code in which no other interval ends between the
    first and the last definition of a register ([tidy]): such code computes
    the same memory, flags and results after the allocation.  Constants and
    host addresses are built by several definitions in a row, which is tidy;
    redefining a register later on is not (see the counterexample in
    PipelineDefects.v). *)
From S2P Require Import Prelude Error Machine Arm64 Encoder A64 A64Semantics Arm64Meaning.
From S2P Require Import Liveness LivenessCorrect RegisterAllocator AllocatorCorrect Renaming.
Import machine arm64 Liveness Allocator.

(** ** Tidy code *)

(** Every register an instruction reads has been defined. *)
Fixpoint reads_defined (D : gset Z) (l : list Instruction) : bool :=
  match l with
  | [] => true
  | i :: l =>
      bool_decide (reads_set i ⊆ D)
      && reads_defined (getDefinedVirtualRegisters i ∪ D) l
  end.

(** The intervals, in one order. *)
Definition intervals (l : list Instruction) : list LiveInterval :=
  computeLiveIntervals map_to_list l.

(** [b] ends before [a] starts only if it ends before any definition of [a]
    (an instruction reads before it writes). *)
Definition clear_of (l : list Instruction) (a b : LiveInterval) : bool :=
  bool_decide (virtualRegister a = virtualRegister b)
  || (start a <=? end_ b)%nat
  || forallb (λ f, (end_ b <=? f)%nat) (positions (defines (virtualRegister a)) 0 l).

Definition tidy (l : list Instruction) : bool :=
  forallb inst_form l && reads_defined ∅ l
  && forallb (λ a, (start a <=? end_ a)%nat) (intervals l)
  && forallb (λ a, forallb (clear_of l a) (intervals l)) (intervals l).

Lemma reads_defined_spec l : ∀ D k i v,
  reads_defined D l = true -> l !! k = Some i -> v ∈ reads_set i ->
  v ∈ D ∨ ∃ j i', (j < k)%nat ∧ l !! j = Some i' ∧ def_of i' = Some v.
Proof.
  induction l as [|x l IH]; intros D k i v Hr Hk Hv; [done|].
  cbn in Hr. apply andb_true_iff in Hr as [Hx%bool_decide_eq_true Hr].
  destruct k as [|k]; cbn in Hk.
  - simplify_eq. left. by apply Hx.
  - destruct (IH _ _ _ _ Hr Hk Hv) as [Hin|(j & i' & Hj & Hi & Hd)].
    + apply elem_of_union in Hin as [Hd|]; [|by left]. right.
      exists 0%nat, x. split; [lia|]. split; [done|]. by apply def_of_spec.
    + right. exists (S j), i'. split; [lia|done].
Qed.

(** ** The correspondence *)

Section allocated.
Context (insts : list Instruction) (alloc : gmap Z Register).
Context (Htidy : tidy insts = true).
Context (Hdom : ∀ a, a ∈ intervals insts -> is_Some (alloc !! virtualRegister a)).
Context (Hrange : ∀ v r, alloc !! v = Some r -> r ∈ availableRegisters).
Context (Hapart : ∀ a b, a ∈ intervals insts -> b ∈ intervals insts -> a ≠ b ->
  overlaps a b = true ->
  ∃ ra rb, alloc !! virtualRegister a = Some ra ∧ alloc !! virtualRegister b = Some rb ∧ ra ≠ rb).

Abbreviation phys := (phys alloc).

Lemma map_to_list_all : ∀ m : gmap Z nat, map_to_list m ≡ₚ map_to_list m.
Proof. done. Qed.

Lemma available_number r : r ∈ availableRegisters -> 1 <= register_number r <= 28.
Proof.
  assert (Forall (λ r, 1 <= register_number r <= 28) availableRegisters) as H.
  { apply (bool_decide_unpack _). vm_compute. exact I. }
  rewrite Forall_forall in H. apply H.
Qed.

Lemma phys_keeps_zero : keeps_zero phys.
Proof.
  intros r. unfold Renaming.phys. destruct (Z.ltb_spec r 32); [done|].
  destruct (alloc !! (r - 32)) as [x|] eqn:Hx; cbn.
  - pose proof (available_number x (Hrange _ _ Hx)). lia.
  - lia.
Qed.

Lemma phys_direct r : r < 32 -> phys r = r.
Proof. intros. unfold Renaming.phys. by rewrite (proj2 (Z.ltb_lt _ _)). Qed.

Lemma phys_virtual v r : 0 <= v -> alloc !! v = Some r -> phys (32 + v) = register_number r.
Proof.
  intros Hv Hr. unfold Renaming.phys. rewrite (proj2 (Z.ltb_ge _ _)) by lia.
  replace (32 + v - 32) with v by lia. by rewrite Hr.
Qed.

(** The value of [v] is wanted at [k]: it has been defined, and its interval
    has not ended. *)
Definition wanted (k : nat) (v : Z) : Prop :=
  (∃ j i, (j < k)%nat ∧ insts !! j = Some i ∧ def_of i = Some v)
  ∧ ∃ a, a ∈ intervals insts ∧ virtualRegister a = v ∧ (k <= end_ a)%nat.

(** The registers before and after allocation, before instruction [k]. *)
Definition corresponds (k : nat) (X X' : regs) : Prop :=
  (∀ r, direct r -> a64sem.xget X' r = a64sem.xget X r)
  ∧ ∀ v, 0 <= v -> wanted k v -> a64sem.xget X' (phys (32 + v)) = a64sem.xget X (32 + v).

Lemma tidy_parts :
  (∀ i, i ∈ insts -> inst_form i = true) ∧ reads_defined ∅ insts = true
  ∧ (∀ a, a ∈ intervals insts -> (start a <= end_ a)%nat)
  ∧ ∀ a b k i, a ∈ intervals insts -> b ∈ intervals insts ->
      virtualRegister a ≠ virtualRegister b -> (end_ b < start a)%nat ->
      insts !! k = Some i -> def_of i = Some (virtualRegister a) -> (end_ b <= k)%nat.
Proof.
  unfold tidy in Htidy.
  apply andb_true_iff in Htidy as [[[Hf Hr]%andb_true_iff He]%andb_true_iff Hc].
  rewrite forallb_forall in Hf, He, Hc.
  split; [|split; [done|split]].
  - intros i Hi. by apply Hf, list_elem_of_In.
  - intros a Ha. by apply Nat.leb_le, He, list_elem_of_In.
  - intros a b k i Ha Hb Hne Hlt Hk Hd.
    apply list_elem_of_In in Ha, Hb.
    specialize (Hc a Ha). rewrite forallb_forall in Hc. specialize (Hc b Hb).
    unfold clear_of in Hc.
    apply orb_true_iff in Hc as [[?%bool_decide_eq_true|?%Nat.leb_le]%orb_true_iff|Hc];
      [done|lia|].
    rewrite forallb_forall in Hc. apply Nat.leb_le, Hc, list_elem_of_In, elem_of_positions.
    exists k, i. split; [done|]. split; [|done].
    by apply bool_decide_eq_true, def_of_spec.
Qed.

(** A register with a definition has an interval; it covers the uses, and the
    definitions lie before its start. *)
Lemma interval_of_def k i v :
  insts !! k = Some i -> def_of i = Some v ->
  ∃ a, a ∈ intervals insts ∧ virtualRegister a = v ∧ (k <= start a <= end_ a)%nat
    ∧ ∀ j i', insts !! j = Some i' -> uses v i' = true -> (j <= end_ a)%nat.
Proof.
  intros Hk Hd.
  destruct (last_def insts v) as [d|] eqn:E.
  2:{ exfalso. apply (proj1 (last_def_None _ _) E i); [by eapply list_elem_of_lookup_2|done]. }
  set (a := interval_for insts v d).
  assert (a ∈ intervals insts) as Ha.
  { apply elem_of_intervals; [done|]. eauto. }
  exists a. split; [done|]. split; [done|]. split; [split|].
  - apply last_def_Some in E as [_ Hmax]. by eapply Hmax.
  - by apply tidy_parts.
  - intros j i' Hj Hu. assert (j ∈ use_positions insts v) as Hin.
    { apply elem_of_positions. by exists j, i'. }
    unfold a, interval_for. cbn [end_].
    destruct (use_positions insts v) eqn:Eu; [set_solver|]. by apply elem_of_max_element.
Qed.

Lemma interval_unique a b :
  a ∈ intervals insts -> b ∈ intervals insts -> virtualRegister a = virtualRegister b -> a = b.
Proof.
  intros Ha Hb Hab.
  apply elem_of_intervals in Ha as (v & d & Hd & ->); [|done].
  apply elem_of_intervals in Hb as (w & e & He & ->); [|done].
  cbn in Hab. congruence.
Qed.

(** What an instruction reads is wanted there. *)
Lemma read_wanted k i v :
  insts !! k = Some i -> v ∈ reads_set i -> wanted k v.
Proof.
  intros Hk Hv. destruct tidy_parts as (_ & Hr & _).
  destruct (reads_defined_spec _ _ _ _ _ Hr Hk Hv) as [?|(j & i' & Hj & Hi & Hd)]; [set_solver|].
  split; [eauto|]. destruct (interval_of_def j i' v Hi Hd) as (a & Ha & Hva & Hs & Hu).
  exists a. split; [done|]. split; [done|].
  destruct (reads_set_spec _ _ Hv) as [Hus|Hdk]; [by eapply Hu|].
  destruct (interval_of_def k i v Hk Hdk) as (b & Hb & Hvb & Hsb & _).
  rewrite (interval_unique a b); [lia|done|done|congruence].
Qed.

(** A definition does not disturb what is wanted after it. *)
Lemma define_apart k i d v :
  insts !! k = Some i -> def_of i = Some d -> v ≠ d -> wanted (S k) v ->
  0 <= v -> 0 <= d -> phys (32 + v) ≠ phys (32 + d).
Proof.
  intros Hk Hd Hne [(j & i' & Hj & Hi & Hdv) (a & Ha & Hva & Hend)] Hv0 Hd0.
  destruct (interval_of_def k i d Hk Hd) as (b & Hb & Hvb & Hsb & _).
  assert (j ≠ k) as Hjk by (intros ->; congruence).
  assert (start b <= end_ b)%nat as Hb1 by lia.
  destruct tidy_parts as (_ & _ & Hse & Hcl). pose proof (Hse a Ha) as Ha1.
  assert (a ≠ b) as Hab by congruence.
  destruct (overlaps a b) eqn:Hov.
  - destruct (Hapart a b Ha Hb Hab Hov) as (ra & rb & Hra & Hrb & Hr).
    rewrite Hva in Hra. rewrite Hvb in Hrb.
    rewrite (phys_virtual v ra), (phys_virtual d rb) by done.
    intros E. apply Hr. by apply register_number_inj.
  - exfalso. unfold overlaps in Hov.
    apply negb_false_iff, orb_true_iff in Hov as [H%Nat.ltb_lt|H%Nat.ltb_lt].
    + pose proof (Hcl b a k i Hb Ha ltac:(congruence) H Hk ltac:(congruence)). lia.
    + pose proof (Hcl a b j i' Ha Hb ltac:(congruence) H Hi ltac:(congruence)). lia.
Qed.

(** ** One instruction, and all of them *)

Lemma phys_range v : 0 <= v -> is_Some (alloc !! v) -> 1 <= phys (32 + v) <= 28.
Proof.
  intros Hv [r Hr]. rewrite (phys_virtual v r) by done. by eapply available_number, Hrange.
Qed.

Lemma wanted_allocated k v : wanted k v -> is_Some (alloc !! v).
Proof. intros [_ (a & Ha & <- & _)]. by apply Hdom. Qed.

Lemma xset_zero X x : a64sem.xset X 31 x = X.
Proof. done. Qed.

(** Reading after a write, also to the zero register. *)
Lemma xget_xset_any X r r' x :
  a64sem.xget (a64sem.xset X r x) r'
  = if bool_decide (r' = r ∧ r ≠ 31) then u64 x else a64sem.xget X r'.
Proof.
  unfold a64sem.xget, a64sem.xset. destruct (Z.eqb_spec r 31) as [->|Hr].
  - rewrite bool_decide_false by naive_solver. done.
  - destruct (decide (r' = r)) as [->|Hne].
    + rewrite bool_decide_true, (proj2 (Z.eqb_neq r 31)) by done.
      unfold rd, wr. by rewrite lookup_insert_eq.
    + rewrite bool_decide_false by naive_solver. destruct (r' =? 31); [done|].
      by apply rd_wr_ne.
Qed.

(** Writing under the new name, when the value is the only one with it. *)
Lemma corresponds_xset X X' r r' s x :
  (phys r' = phys r -> r' = r) -> a64sem.xget X' (phys r') = a64sem.xget X r' ->
  s = phys r ->
  a64sem.xget (a64sem.xset X' s x) (phys r') = a64sem.xget (a64sem.xset X r x) r'.
Proof.
  intros Hinj Hr ->. rewrite !xget_xset_any, Hr.
  rewrite (bool_decide_ext (phys r' = phys r ∧ phys r ≠ 31) (r' = r ∧ r ≠ 31)); [done|].
  pose proof (phys_keeps_zero r). naive_solver.
Qed.

Lemma wanted_S k v i :
  insts !! k = Some i -> wanted (S k) v -> def_of i ≠ Some v -> wanted k v.
Proof.
  intros Hk [(j & i' & Hj & Hi & Hdv) (a & Ha & Hva & He)] Hd. split.
  - exists j, i'. split; [|done]. assert (j ≠ k); [|lia]. intros ->. congruence.
  - exists a. split_and!; [done..|lia].
Qed.

Lemma corresponds_write k i X X' r x :
  corresponds k X X' -> insts !! k = Some i -> write_def i (Some r) ->
  corresponds (S k) (a64sem.xset X r x) (a64sem.xset X' (phys r) x).
Proof.
  intros [Hp Hv] Hk Hw.
  assert (∀ v, 0 <= v -> wanted (S k) v -> 1 <= phys (32 + v) <= 28) as Hrg.
  { intros v Hv0 Hwt. apply phys_range; [done|]. by eapply wanted_allocated. }
  destruct Hw as [[Hr Hd]|(d & -> & Hd0 & Hd)].
  - assert (phys r = r) as Er by (apply phys_direct; unfold direct in Hr; lia).
    split.
    + intros r' Hr'. assert (phys r' = r') as Er' by (apply phys_direct; unfold direct in Hr'; lia).
      rewrite <- Er' at 1. apply corresponds_xset; rewrite ?Er, ?Er'; auto.
    + intros v Hv0 Hwt. apply corresponds_xset; [|apply Hv; [done|]|done].
      * rewrite Er. specialize (Hrg v Hv0 Hwt). unfold direct in Hr. lia.
      * eapply wanted_S; [done..|congruence].
  - assert (is_Some (alloc !! d)) as Had.
    { destruct (interval_of_def k i d Hk Hd) as (a & Ha & <- & _). by apply Hdom. }
    pose proof (phys_range d Hd0 Had) as Hdr. split.
    + intros r' Hr'. assert (phys r' = r') as Er' by (apply phys_direct; unfold direct in Hr'; lia).
      rewrite <- Er' at 1. apply corresponds_xset; rewrite ?Er'; auto.
      unfold direct in Hr'. lia.
    + intros v Hv0 Hwt. destruct (decide (v = d)) as [->|Hne].
      * rewrite !xget_xset_any, !bool_decide_true by lia. done.
      * apply corresponds_xset; [|apply Hv; [done|]|done].
        -- intros E. by destruct (define_apart k i d v Hk Hd Hne Hwt Hv0 Hd0).
        -- eapply wanted_S; [done..|congruence].
Qed.

Lemma corresponds_step k i m X X' fl H e :
  corresponds k X X' -> insts !! k = Some i -> intended i = Some m ->
  (∀ rn, m ≠ a64.Ret rn) -> a64sem.eval m (a64sem.mkState X fl H) = Some e ->
  ∃ e', a64sem.eval (map_instr phys m) (a64sem.mkState X' fl H) = Some e'
    ∧ a64sem.eflags e' = a64sem.eflags e ∧ a64sem.emem e' = a64sem.emem e
    ∧ corresponds (S k) (a64sem.apply_writes (a64sem.writes e) X)
        (a64sem.apply_writes (a64sem.writes e') X').
Proof.
  intros HC Hk Hm Hret He. pose proof HC as [Hp Hv].
  destruct tidy_parts as (Hform & _).
  pose proof (Hform i ltac:(by eapply list_elem_of_lookup_2)) as Hf.
  eexists. split; [|split; [|split]].
  - eapply eval_map; [apply phys_keeps_zero|by eapply intended_plain| |exact He].
    eapply Forall_impl; [by apply (intended_reads i m)|].
    intros r [Hr|(v & -> & Hv0 & Hrd)].
    + rewrite phys_direct by (unfold direct in Hr; lia). by apply Hp.
    + apply Hv; [done|]. by eapply read_wanted.
  - done.
  - done.
  - cbn [a64sem.writes]. pose proof (intended_write i m Hf Hm Hret) as Hw.
    pose proof (eval_writes m _ _ (intended_plain _ _ Hm) He) as Hwr.
    destruct (write_of m) as [r|]; [destruct Hwr as [x ->]|rewrite Hwr].
    + by apply (corresponds_write k i).
    + split; [done|]. intros v Hv0 Hwt. apply Hv; [done|].
      eapply wanted_S; [done..|]. simpl in Hw. congruence.
Qed.

Lemma map_instr_ret f m rn : map_instr f m = a64.Ret rn -> ∃ rn', m = a64.Ret rn'.
Proof. destruct m; try done. eauto. Qed.

Lemma run_alloc : ∀ l k X X' fl H st ra,
  drop k insts = l -> corresponds k X X' ->
  run_insts l (a64sem.mkState X fl H) = Some (st, ra) ->
  ∃ st', run_insts (map (rename alloc) l) (a64sem.mkState X' fl H) = Some (st', ra)
    ∧ a64sem.hm st' = a64sem.hm st ∧ a64sem.fl st' = a64sem.fl st
    ∧ ∀ r, direct r -> a64sem.xget (a64sem.xr st') r = a64sem.xget (a64sem.xr st) r.
Proof.
  induction l as [|i l IH]; intros k X X' fl H st ra Hl HC Hrun; [done|].
  assert (insts !! k = Some i ∧ drop (S k) insts = l) as [Hk Hl'].
  { pose proof (lookup_drop insts k 0) as E. rewrite Hl, Nat.add_0_r in E. split; [done|].
    by rewrite <- Nat.add_1_r, <- drop_drop, Hl. }
  pose proof (proj1 tidy_parts i ltac:(by eapply list_elem_of_lookup_2)) as Hf.
  destruct (intended i) as [m|] eqn:Hm; [|cbn [run_insts] in Hrun; by rewrite Hm in Hrun].
  pose proof (intended_rename alloc i Hf) as Hm'. rewrite Hm in Hm'. cbn in Hm'.
  cbn [map]. destruct (is_ret_dec m) as [[rn ->]|Hret].
  - rewrite (run_insts_ret _ _ _ _ Hm) in Hrun. rewrite (run_insts_ret _ _ _ _ Hm').
    simplify_eq. cbn [a64sem.xr]. eexists. split; [f_equal; f_equal|].
    + pose proof (intended_reads i (a64.Ret rn) Hf Hm) as Hrd.
      apply Forall_cons in Hrd as [[Hr|(v & -> & Hv0 & Hv)] _].
      * rewrite phys_direct by (unfold direct in Hr; lia). by apply HC.
      * apply HC; [done|]. by eapply read_wanted.
    + split; [done|]. split; [done|]. apply HC.
  - rewrite (run_insts_step _ _ _ _ Hm Hret) in Hrun.
    rewrite (run_insts_step _ _ _ _ Hm') by (intros rn (rn' & ->)%map_instr_ret; by edestruct Hret).
    apply bind_Some in Hrun as (s1 & He & Hrun). unfold a64sem.exec in He.
    apply bind_Some in He as (e & He & [= <-]).
    destruct (corresponds_step k i m X X' fl H e HC Hk Hm Hret He) as (e' & He' & Hfl & Hmem & HC').
    unfold a64sem.exec. rewrite He'. cbn [mbind option_bind a64sem.xr]. rewrite Hfl, Hmem.
    by eapply IH.
Qed.

End allocated.

(** ** Properties *)

Lemma tidy_defined insts : tidy insts = true -> all_defined insts.
Proof.
  intros Ht i v Hi Hv. destruct (tidy_parts insts Ht) as (Hf & Hr & _).
  destruct (operand_read_or_defined i v (Hf i Hi) Hv) as [Hrd|Hd]; [|eauto].
  apply list_elem_of_lookup in Hi as [k Hk].
  destruct (reads_defined_spec _ _ _ _ _ Hr Hk Hrd) as [?|(j & i' & _ & Hj & Hd)]; [set_solver|].
  exists i'. split; [by eapply list_elem_of_lookup_2|done].
Qed.

Lemma intervals_any iterate insts a :
  (∀ m, iterate m ≡ₚ map_to_list m) ->
  a ∈ computeLiveIntervals iterate insts ↔ a ∈ intervals insts.
Proof. intros Hit. unfold intervals. by rewrite !elem_of_intervals. Qed.

Lemma allocation_runs iterate insts s :
  (∀ m, iterate m ≡ₚ map_to_list m) -> tidy insts = true ->
  pressure_fits [] (computeLiveIntervals iterate insts) = true ->
  ∃ alloc, let insts' := map (rename alloc) insts in
    fst (allocateRegisters insts (computeLiveIntervals iterate insts) s) = Ok (true, insts')
    ∧ Forall (λ i, existsb is_virtual (operands i) = false) insts'
    ∧ ∀ X fl H st ra,
        run_insts insts (a64sem.mkState X fl H) = Some (st, ra) ->
        ∃ st', run_insts insts' (a64sem.mkState X fl H) = Some (st', ra)
          ∧ a64sem.hm st' = a64sem.hm st ∧ a64sem.fl st' = a64sem.fl st
          ∧ a64sem.xget (a64sem.xr st') 0 = a64sem.xget (a64sem.xr st) 0.
Proof.
  intros Hit Ht Hp.
  destruct (allocation_found iterate insts s Hit (tidy_defined _ Ht) Hp)
    as (alloc & Hrun & Hrange & Hv & Hdom & Hapart).
  exists alloc. split; [done|]. split; [done|].
  intros X fl H st ra Hst.
  destruct (run_alloc insts alloc Ht) with (l := insts) (k := 0%nat) (X := X) (X' := X)
    (fl := fl) (H := H) (st := st) (ra := ra) as (st' & Hrun' & Hm & Hf & Hr).
  - intros a Ha. by apply Hdom, intervals_any.
  - exact Hrange.
  - intros a b Ha Hb. apply Hapart; by apply intervals_any.
  - by rewrite drop_0.
  - split; [done|]. intros v _ [(j & i & Hj & _) _]. lia.
  - exact Hst.
  - exists st'. split_and!; [done..|]. apply Hr. by left.
Qed.

(** C6: allocation preserves the meaning of tidy code.  When at no point more
    than 28 intervals are live, the allocator rewrites tidy code to code
    without virtual registers that, from any machine state from which the code
    runs to its return, runs to the same return address, memory, flags and
    result in X0. *)
Theorem allocation_preserves iterate insts s :
  (∀ m, iterate m ≡ₚ map_to_list m) -> tidy insts = true ->
  pressure_fits [] (computeLiveIntervals iterate insts) = true ->
  ∃ insts',
    fst (allocateRegisters insts (computeLiveIntervals iterate insts) s) = Ok (true, insts')
    ∧ Forall (λ i, existsb is_virtual (operands i) = false) insts'
    ∧ ∀ X fl H st ra,
        run_insts insts (a64sem.mkState X fl H) = Some (st, ra) ->
        ∃ st', run_insts insts' (a64sem.mkState X fl H) = Some (st', ra)
          ∧ a64sem.hm st' = a64sem.hm st ∧ a64sem.fl st' = a64sem.fl st
          ∧ a64sem.xget (a64sem.xr st') 0 = a64sem.xget (a64sem.xr st) 0.
Proof.
  intros Hit Ht Hp. destruct (allocation_runs iterate insts s Hit Ht Hp) as [alloc H]. eauto.
Qed.

(** ** Witness *)

(** [sample_code] of LivenessCorrect.v, followed by a return. *)
Definition sample_return : list Instruction :=
  sample_code ++
  [ mkInstruction (TwoOperandInst MOV Size_X (Reg X0) (VirtualRegister 2));
    mkInstruction (TwoOperandInst RET Size_X (Reg X30) (Reg X30)) ].

Lemma allocation_preserves_witness :
  ∃ insts' st',
    fst (allocateRegisters sample_return (intervals sample_return) new) = Ok (true, insts')
    ∧ run_insts insts' (a64sem.mkState {[30 := 0x400]}
        (a64sem.mkFlags false false false false) {[80 := 41]}) = Some (st', 0x400)
    ∧ a64sem.xget (a64sem.xr st') 0 = 42.
Proof.
  destruct (allocation_preserves map_to_list sample_return new) as (insts' & Hrun & _ & H);
    [done|vm_compute; reflexivity|vm_compute; reflexivity|].
  set (s0 := a64sem.mkState {[30 := 0x400]} (a64sem.mkFlags false false false false)
               {[80 := 41]}).
  assert (match run_insts sample_return s0 with
          | Some (st, ra) => ra = 0x400 ∧ a64sem.xget (a64sem.xr st) 0 = 42
          | None => False
          end) as Hst by (vm_compute; split; reflexivity).
  destruct (run_insts sample_return s0) as [[st ra]|] eqn:E; [|destruct Hst].
  destruct Hst as [-> H42].
  destruct (H _ _ _ _ _ E) as (st' & Hst' & _ & _ & H0).
  exists insts', st'. split; [exact Hrun|]. split; [exact Hst'|]. by rewrite H0.
Defined.
