(* ===== verification/MachineCode.v ===== *)
(** * Machine code

    Instructions the encoder accepts and gets right ([encodable]), their
    bytes, and the run of the processor on the bytes of a sequence of them. *)
From S2P Require Import Prelude Error Machine Arm64 Encoder A64 A64Semantics Arm64Meaning EncoderCorrect.
From S2P Require Import AllocatorCorrect Renaming.
Import machine.
Import arm64 Encoder.

Definition is_reg (o : Operand) : bool := negb (isImmediate o).

Definition encodable (i : Instruction) : bool :=
  match kind i with
  | ThreeOperandInst op _ d s1 s2 =>
      is_reg d && is_reg s1 && is_reg s2
      && bool_decide (op ∈ [ADD; SUB; AND; ORR; MUL; LSL; ASR])
  | TwoOperandInst op _ d s =>
      is_reg d &&
      match op, s with
      | (MOV | MOVN), Immediate v => (0 <=? v) && (v <=? 0xFFFF)
      | CMP, Immediate v => (0 <=? v) && (v <=? 0xFFF)
      | (MOV | CMP | SXTB | SXTH | SXTW | RET), _ => is_reg s
      | _, _ => false
      end
  | MemoryInst op size r b offset =>
      is_reg r && is_reg b && bool_decide (op ∈ [LDR; STR])
      && scaled size offset && (offset <=? 0xFFF)
  | MoveWideInst op size d imm16 shift =>
      is_reg d && bool_decide (op ∈ [MOVZ; MOVK]) && bool_decide (in_u 16 imm16)
      && bool_decide (shift ∈ [0; 16; 32; 48]) && (is64 size || (shift <? 32))
  | ConditionalInst op _ d _ => is_reg d && bool_decide (op = CSET)
  | ConditionalSelectInst op _ d s1 s2 _ =>
      is_reg d && is_reg s1 && is_reg s2 && bool_decide (op = CSEL)
  | BranchInst _ _ => false
  end.

Lemma is_reg_ok o : is_reg o = true -> operand_ok o = true ∧ small_imm o = true.
Proof. by destruct o. Qed.

Lemma small_ok v : 0 <= v <= 0xFFFF -> in_u 64 v ∧ in_u 32 v.
Proof. unfold in_u. lia. Qed.

Lemma encodable_fields i : encodable i = true -> fields_ok i = true ∧ faithful i = true.
Proof.
  unfold encodable, fields_ok, faithful, operands. destruct i as [[]]; cbn [kind];
    intros H; split_and_true; cbn [forallb];
    repeat match goal with
      | H : is_reg ?o = true |- _ => destruct (is_reg_ok o H); clear H
      end; repeat match goal with H : operand_ok ?o = true |- _ => rewrite H; clear H end.
  - cbn. split; [done|]. set_unfold. by destruct_or?; subst.
  - destruct opcode, src; cbn in *; try done; split_and_true;
      (split; [|try done]); rewrite ?andb_true_r; try done;
      apply bool_decide_eq_true, small_ok; lia.
  - cbn. split; [|done]. apply bool_decide_eq_true. unfold scaled in *. split_and_true.
    unfold in_s. simpl. lia.
  - cbn. split; [|done]. apply bool_decide_eq_true. split; [done|].
    unfold in_u. set_unfold. destruct_or?; subst; lia.
  - done.
  - done.
  - done.
Qed.

Lemma encodeRegister_not_virtual o :
  is_reg o = true -> is_virtual o = false -> ∃ n, encodeRegister o = Ok n.
Proof. destruct o; try done. intros _ _. cbn. case_bool_decide; eauto. Qed.

Ltac register_of o :=
  let n := fresh "n" in let E := fresh "E" in
  destruct (encodeRegister_not_virtual o) as [n E]; [done|done|];
  rewrite ?E; cbn [mbind result_bind].

Lemma scaled_form size offset :
  scaled size offset = true ->
  (0 <=? offset) && (Z.rem offset (1 <<. size_field size) =? 0) = true.
Proof.
  unfold scaled. intros [H0%Z.leb_le Hm]%andb_true_iff. rewrite (proj2 (Z.leb_le _ _)) by done.
  rewrite Z.shiftl_1_l. rewrite Z.rem_mod_nonneg; [done|done|].
  apply Z.pow_pos_nonneg; [lia|]. by destruct size.
Qed.

Lemma encodable_encodes i :
  encodable i = true -> existsb is_virtual (operands i) = false ->
  ∃ bytes, encodeInstruction i = Ok bytes.
Proof.
  intros He Hv. unfold encodeInstruction. cut (∃ w, encodeWord i = Ok w).
  { intros [w ->]. by eexists. }
  unfold encodable in He. unfold operands in Hv. unfold encodeWord.
  destruct i as [[]]; cbn [kind existsb] in *; split_and_true;
    repeat match goal with H : _ || _ = false |- _ => apply orb_false_iff in H as [? ?] end.
  - assert (isImmediate src2 = false) as Hi2 by (by apply negb_true_iff).
    unfold encodeThreeOperandInst. register_of dest. register_of src1.
    destruct (encodeRegister_not_virtual src2) as [n2 E2]; [done|done|].
    set_unfold. destruct_or?; subst; rewrite ?Hi2, ?E2; cbn [mbind result_bind];
      try (by eexists); destruct src2; try done; rewrite ?E2; by eexists.
  - unfold encodeTwoOperandInst. register_of dest.
    destruct opcode, src; cbn in *; try done; split_and_true; try (by eexists).
    all: try (rewrite (proj2 (Z.ltb_ge _ _)) by lia; by eexists).
    all: try (case_bool_decide; by eexists).
    unfold imm12. rewrite uint_small by (unfold in_u; lia).
    rewrite (proj2 (Z.ltb_ge _ _)) by lia. by eexists.
  - unfold encodeMemoryInst. register_of reg. register_of baseReg.
    rewrite scaled_form by done.
    assert (0 <= offset) as Hpos by (unfold scaled in *; by split_and_true).
    assert ((u32 (offset >>. size_field size) <=? 0xFFF) = true) as Hs.
    { apply Z.leb_le. rewrite Z.shiftr_div_pow2 by (by destruct size).
      assert (0 <= offset / 2 ^ size_field size <= offset).
      { split; [apply Z.div_pos; [done|]|apply Z.div_le_upper_bound; [|]];
          destruct size; simpl; lia. }
      rewrite uint_small by (unfold in_u; lia). lia. }
    rewrite Hs. set_unfold. destruct_or?; subst; by eexists.
  - unfold encodeMoveWideInst. register_of dest.
    assert ((3 <? shift / 16) = false) as ->.
    { apply Z.ltb_ge. set_unfold. destruct_or?; subst; by vm_compute. }
    set_unfold. destruct_or?; subst; by eexists.
  - done.
  - unfold encodeConditionalInst. register_of dest. subst. by eexists.
  - unfold encodeConditionalSelectInst. register_of dest. register_of src1. subst.
    assert (isImmediate src1 = false ∧ isImmediate src2 = false) as [-> ->]
      by (split; by apply negb_true_iff).
    register_of src2. by eexists.
Qed.

(** ** Running bytes *)

(** What the processor fetches is the instruction meant. *)
Definition fetches (i : Instruction) (bytes : list Z) : Prop :=
  length bytes = 4%nat
  ∧ ∃ m, intended i = Some m ∧ a64.fetch bytes ≫= a64.decode = Some m.

Lemma run_code_insts l : ∀ encoded s r,
  Forall2 fetches l encoded -> run_insts l s = Some r ->
  a64sem.run_code (concat encoded) s = Some r.
Proof.
  induction l as [|i l IH]; intros encoded s r Hf Hr; [done|].
  apply Forall2_cons_inv_l in Hf as (bytes & encoded' & (Hlen & m & Hm & Hd) & Hf & ->).
  destruct bytes as [|b0 [|b1 [|b2 [|b3 [|]]]]]; try done.
  cbn [concat app a64sem.run_code]. rewrite Hd. cbn [mbind option_bind].
  destruct (is_ret_dec m) as [[rn ->]|Hret].
  - by rewrite (run_insts_ret _ _ _ _ Hm) in Hr.
  - rewrite (run_insts_step _ _ _ _ Hm Hret) in Hr.
    apply bind_Some in Hr as (s1 & He & Hr).
    assert (a64sem.run_code (concat encoded') s1 = Some r) as Hrun by (by apply IH).
    destruct m; try (by rewrite He); by edestruct Hret.
Qed.

(** Code of encodable instructions without virtual registers is encoded, and
    its bytes run as it does. *)
Lemma machine_code l :
  Forall (λ i, encodable i = true) l ->
  Forall (λ i, existsb is_virtual (operands i) = false) l ->
  ∃ encoded, mapM_result encodeInstruction l = Ok encoded
    ∧ length (concat encoded) = (4 * length l)%nat
    ∧ ∀ s r, run_insts l s = Some r -> a64sem.run_code (concat encoded) s = Some r.
Proof.
  intros He Hv.
  assert (∃ encoded, mapM_result encodeInstruction l = Ok encoded ∧ Forall2 fetches l encoded)
    as (encoded & Henc & Hf).
  { induction l as [|i l IH]; [exists []; by split|].
    apply Forall_cons in He as [He Hes]. apply Forall_cons in Hv as [Hv Hvs].
    destruct (IH Hes Hvs) as (encoded & Henc & Hf).
    destruct (encodable_encodes i He Hv) as [bytes Hb].
    destruct (encodable_fields i He) as [Hfo Hfa].
    destruct (encoded_decodes i bytes Hfo Hfa Hb) as (Hlen & _ & Hm).
    exists (bytes :: encoded). cbn. rewrite Hb. cbn. rewrite Henc. split; [done|].
    constructor; [by split|done]. }
  exists encoded. split; [done|]. split.
  - clear He Hv Henc. induction Hf as [|i bytes l encoded [Hlen _] _ IH]; [done|].
    cbn [concat length]. rewrite length_app, Hlen, IH. lia.
  - intros s r Hr. by eapply run_code_insts.
Qed.

(** ** Registers a block leaves alone

    X19 to X28, the frame pointer X29 and the return address X30 belong to the
    caller (AAPCS64). *)
Definition callee_saved (r : Z) : bool := (19 <=? r) && (r <=? 30).

Definition spares (i : Instruction) : bool :=
  match intended i with
  | Some m => plain m && match write_of m with Some r => negb (callee_saved r) | None => true end
  | None => true
  end.

Definition preserves_saved (X X' : regs) : Prop :=
  ∀ r, 19 <= r <= 30 -> a64sem.xget X' r = a64sem.xget X r.

Lemma spares_exec i m s s' :
  spares i = true -> intended i = Some m -> a64sem.exec m s = Some s' ->
  preserves_saved (a64sem.xr s) (a64sem.xr s').
Proof.
  unfold spares. intros Hs Hm He r Hr. rewrite Hm in Hs. apply andb_true_iff in Hs as [Hp Hw].
  apply bind_Some in He as (e & He & [= <-]). cbn [a64sem.xr].
  apply eval_writes in He; [|done]. destruct (write_of m) as [rd|].
  - destruct He as [x ->]. cbn [a64sem.apply_writes foldl fst snd].
    assert (rd ≠ r) as Hne.
    { intros ->. unfold callee_saved in Hw.
      rewrite (proj2 (Z.leb_le _ _)), (proj2 (Z.leb_le _ _)) in Hw by lia. done. }
    unfold a64sem.xset, a64sem.xget. destruct (rd =? 31); [done|].
    by rewrite rd_wr_ne.
  - by rewrite He.
Qed.

Lemma spares_run l : ∀ s s' ra,
  forallb spares l = true -> run_insts l s = Some (s', ra) ->
  preserves_saved (a64sem.xr s) (a64sem.xr s').
Proof.
  induction l as [|i l IH]; intros s s' ra Hs Hr; [done|].
  cbn [forallb] in Hs. apply andb_true_iff in Hs as [Hi Hs].
  destruct (intended i) as [m|] eqn:Hm; [|cbn [run_insts] in Hr; by rewrite Hm in Hr].
  destruct (is_ret_dec m) as [[rn ->]|Hret].
  - rewrite (run_insts_ret _ _ _ _ Hm) in Hr. by injection Hr as <- _.
  - rewrite (run_insts_step _ _ _ _ Hm Hret) in Hr. apply bind_Some in Hr as (s1 & He & Hr).
    intros r Hr'. rewrite (IH _ _ _ Hs Hr r Hr').
    exact (spares_exec i m s s1 Hi Hm He r Hr').
Qed.
