(* ===== verification/SelectorTidy.v ===== *)
(** * Selected code is tidy

    The code the selector emits for a block defines every register once, but
    for constants and host addresses, which are built by definitions in a row.
    So the linear scan preserves its meaning (AllocationSemantics.v), except
    when the pseudo value ids of a conditional branch collide with ids of the
    block. *)
From S2P Require Import Prelude Error IR Machine IRSemantics.
From S2P Require Import Arm64 Encoder GuestState InstructionSelector.
From S2P Require Import Liveness LivenessCorrect AllocatorCorrect Renaming AllocationSemantics.
From S2P Require Import SelectedCode SelectorCorrect.
Import arm64 Liveness Selector.

(** ** Fragments of code *)

(** Code that reads registers of [K] and those it has defined, and defines the
    registers of [D]: between two definitions of a register it names no other
    register, and it reads a register only after its last definition. *)
Record fragment (K D : Z → Prop) (l : list Instruction) : Prop := {
  fr_form : ∀ i, i ∈ l -> inst_form i = true;
  fr_def : ∀ i v, i ∈ l -> def_of i = Some v -> D v;
  fr_all : ∀ v, D v -> ∃ i, i ∈ l ∧ def_of i = Some v;
  fr_read : ∀ k i v, l !! k = Some i -> v ∈ reads_set i ->
    K v ∨ ∃ j i', (j < k)%nat ∧ l !! j = Some i' ∧ def_of i' = Some v;
  fr_between : ∀ j p k i i' i'' v w,
    l !! j = Some i -> l !! p = Some i' -> l !! k = Some i'' -> (j < p < k)%nat ->
    def_of i = Some v -> def_of i'' = Some v -> w ∈ reads_set i' ∨ def_of i' = Some w -> w = v;
  fr_last : ∀ j k i i' v, l !! j = Some i -> l !! k = Some i' ->
    uses v i = true -> def_of i' = Some v -> (k <= j)%nat;
}.

Lemma fragment_iff (K K' D D' : Z → Prop) l :
  (∀ v, K v -> K' v) -> (∀ v, D v ↔ D' v) -> fragment K D l -> fragment K' D' l.
Proof.
  intros HK HD [H1 H2 H3 H4 H5 H6]. split; try done.
  - intros i v Hi Hd. apply HD. by eapply H2.
  - intros v Hv. by apply H3, HD.
  - intros k i v Hk Hv. destruct (H4 k i v Hk Hv); auto.
Qed.

(** One after the other, when they define different registers. *)
Lemma fragment_app K D1 D2 l1 l2 :
  fragment K D1 l1 -> fragment (λ v, K v ∨ D1 v) D2 l2 ->
  (∀ v, D2 v -> ¬ K v ∧ ¬ D1 v) -> fragment K (λ v, D1 v ∨ D2 v) (l1 ++ l2).
Proof.
  intros F1 F2 Hn. set (n := length l1).
  assert (∀ k i, (l1 ++ l2) !! k = Some i ->
            ((k < n)%nat ∧ l1 !! k = Some i) ∨ ((n <= k)%nat ∧ l2 !! (k - n)%nat = Some i)) as Hl.
  { intros k i [Hk|[Hk Hi]]%lookup_app_Some; [|by right].
    left. split; [by eapply lookup_lt_Some|done]. }
  assert (∀ k i v, l1 !! k = Some i -> def_of i = Some v -> D1 v) as Hd1.
  { intros k i v Hk. eapply fr_def; [done|by eapply list_elem_of_lookup_2]. }
  assert (∀ k i v, l2 !! k = Some i -> def_of i = Some v -> D2 v) as Hd2.
  { intros k i v Hk. eapply fr_def; [done|by eapply list_elem_of_lookup_2]. }
  split.
  - intros i [Hi|Hi]%elem_of_app; [by apply F1|by apply F2].
  - intros i v [Hi|Hi]%elem_of_app Hv; [left; by eapply F1|right; by eapply F2].
  - intros v [Hv|Hv]; [destruct (fr_all _ _ _ F1 v Hv) as (i & Hi & ?)
                      |destruct (fr_all _ _ _ F2 v Hv) as (i & Hi & ?)];
      exists i; rewrite elem_of_app; auto.
  - intros k i v [[Hk Hi]|[Hk Hi]]%Hl Hv.
    + destruct (fr_read _ _ _ F1 k i v Hi Hv) as [?|(j & i' & Hj & Hi' & ?)]; [by left|right].
      exists j, i'. split; [done|]. split; [|done]. by apply lookup_app_l_Some.
    + destruct (fr_read _ _ _ F2 _ i v Hi Hv) as [[?|HD]|(j & i' & Hj & Hi' & ?)]; [by left|right..].
      * destruct (fr_all _ _ _ F1 v HD) as (i' & [j Hj]%list_elem_of_lookup & ?).
        exists j, i'. split; [apply lookup_lt_Some in Hj; fold n in Hj; lia|].
        split; [|done]. by apply lookup_app_l_Some.
      * exists (n + j)%nat, i'. split; [lia|]. split; [|done].
        rewrite lookup_app_r by (fold n; lia). fold n. by replace (n + j - n)%nat with j by lia.
  - intros j p k i i' i'' v w [[Hj Hi]|[Hj Hi]]%Hl [[Hp Hi']|[Hp Hi']]%Hl
      [[Hk Hi'']|[Hk Hi'']]%Hl Hjk Hdi Hdi'' Hw; try lia.
    + by apply (fr_between _ _ _ F1 j p k i i' i'').
    + destruct (Hn v (Hd2 _ _ _ Hi'' Hdi'')) as [_ HD]. by destruct HD; apply (Hd1 j i v).
    + destruct (Hn v (Hd2 _ _ _ Hi'' Hdi'')) as [_ HD]. by destruct HD; apply (Hd1 j i v).
    + apply (fr_between _ _ _ F2 (j - n) (p - n) (k - n) i i' i''); try done. lia.
  - intros j k i i' v [[Hj Hi]|[Hj Hi]]%Hl [[Hk Hi']|[Hk Hi']]%Hl Hu Hd; try lia.
    + by eapply (fr_last _ _ _ F1).
    + exfalso. destruct (Hn v (Hd2 _ _ _ Hi' Hd)) as [HnK HnD].
      destruct (fr_read _ _ _ F1 j i v Hi (uses_reads _ _ Hu)) as [?|(j' & x & _ & Hx & Hdx)];
        [done|]. by apply HnD, (Hd1 j' x).
    + pose proof (fr_last _ _ _ F2 _ _ _ _ _ Hi Hi' Hu Hd). lia.
Qed.

(** ** Building fragments *)

Lemma fragment_nil K : fragment K (λ _, False) [].
Proof. split; intros; set_solver. Qed.

(** No definition. *)
Lemma fragment_silent K l :
  (∀ i, i ∈ l -> inst_form i = true ∧ def_of i = None ∧ ∀ v, v ∈ reads_set i -> K v) ->
  fragment K (λ _, False) l.
Proof.
  intros Hl.
  assert (∀ k i v, l !! k = Some i -> def_of i = Some v -> False) as Hd.
  { intros k i v Hk Hd. destruct (Hl i) as (_ & E & _); [by eapply list_elem_of_lookup_2|].
    congruence. }
  split.
  - intros i Hi. by apply Hl.
  - intros i v [k Hk]%list_elem_of_lookup. by eapply Hd.
  - done.
  - intros k i v Hk Hv. left. apply (Hl i); [by eapply list_elem_of_lookup_2|done].
  - intros j p k i i' i'' v w Hj _ _ _ Hv. by destruct (Hd j i v).
  - intros j k i i' v _ Hk _ Hv. by destruct (Hd k i' v).
Qed.

Lemma fragment_none K i :
  inst_form i = true -> def_of i = None -> (∀ v, v ∈ reads_set i -> K v) ->
  fragment K (λ _, False) [i].
Proof. intros. apply fragment_silent. by intros ? ->%list_elem_of_singleton. Qed.

(** Several definitions of one register in a row. *)
Lemma fragment_run K d l :
  l ≠ [] -> (∀ i, i ∈ l -> inst_form i = true) -> (∀ i, i ∈ l -> def_of i = Some d) ->
  (∀ k i v, l !! k = Some i -> v ∈ reads_set i ->
     (K v ∧ v ≠ d ∨ v = d ∧ (0 < k)%nat) ∧ (v = d ∨ k = 0%nat ∨ S k = length l)) ->
  (∀ k i, l !! k = Some i -> uses d i = true -> S k = length l) ->
  fragment K (λ v, v = d) l.
Proof.
  intros Hne Hf Hd Hr Hu.
  assert (∀ k i, l !! k = Some i -> def_of i = Some d) as Hd'.
  { intros k i Hk. apply Hd. by eapply list_elem_of_lookup_2. }
  split; try done.
  - intros i v Hi Hv. rewrite (Hd i Hi) in Hv. congruence.
  - intros v ->. destruct l as [|i l]; [done|]. exists i. split; [left|apply Hd; left].
  - intros k i v Hk Hv. destruct (Hr k i v Hk Hv) as [[[? _]|[-> Hk0]] _]; [by left|right].
    destruct (lookup_lt_is_Some_2 l 0) as [i' Hi'].
    { apply lookup_lt_Some in Hk. lia. }
    exists 0%nat, i'. eauto.
  - intros j p k i i' i'' v w Hj Hp Hk Hjk Hdi _ [Hw|Hw].
    + rewrite (Hd' j i Hj) in Hdi. injection Hdi as <-.
      destruct (Hr p i' w Hp Hw) as [_ [?|[?|?]]]; [done|lia|].
      apply lookup_lt_Some in Hk. lia.
    + rewrite (Hd' _ _ Hp) in Hw. rewrite (Hd' _ _ Hj) in Hdi. congruence.
  - intros j k i i' v Hj Hk Hus Hdv. rewrite (Hd' _ _ Hk) in Hdv. injection Hdv as <-.
    pose proof (Hu _ _ Hj Hus). apply lookup_lt_Some in Hk. lia.
Qed.

(** One definition. *)
Lemma fragment_one K i d :
  inst_form i = true -> def_of i = Some d -> (∀ v, v ∈ reads_set i -> K v ∧ v ≠ d) ->
  fragment K (λ v, v = d) [i].
Proof.
  intros Hf Hd Hr. apply fragment_run; [done| | | |].
  - by intros ? ->%list_elem_of_singleton.
  - by intros ? ->%list_elem_of_singleton.
  - intros k j v [-> ->]%list_lookup_singleton_Some Hv. specialize (Hr v Hv). auto.
  - by intros k j [-> ->]%list_lookup_singleton_Some.
Qed.

(** ** The selector's sequences *)

Lemma vreg_form v : 0 <= v -> operand_form (vreg v) = true.
Proof. intros. by apply Z.leb_le. Qed.

(** The instructions that build a constant. *)
Lemma constChunks_insts value size d shifts : ∀ first,
  let '(l, first') := constChunks value size d shifts first in
  (∀ i, i ∈ l -> ∃ op imm sh, kind i = MoveWideInst op size d imm sh ∧ (op = MOVZ ∨ op = MOVK))
  ∧ (first = true -> ∀ i, l !! 0%nat = Some i -> ∃ imm sh, kind i = MoveWideInst MOVZ size d imm sh)
  ∧ (first' = false -> first = true -> l ≠ [])
  ∧ (first' = true -> first = true ∧ l = []).
Proof.
  induction shifts as [|sh shifts IH]; intros first; cbn [constChunks].
  { split_and!; [set_solver|done|congruence|done]. }
  destruct (_ =? 0); [apply IH|].
  specialize (IH false). destruct (constChunks _ _ _ _ false) as [l first'].
  destruct IH as (H1 & _ & _ & H4). split_and!; [|intros ->|done|by intros [? _]%H4].
  - intros i [->|Hi]%elem_of_cons; [|by apply H1].
    cbn. eexists (if first then MOVZ else MOVK), _, _. split; [done|]. destruct first; auto.
  - intros i [= <-]. cbn. eauto.
Qed.

Lemma wide_inst op size v imm sh i :
  kind i = MoveWideInst op size (vreg v) imm sh -> 0 <= v ->
  inst_form i = true ∧ def_of i = Some v
  ∧ reads_set i = (if bool_decide (op = MOVK) then {[v]} ∪ ∅ else ∅)
  ∧ ∀ w, uses w i = false.
Proof.
  intros E Hv. unfold inst_form, operands, def_of, reads_set, uses, getUsedVirtualRegisters.
  rewrite E. cbn. rewrite (proj2 (Z.leb_le 0 v)) by done.
  split_and!; [done..|by destruct op|]. intros w. by apply bool_decide_eq_false, not_elem_of_empty.
Qed.

Lemma fragment_const K t value v :
  0 <= v -> ¬ K v -> fragment K (λ w, w = v) (selectConstIntoRegister t value (vreg v)).
Proof.
  intros Hv HK. unfold selectConstIntoRegister.
  assert (∀ op x, op = MOVN ∨ op = MOV ->
    fragment K (λ w, w = v)
      [mkInstruction (TwoOperandInst op (irTypeToDataSize t) (vreg v) (Immediate x))]) as H1.
  { intros op x Hop. apply fragment_one; [|by destruct Hop; subst|].
    - unfold inst_form. cbn. by rewrite (proj2 (Z.leb_le 0 v)).
    - intros w Hw. exfalso. destruct Hop; subst; cbn in Hw; set_solver. }
  destruct (_ && _); [by auto|]. destruct (_ && _); [by auto|].
  pose proof (constChunks_insts (u64 value) (irTypeToDataSize t) (vreg v) [0; 16; 32; 48] true)
    as H. destruct (constChunks _ _ _ _ _) as [l first]. destruct H as (Hall & Hhd & Hne & Hnil).
  destruct first.
  - destruct (Hnil eq_refl) as [_ ->]. cbn [app].
    destruct (wide_inst MOVZ (irTypeToDataSize t) v 0 0 (mkInstruction
      (MoveWideInst MOVZ (irTypeToDataSize t) (vreg v) 0 0)) eq_refl Hv) as (? & ? & Er & _).
    apply fragment_one; [done..|]. rewrite Er. cbn. set_solver.
  - apply fragment_run; [by apply Hne| | | |].
    + intros i Hi. destruct (Hall i Hi) as (op & imm & sh & E & _). by eapply wide_inst.
    + intros i Hi. destruct (Hall i Hi) as (op & imm & sh & E & _). by eapply wide_inst.
    + intros k i w Hk Hw.
      destruct (Hall i ltac:(by eapply list_elem_of_lookup_2)) as (op & imm & sh & E & _).
      destruct (wide_inst _ _ _ _ _ _ E Hv) as (_ & _ & Er & _). rewrite Er in Hw.
      case_bool_decide as Hop; [|set_solver]. assert (w = v) as -> by set_solver.
      split; [right|by left]. split; [done|]. destruct k; [|lia].
      destruct (Hhd eq_refl i Hk) as (imm' & sh' & E'). congruence.
    + intros k i Hk Hu.
      destruct (Hall i ltac:(by eapply list_elem_of_lookup_2)) as (op & imm & sh & E & _).
      destruct (wide_inst _ _ _ _ _ _ E Hv) as (_ & _ & _ & Hu'). by rewrite Hu' in Hu.
Qed.

(** Which registers an instruction reads, and its form. *)
Ltac read_off :=
  unfold reads_set, vreg, Selector.X0, Selector.X30; cbn -[insert_vreg bool_decide];
  repeat first [ rewrite bool_decide_true by done | rewrite bool_decide_false by done ];
  rewrite ?elem_of_insert_vreg; intros Hread; destruct_or? Hread; simplify_eq;
  try (by apply not_elem_of_empty in Hread).

Ltac form_ok :=
  unfold inst_form; cbn; repeat match goal with
    | |- context [0 <=? ?v] => rewrite (proj2 (Z.leb_le 0 v)) by lia
    end; done.

Lemma fragment_target K t v : fragment K (λ _, False) (selectConstIntoRegister t v Selector.X0).
Proof.
  apply fragment_silent. intros i Hi. unfold selectConstIntoRegister in Hi.
  assert (∀ op x, op = MOVN ∨ op = MOV ->
    i = mkInstruction (TwoOperandInst op (irTypeToDataSize t) Selector.X0 (Immediate x)) ->
    inst_form i = true ∧ def_of i = None ∧ ∀ v, v ∈ reads_set i -> K v) as H1.
  { intros op x [-> | ->] ->; (split; [done|split; [done|]]); intros w; read_off. }
  destruct (_ && _); [apply list_elem_of_singleton in Hi; eauto|].
  destruct (_ && _); [apply list_elem_of_singleton in Hi; eauto|].
  assert (∃ op imm sh, kind i = MoveWideInst op (irTypeToDataSize t) Selector.X0 imm sh
            ∧ (op = MOVZ ∨ op = MOVK)) as (op & imm & sh & E & Hop).
  { pose proof (constChunks_insts (u64 v) (irTypeToDataSize t) Selector.X0 [0; 16; 32; 48] true)
      as H. destruct (constChunks _ _ _ _ _) as [l first]. destruct H as (Hall & _).
    destruct first; [|by apply Hall].
    apply elem_of_app in Hi as [Hi| ->%list_elem_of_singleton]; [by apply Hall|].
    eexists _, _, _. split; [reflexivity|auto]. }
  destruct i as [k]. cbn in E. subst k.
  split; [done|]. split; [done|]. intros w. destruct Hop; subst; read_off.
Qed.

Lemma fragment_translation (K : Z → Prop) guest n :
  0 <= n -> K guest -> (∀ v, K v -> v < n) -> 0 <= guest ->
  fragment K (λ v, v = n ∨ v = n + 1 ∨ v = n + 2) (translation guest n (n + 1) (n + 2)).
Proof.
  intros Hn Hg HK Hg0. unfold translation.
  pose proof (HK guest Hg) as Hgn.
  eapply (fragment_iff K K (λ v, (v = n + 1) ∨ (v = n + 2) ∨ v = n)); [done|intros; lia|].
  match goal with |- fragment _ _ [?a; ?b; ?c; ?d] => change [a; b; c; d] with ([a] ++ [b] ++ [c; d]) end.
  apply fragment_app; [apply fragment_one; [form_ok|done|intros v; read_off]| |].
  2:{ intros v Hv. split; [intros ?%HK|]; lia. }
  apply fragment_app; [apply fragment_one; [form_ok|done|intros v; read_off]| |].
  2:{ intros v ->. split; [intros [?%HK|?]|]; lia. }
  apply fragment_run; [done| | | |].
  - intros i [->|[->|?%not_elem_of_nil]%elem_of_cons]%elem_of_cons; [form_ok..|done].
  - intros i [->|[->|?%not_elem_of_nil]%elem_of_cons]%elem_of_cons; done.
  - intros k i v Hk. destruct k as [|[|k]]; cbn in Hk; simplify_eq; read_off;
      (split; [|auto]); try (right; split; [done|lia]); left; (split; [auto|lia]).
  - intros k i Hk Hu. destruct k as [|[|k]]; cbn in Hk; simplify_eq; [|done].
    revert Hu. unfold uses. rewrite bool_decide_eq_true. cbn -[insert_vreg].
    unfold vreg. rewrite !elem_of_insert_vreg. intros Hu. destruct_or? Hu; simplify_eq; [lia|lia|set_solver].
Qed.

(** ** Instructions *)

Definition ir_operands (k : ir.InstructionKind) : list Z :=
  match k with
  | ir.Const _ _ | ir.RegRead _ => []
  | ir.BinaryOp _ _ a b | ir.Store a b => [a; b]
  | ir.Sext _ a | ir.Zext _ a | ir.Trunc _ a | ir.Load _ a | ir.RegWrite _ a => [a]
  end.

Definition bounded (s : Selector.t) : Prop :=
  0 <= nextVirtualReg s
  ∧ ∀ id v, irToVReg s !! id = Some v -> 0 <= v < nextVirtualReg s.

(** Registers taken, and taken between two states. *)
Definition known (s : Selector.t) (v : Z) : Prop := 0 <= v < nextVirtualReg s.
Definition added (s s' : Selector.t) (v : Z) : Prop := nextVirtualReg s <= v < nextVirtualReg s'.

(** What selecting an instruction does to the selector, and its code. *)
Definition steps_to (s s' : Selector.t) (i : ir.Instruction) (l : list Instruction) : Prop :=
  fragment (known s) (added s s') l ∧ bounded s'
  ∧ nextVirtualReg s <= nextVirtualReg s' <= nextVirtualReg s + 4
  ∧ irToVReg s' = (if ir.produces_value (ir.kind i)
                   then <[ir.valueId i := nextVirtualReg s]> (irToVReg s) else irToVReg s).

Section instruction.
Context (s : Selector.t) (Hb : bounded s) (Hn : nextVirtualReg s + 4 < 2 ^ 32).

Abbreviation n := (nextVirtualReg s).

Lemma steps_value id k t l c :
  ir.produces_value k = true -> 1 <= c <= 4 ->
  fragment (known s) (λ v, n <= v < n + c) l ->
  steps_to s (assigned s id t c) (ir.mkInstruction id k) l.
Proof.
  intros Hk Hc Hf. destruct Hb as [H0 Hr]. split; [|split; [|split; [cbn; lia|]]].
  - done.
  - split; cbn; [lia|]. intros id' v [[<- <-]|[_ H]]%lookup_insert_Some; [lia|].
    apply Hr in H. lia.
  - cbn. by rewrite Hk.
Qed.

Lemma operand_known id t a :
  irToVReg s !! id = None -> is_Some (irToVReg s !! a) ->
  ∃ v, known s v ∧ getVirtualRegisterOrThrow a s = (Ok v, s)
    ∧ let s' := assigned s id t 1 in
      getVirtualRegisterOrThrow a s' = (Ok v, s').
Proof.
  intros Hid [v Hv]. exists v. split; [by apply Hb in Hv|]. split; [by apply run_getOrThrow|].
  apply run_getOrThrow. cbn. rewrite lookup_insert_ne; [done|congruence].
Qed.

Lemma run_result_new id t :
  irToVReg s !! id = None ->
  assignVirtualRegister id (mkSelector n (irToVReg s) (<[id := t]> (valueTypes s)))
  = (Ok n, assigned s id t 1).
Proof. intros. apply run_new; [done|apply Hb|lia]. Qed.

Lemma getType_ok a s' : ∃ t, getValueType a s' = (Ok t, s').
Proof. eexists. reflexivity. Qed.

Lemma fragment_new i :
  inst_form i = true -> def_of i = Some n -> (∀ v, v ∈ reads_set i -> known s v) ->
  fragment (known s) (λ v, n <= v < n + 1) [i].
Proof.
  intros Hf Hd Hr. eapply (fragment_iff (known s) _ (λ v, v = n)); [done|intros; lia|].
  apply fragment_one; [done..|]. intros v Hv. specialize (Hr v Hv). split; [done|].
  unfold known in Hr. lia.
Qed.

Ltac known_bounds := unfold known in *; repeat match goal with H : _ ∧ _ |- _ => destruct H end.

Lemma select_Const_fragment id t v l s' :
  irToVReg s !! id = None ->
  selectInstruction (ir.mkInstruction id (ir.Const t v)) s = (Ok l, s') ->
  steps_to s s' (ir.mkInstruction id (ir.Const t v)) l.
Proof.
  intros Hid. pose proof (proj1 Hb).
  unfold selectInstruction, selectConst. cbn [ir.kind ir.valueId]. run_state.
  rewrite run_result_new by done. intros [= <- <-]. apply steps_value; [done|lia|].
  eapply (fragment_iff (known s) _ (λ v, v = n)); [done|intros; lia|].
  apply fragment_const; [lia|unfold known; lia].
Qed.

Lemma select_BinaryOp_fragment id op t x y l s' :
  irToVReg s !! id = None -> is_Some (irToVReg s !! x) -> is_Some (irToVReg s !! y) ->
  selectInstruction (ir.mkInstruction id (ir.BinaryOp op t x y)) s = (Ok l, s') ->
  steps_to s s' (ir.mkInstruction id (ir.BinaryOp op t x y)) l.
Proof.
  intros Hid Hx Hy. pose proof (proj1 Hb).
  destruct (operand_known id t x Hid Hx) as (a & Ha & _ & Ga).
  destruct (operand_known id t y Hid Hy) as (b & Hb' & _ & Gb).
  unfold selectInstruction, selectBinaryOp. cbn [ir.kind ir.valueId]. run_state.
  rewrite run_result_new, Ga, Gb by done. known_bounds.
  destruct (comparisonCondition op) as [c|].
  - intros [= <- <-]. apply steps_value; [done|lia|].
    eapply (fragment_iff (known s) _ (λ v, False ∨ v = n)); [done|intros; lia|].
    match goal with |- fragment _ _ [?a; ?b] => change [a; b] with ([a] ++ [b]) end.
    apply fragment_app;
      [apply fragment_none; [form_ok|done|intros v; read_off; unfold known; lia]| |].
    + apply fragment_one; [form_ok|done|]. intros v; read_off.
    + intros v ->. unfold known. lia.
  - destruct (irBinaryOpToARM64 op) as [o|] eqn:Eo; [|done].
    intros [= <- <-]. apply steps_value; [done|lia|]. apply fragment_new; [|done|].
    + destruct op; cbn in Eo; simplify_eq; form_ok.
    + intros v; read_off; unfold known; lia.
Qed.

(** Conversions. *)
Lemma select_convert_fragment id k t x l s' :
  irToVReg s !! id = None -> is_Some (irToVReg s !! x) ->
  k = ir.Sext t x ∨ k = ir.Zext t x ∨ k = ir.Trunc t x ->
  selectInstruction (ir.mkInstruction id k) s = (Ok l, s') ->
  steps_to s s' (ir.mkInstruction id k) l.
Proof.
  intros Hid Hx Hk. pose proof (proj1 Hb).
  destruct (operand_known id t x Hid Hx) as (a & Ha & _ & Ga).
  assert (ir.produces_value k = true ∧ (
    selectInstruction (ir.mkInstruction id k) s = (Ok l, s') ->
    ∃ op, op ∈ [SXTB; SXTH; SXTW; UXTB; UXTH; MOV]
      ∧ l = [mkInstruction (TwoOperandInst op (irTypeToDataSize t) (vreg n) (vreg a))]
      ∧ s' = assigned s id t 1)) as [Hv Hcode].
  { destruct Hk as [->|[->| ->]]; (split; [done|]);
      unfold selectInstruction, selectSext, selectZext, selectTrunc, getValueType;
      cbn [ir.kind ir.valueId]; run_state; rewrite run_result_new, Ga by done;
      intros [= <- <-]; eexists; (split; [|done]);
      try destruct (default _ _); set_solver. }
  intros H'. destruct (Hcode H') as (op & Hop & -> & ->).
  apply steps_value; [done|lia|]. known_bounds.
  assert (op ≠ CMP) as Hne by (intros ->; set_solver).
  apply fragment_new; [form_ok| |].
  - by destruct op.
  - intros v; read_off; unfold known; lia.
Qed.

Lemma select_RegRead_fragment id r l s' :
  irToVReg s !! id = None ->
  selectInstruction (ir.mkInstruction id (ir.RegRead r)) s = (Ok l, s') ->
  steps_to s s' (ir.mkInstruction id (ir.RegRead r)) l.
Proof.
  intros Hid. pose proof (proj1 Hb).
  unfold selectInstruction, selectRegRead. cbn [ir.kind ir.valueId]. run_state.
  rewrite run_result_new by done. intros [= <- <-]. apply steps_value; [done|lia|].
  apply fragment_new; [form_ok|done|]. intros v; read_off.
Qed.

(** A load or a store through the host address in [m]; [D] is what the last
    instruction defines. *)
Lemma fragment_access (D : Z → Prop) guest m i :
  known s guest -> n <= m -> inst_form i = true ->
  fragment (λ v, known s v ∨ (v = m ∨ v = m + 1 ∨ v = m + 2)) D [i] ->
  (∀ v, D v -> n <= v < m) ->
  fragment (known s) (λ v, (v = m ∨ v = m + 1 ∨ v = m + 2) ∨ D v)
    (translation guest m (m + 1) (m + 2) ++ [i]).
Proof.
  intros Hg Hm Hi Hd HD. pose proof (proj1 Hb). known_bounds.
  apply fragment_app; [|done|].
  - apply fragment_translation; [lia|unfold known; lia|unfold known; intros; lia|lia].
  - intros v Hv%HD. unfold known. lia.
Qed.

Lemma select_Load_fragment id t x l s' :
  irToVReg s !! id = None -> is_Some (irToVReg s !! x) ->
  selectInstruction (ir.mkInstruction id (ir.Load t x)) s = (Ok l, s') ->
  steps_to s s' (ir.mkInstruction id (ir.Load t x)) l.
Proof.
  intros Hid Hx. pose proof (proj1 Hb).
  destruct (operand_known id t x Hid Hx) as (a & Ha & _ & Ga).
  unfold selectInstruction, selectLoad. cbn [ir.kind ir.valueId]. run_state.
  rewrite run_result_new, Ga by done. rewrite run_translation, taken_assigned by (cbn; lia).
  cbn [assigned nextVirtualReg]. intros [= <- <-]. apply steps_value; [done|lia|].
  eapply (fragment_iff (known s) _
    (λ v, (v = n + 1 ∨ v = n + 1 + 1 ∨ v = n + 1 + 2) ∨ v = n)); [done|intros; lia|].
  apply fragment_access; [done|lia|form_ok| |intros; lia].
  apply fragment_one; [form_ok|done|]. intros v; read_off. lia.
Qed.

Lemma select_Store_fragment id x y l s' :
  is_Some (irToVReg s !! x) -> is_Some (irToVReg s !! y) ->
  selectInstruction (ir.mkInstruction id (ir.Store x y)) s = (Ok l, s') ->
  steps_to s s' (ir.mkInstruction id (ir.Store x y)) l.
Proof.
  intros [a Ga] [b Gb]. pose proof (proj1 Hb).
  pose proof (proj2 Hb _ _ Ga). pose proof (proj2 Hb _ _ Gb).
  unfold selectInstruction, selectStore, getValueType. cbn [ir.kind ir.valueId]. run_state.
  rewrite (run_getOrThrow _ _ _ Ga), (run_getOrThrow _ _ _ Gb), run_translation by lia.
  intros [= <- <-]. split; [|split; [|split; [cbn; lia|done]]].
  - eapply (fragment_iff (known s) _ (λ v, (v = n ∨ v = n + 1 ∨ v = n + 2) ∨ False));
      [done|unfold added; cbn; intros; lia|].
    apply fragment_access; [done|lia|form_ok| |done].
    apply fragment_none; [form_ok|done|]. intros v; read_off; unfold known; lia.
  - split; cbn; [lia|]. intros id' v Hv. apply Hb in Hv. lia.
Qed.

Lemma select_RegWrite_fragment id r x l s' :
  is_Some (irToVReg s !! x) ->
  selectInstruction (ir.mkInstruction id (ir.RegWrite r x)) s = (Ok l, s') ->
  steps_to s s' (ir.mkInstruction id (ir.RegWrite r x)) l.
Proof.
  intros [a Ga]. pose proof (proj1 Hb). pose proof (proj2 Hb _ _ Ga).
  unfold selectInstruction, selectRegWrite. cbn [ir.kind ir.valueId]. run_state.
  rewrite (run_getOrThrow _ _ _ Ga). intros [= <- <-].
  split; [|split; [done|split; [lia|done]]].
  eapply (fragment_iff (known s) _ (λ v, False)); [done|unfold added; intros; lia|].
  apply fragment_none; [form_ok|done|]. intros v; read_off; unfold known; lia.
Qed.

Lemma select_fragment i l s' :
  irToVReg s !! ir.valueId i = None ->
  (∀ a, a ∈ ir_operands (ir.kind i) -> is_Some (irToVReg s !! a)) ->
  selectInstruction i s = (Ok l, s') -> steps_to s s' i l.
Proof.
  destruct i as [id k]. cbn [ir.valueId ir.kind]. intros Hid Ho.
  assert (∀ a b, ir_operands k = [a; b] -> is_Some (irToVReg s !! a) ∧ is_Some (irToVReg s !! b))
    as H2 by (intros a b E; rewrite E in Ho; split; apply Ho; set_solver).
  assert (∀ a, ir_operands k = [a] -> is_Some (irToVReg s !! a)) as H1
    by (intros a E; rewrite E in Ho; apply Ho; set_solver).
  destruct k; [|destruct (H2 _ _ eq_refl)| | | | |destruct (H2 _ _ eq_refl)| |].
  - by apply select_Const_fragment.
  - by apply select_BinaryOp_fragment.
  - eapply select_convert_fragment; eauto.
  - eapply select_convert_fragment; eauto.
  - eapply select_convert_fragment; eauto.
  - apply select_Load_fragment; auto.
  - by apply select_Store_fragment.
  - by apply select_RegRead_fragment.
  - apply select_RegWrite_fragment; auto.
Qed.

End instruction.

(** ** Blocks *)

Section block.
Context (mapped : Z → bool).

(** The values defined so far. *)
Definition same_values (s : Selector.t) (E : irsem.env) : Prop :=
  ∀ id, is_Some (irToVReg s !! id) ↔ is_Some (E !! id).

Lemma step_values i st st' s :
  irsem.step mapped i st = Some st' -> same_values s (irsem.venv st) ->
  (∀ a, a ∈ ir_operands (ir.kind i) -> is_Some (irToVReg s !! a))
  ∧ if ir.produces_value (ir.kind i)
    then ∃ x, irsem.venv st' = <[ir.valueId i := x]> (irsem.venv st)
    else irsem.venv st' = irsem.venv st.
Proof.
  intros Hst Hs. destruct i as [id k]. cbn [ir.valueId ir.kind].
  destruct k; cbn in Hst; inv_sem; cbn [ir_operands ir.produces_value irsem.venv];
    (split; [|by eauto]); intros a Ha; apply Hs; set_unfold in Ha; destruct_or?; simplify_eq; eauto.
Qed.

Lemma fragment_instructions l : ∀ s st st' ls s',
  bounded s -> nextVirtualReg s + 4 * Z.of_nat (length l) < 2 ^ 32 ->
  same_values s (irsem.venv st) -> irsem.run mapped l st = Some st' ->
  NoDup (ir.valueId <$> l) -> (∀ i, i ∈ l -> irsem.venv st !! ir.valueId i = None) ->
  mapM_state selectInstruction l s = (Ok ls, s') ->
  fragment (known s) (added s s') (concat ls) ∧ bounded s'
  ∧ nextVirtualReg s <= nextVirtualReg s' <= nextVirtualReg s + 4 * Z.of_nat (length l)
  ∧ same_values s' (irsem.venv st').
Proof.
  induction l as [|i l IH]; intros s st st' ls s' Hb Hn Hs Hrun Hnd Hid Hsel.
  { cbv [mapM_state mret stateM_ret] in Hsel. cbn in Hrun. simplify_eq. split; [|split; [done|split; [lia|done]]].
    eapply (fragment_iff (known s') _ (λ _, False)); [done|unfold added; intros; lia|].
    apply fragment_nil. }
  cbn [mapM_state irsem.run length] in *. apply bind_Some in Hrun as (st1 & Hst & Hrun).
  apply run_bind_Ok in Hsel as (l1 & s1 & Hl1 & Hsel).
  apply run_bind_Ok in Hsel as (ls' & s2 & Hls & [= <- <-]).
  rewrite fmap_cons in Hnd. apply NoDup_cons in Hnd as [Hni Hnd].
  destruct (step_values _ _ _ s Hst Hs) as [Hops Hv].
  assert (irToVReg s !! ir.valueId i = None) as Hf.
  { apply eq_None_not_Some. rewrite (Hs (ir.valueId i)), Hid by (by left).
    by intros [? ?]. }
  destruct (select_fragment s Hb ltac:(lia) i l1 s1 Hf Hops Hl1) as (F1 & Hb1 & Hn1 & Hm).
  destruct (IH s1 st1 st' ls' s2 Hb1) as (F2 & Hb2 & Hn2 & Hs2); [lia| |done|done| |done|].
  - intros id. rewrite Hm. destruct (ir.produces_value (ir.kind i)).
    + destruct Hv as [x ->]. rewrite !lookup_insert_is_Some'. by rewrite (Hs id).
    + rewrite Hv. apply Hs.
  - intros j Hj. rewrite (step_venv _ _ _ _ _ Hst); [apply Hid; by right|].
    intros E. apply Hni. rewrite <- E. apply list_elem_of_fmap. eauto.
  - split; [|split; [done|split; [lia|done]]].
    eapply (fragment_iff (known s) _ (λ v, added s s1 v ∨ added s1 s2 v));
      [done|unfold added; intros; lia|].
    cbn [concat]. apply fragment_app; [done| |unfold added, known; intros; lia].
    eapply fragment_iff; [|done|exact F2]. unfold known, added. intros; lia.
Qed.
End block.

(** The condition under which the two pseudo values of a conditional branch are
    new: the counter of registers, from which they are taken, has passed every
    id of the block. *)
Definition ids_below (s : Selector.t) : Prop :=
  ∀ id, is_Some (irToVReg s !! id) -> id < nextVirtualReg s.

Lemma run_pseudo_new s id :
  bounded s -> ids_below s -> nextVirtualReg s + 2 < 2 ^ 32 -> id = nextVirtualReg s ->
  let s' := mkSelector (id + 2) (<[id := id + 1]> (irToVReg s)) (valueTypes s) in
  assignVirtualRegister id (taken s 1) = (Ok (id + 1), s')
  ∧ assignVirtualRegister id s' = (Ok (id + 1), s')
  ∧ bounded s' ∧ ids_below s'.
Proof.
  intros [H0 Hb] Hid Hn -> s'. set (n := nextVirtualReg s) in *.
  assert (irToVReg s !! n = None) as Hf.
  { apply eq_None_not_Some. intros H%Hid. fold n in H. lia. }
  split; [|split; [|split; [split|]]].
  - rewrite run_assign by (cbn; fold n; done || lia). cbn. fold n. unfold s'.
    by rewrite <- Z.add_assoc.
  - unfold assignVirtualRegister. run_state. unfold s'. cbn. by rewrite lookup_insert_eq.
  - unfold s'. cbn. lia.
  - unfold s'. cbn. intros id v [[<- <-]|[_ H]]%lookup_insert_Some; [lia|].
    apply Hb in H. fold n in H. lia.
  - unfold s'. intros id. cbn. rewrite lookup_insert_is_Some'. intros [<-|H%Hid]; [lia|]. fold n in H. lia.
Qed.

(** ** Terminators *)

Lemma ret_silent : inst_form ret = true ∧ def_of ret = None ∧ ∀ v, ¬ v ∈ reads_set ret.
Proof. split; [done|]. split; [done|]. intros v. read_off. Qed.

(** A value moved to X0, and the return. *)
Lemma fragment_result (K : Z → Prop) x :
  K x -> 0 <= x ->
  fragment K (λ _, False)
    [mkInstruction (TwoOperandInst MOV Size_X Selector.X0 (vreg x)); ret].
Proof.
  intros Hx H0. apply fragment_silent.
  intros i [->|[->|?%not_elem_of_nil]%elem_of_cons]%elem_of_cons; [| |done].
  - split; [form_ok|]. split; [done|]. intros v; read_off. done.
  - destruct ret_silent as (? & ? & Hr). split; [done|]. split; [done|]. by intros v ?%Hr.
Qed.

Lemma fragment_branch (K : Z → Prop) x n t f :
  K x -> 0 <= x -> (∀ v, K v -> v < n) -> 0 <= n ->
  ∃ D : Z → Prop, (∀ v, D v -> ¬ K v)
    ∧ fragment K D (branch_code x (n + 1) (n + 3) (n + 4) t f).
Proof.
  intros Hx Hx0 HK Hn.
  exists (λ v, False ∨ v = n + 1 ∨ v = n + 3 ∨ v = n + 4 ∨ False).
  split; [intros v Hv Hk%HK; destruct_or? Hv; lia|]. unfold branch_code.
  match goal with |- fragment _ _ (_ ++ _ ++ _ ++ [?a; ?b; ?c]) =>
    change [a; b; c] with ([a] ++ [b; c]) end.
  apply fragment_app; [apply fragment_none; [form_ok|done|intros v; read_off; done]| |].
  - apply fragment_app; [apply fragment_const; [lia|intros [?%HK|[]]; lia]| |].
    + apply fragment_app; [apply fragment_const; [lia|intros [[?%HK|[]]| ?]; lia]| |].
      * apply fragment_app; [apply fragment_one; [form_ok|done|]| |].
        -- intros v; read_off; (split; [auto|lia]).
        -- apply fragment_result; [auto|lia].
        -- intros v [].
      * intros v [->|[]]. split; [|lia]. intros [[?%HK|[]]|?]; lia.
    + intros v [->|[->|[]]]; (split; [intros [?%HK|[]]|]; lia).
  - intros v [->|[->|[->|[]]]]; (split; [intros ?%HK; lia|intros []]).
Qed.

Lemma run_CondBranch_new s c t f x :
  bounded s -> ids_below s -> nextVirtualReg s + 5 < 2 ^ 32 ->
  irToVReg s !! c = Some x ->
  let n := nextVirtualReg s in
  ∃ s', selectCondBranch c t f s = (Ok (branch_code x (n + 1) (n + 3) (n + 4) t f), s').
Proof.
  intros Hb Hid Hn Hx n. pose proof (proj1 Hb) as H0. fold n in H0, Hn.
  destruct (run_pseudo_new s n Hb Hid ltac:(fold n; lia) eq_refl) as (A1 & A1' & Hb1 & Hid1).
  destruct (run_pseudo_new _ (n + 2) Hb1 Hid1 ltac:(cbn; lia) eq_refl) as (A2 & A2' & _).
  unfold selectCondBranch, selectConst. cbv [mbind stateM_bind mret stateM_ret].
  rewrite (run_getOrThrow _ _ _ Hx).
  rewrite run_fresh by (fold n; lia). fold n. rewrite A1, A1'.
  rewrite run_fresh by (cbn; lia). cbn [nextVirtualReg]. rewrite A2, A2'.
  rewrite run_fresh by (cbn; lia). cbn [nextVirtualReg]. rewrite <- !Z.add_assoc.
  by eexists.
Qed.

Definition is_CondBranch (t : ir.Terminator) : bool :=
  match t with ir.CondBranch _ _ _ => true | _ => false end.

(** A constant moved to X0, and the return. *)
Lemma fragment_goto K v :
  fragment K (λ _, False) (selectConstIntoRegister ir.i64 v Selector.X0 ++ [ret]).
Proof.
  eapply (fragment_iff K K (λ _, False ∨ False)); [done|naive_solver|].
  apply fragment_app; [apply fragment_target| |done].
  apply fragment_silent. intros i ->%list_elem_of_singleton.
  destruct ret_silent as (? & ? & Hr). split; [done|]. split; [done|]. by intros ? ?%Hr.
Qed.

Lemma fragment_terminator s E t pc l s' :
  bounded s -> nextVirtualReg s + 5 < 2 ^ 32 -> same_values s E ->
  (is_CondBranch t = true -> ids_below s) -> irsem.next_pc t E = Some pc ->
  selectTerminator t s = (Ok l, s') ->
  ∃ D : Z → Prop, (∀ v, D v -> ¬ known s v) ∧ fragment (known s) D l.
Proof.
  intros Hb Hn Hs Hid Hpc H.
  assert (∀ a, is_Some (E !! a) -> ∃ x, irToVReg s !! a = Some x ∧ known s x) as Hv.
  { intros a [x Hx]%Hs. exists x. split; [done|]. by apply Hb in Hx. }
  destruct t as [b|c t f|[v|]]; cbn in Hpc; inv_sem.
  - injection H as <- <-. exists (λ _, False). split; [done|apply fragment_goto].
  - destruct (Hv c) as (x & Hx & Hk); [by eexists|].
    destruct (run_CondBranch_new s c t f x Hb (Hid eq_refl) Hn Hx) as (s2 & E2).
    cbn [selectTerminator] in H. rewrite E2 in H. injection H as <- _.
    apply fragment_branch; [done|apply Hk|intros ? Hw; apply Hw|apply Hb].
  - destruct (Hv v) as (x & Hx & Hk); [by eexists|]. cbn [selectTerminator] in H.
    revert H. run_state. rewrite (run_getOrThrow _ _ _ Hx). intros [= <- _].
    exists (λ _, False). split; [done|]. apply fragment_result; [done|apply Hk].
  - injection H as <- <-. exists (λ _, False). split; [done|].
    exact (fragment_goto (known s) 0).
Qed.

(** ** Fragments are tidy *)

Lemma reads_defined_intro l : ∀ D,
  (∀ k i v, l !! k = Some i -> v ∈ reads_set i ->
     v ∈ D ∨ ∃ j i', (j < k)%nat ∧ l !! j = Some i' ∧ def_of i' = Some v) ->
  reads_defined D l = true.
Proof.
  induction l as [|x l IH]; intros D H; [done|]. cbn. apply andb_true_iff. split.
  - apply bool_decide_eq_true. intros v Hv.
    destruct (H 0%nat x v eq_refl Hv) as [|(j & ? & ? & _)]; [done|lia].
  - apply IH. intros k i v Hk Hv.
    destruct (H (S k) i v Hk Hv) as [?|([|j] & i' & Hj & Hi & Hd)]; [left; set_solver| |].
    + cbn in Hi. simplify_eq. left. apply def_of_spec in Hd. set_solver.
    + right. exists j, i'. split; [lia|done].
Qed.

Lemma fragment_tidy D l : fragment (λ _, False) D l -> tidy l = true.
Proof.
  intros F.
  assert (∀ a, a ∈ intervals l ->
    (∃ i, l !! start a = Some i ∧ def_of i = Some (virtualRegister a))
    ∧ ∃ i, l !! end_ a = Some i
           ∧ (uses (virtualRegister a) i = true ∨ def_of i = Some (virtualRegister a) ∧ end_ a = start a))
    as Hiv.
  { intros a Ha. apply elem_of_intervals in Ha as (v & d & Hd & ->); [|done].
    apply last_def_Some in Hd as [Hdef _].
    cbn [end_ start virtualRegister interval_for]. split; [done|].
    destruct (use_positions l v) as [|p ps] eqn:E; [destruct Hdef as (i & ? & ?); eauto|].
    assert (max_element (p :: ps) ∈ use_positions l v) as Hin
      by (rewrite E; by apply max_element_in).
    apply elem_of_positions in Hin as (k & i & Hk & Hu & ->). eauto. }
  unfold tidy. rewrite !andb_true_iff. split; [split; [split|]|].
  - apply forallb_forall. intros i Hi%list_elem_of_In. by apply F.
  - apply reads_defined_intro. intros k i v Hk Hv. right.
    by destruct (fr_read _ _ _ F k i v Hk Hv).
  - apply forallb_forall. intros a Ha%list_elem_of_In. apply Nat.leb_le.
    destruct (Hiv a Ha) as [(i & Hi & Hd) (i' & Hi' & [Hu|[_ ->]])]; [|done].
    by eapply (fr_last _ _ _ F).
  - apply forallb_forall. intros a Ha%list_elem_of_In.
    apply forallb_forall. intros b Hb%list_elem_of_In.
    unfold clear_of. rewrite !orb_true_iff, bool_decide_eq_true, Nat.leb_le, forallb_forall.
    destruct (decide (virtualRegister a = virtualRegister b)) as [|Hne]; [by auto|].
    destruct (le_lt_dec (start a) (end_ b)) as [|Hlt]; [by auto|]. right.
    intros f Hf%list_elem_of_In. apply Nat.leb_le.
    apply elem_of_positions in Hf as (k & i & Hk & Hd%bool_decide_eq_true%def_of_spec & ->).
    destruct (le_lt_dec (end_ b) k) as [|Hlt']; [done|]. exfalso. apply Hne.
    destruct (Hiv a Ha) as [(i1 & Hi1 & Hd1) _]. destruct (Hiv b Hb) as [_ (i2 & Hi2 & Hu)].
    symmetry. eapply (fr_between _ _ _ F k (end_ b) (start a)); [exact Hk|exact Hi2|exact Hi1|lia|done..|].
    destruct Hu as [Hu|[Hu _]]; [left; by apply uses_reads|by right].
Qed.

(** ** Properties *)

(** No pseudo value of a conditional branch is the id of a value. *)
Definition exits_plainly (b : ir.BasicBlock) : bool :=
  let '(_, s) := mapM_state selectInstruction (ir.instructions b) new in
  negb (is_CondBranch (ir.terminator b))
  || bool_decide (map_Forall (λ id _, id < nextVirtualReg s) (irToVReg s)).

Lemma exits_plainly_spec b ls s :
  exits_plainly b = true -> mapM_state selectInstruction (ir.instructions b) new = (Ok ls, s) ->
  is_CondBranch (ir.terminator b) = true -> ids_below s.
Proof.
  unfold exits_plainly. intros He Hs Hc. rewrite Hs, Hc in He.
  apply bool_decide_eq_true in He. intros id [v Hv]. by apply (He id v).
Qed.

Lemma selected_fragment b mapped R m r l s' :
  selectable b -> exits_plainly b = true -> irsem.run_block mapped b R m = Some r ->
  selectInstructions b new = (Ok l, s') -> ∃ D, fragment (λ _, False) D l.
Proof.
  intros (_ & Hnd & Hlen) Hplain Hr Hsel. unfold irsem.run_block in Hr.
  apply bind_Some in Hr as (st & Hrun & Hr). apply bind_Some in Hr as (pc & Hpc & _).
  unfold selectInstructions in Hsel. apply run_bind_Ok in Hsel as (ls & s1 & Hls & Hsel).
  apply run_bind_Ok in Hsel as (lt & s2 & Hlt & [= <- <-]).
  destruct (fragment_instructions mapped (ir.instructions b) new (irsem.mkState ∅ R m) st ls s1)
    as (F1 & Hb1 & Hn1 & Hs1); try done.
  { change (nextVirtualReg new) with 0. lia. }
  { intros id. by split; intros [? [=]]. }
  change (nextVirtualReg new) with 0 in *.
  destruct (fragment_terminator s1 (irsem.venv st) (ir.terminator b) pc lt s2)
    as (D & HD & F2); [done|lia|done|by eapply exits_plainly_spec|done..|].
  exists (λ v, added new s1 v ∨ D v).
  apply (fragment_iff (known new) _ (λ v, added new s1 v ∨ D v)).
  { unfold known. change (nextVirtualReg new) with 0. intros; lia. }
  { done. }
  assert (∀ v, known s1 v ↔ added new s1 v) as Hk.
  { intros v. unfold known, added. by change (nextVirtualReg new) with 0. }
  apply fragment_app; [done| |].
  - eapply fragment_iff; [|done|exact F2]. intros v Hv%Hk. by right.
  - intros v Hv%HD. rewrite <- Hk. split; [|done]. unfold known.
    change (nextVirtualReg new) with 0. lia.
Qed.

(** C10: the code selected for a block in SSA form that has a meaning is tidy, so
    that register allocation preserves what it does, provided the selector's
    pseudo values for the targets of a conditional branch do not collide with
    values of the block. *)
Theorem selectInstructions_tidy b mapped R m r l s' :
  selectable b -> exits_plainly b = true -> irsem.run_block mapped b R m = Some r ->
  selectInstructions b new = (Ok l, s') -> tidy l = true.
Proof.
  intros Hb Hp Hr Hl. destruct (selected_fragment b mapped R m r l s' Hb Hp Hr Hl) as [D F].
  by eapply fragment_tidy.
Qed.

Lemma selectInstructions_tidy_witness :
  ∃ l s', selectInstructions sample_block new = (Ok l, s') ∧ tidy l = true.
Proof.
  eassert (selectInstructions sample_block new = (Ok _, _)) as Hl by (vm_compute; reflexivity).
  eexists _, _. split; [exact Hl|].
  eapply (selectInstructions_tidy sample_block sample_guest {[10 := 0x2008]} ∅); [| | |exact Hl].
  - split; [|split; [|vm_compute; reflexivity]]; apply (bool_decide_unpack _); vm_compute; exact I.
  - vm_compute. reflexivity.
  - vm_compute. reflexivity.
Defined.
