(* ===== verification/SelectorEncodable.v ===== *)
(** * Selected code can be encoded

    For IR blocks without the operations the encoder has wrong or refuses
    (exclusive or, logical shift right, division and remainder, and zero
    extension, which UXTB and UXTH would need), the code the selector emits is
    within what the encoder encodes as meant, also after register allocation. *)
From S2P Require Import Prelude Error IR Machine IRSemantics.
From S2P Require Import Arm64 Encoder GuestState InstructionSelector.
From S2P Require Import Arm64Meaning EncoderCorrect AllocatorCorrect MachineCode SelectedCode.
From S2P Require Import SelectorCorrect.
Import arm64 Selector.

Definition translatable (k : ir.InstructionKind) : bool :=
  irsem.in_form k && irsem.plain_kind k.

Lemma is_reg_rename alloc o : is_reg (rename_operand alloc o) = is_reg o.
Proof. by destruct o. Qed.

Lemma encodable_rename alloc i : encodable (rename alloc i) = encodable i.
Proof.
  unfold encodable, rename. destruct i as [[]]; cbn [kind]; rewrite ?is_reg_rename; try done.
  destruct opcode, src; done.
Qed.

Lemma encodable_chunks value size d shifts : ∀ first,
  is_reg d = true -> Forall (λ sh, sh ∈ [0; 16; 32; 48]) shifts ->
  is64 size = true ∨ 0 <= value < 2 ^ 32 ->
  Forall (λ i, encodable i = true) (constChunks value size d shifts first).1.
Proof.
  induction shifts as [|sh shifts IH]; intros first Hd Hs Hv; cbn [constChunks]; [constructor|].
  apply Forall_cons in Hs as [Hsh Hs].
  destruct (Z.eqb_spec (u16 ((value >>. sh) &. 0xFFFF)) 0) as [|Hc]; [by apply IH|].
  specialize (IH false Hd Hs Hv). destruct (constChunks _ _ _ _ false) as [l f].
  cbn [fst] in *. constructor; [|done]. unfold encodable. cbn [kind].
  rewrite Hd. rewrite !bool_decide_true; [| |by apply uint_range|by destruct first; set_solver].
  2:{ rewrite uint_small; [done|]. unfold in_u. set_unfold. destruct_or?; lia. }
  cbn [andb]. destruct Hv as [->|Hv]; [done|]. apply orb_true_iff. right. apply Z.ltb_lt.
  rewrite uint_small by (unfold in_u; set_unfold; destruct_or?; lia).
  destruct (Z.lt_ge_cases sh 32) as [|Hge]; [done|]. destruct Hc.
  rewrite (Z.shiftr_div_pow2 value sh) by lia. rewrite Z.div_small; [done|].
  assert (2 ^ 32 <= 2 ^ sh) by (by apply Z.pow_le_mono_r). lia.
Qed.

Lemma encodable_const t v d :
  is_reg d = true -> irsem.in_form (ir.Const t v) = true ->
  Forall (λ i, encodable i = true) (selectConstIntoRegister t v d).
Proof.
  intros Hd [Hv%bool_decide_eq_true Ht]%andb_true_iff. unfold selectConstIntoRegister.
  destruct ((v <? 0) && (-65536 <=? v)) eqn:Hneg;
    [|destruct ((0 <=? v) && (v <=? 0xFFFF)) eqn:Hpos].
  - split_and_true. constructor; [|done]. unfold encodable. cbn. rewrite Hd. cbn.
    assert (0 <= Z.lnot v <= 0xFFFF) as Hl by (unfold Z.lnot; lia).
    rewrite uint_small by (unfold in_u; lia).
    by rewrite (proj2 (Z.leb_le _ _) (proj1 Hl)), (proj2 (Z.leb_le _ _) (proj2 Hl)).
  - split_and_true. constructor; [|done]. unfold encodable. cbn. rewrite Hd. cbn.
    rewrite uint_small by (unfold in_u; lia).
    by rewrite !(proj2 (Z.leb_le _ _)) by lia.
  - pose proof (encodable_chunks (u64 v) (irTypeToDataSize t) d [0; 16; 32; 48] true Hd) as Hch.
    destruct (constChunks _ _ _ _ _) as [l first]. cbn [fst] in Hch.
    assert (Forall (λ i, encodable i = true) l) as Hl.
    { apply Hch; [repeat constructor; set_solver|].
      apply orb_true_iff in Ht as [->%bool_decide_eq_true|[_ Ht]%bool_decide_eq_true]; [by left|].
      right. rewrite uint_small; [lia|]. unfold in_u. lia. }
    destruct first; [|done]. apply Forall_app. split; [done|]. constructor; [|done].
    unfold encodable. cbn [kind]. rewrite Hd. by rewrite orb_true_r.
Qed.

(** ** Instructions *)

Abbreviation all_encodable := (Forall (λ i, encodable i = true)).

Lemma encodable_translation a b c d : all_encodable (translation a b c d).
Proof. repeat constructor. Qed.

Lemma encodable_access op t r h :
  op = LDR ∨ op = STR ->
  encodable (mkInstruction (MemoryInst op (irTypeToDataSize t) (vreg r) (vreg h) 0)) = true.
Proof. intros [-> | ->]; by destruct t. Qed.

Lemma encodable_cell op v r :
  op = LDR ∨ op = STR -> 0 <= r < 32 ->
  encodable (mkInstruction (MemoryInst op Size_X (vreg v) Selector.X0 (registerOffset r))) = true.
Proof.
  intros Hop Hr. rewrite registerOffset_small by done. unfold encodable. cbn [kind].
  rewrite scaled_register by done. unfold GuestState.offset_x.
  rewrite (proj2 (Z.leb_le _ _)) by lia. by destruct Hop; subst.
Qed.

(** Undo the binds of a selection that succeeds. *)
Ltac inv_select H :=
  repeat match type of H with
    | (_ ≫= _) _ = (Ok _, _) =>
        let x := fresh "x" in let s := fresh "s" in let E := fresh "E" in
        apply run_bind_Ok in H as (x & s & E & H)
    end.

Ltac inv_single H :=
  injection H as <- _;
  match goal with E : _ = (Ok ?x, _) |- all_encodable [?x] => rename E into H end.

Lemma translation_inv s guest l h s' :
  generateAddressTranslation guest s = (Ok (l, h), s') ->
  ∃ b c, l = translation guest h b c.
Proof.
  unfold generateAddressTranslation. intros H. inv_select H. injection H as <- <- <-. eauto.
Qed.

Lemma select_encodable i s l s' :
  selectInstruction i s = (Ok l, s') -> translatable (ir.kind i) = true -> all_encodable l.
Proof.
  intros H [Hf Hk]%andb_true_iff. destruct i as [id k]. cbn [ir.kind] in Hf, Hk.
  unfold irsem.plain_kind in Hk.
  unfold selectInstruction in H. cbn [ir.kind ir.valueId] in H.
  destruct k; try discriminate Hk; unfold single in H; inv_select H.
  - unfold selectConst in H. inv_select H. injection H as <- _. by apply encodable_const.
  - apply bool_decide_eq_true in Hk. unfold selectBinaryOp in H. inv_select H.
    destruct (comparisonCondition opcode) as [c|].
    + injection H as <- _. repeat constructor.
    + inv_select H. injection H as <- _. constructor; [|done].
      match goal with H : lift _ _ = _ |- _ => injection H as Ho _ end.
      destruct opcode; cbn in Ho; simplify_eq; try done; exfalso; set_solver.
  - inv_single H. unfold selectSext in H. inv_select H. injection H as <- _.
    constructor; [|done]. by case_match.
  - inv_single H. unfold selectTrunc in H. inv_select H. injection H as <- _.
    by constructor.
  - unfold selectLoad in H. inv_select H.
    match goal with p : list Instruction * Z |- _ => destruct p as [lt h] end.
    injection H as <- _.
    match goal with E : generateAddressTranslation _ _ = _ |- _ =>
      apply translation_inv in E as (b & c & ->) end.
    apply Forall_app. split; [apply encodable_translation|].
    constructor; [|done]. apply encodable_access. auto.
  - unfold selectStore in H. inv_select H.
    match goal with p : list Instruction * Z |- _ => destruct p as [lt h] end.
    injection H as <- _.
    match goal with E : generateAddressTranslation _ _ = _ |- _ =>
      apply translation_inv in E as (b & c & ->) end.
    apply Forall_app. split; [apply encodable_translation|].
    constructor; [|done]. apply encodable_access. auto.
  - inv_single H. unfold selectRegRead in H. inv_select H. injection H as <- _.
    apply bool_decide_eq_true in Hf. constructor; [|done]. apply encodable_cell; auto.
  - inv_single H. unfold selectRegWrite in H. inv_select H. injection H as <- _.
    apply bool_decide_eq_true in Hf. constructor; [|done]. apply encodable_cell; auto.
Qed.

Lemma ret_encodable : encodable ret = true.
Proof. done. Qed.

Lemma selectConst_encodable t v id s l s' :
  selectConst t v id s = (Ok l, s') -> irsem.in_form (ir.Const t v) = true -> all_encodable l.
Proof.
  unfold selectConst. intros H. inv_select H. injection H as <- _. by apply encodable_const.
Qed.

Lemma terminator_encodable t s l s' :
  selectTerminator t s = (Ok l, s') -> all_encodable l.
Proof.
  intros H. destruct t as [b|c t f|[v|]]; cbn [selectTerminator] in H.
  - injection H as <- _. apply Forall_app. split; [|by constructor].
    apply encodable_const; [done|apply in_form_target].
  - unfold selectCondBranch in H. inv_select H. injection H as <- _.
    repeat match goal with E : selectConst _ _ _ _ = _ |- _ =>
      apply selectConst_encodable in E; [|apply in_form_target] end.
    constructor; [done|]. rewrite !Forall_app. do 2 (split; [done|]). by repeat constructor.
  - inv_select H. injection H as <- _. by repeat constructor.
  - injection H as <- _. by repeat constructor.
Qed.

Lemma instructions_encodable l : ∀ s ls s',
  mapM_state selectInstruction l s = (Ok ls, s') ->
  Forall (λ i, translatable (ir.kind i) = true) l -> all_encodable (concat ls).
Proof.
  induction l as [|i l IH]; intros s ls s' H Ht; cbn [mapM_state] in H.
  { injection H as <- _. constructor. }
  apply Forall_cons in Ht as [Hi Ht]. inv_select H. injection H as <- _.
  cbn [concat]. apply Forall_app. split; [by eapply select_encodable|by eapply IH].
Qed.

Lemma selected_encodable b s l s' :
  selectInstructions b s = (Ok l, s') ->
  Forall (λ i, translatable (ir.kind i) = true) (ir.instructions b) -> all_encodable l.
Proof.
  unfold selectInstructions. intros H Ht. inv_select H. injection H as <- _.
  apply Forall_app. split; [by eapply instructions_encodable|by eapply terminator_encodable].
Qed.
