(* ===== verification/SelectorErrors.v ===== *)
(** * The exceptions of the selector

    Whatever block it is given, the selector throws nothing but
    [LoweringError]. *)
From S2P Require Import Prelude Error IR Arm64 GuestState InstructionSelector.
Import Selector.

Definition is_lowering (e : Error) : Prop := ∃ msg, e = LoweringError msg.

Lemma throws_getOrThrow v : throws_only is_lowering (getVirtualRegisterOrThrow v).
Proof.
  unfold getVirtualRegisterOrThrow, getVirtualRegister. repeat throws_step.
  apply throws_throw. by eexists.
Qed.

Lemma throws_assign v : throws_only is_lowering (assignVirtualRegister v).
Proof. unfold assignVirtualRegister, getVirtualRegister, freshVirtualReg. repeat throws_step. Qed.

Lemma throws_binop op :
  ∀ e, irBinaryOpToARM64 op = Err e -> is_lowering e.
Proof. destruct op; cbn; intros e [= <-]; by eexists. Qed.

Ltac selector_step :=
  first
    [ apply throws_getOrThrow | apply throws_assign
    | apply throws_lift, throws_binop | throws_step ].

Lemma selectInstruction_throws i : throws_only is_lowering (selectInstruction i).
Proof.
  unfold selectInstruction, selectBinaryOp, selectLoad, selectStore, selectConst,
    selectSext, selectZext, selectTrunc, selectRegRead, selectRegWrite, single,
    generateAddressTranslation, recordValueType, getValueType, freshVirtualReg.
  repeat selector_step.
Qed.

Lemma selectTerminator_throws t : throws_only is_lowering (selectTerminator t).
Proof.
  unfold selectTerminator, selectCondBranch, selectConst, freshVirtualReg.
  repeat selector_step.
Qed.

Lemma selectInstructions_throws b : throws_only is_lowering (selectInstructions b).
Proof.
  unfold selectInstructions. apply throws_state_bind.
  - apply throws_mapM. intros i _. apply selectInstruction_throws.
  - intros l. apply throws_state_bind; [apply selectTerminator_throws|].
    intros k. apply throws_ret.
Qed.
