(* ===== verification/TranslatorCorrect.v ===== *)
(** * The driver: what the translator can do and what it can throw

    Exceptions of every stage on the path from bytes to machine code, the
    dispatch loop as an execution of blocks, the guest's arguments and result. *)
From S2P Require Import Prelude Error Riscv Decoder RiscvEncoding DecoderCorrect IR Lifter.
From S2P Require Import Arm64 Encoder A64 EncoderCorrect GuestState InstructionSelector.
From S2P Require Import SelectorErrors Liveness LivenessCorrect RegisterAllocator.
From S2P Require Import AllocatorCorrect ELFReader ExecutionEngine BinaryTranslator.

(** ** Exceptions of the lifter *)

Definition is_unsupported (e : Error) : Prop :=
  ∃ msg, e = UnsupportedInstructionError msg.

Lemma throws_reg P i n v :
  riscv.operands i !! n = Some (riscv.Register v) -> throws_only P (Lifter.reg i n).
Proof. intros H. apply throws_lift. by rewrite (riscv.getRegister_Ok _ _ _ H). Qed.

Lemma throws_imm P i n v :
  riscv.operands i !! n = Some (riscv.Immediate v) -> throws_only P (Lifter.imm i n).
Proof. intros H. apply throws_lift. by rewrite (riscv.getImmediate_Ok _ _ _ H). Qed.

Lemma throws_unsupported {A} i : throws_only is_unsupported (Lifter.unsupported i : Lifter.M A).
Proof. apply throws_throw. by eexists. Qed.

Lemma throws_addInstruction P k : throws_only P (Lifter.addInstruction k).
Proof. unfold Lifter.addInstruction. repeat throws_step. Qed.

Lemma throws_getRegisterValue P r : throws_only P (Lifter.getRegisterValue r).
Proof.
  unfold Lifter.getRegisterValue, Lifter.createConstant, Lifter.setCached.
  repeat first [apply throws_addInstruction | throws_step].
Qed.

Lemma throws_setRegisterValue P r v : throws_only P (Lifter.setRegisterValue r v).
Proof. unfold Lifter.setRegisterValue, Lifter.setCached. repeat throws_step. Qed.

Ltac lifter_step Ho :=
  first
    [ apply throws_unsupported | apply throws_addInstruction
    | apply throws_getRegisterValue | apply throws_setRegisterValue
    | eapply throws_reg; rewrite Ho; reflexivity
    | eapply throws_imm; rewrite Ho; reflexivity
    | throws_step ].

(** The operand list is one the format of the opcode allows. *)
Ltac fit_shape H :=
  unfold isa.operands_fit in H; cbn in H;
  repeat match type of H with
    | context [match ?l with [] => _ | _ :: _ => _ end] => destruct l; try discriminate H
    | context [match ?o with riscv.Register _ => _ | riscv.Immediate _ => _ end] =>
        destruct o; try discriminate H
    end.

Lemma liftSingle_throws i :
  isa.operands_fit (riscv.opcode i) (riscv.operands i) = true ->
  throws_only is_unsupported (Lifter.liftSingleInstruction i).
Proof.
  intros Hf. unfold Lifter.liftSingleInstruction.
  destruct (riscv.opcode i) eqn:Hop; try apply throws_unsupported;
    destruct (riscv.operands i) as [|[] ops] eqn:Ho; try discriminate Hf; fit_shape Hf;
    unfold Lifter.liftRTypeBinaryOp, Lifter.liftITypeBinaryOp, Lifter.liftWTypeBinaryOp,
      Lifter.liftWTypeImmOp, Lifter.liftLoadInstruction, Lifter.liftStoreInstruction,
      Lifter.createConstant, Lifter.createBinaryOp, Lifter.createLoad, Lifter.createStore,
      Lifter.createSext, Lifter.createZext, Lifter.createTrunc;
    repeat lifter_step Ho.
Qed.

Lemma liftTerminator_throws i ft :
  isa.operands_fit (riscv.opcode i) (riscv.operands i) = true ->
  throws_only is_unsupported (Lifter.liftTerminator i ft).
Proof.
  intros Hf. unfold Lifter.liftTerminator.
  destruct (riscv.opcode i) eqn:Hop; try apply throws_unsupported;
    destruct (riscv.operands i) as [|[] ops] eqn:Ho; try discriminate Hf; fit_shape Hf;
    unfold Lifter.createConditionalBranch, Lifter.isRet, Lifter.createConstant,
      Lifter.createBinaryOp; cbv zeta;
    repeat lifter_step Ho.
Qed.

Lemma finalize_throws P iterate : throws_only P (Lifter.finalizeRegisterWrites iterate).
Proof.
  unfold Lifter.finalizeRegisterWrites. throws_step; [throws_step|].
  match goal with |- context [iterate ?X] => generalize (iterate X) end.
  intros l. induction l as [|r l IH]; cbn; [apply throws_ret|].
  unfold Lifter.setCached. repeat first [apply throws_addInstruction | apply IH | throws_step].
Qed.

Definition operands_ok (i : riscv.Instruction) : Prop :=
  isa.operands_fit (riscv.opcode i) (riscv.operands i) = true.

Lemma liftLoop_throws iterate insts :
  Forall operands_ok insts -> throws_only is_unsupported (Lifter.liftLoop iterate insts).
Proof.
  induction 1 as [|i l Hi _ IH]; cbn; [apply throws_ret|].
  destruct (Lifter.isTerminator i).
  - throws_step; [apply finalize_throws|]. throws_step; [by apply liftTerminator_throws|].
    apply throws_ret.
  - throws_step; [by apply liftSingle_throws|]. exact IH.
Qed.

Lemma liftBasicBlock_throws iterate insts :
  Forall operands_ok insts ->
  throws_only is_unsupported (Lifter.liftBasicBlock iterate insts).
Proof.
  intros H. unfold Lifter.liftBasicBlock.
  repeat first [apply finalize_throws | by apply liftLoop_throws | throws_step].
Qed.

(** ** The decoding loop *)

Section decoding.
Context (data : list Z).
Context (data_bytes : Forall (in_u 8) data).
Context (data_size : Z.of_nat (length data) < 2 ^ 63).

Abbreviation size := (Z.of_nat (length data)).

Lemma decodeBlock_operands fuel : ∀ offset pc acc insts,
  0 <= offset -> Forall operands_ok acc ->
  BinaryTranslator.decodeBlock fuel data offset pc acc = Ok insts ->
  Forall operands_ok insts.
Proof.
  induction fuel as [|fuel IH]; intros offset pc acc insts Ho Ha H; cbn in H;
    [by injection H as <-|].
  destruct (Z.ltb_spec offset size) as [Hlt|]; [|by injection H as <-].
  apply bind_Ok in H as (i & Hi & H). apply decoded_fit in Hi; [|done..].
  destruct (riscv.isValid i); [|done]. cbn [negb] in H.
  assert (Forall operands_ok (acc ++ [i])) by (apply Forall_app; auto).
  destruct (Lifter.isTerminator i); [by injection H as <-|].
  eapply IH; [|done|exact H]. apply uint_range. lia.
Qed.

(** Enough fuel: the loop ends before it runs out. *)
Lemma decodeBlock_fuel fuel : ∀ k offset pc acc,
  0 <= offset -> size < offset + 4 * Z.of_nat fuel ->
  BinaryTranslator.decodeBlock (fuel + k) data offset pc acc
  = BinaryTranslator.decodeBlock fuel data offset pc acc.
Proof.
  induction fuel as [|fuel IH]; intros k offset pc acc Ho Hf.
  - destruct k; cbn; [done|]. by rewrite (proj2 (Z.ltb_ge _ _)) by lia.
  - cbn. destruct (Z.ltb_spec offset size); [|done].
    destruct (Decoder.decode data offset pc) as [i|e]; [|done]. cbn.
    destruct (negb (riscv.isValid i)); [done|].
    destruct (Lifter.isTerminator i); [done|].
    rewrite (uint_small 64 (offset + 4)) by (unfold in_u; lia). apply IH; lia.
Qed.

Definition decoding_error (aligned : bool) (e : Error) : Prop :=
  (∃ msg, e = DecodingError msg)
  ∨ (aligned = false ∧ ∃ why, e = undefined_behaviour why).

Lemma decodeBlock_throws fuel : ∀ offset pc acc e,
  0 <= offset ->
  BinaryTranslator.decodeBlock fuel data offset pc acc = Err e ->
  decoding_error ((size - offset) mod 4 =? 0) e.
Proof.
  induction fuel as [|fuel IH]; intros offset pc acc e Ho H; cbn in H; [done|].
  destruct (Z.ltb_spec offset size) as [Hlt|]; [|done].
  apply bind_Err in H as [H|(i & _ & H)].
  - destruct (Z.leb_spec (offset + 4) size) as [Hle|Hgt].
    + destruct (decode_in_bounds data offset pc Ho Hle) as [[i Hi]|[msg Hm]]; [congruence|].
      left. exists msg. congruence.
    + destruct (decode_out_of_bounds data offset pc Ho Hgt) as [why Hw].
      right. split; [|exists why; congruence].
      apply Z.eqb_neq. dlia.
  - destruct (negb (riscv.isValid i)).
    { injection H as <-. left. by eexists. }
    destruct (Lifter.isTerminator i); [done|].
    rewrite (uint_small 64 (offset + 4)) in H by (unfold in_u; lia).
    apply IH in H; [|lia].
    replace ((size - (offset + 4)) mod 4) with ((size - offset) mod 4) in H by dlia.
    exact H.
Qed.

(** The basic block at an offset, as a reference definition: instructions up to
    the first terminator or the end of the section. *)
Inductive basic_block : Z → Z → list riscv.Instruction → Prop :=
  | block_end offset pc : size <= offset -> basic_block offset pc []
  | block_last offset pc i :
      offset < size -> Decoder.decode data offset pc = Ok i -> riscv.isValid i = true ->
      Lifter.isTerminator i = true -> basic_block offset pc [i]
  | block_more offset pc i l :
      offset < size -> Decoder.decode data offset pc = Ok i -> riscv.isValid i = true ->
      Lifter.isTerminator i = false -> basic_block (offset + 4) (u64 (pc + 4)) l ->
      basic_block offset pc (i :: l).

Lemma decodeBlock_basic fuel : ∀ offset pc acc insts,
  0 <= offset -> size < offset + 4 * Z.of_nat fuel ->
  BinaryTranslator.decodeBlock fuel data offset pc acc = Ok insts
  ↔ ∃ l, insts = acc ++ l ∧ basic_block offset pc l.
Proof.
  induction fuel as [|fuel IH]; intros offset pc acc insts Ho Hf; cbn.
  { split.
    - intros [= <-]. exists []. rewrite app_nil_r. split; [done|]. constructor. lia.
    - intros (l & -> & H). destruct H; [by rewrite app_nil_r|lia..]. }
  destruct (Z.ltb_spec offset size) as [Hlt|Hge].
  2:{ split.
      - intros [= <-]. exists []. rewrite app_nil_r. split; [done|]. by constructor.
      - intros (l & -> & H). destruct H; [by rewrite app_nil_r|lia..]. }
  destruct (Decoder.decode data offset pc) as [i|e] eqn:Hi; cbn.
  2:{ split; [done|]. intros (l & _ & H). destruct H; [lia|congruence..]. }
  destruct (riscv.isValid i) eqn:Hv; cbn.
  2:{ split; [done|]. intros (l & _ & H). destruct H; [lia|congruence..]. }
  destruct (Lifter.isTerminator i) eqn:Ht.
  - split.
    + intros [= <-]. exists [i]. split; [done|]. by apply block_last.
    + intros (l & -> & H). destruct H; [lia|congruence..].
  - rewrite (uint_small 64 (offset + 4)) by (unfold in_u; lia).
    rewrite IH by lia. split; intros (l & -> & H).
    + exists (i :: l). split; [by rewrite <- app_assoc|]. by apply block_more.
    + destruct H as [|????|? ? j l ? Hj]; [lia|congruence|].
      rewrite Hi in Hj. injection Hj as <-. exists l. by rewrite <- app_assoc.
Qed.
End decoding.

(** C16: the decoding loop of [executeBlock] ends, after at most one iteration
    per byte of the section whatever bound it is given beyond that, and what it
    returns is the basic block at the program counter: the instructions up to
    and with the first terminator, or to the end of the section. *)
Theorem decodeBlock_terminates data offset pc :
  Z.of_nat (length data) < 2 ^ 63 -> 0 <= offset ->
  (∀ k, BinaryTranslator.decodeBlock (S (length data) + k) data offset pc []
        = BinaryTranslator.decodeBlock (S (length data)) data offset pc [])
  ∧ ∀ insts, BinaryTranslator.decodeBlock (S (length data)) data offset pc [] = Ok insts
             ↔ basic_block data offset pc insts.
Proof.
  intros Hd Ho. split.
  - intros k. apply decodeBlock_fuel; lia.
  - intros insts. rewrite decodeBlock_basic by lia. split; [by intros (? & -> & ?)|eauto].
Qed.

(** ** Exceptions of a block's translation *)

(** What [catch (const dinorisc::Error &)] sees. *)
Definition block_error (e : Error) : Prop :=
  match e with
  | DecodingError _ | UnsupportedInstructionError _ | EncodingError _
  | LoweringError _ | RuntimeError _ => True
  | _ => False
  end.

Lemma translate_throws iterate_defs b e :
  (∀ m, iterate_defs m ≡ₚ map_to_list m) ->
  BinaryTranslator.translateToARM64 iterate_defs b = Err e -> is_lowering e.
Proof.
  intros Hit H. unfold BinaryTranslator.translateToARM64 in H.
  apply bind_Err in H as [H|(insts & _ & H)].
  - destruct (Selector.selectInstructions b Selector.new) as [r s] eqn:E. cbn in H. subst r.
    eapply selectInstructions_throws, E.
  - apply bind_Err in H as [H|([ok l] & _ & H)]; [|done].
    destruct (allocate_run iterate_defs Hit insts Allocator.new) as (s1 & _ & Hr).
    rewrite Hr in H. destruct (pressure_fits _ _); [|done].
    apply bind_Err in H as [H|(? & _ & H)]; [|done].
    destruct (decide (Forall (λ i, Forall (allocated (Allocator.allocation s1))
                                     (arm64.operands i)) insts)) as [Ha|Ha].
    + by rewrite (proj1 (replace_all _ _) Ha) in H.
    + destruct (proj2 (replace_all _ _) Ha) as [msg Hm]. exists msg. congruence.
Qed.

(** Encoding a list of instructions fails with the encoder's exception only,
    and does fail when one names a virtual register. *)
Lemma encode_all_throws insts e :
  mapM_result Encoder.encodeInstruction insts = Err e -> ∃ msg, e = EncodingError msg.
Proof. intros (i & _ & H)%mapM_result_Err. by eapply encodeInstruction_throws. Qed.

Lemma encode_all_virtual insts i :
  i ∈ insts -> existsb arm64.is_virtual (arm64.operands i) = true ->
  ∃ msg, mapM_result Encoder.encodeInstruction insts = Err (EncodingError msg).
Proof.
  intros Hi Hv. destruct (mapM_result Encoder.encodeInstruction insts) as [l|e] eqn:E.
  - exfalso. revert E. apply (mapM_result_Err_elem _ _ i Hi).
    intros bs H. apply bind_Ok in H as (w & H%encodeWord_physical & _). congruence.
  - destruct (encode_all_throws _ _ E) as [msg ->]. eauto.
Qed.

Lemma def_of_virtual i v :
  def_of i = Some v -> existsb arm64.is_virtual (arm64.operands i) = true.
Proof.
  assert (∀ o, Liveness.getVirtualRegisterFromOperand o = Some v -> arm64.is_virtual o = true) as Ho
    by (by intros []).
  destruct i as [[]]; unfold def_of, arm64.operands; cbn [arm64.kind existsb];
    try (by intros ->%Ho); destruct opcode; try done; by intros ->%Ho.
Qed.

Lemma encode_all_bytes insts l :
  mapM_result Encoder.encodeInstruction insts = Ok l ->
  length (concat l) = (4 * length insts)%nat ∧ Forall (in_u 8) (concat l).
Proof.
  intros H%mapM_result_Ok.
  induction H as [|i bs insts l Hi _ [IH1 IH2]]; [done|].
  apply bind_Ok in Hi as (w & _ & Hb). injection Hb as <-. split.
  - cbn in *. rewrite IH1. lia.
  - cbn. repeat (constructor; [apply uint_range; lia|]). done.
Qed.

Section properties.
Context (E : ELFReader.ELFIO) (O : ExecutionEngine.OS).
Context (iterate_regs : gset Z → list Z) (iterate_defs : gmap Z nat → list (Z * nat)).
Context (iterate_all : ∀ m, iterate_defs m ≡ₚ map_to_list m).

Abbreviation T := (BinaryTranslator.t E O).
Abbreviation text := (BinaryTranslator.textSectionData E O).
Abbreviation base := (BinaryTranslator.textBaseAddress E O).
Abbreviation compileBlock := (BinaryTranslator.compileBlock E O iterate_regs iterate_defs).

(** The text section of a state, as the ELF reader leaves it. *)
Definition text_ok (s : T) : Prop :=
  Forall (in_u 8) (text s) ∧ Z.of_nat (length (text s)) < 2 ^ 63.

Lemma compileBlock_throws s pc e :
  text_ok s -> compileBlock s pc = Err e ->
  block_error e
  ∨ (((Z.of_nat (length (text s)) - u64 (pc - base s)) mod 4 ≠ 0)
     ∧ ∃ why, e = undefined_behaviour why).
Proof.
  intros [Hd Hl] H. unfold BinaryTranslator.compileBlock in H.
  destruct (negb _); [injection H as <-; by left|].
  pose proof (uint_range 64 (pc - base s) ltac:(lia)) as [Ho _].
  apply bind_Err in H as [H|(insts & Hi & H)].
  { apply decodeBlock_throws in H as [[msg ->]|[Ha [why ->]]]; [by left| |done..].
    right. split; [by apply Z.eqb_neq|eauto]. }
  left. case_bool_decide; [by injection H as <-|].
  apply decodeBlock_operands in Hi; [|done..].
  apply bind_Err in H as [H|(b & _ & H)].
  { destruct (Lifter.liftBasicBlock iterate_regs insts Lifter.new) as [r st] eqn:El.
    cbn in H. subst r. eapply liftBasicBlock_throws in El as [msg ->]; done. }
  apply bind_Err in H as [H|(code & _ & H)].
  { apply translate_throws in H as [msg ->]; done. }
  apply bind_Err in H as [H|(l & _ & H)].
  { apply encode_all_throws in H as [msg ->]. done. }
  case_bool_decide; [by injection H as <-|done].
Qed.

Lemma compileBlock_bytes s pc code :
  compileBlock s pc = Ok code ->
  code ≠ [] ∧ Z.of_nat (length code) mod 4 = 0 ∧ Forall (in_u 8) code
  ∧ BinaryTranslator.isValidPC E O s pc = true.
Proof.
  unfold BinaryTranslator.compileBlock.
  destruct (BinaryTranslator.isValidPC E O s pc) eqn:Hv; [|done]. cbn [negb]. intros H.
  apply bind_Ok in H as (insts & _ & H). case_bool_decide; [done|].
  apply bind_Ok in H as (b & _ & H). apply bind_Ok in H as (arm & _ & H).
  apply bind_Ok in H as (l & Hl & H). case_bool_decide; [done|]. injection H as <-.
  apply encode_all_bytes in Hl as [Hl Hb]. split_and!; [done| |done|done].
  rewrite Hl. dlia.
Qed.
End properties.

(** ** The dispatch loop as a relation *)

Section dispatch.
Context (E : ELFReader.ELFIO) (O : ExecutionEngine.OS).
Context (iterate_regs : gset Z → list Z) (iterate_defs : gmap Z nat → list (Z * nat)).

Abbreviation T := (BinaryTranslator.t E O).

(** The state in which a block is entered: [guestState.pc] is set. *)
Definition enter (pc : Z) (s : T) : T :=
  BinaryTranslator.set_guest E O
    (BinaryTranslator.set_pc pc (BinaryTranslator.guestState E O s)) s.

(** [blocks_run pc s n pc' s']: from [pc] and [s], [n] blocks run one after
    the other, each from where the last one left, and leave [pc'] and [s']. *)
Inductive blocks_run : Z → T → nat → Z → T → Prop :=
  | run_none pc s : blocks_run pc s 0 pc s
  | run_more pc s pc1 s1 n pc' s' :
      pc ≠ 0 ->
      BinaryTranslator.executeBlock E O iterate_regs iterate_defs pc (enter pc s)
      = (Ok pc1, s1) ->
      blocks_run pc1 s1 n pc' s' ->
      blocks_run pc s (S n) pc' s'.

Abbreviation dispatch := (BinaryTranslator.dispatch E O iterate_regs iterate_defs).

Lemma dispatch_0 n s : dispatch n 0 s = (Ok tt, s).
Proof. by destruct n. Qed.

Lemma dispatch_S n pc s :
  pc ≠ 0 ->
  dispatch (S n) pc s
  = match BinaryTranslator.executeBlock E O iterate_regs iterate_defs pc (enter pc s) with
    | (Ok pc1, s1) => dispatch n pc1 s1
    | (Err e, s1) => (Err e, s1)
    end.
Proof.
  intros Hpc. cbn [BinaryTranslator.dispatch]. rewrite (proj2 (Z.eqb_neq pc 0)) by done.
  rewrite run_bind. unfold modify. rewrite run_bind. unfold enter.
  destruct (BinaryTranslator.executeBlock _ _ _ _ _ _) as [[pc1|e] s1]; [|done].
  destruct (Z.eqb_spec pc1 0) as [->|]; [by rewrite dispatch_0|done].
Qed.

Lemma dispatch_blocks n : ∀ pc s s',
  dispatch n pc s = (Ok tt, s') ↔
  ∃ k pc', blocks_run pc s k pc' s' ∧ (pc' = 0 ∧ (k <= n)%nat ∨ pc' ≠ 0 ∧ k = n).
Proof.
  induction n as [|n IH]; intros pc s s'.
  - cbn. split.
    + intros [= <-]. exists 0%nat, pc. split; [constructor|].
      destruct (decide (pc = 0)); [left|right]; lia.
    + intros (k & pc' & H & Hk). assert (k = 0%nat) as -> by lia. by inversion H.
  - destruct (decide (pc = 0)) as [->|Hpc].
    + rewrite dispatch_0. split.
      * intros [= <-]. exists 0%nat, 0. split; [constructor|]. left. lia.
      * intros (k & pc' & H & _). by inversion H.
    + rewrite dispatch_S by done. split.
      * destruct (BinaryTranslator.executeBlock _ _ _ _ _ _) as [[pc1|e] s1] eqn:Hx; [|done].
        intros (k & pc' & H & Hk)%IH. exists (S k), pc'.
        split; [by econstructor|]. lia.
      * intros (k & pc' & H & Hk). inversion H as [|? ? pc1 s1 k' ? ? _ Hx Hr]; subst.
        { destruct Hk as [[? _]|[_ ?]]; [done|lia]. }
        rewrite Hx. apply IH. exists k', pc'. split; [done|]. lia.
Qed.

(** C12: the dispatch loop of [executeFunction] is the iteration of
    [executeBlock]: it returns if and only if a sequence of blocks runs from
    the entry, each entered at the program counter the previous one left,
    which either leaves program counter zero within the limit or is exactly
    as long as the limit; in the second case the function's result is read
    all the same. *)
Theorem dispatch_iterates pc s s' :
  dispatch (Z.to_nat BinaryTranslator.MAX_EXECUTION_BLOCKS) pc s = (Ok tt, s') ↔
  ∃ k pc', blocks_run pc s k pc' s'
    ∧ (pc' = 0 ∧ Z.of_nat k <= 10000 ∨ pc' ≠ 0 ∧ Z.of_nat k = 10000).
Proof.
  rewrite dispatch_blocks. unfold BinaryTranslator.MAX_EXECUTION_BLOCKS.
  assert (Z.of_nat (Z.to_nat 10000) = 10000) as E0 by lia.
  revert E0. generalize (Z.to_nat 10000) as n. intros n E0.
  split; intros (k & pc' & H & Hk); exists k, pc'; (split; [done|]); lia.
Qed.
End dispatch.

(** ** Registers of the guest *)

Lemma setArguments_lookup args : ∀ i g r,
  length (GuestState.x g) = 32%nat -> 0 <= i -> 0 <= r < 32 ->
  GuestState.x (BinaryTranslator.setArguments i args g) !! Z.to_nat r
  = match (if decide (10 + i <= r < 18) then args !! Z.to_nat (r - 10 - i) else None) with
    | Some a => Some a
    | None => GuestState.x g !! Z.to_nat r
    end.
Proof.
  induction args as [|a args IH]; intros i g r Hg Hi Hr; cbn [BinaryTranslator.setArguments].
  { by case_decide. }
  destruct (Z.ltb_spec i 8); [|by rewrite decide_False by lia].
  rewrite (uint_small 8) by (unfold in_u; lia).
  rewrite IH by (rewrite ?GuestState.length_writeRegister; lia).
  rewrite GuestState.writeRegister_lookup by lia.
  destruct (Z.eqb_spec r (10 + i)) as [->|Hne].
  - rewrite decide_False, decide_True by lia.
    by replace (Z.to_nat (10 + i - 10 - i)) with 0%nat by lia.
  - destruct (decide (10 + i <= r < 18)) as [Hd|Hd].
    + rewrite decide_True by lia.
      replace (Z.to_nat (r - 10 - i)) with (S (Z.to_nat (r - 10 - (i + 1)))) by lia. done.
    + by rewrite decide_False by lia.
Qed.

Lemma setArguments_members args : ∀ i g,
  GuestState.guestMemoryBase (BinaryTranslator.setArguments i args g) = GuestState.guestMemoryBase g
  ∧ GuestState.shadowMemory (BinaryTranslator.setArguments i args g) = GuestState.shadowMemory g
  ∧ GuestState.shadowMemorySize (BinaryTranslator.setArguments i args g)
    = GuestState.shadowMemorySize g
  ∧ length (GuestState.x (BinaryTranslator.setArguments i args g)) = length (GuestState.x g).
Proof.
  induction args as [|a args IH]; intros i g; [done|]. cbn [BinaryTranslator.setArguments].
  destruct (i <? 8); [|done].
  destruct (IH (i + 1) (GuestState.writeRegister g (u8 (10 + i)) a)) as (-> & -> & -> & ->).
  rewrite GuestState.length_writeRegister. unfold GuestState.writeRegister.
  by destruct (_ || _).
Qed.

(** The guest function's arguments are passed as the calling convention of
    RISC-V has them: the first eight in a0 to a7, the others dropped, every
    other register unchanged. *)
Lemma setArgumentRegisters_spec E O args (s s' : BinaryTranslator.t E O) r :
  length (GuestState.x (BinaryTranslator.guestState E O s)) = 32%nat -> 0 <= r < 32 ->
  BinaryTranslator.setArgumentRegisters E O args s = (Ok tt, s') ->
  GuestState.x (BinaryTranslator.guestState E O s') !! Z.to_nat r
  = match (if decide (10 <= r < 18) then args !! Z.to_nat (r - 10) else None) with
    | Some a => Some a
    | None => GuestState.x (BinaryTranslator.guestState E O s) !! Z.to_nat r
    end.
Proof.
  intros Hl Hr H. unfold BinaryTranslator.setArgumentRegisters, modify in H.
  injection H as <-. cbn [BinaryTranslator.set_guest BinaryTranslator.guestState].
  rewrite setArguments_lookup by lia. by rewrite Z.sub_0_r.
Qed.

(** ** Properties of a block's translation *)

(** C13: translating a block throws one of the exceptions [main] reports, or,
    only when the distance from the program counter to the end of the text
    section is no multiple of four, reads past the section. *)
Theorem compileBlock_errors E O iterate_regs iterate_defs s pc e :
  (∀ m, iterate_defs m ≡ₚ map_to_list m) -> text_ok E O s ->
  BinaryTranslator.compileBlock E O iterate_regs iterate_defs s pc = Err e ->
  (is_dinorisc_Error e = true ∧ ∀ why, e ≠ undefined_behaviour why)
  ∨ ((Z.of_nat (length (BinaryTranslator.textSectionData E O s))
      - u64 (pc - BinaryTranslator.textBaseAddress E O s)) mod 4 ≠ 0
     ∧ ∃ why, e = undefined_behaviour why).
Proof.
  intros Hit Hs H. eapply compileBlock_throws in H as [H|H]; [left|by right|done|done].
  by destruct e.
Qed.

(** A translated block is a non-empty sequence of whole instruction words,
    and is only produced for a program counter inside the text section. *)
Lemma compileBlock_code E O iterate_regs iterate_defs s pc code :
  BinaryTranslator.compileBlock E O iterate_regs iterate_defs s pc = Ok code ->
  code ≠ [] ∧ Z.of_nat (length code) mod 4 = 0 ∧ Forall (in_u 8) code
  ∧ BinaryTranslator.isValidPC E O s pc = true.
Proof. apply compileBlock_bytes. Qed.

Lemma scan_failure_interval ivs done :
  pressure_fits done ivs = false -> ∃ iv, iv ∈ ivs.
Proof. destruct ivs as [|iv ivs]; [done|]. intros _. exists iv. by left. Qed.

(** C24: when the allocator runs out of registers, which the translator only
    warns about, the block is refused: the encoder throws. *)
Theorem allocation_failure_refused iterate_defs insts s insts' :
  (∀ m, iterate_defs m ≡ₚ map_to_list m) ->
  fst (Allocator.allocateRegisters insts
         (Liveness.computeLiveIntervals iterate_defs insts) s) = Ok (false, insts') ->
  ∃ msg, mapM_result Encoder.encodeInstruction insts' = Err (EncodingError msg).
Proof.
  intros Hit H. destruct (allocate_run iterate_defs Hit insts s) as (s1 & _ & Hr).
  rewrite Hr in H. destruct (pressure_fits _ _) eqn:Hp.
  - apply bind_Ok in H as (? & _ & H). discriminate H.
  - injection H as <-. apply scan_failure_interval in Hp as [iv Hiv].
    apply elem_of_intervals in Hiv as (v & d & Hd & _); [|done].
    apply last_def_Some in Hd as [(i & Hi & Hdef) _].
    eapply encode_all_virtual; [by eapply list_elem_of_lookup_2|by eapply def_of_virtual].
Qed.

(** ** The whole program *)

Definition known_error (e : Error) : Prop :=
  is_dinorisc_Error e = true ∨ ∃ why, e = undefined_behaviour why.

Ltac known_step :=
  first [ throws_step | apply throws_throw; by left
        | apply throws_throw; right; by eexists ].

Section program.
Context (E : ELFReader.ELFIO) (O : ExecutionEngine.OS).
Context (iterate_regs : gset Z → list Z) (iterate_defs : gmap Z nat → list (Z * nat)).
Context (iterate_all : ∀ m, iterate_defs m ≡ₚ map_to_list m).

Lemma engine_throws code : throws_only known_error (ExecutionEngine.executeBlock O code).
Proof. unfold ExecutionEngine.executeBlock. cbv zeta. repeat known_step. Qed.

Lemma loadFile_throws path : throws_only known_error (ELFReader.loadFile E path).
Proof. unfold ELFReader.loadFile. cbv zeta. repeat known_step. Qed.

Abbreviation T := (BinaryTranslator.t E O).

Lemma on_engine_throws {A} P (m : stateM (ExecutionEngine.t O) A) :
  throws_only P m -> throws_only P (BinaryTranslator.on_engine E O m).
Proof.
  intros Hm s e s'. unfold BinaryTranslator.on_engine.
  destruct (m _) as [r st] eqn:Hr. intros [= -> _]. by eapply Hm.
Qed.

Lemma on_reader_throws {A} P (m : stateM (ELFReader.t E) A) :
  throws_only P m -> throws_only P (BinaryTranslator.on_reader E O m).
Proof.
  intros Hm s e s'. unfold BinaryTranslator.on_reader.
  destruct (m _) as [r st] eqn:Hr. intros [= -> _]. by eapply Hm.
Qed.

Abbreviation executeBlock := (BinaryTranslator.executeBlock E O iterate_regs iterate_defs).

(** Running a block keeps the text section and throws known errors. *)
Lemma executeBlock_text pc (s : T) r s' :
  text_ok E O s -> executeBlock pc s = (r, s') ->
  text_ok E O s' ∧ ∀ e, r = Err e -> known_error e.
Proof.
  intros Ht H. unfold BinaryTranslator.executeBlock in H.
  rewrite run_bind in H. unfold get at 1 in H. rewrite run_bind in H. unfold lift in H.
  destruct (BinaryTranslator.compileBlock _ _ _ _ s pc) as [code|e] eqn:Hc.
  - unfold BinaryTranslator.on_engine in H.
    destruct (ExecutionEngine.executeBlock O code _) as [r' st] eqn:Hr.
    injection H as -> <-. split; [exact Ht|]. intros e ->. by eapply engine_throws.
  - injection H as <- <-. split; [done|]. intros e' [= <-].
    eapply compileBlock_throws in Hc as [Hc|[_ Hc]]; [left|by right|done|done].
    by destruct e.
Qed.

Lemma dispatch_known n : ∀ pc (s : T) e s',
  text_ok E O s ->
  BinaryTranslator.dispatch E O iterate_regs iterate_defs n pc s = (Err e, s') ->
  known_error e.
Proof.
  induction n as [|n IH]; intros pc s e s' Ht H; [done|].
  destruct (decide (pc = 0)) as [->|Hpc]; [by rewrite dispatch_0 in H|].
  rewrite dispatch_S in H by done.
  destruct (executeBlock pc (enter E O pc s)) as [r s1] eqn:Hx.
  destruct (executeBlock_text _ _ _ _ (Ht : text_ok E O (enter E O pc s)) Hx) as [Ht1 He].
  destruct r as [pc1|e1]; [by eapply IH|]. injection H as <- _. by apply He.
Qed.

(** The bytes ELFIO returns are bytes, and no section is larger than memory. *)
Context (sections_are_bytes : ∀ sec bytes, ELFReader.get_data E sec = Some bytes ->
           Forall (in_u 8) bytes ∧ Z.of_nat (length bytes) < 2 ^ 63).

Lemma load_text path (s s' : T) :
  BinaryTranslator.loadRISCVBinary E O path s = (Ok tt, s') -> text_ok E O s'.
Proof.
  unfold BinaryTranslator.loadRISCVBinary. rewrite run_bind_Ok.
  intros ([] & s1 & H1 & H2). unfold modify in H2. injection H2 as <-.
  unfold BinaryTranslator.on_reader in H1.
  destruct (ELFReader.loadFile E path _) as [r e] eqn:Hl. injection H1 as -> <-.
  apply ELFReader.loadFile_Ok in Hl as (r & sec & bytes & _ & _ & Hd & ->).
  apply sections_are_bytes in Hd as [Hb Hn].
  unfold text_ok. cbn. split; [by apply Forall_take|]. rewrite length_take. lia.
Qed.

Lemma executeFunction_known path name (s : T) e s' :
  BinaryTranslator.executeFunction E O iterate_regs iterate_defs path name s = (Err e, s') ->
  known_error e.
Proof.
  unfold BinaryTranslator.executeFunction. rewrite run_bind.
  destruct (BinaryTranslator.loadRISCVBinary E O path s) as [[[]|e1] s1] eqn:Hl.
  2:{ intros [= <- _]. revert Hl. unfold BinaryTranslator.loadRISCVBinary.
      apply throws_state_bind; [apply on_reader_throws, loadFile_throws|].
      intros _. apply throws_modify. }
  apply load_text in Hl. rewrite run_bind. unfold get at 1.
  destruct (ELFReader.getFunctionAddress _ _ _) as [a|].
  - rewrite run_bind. unfold modify at 1. rewrite run_bind. unfold modify at 1.
    rewrite run_bind.
    destruct (BinaryTranslator.dispatch _ _ _ _ _ _ _) as [[[]|e1] s2] eqn:Hd; [done|].
    intros [= <- _]. eapply dispatch_known; [|exact Hd]. exact Hl.
  - intros [= <- _]. by left.
Qed.
End program.
