(* ===== verification/GuestProgram.v ===== *)
(** * Guest programs (reference)

    The RISC-V machine running the code of a text section: fetch the word at the
    program counter, execute the legal RV64I instruction it encodes, until
    control arrives at address zero, where the caller of the guest function is.
    The whole program's translation is compared with it: runs that come to zero
    ([returns]), runs so far ([reaches]), and what the translator's limit makes
    of both ([runs]).  Its definition knows neither basic blocks nor the decoder of the repository; the
    executable [run] lets the decoder propose an instruction and checks it. *)
From S2P Require Import Prelude Error Riscv RiscvEncoding Decoder DecoderCorrect.
From S2P Require Import Machine RiscvSemantics.
Import machine.

Module guest.

(** Registers, data memory and program counter. *)
Abbreviation state := (regs * mem * Z)%type.

Section program.
(** The text section, its address, and the mapped data memory. *)
Context (text : list Z) (base : Z) (mapped : Z → bool).

Definition fetches (pc : Z) (i : riscv.Instruction) : Prop :=
  base <= pc ∧ riscv.address i = pc
  ∧ isa.legal (riscv.opcode i) (riscv.operands i) = true
  ∧ isa.assemble (riscv.opcode i) (riscv.operands i) = Some (riscv.rawInstruction i)
  ∧ take 4 (drop (Z.to_nat (pc - base)) text) = isa.word_bytes (riscv.rawInstruction i).

(** One instruction; the flag tells a transfer of control, taken or not. *)
Inductive step : state → bool → state → Prop :=
  | step_plain i R m pc st :
      fetches pc i -> rvsem.transfers i = false ->
      rvsem.exec rvsem.upper_value mapped i (rvsem.mkState R m) = Some st ->
      step (R, m, pc) false (rvsem.vregs st, rvsem.vmem st, u64 (pc + 4))
  | step_transfer i R m pc pc' :
      fetches pc i -> rvsem.transfers i = true ->
      rvsem.target i (rvsem.mkState R m) = Some pc' ->
      step (R, m, pc) true (rvsem.linked i R, m, pc').

(** A run to address zero, with the addresses control was transferred to, the
    last of which is zero. *)
Inductive returns : list Z → state → regs → mem → Prop :=
  | returns_now R m : returns [] (R, m, 0) R m
  | returns_step s b s' l R m :
      step s b s' -> returns l s' R m ->
      returns (if b then s'.2 :: l else l) s R m.

(** A run to where a transfer of control has brought it, zero or not. *)
Inductive reaches : list Z → state → state → Prop :=
  | reaches_now s : reaches [] s s
  | reaches_plain s s1 pc l s2 :
      step s false s1 -> reaches (pc :: l) s1 s2 -> reaches (pc :: l) s s2
  | reaches_transfer s s1 l s2 :
      step s true s1 -> reaches l s1 s2 -> reaches (s1.2 :: l) s s2.

(** A run that is stopped after so many transfers of control, if it has not come
    to address zero before. *)
Inductive runs : nat → list Z → state → regs → mem → Prop :=
  | runs_home n R m : runs n [] (R, m, 0) R m
  | runs_stopped R m pc : runs 0 [] (R, m, pc) R m
  | runs_plain n s s' l R m :
      step s false s' -> runs (S n) l s' R m -> runs (S n) l s R m
  | runs_transfer n s s' l R m :
      step s true s' -> runs n l s' R m -> runs (S n) (s'.2 :: l) s R m.

Lemma reaches_runs l s R m pc :
  reaches l s (R, m, pc) -> runs (length l) l s R m.
Proof.
  intros H. remember (R, m, pc) as s' eqn:E. induction H; subst.
  - apply runs_stopped.
  - by eapply runs_plain; [|apply IHreaches].
  - by eapply runs_transfer; [|apply IHreaches].
Qed.

(** The instruction at an address is unique: the decoder finds it. *)
Lemma fetches_decodes pc i :
  fetches pc i -> is_long_srai (riscv.opcode i) (riscv.operands i) = false ->
  Decoder.Decoder.decode text (pc - base) pc = Ok i.
Proof.
  intros (Hb & Ha & Hl & Hw & Hd) Hs.
  rewrite (decode_at _ _ (riscv.rawInstruction i)) by eauto using assemble_range with lia.
  rewrite (decode_word_assemble _ _ _ _ Hl Hs Hw). destruct i; cbn in *. by subst.
Qed.

(** A long arithmetic shift apart, which it takes for SRLI. *)
Lemma fetches_decoding pc i :
  fetches pc i ->
  ∃ j, Decoder.Decoder.decode text (pc - base) pc = Ok j
    ∧ (j = i ∨ riscv.opcode j = riscv.SRLI).
Proof.
  intros Hf. destruct (is_long_srai (riscv.opcode i) (riscv.operands i)) eqn:Hs.
  2:{ exists i. split; [by apply fetches_decodes|by left]. }
  destruct Hf as (Hb & Ha & Hl & Hw & Hd). destruct i as [op ops w a].
  cbn [riscv.opcode riscv.operands riscv.rawInstruction] in *.
  destruct op; try discriminate Hs.
  eexists (riscv.mkInstruction riscv.SRLI ops w pc). split; [|by right].
  rewrite (decode_at _ _ w) by eauto using assemble_range with lia.
  by apply decode_word_long_srai.
Qed.

(** A fetch stays in the section. *)
Lemma fetches_bounds pc i :
  fetches pc i -> base <= pc ∧ pc + 4 <= base + Z.of_nat (length text).
Proof.
  intros (Hb & _ & _ & _ & Hd). split; [done|].
  apply (f_equal length) in Hd. rewrite length_take, length_drop in Hd.
  change (length (isa.word_bytes _)) with 4%nat in Hd. lia.
Qed.

(** ** Running a program

    The machine as a function: [fuel] instructions at most. *)

Definition fetch (pc : Z) : option riscv.Instruction :=
  match Decoder.Decoder.decode text (pc - base) pc with
  | Ok i =>
      if bool_decide
           (base <= pc ∧ riscv.address i = pc
            ∧ isa.legal (riscv.opcode i) (riscv.operands i) = true
            ∧ isa.assemble (riscv.opcode i) (riscv.operands i) = Some (riscv.rawInstruction i)
            ∧ take 4 (drop (Z.to_nat (pc - base)) text)
              = isa.word_bytes (riscv.rawInstruction i))
      then Some i else None
  | Err _ => None
  end.

Definition advance (s : state) : option (bool * state) :=
  let '(R, m, pc) := s in
  i ← fetch pc;
  if rvsem.transfers i then
    pc' ← rvsem.target i (rvsem.mkState R m);
    Some (true, (rvsem.linked i R, m, pc'))
  else
    st ← rvsem.exec rvsem.upper_value mapped i (rvsem.mkState R m);
    Some (false, (rvsem.vregs st, rvsem.vmem st, u64 (pc + 4))).

Fixpoint run (fuel : nat) (s : state) : option (list Z * regs * mem) :=
  if s.2 =? 0 then Some ([], s.1.1, s.1.2)
  else
    match fuel with
    | O => None
    | S fuel =>
        '(b, s') ← advance s;
        '(l, R, m) ← run fuel s';
        Some (if b : bool then s'.2 :: l else l, R, m)
    end.

Lemma fetch_sound pc i : fetch pc = Some i -> fetches pc i.
Proof.
  unfold fetch. intros H. destruct (Decoder.Decoder.decode text (pc - base) pc); [|done].
  case_bool_decide; [|done]. by injection H as <-.
Qed.

Lemma advance_sound s b s' : advance s = Some (b, s') -> step s b s'.
Proof.
  destruct s as [[R m] pc]. cbn [advance]. intros H.
  apply bind_Some in H as (i & Hi%fetch_sound & H).
  destruct (rvsem.transfers i) eqn:Ht; apply bind_Some in H as (x & Hx & [= <- <-]).
  - by apply step_transfer.
  - by apply (step_plain i).
Qed.

Lemma run_sound fuel : ∀ s l R m, run fuel s = Some (l, R, m) -> returns l s R m.
Proof.
  induction fuel as [|fuel IH]; intros [[R0 m0] pc] l R m H; cbn [run fst snd] in H;
    destruct (Z.eqb_spec pc 0) as [->|Hpc]; try done; try (injection H as <- <- <-; constructor).
  apply bind_Some in H as ([b s'] & Ha & H).
  apply bind_Some in H as ([[l' R'] m'] & Hr & H). injection H as <- <- <-.
  apply returns_step; [by apply advance_sound|by apply IH].
Qed.

End program.
End guest.
