(* ===== verification/TranslationCorrect.v ===== *)
(** * The translation of a block, end to end

    Decoding, lifting, selection, liveness, allocation and encoding composed:
    the machine code [compileBlock] returns for a RISC-V block, run by the
    processor on a host state that represents the guest's, does what the block
    does (RiscvSemantics.v). *)
From S2P Require Import Prelude Error Riscv Decoder IR Machine IRSemantics RiscvSemantics.
From S2P Require Import Lifter LifterCorrect LifterBlock LifterForms.
From S2P Require Import Arm64 Encoder A64 A64Semantics Arm64Meaning EncoderCorrect GuestState.
From S2P Require Import InstructionSelector Liveness RegisterAllocator.
From S2P Require Import ELFReader ExecutionEngine BinaryTranslator.
From S2P Require Import HostState SelectorCorrect LivenessCorrect AllocatorCorrect.
From S2P Require Import AllocationSemantics MachineCode SelectorTidy SelectorEncodable.
Import machine arm64.

(** ** From the intermediate representation to machine code *)

(** What the machine code of a block must do: from a host state that represents
    the guest's, return to X30 in one that represents the guest's state after
    the block, with the next program counter in X0, and nothing else in the
    host's memory changed. *)
Definition code_runs_as (gs base shadow : Z) (mapped : Z → bool) (code : list Z)
    (X : regs) (fl : a64sem.flags) (H : mem) (r : regs * mem * Z) : Prop :=
  let '(R', m', pc) := r in
  ∃ st', a64sem.run_code code (a64sem.mkState X fl H) = Some (st', a64sem.xget X 30)
    ∧ represents gs base shadow mapped R' m' (a64sem.hm st')
    ∧ a64sem.xget (a64sem.xr st') 0 = u64 pc
    ∧ confined gs base shadow mapped H (a64sem.hm st').

(** What it leaves in the caller's registers. *)
Definition keeps_saved (code : list Z) (X : regs) (fl : a64sem.flags) (H : mem) : Prop :=
  ∀ st ra, a64sem.run_code code (a64sem.mkState X fl H) = Some (st, ra) ->
           preserves_saved X (a64sem.xr st).

(** The test of a block's translation: the code selected for it is tidy, every
    instruction of it has an encoding that means it, and no more registers are
    wanted than the machine has. *)
Definition translates (b : ir.BasicBlock) : bool :=
  match Selector.selectInstructions b Selector.new with
  | (Ok l, _) => tidy l && forallb encodable l && pressure_fits [] (intervals l)
  | _ => false
  end.

Section backend.
Context (iterate_defs : gmap Z nat → list (Z * nat)).
Context (iterate_all : ∀ m, iterate_defs m ≡ₚ map_to_list m).

(** The back end: instruction selection, register allocation and encoding. *)
Definition back_end (b : ir.BasicBlock) : result (list Z) :=
  arm64Instructions ← BinaryTranslator.translateToARM64 iterate_defs b;
  encoded ← mapM_result Encoder.encodeInstruction arm64Instructions;
  Ok (concat encoded).

Lemma back_end_runs b gs base shadow mapped R m r X fl H :
  selectable b -> translates b = true ->
  separate gs base shadow mapped -> irsem.run_block mapped b R m = Some r ->
  represents gs base shadow mapped R m H -> a64sem.xget X 0 = gs ->
  ∃ l code, BinaryTranslator.translateToARM64 iterate_defs b = Ok l ∧ back_end b = Ok code
    ∧ length code = (4 * length l)%nat ∧ code ≠ []
    ∧ code_runs_as gs base shadow mapped code X fl H r
    ∧ (forallb spares l = true -> keeps_saved code X fl H).
Proof.
  intros Hb Ht Hsep Hr HR Hgs.
  destruct (selected_runs b gs base shadow mapped R m r X fl H Hb Hsep Hr HR Hgs)
    as (l & s' & Hsel & Hrun).
  unfold translates in Ht. rewrite Hsel in Ht.
  apply andb_true_iff in Ht as [[Htidy He]%andb_true_iff Halloc].
  pose proof (intervals_order iterate_defs map_to_list l iterate_all (λ _, reflexivity _)) as Hiv.
  destruct (allocation_runs iterate_defs l Allocator.new iterate_all Htidy)
    as (alloc & Hal & Hv & Hsim); [by rewrite Hiv|].
  assert (Forall (λ i, encodable i = true) (map (rename alloc) l)) as Henc.
  { apply Forall_fmap. eapply Forall_impl; [by apply forallb_Forall|].
    intros i Hi. cbn. by rewrite encodable_rename. }
  destruct (machine_code _ Henc Hv) as (encoded & Hmap & Hlen & Hcode).
  destruct r as [[R' m'] pc]. destruct Hrun as (st & Hst & Hrep & H0 & _ & Hcf).
  destruct (Hsim X fl H st _ Hst) as (st' & Hst' & Hm & _ & H0').
  assert (BinaryTranslator.translateToARM64 iterate_defs b = Ok (map (rename alloc) l)) as Htr.
  { unfold BinaryTranslator.translateToARM64. rewrite Hsel. cbn [fst mbind result_bind].
    by rewrite Hal. }
  exists (map (rename alloc) l), (concat encoded). split; [done|]. split; [|split; [done|split; [|split]]].
  - unfold back_end. rewrite Htr. cbn [mbind result_bind]. by rewrite Hmap.
  - intros E. rewrite E, length_map in Hlen. by destruct l.
  - exists st'. split; [by apply Hcode|]. by rewrite Hm, H0'.
  - intros Hs st1 ra Hrun. rewrite (Hcode _ _ Hst') in Hrun. injection Hrun as <- <-.
    exact (spares_run _ _ _ _ Hs Hst').
Qed.
End backend.

(** Blocks that pass the test: of operations the encoder has right, with few
    values at a time and no collision of pseudo values. *)
Lemma plain_translates b mapped R m r l s' :
  selectable b -> all_plain (ir.instructions b) -> exits_plainly b = true ->
  irsem.run_block mapped b R m = Some r ->
  Selector.selectInstructions b Selector.new = (Ok l, s') ->
  pressure_fits [] (intervals l) = true -> translates b = true.
Proof.
  intros Hb Hp He Hr Hl Hpr. unfold translates. rewrite Hl, Hpr, andb_true_r.
  destruct (selected_fragment b mapped R m r l s' Hb He Hr Hl) as [D F].
  rewrite (fragment_tidy _ _ F). cbn [andb]. apply forallb_Forall.
  eapply (selected_encodable b); [exact Hl|]. destruct Hb as [Hf _].
  apply Forall_forall. intros i Hi. apply andb_true_iff.
  split; [by apply (proj1 (Forall_forall _ _) Hf i)|by apply (proj1 (Forall_forall _ _) Hp i)].
Qed.

(** ** Lifted blocks *)

(** Instructions the decoder and the lifter have as the instruction set has
    them.  (Decoded as SRLI, an instruction may be an SRAI.) *)
Definition handled (i : riscv.Instruction) : bool :=
  negb (upper_op (riscv.opcode i)) && negb (bool_decide (riscv.opcode i = riscv.SRLI)).

Lemma handled_upper l :
  forallb handled l = true -> no_upper l = true.
Proof.
  unfold no_upper.
  rewrite !forallb_forall. intros H i Hi. specialize (H i Hi). unfold handled in H.
  by apply andb_true_iff in H as [? _].
Qed.

(** A lifted block is in SSA form. *)
Lemma ended_selectable first s b :
  ended first s b -> Lifter.nextValueId s - first < 2 ^ 29 -> selectable b.
Proof.
  intros (Hi & Hf & Hr & Hids) Hn. unfold selectable. rewrite Hi.
  split; [done|]. split.
  - change (NoDup (map ir.valueId (Lifter.currentInstructions s))). rewrite Hids. apply NoDup_seqZ.
  - apply (f_equal length) in Hids. rewrite length_map, length_seqZ in Hids. lia.
Qed.

(** C25: lifted blocks are in static single assignment form: a block of liftable
    instructions lifts, from a fresh lifter, to instructions whose value ids are
    1, 2, 3, ... in order, whose constants and operations have the types their
    uses need, and whose values number less than 2^29. *)
Theorem liftBasicBlock_ssa iterate body t :
  (∀ X, iterate X ≡ₚ elements X) ->
  block_fits body t = true -> Z.of_nat (length body) < 2 ^ 24 ->
  ∃ b s', Lifter.liftBasicBlock iterate (body ++ [t]) Lifter.new = (Ok b, s')
    ∧ map ir.valueId (ir.instructions b) = seqZ 1 (Z.of_nat (length (ir.instructions b)))
    ∧ Forall (λ i, irsem.in_form (ir.kind i) = true) (ir.instructions b)
    ∧ Z.of_nat (length (ir.instructions b)) < 2 ^ 29.
Proof.
  intros Hit Hfit Hlen.
  destruct (lift_block_uniform iterate body t Lifter.new Hit Hfit)
    as (b & s' & Hl & (Hi & Hf & Hr & Hids) & Hn & _).
  { split; [done|]. change (Lifter.nextValueId Lifter.new) with 1. lia. }
  change (Lifter.nextValueId Lifter.new) with 1 in *.
  exists b, s'. split; [done|]. rewrite Hi.
  pose proof (f_equal length Hids) as E. rewrite length_map, length_seqZ in E.
  split; [|split; [done|lia]]. rewrite Hids. f_equal. lia.
Qed.

(** [addi a0, a0, 1; sd a0, 8(sp)]. *)
Definition ssa_body : list riscv.Instruction :=
  [riscv.mkInstruction riscv.ADDI [riscv.Register 10; riscv.Register 10; riscv.Immediate 1] 0 0].
Definition ssa_last : riscv.Instruction :=
  riscv.mkInstruction riscv.SD [riscv.Register 2; riscv.Register 10; riscv.Immediate 8] 0 4.

Lemma liftBasicBlock_ssa_witness :
  ∃ b s', Lifter.liftBasicBlock elements (ssa_body ++ [ssa_last]) Lifter.new = (Ok b, s')
    ∧ map ir.valueId (ir.instructions b) = seqZ 1 8.
Proof.
  destruct (liftBasicBlock_ssa elements ssa_body ssa_last) as (b & s' & Hl & Hids & _);
    [done|vm_compute; reflexivity|cbn; lia|].
  assert (match Lifter.liftBasicBlock elements (ssa_body ++ [ssa_last]) Lifter.new with
          | (Ok b, _) => length (ir.instructions b) = 8%nat
          | _ => False
          end) as H8 by (vm_compute; reflexivity).
  rewrite Hl in H8. exists b, s'. split; [exact Hl|]. rewrite Hids, H8. reflexivity.
Defined.

Section translator.
Context (E : ELFReader.ELFIO) (O : ExecutionEngine.OS).
Context (iterate_regs : gset Z → list Z) (iterate_defs : gmap Z nat → list (Z * nat)).
Context (iterate_regs_all : ∀ X, iterate_regs X ≡ₚ elements X).
Context (iterate_defs_all : ∀ m, iterate_defs m ≡ₚ map_to_list m).

(** Lifting and the back end. *)
Lemma block_runs body t b s' gs base shadow mapped R m r X fl H :
  block_fits body t = true -> forallb handled (body ++ [t]) = true ->
  (is_ret t = true -> r.2 = 0) -> links t = false -> Z.of_nat (length body) < 2 ^ 24 ->
  Lifter.liftBasicBlock iterate_regs (body ++ [t]) Lifter.new = (Ok b, s') -> translates b = true ->
  rvsem.block rvsem.upper_value mapped (body ++ [t]) (rvsem.mkState R m) = Some r ->
  separate gs base shadow mapped ->
  represents gs base shadow mapped R m H -> a64sem.xget X 0 = gs ->
  ∃ l code, BinaryTranslator.translateToARM64 iterate_defs b = Ok l
    ∧ back_end iterate_defs b = Ok code ∧ length code = (4 * length l)%nat ∧ code ≠ []
    ∧ code_runs_as gs base shadow mapped code X fl H r
    ∧ (forallb spares l = true -> keeps_saved code X fl H).
Proof.
  intros Hfit Hup%handled_upper Hret Hlink Hlen Hlift Htr Hr Hsep HR Hgs.
  rewrite (block_upper _ rvsem.upper_field) in Hr by done.
  destruct (lift_block_uniform iterate_regs body t Lifter.new iterate_regs_all Hfit)
    as (b' & s'' & Hlift' & Hend & Hn & Hsem).
  { split; [done|]. change (Lifter.nextValueId Lifter.new) with 1. lia. }
  rewrite Hlift in Hlift'. injection Hlift' as <- <-.
  change (Lifter.nextValueId Lifter.new) with 1 in *.
  destruct (Hsem mapped R m) as (R' & M' & pc & Hrun & Hblk & _); [by eexists|].
  rewrite linked_id in Hblk by done. rewrite Hblk in Hr. injection Hr as <-.
  cbn [snd] in Hret. assert ((if is_ret t then 0 else pc) = pc) as Hpc.
  { destruct (is_ret t); [symmetry; by apply Hret|done]. }
  rewrite Hpc in Hrun.
  eapply back_end_runs; try done. eapply ended_selectable; [done|]. lia.
Qed.

(** A test on the instructions themselves: without the operations the encoder
    has wrong, a lifted block passes if registers suffice and its branch does not
    collide with its values. *)
Lemma lifted_translates body t b s' mapped R m r l s2 :
  block_fits body t = true ->
  forallb (λ i, plain_op (riscv.opcode i)) (body ++ [t]) = true ->
  Z.of_nat (length body) < 2 ^ 24 ->
  Lifter.liftBasicBlock iterate_regs (body ++ [t]) Lifter.new = (Ok b, s') ->
  rvsem.block rvsem.upper_field mapped (body ++ [t]) (rvsem.mkState R m) = Some r ->
  exits_plainly b = true -> Selector.selectInstructions b Selector.new = (Ok l, s2) ->
  pressure_fits [] (intervals l) = true -> translates b = true.
Proof.
  intros Hfit Hp Hlen Hlift Hr He Hsel Hpr.
  destruct (lift_block_uniform iterate_regs body t Lifter.new iterate_regs_all Hfit)
    as (b' & s'' & Hlift' & Hend & Hn & Hsem).
  { split; [done|]. change (Lifter.nextValueId Lifter.new) with 1. lia. }
  rewrite Hlift in Hlift'. injection Hlift' as <- <-.
  change (Lifter.nextValueId Lifter.new) with 1 in *.
  destruct (Hsem mapped R m) as (R' & M' & pc & Hrun & _); [by eexists|].
  eapply plain_translates; [|by eapply lifted_plain|done..].
  eapply ended_selectable; [done|]. lia.
Qed.

(** [compileBlock] from its parts. *)
Lemma compileBlock_back_end s pc insts b s' code :
  BinaryTranslator.isValidPC E O s pc = true ->
  BinaryTranslator.decodeBlock (S (length (BinaryTranslator.textSectionData E O s)))
    (BinaryTranslator.textSectionData E O s)
    (u64 (pc - BinaryTranslator.textBaseAddress E O s)) pc [] = Ok insts ->
  insts ≠ [] -> Lifter.liftBasicBlock iterate_regs insts Lifter.new = (Ok b, s') ->
  back_end iterate_defs b = Ok code -> code ≠ [] ->
  BinaryTranslator.compileBlock E O iterate_regs iterate_defs s pc = Ok code.
Proof.
  intros Hpc Hdec Hi Hlift Hback Hne.
  unfold BinaryTranslator.compileBlock. rewrite Hpc. cbn [negb]. rewrite Hdec.
  cbn [mbind result_bind]. rewrite bool_decide_false by done.
  rewrite Hlift. cbn [fst mbind result_bind].
  unfold back_end in Hback. apply bind_Ok in Hback as (l & Hl & Hback).
  apply bind_Ok in Hback as (encoded & Henc & [= <-]).
  rewrite Hl. cbn [mbind result_bind]. rewrite Henc. cbn [mbind result_bind].
  by rewrite bool_decide_false.
Qed.

(** C3: the translation of a block, from the bytes of the text section to
    machine code, is correct.  For a block the decoder reads as [body ++ [t]],
    of handled instructions, that ends in a branch, in a jump that links no
    register (a return must be to address zero), or by falling through, and that
    passes the test of its translation: from every state in which
    the RISC-V instructions execute, [compileBlock] returns machine code that
    the processor runs, on any host state that represents the guest's, to its
    return, leaving a host state that represents the registers and memory the
    instruction set prescribes, the next program counter in X0, and the rest of
    the host's memory as it was. *)
Theorem compileBlock_refines s pc body t b s' gs base shadow mapped R m r X fl H :
  BinaryTranslator.isValidPC E O s pc = true ->
  BinaryTranslator.decodeBlock (S (length (BinaryTranslator.textSectionData E O s)))
    (BinaryTranslator.textSectionData E O s)
    (u64 (pc - BinaryTranslator.textBaseAddress E O s)) pc [] = Ok (body ++ [t]) ->
  block_fits body t = true -> forallb handled (body ++ [t]) = true ->
  (is_ret t = true -> r.2 = 0) -> links t = false -> Z.of_nat (length body) < 2 ^ 24 ->
  Lifter.liftBasicBlock iterate_regs (body ++ [t]) Lifter.new = (Ok b, s') -> translates b = true ->
  rvsem.block rvsem.upper_value mapped (body ++ [t]) (rvsem.mkState R m) = Some r ->
  separate gs base shadow mapped ->
  represents gs base shadow mapped R m H -> a64sem.xget X 0 = gs ->
  ∃ code, BinaryTranslator.compileBlock E O iterate_regs iterate_defs s pc = Ok code
    ∧ code_runs_as gs base shadow mapped code X fl H r.
Proof.
  intros Hpc Hdec Hfit Hh Hret Hlink Hlen Hlift Htr Hr Hsep HR Hgs.
  destruct (block_runs body t b s' gs base shadow mapped R m r X fl H)
    as (l & code & _ & Hback & _ & Hne & Hrun & _); [done..|].
  exists code. split; [|done]. eapply compileBlock_back_end; try done. by destruct body.
Qed.
End translator.
