(* ===== verification/PipelineDefects.v ===== *)
(** * Defects of the composed stages

    [selectCondBranch] takes ids for the two targets of a branch from the
    counter of virtual registers; when such an id is also a value of the block,
    the value's register is redefined, and its live interval covers nothing of
    the block; a block that goes the wrong way for it.  The allocator hands out registers that belong to the caller, and guest addresses
    are translated without a bounds check: two blocks that show it. *)
From S2P Require Import Prelude Error Riscv RiscvEncoding IR Machine IRSemantics RiscvSemantics.
From S2P Require Import Lifter LifterBlock Arm64 A64 A64Semantics GuestState.
From S2P Require Import InstructionSelector Liveness LivenessCorrect RegisterAllocator.
From S2P Require Import BinaryTranslator HostState SelectedCode SelectorCorrect.
From S2P Require Import AllocationSemantics SelectorTidy TranslationCorrect.
Import machine.

(** ** Colliding pseudo values *)

Section collision.
Import Selector.

Lemma assign_mapped s id v :
  irToVReg s !! id = Some v -> assignVirtualRegister id s = (Ok v, s).
Proof. intros H. unfold assignVirtualRegister. run_state. by rewrite H. Qed.

Lemma assign_total s id :
  ∃ v s', assignVirtualRegister id s = (Ok v, s') ∧ irToVReg s' !! id = Some v.
Proof.
  destruct (irToVReg s !! id) as [v|] eqn:H.
  - exists v, s. split; [by apply assign_mapped|done].
  - unfold assignVirtualRegister. run_state. rewrite H. run_state.
    eexists _, _. split; [done|]. apply lookup_insert_eq.
Qed.

(** The code of a branch whose first pseudo value is a value of the block. *)
Lemma run_CondBranch_colliding s c t f x v :
  irToVReg s !! c = Some x -> irToVReg s !! nextVirtualReg s = Some v ->
  ∃ w target s', selectCondBranch c t f s = (Ok (branch_code x v w target t f), s').
Proof.
  intros Hc Hv. unfold selectCondBranch, selectConst.
  cbv [mbind stateM_bind mret stateM_ret]. rewrite (run_getOrThrow _ _ _ Hc).
  run_state.
  rewrite !(assign_mapped (mkSelector _ _ _) (nextVirtualReg s) v) by done.
  match goal with |- context [assignVirtualRegister ?id ?s1] =>
    destruct (assign_total s1 id) as (w & s2 & E & Hw) end.
  rewrite E, (assign_mapped _ _ _ Hw). run_state. by eexists _, _, _.
Qed.

Lemma branch_code_defines x v w target t f :
  0 <= v -> ∃ k i, branch_code x v w target t f !! S k = Some i ∧ def_of i = Some v.
Proof.
  intros Hv.
  destruct (fr_all _ _ _ (fragment_const (λ _, False) ir.i64 (i64 t) v Hv (λ H, H)) v eq_refl)
    as (i & [k Hk]%list_elem_of_lookup & Hd).
  exists k, i. split; [|done]. unfold branch_code. cbn [app lookup list_lookup].
  by apply lookup_app_l_Some.
Qed.

(** A register defined again in the second part of the code has no part of the
    first in its interval. *)
Lemma redefined_interval iterate l1 l2 v k i :
  (∀ m, iterate m ≡ₚ map_to_list m) -> l2 !! k = Some i -> def_of i = Some v ->
  let intervals := Liveness.computeLiveIntervals iterate (l1 ++ l2) in
  (∃ iv, iv ∈ intervals ∧ Liveness.virtualRegister iv = v)
  ∧ ∀ iv, iv ∈ intervals -> Liveness.virtualRegister iv = v ->
          (length l1 + k <= Liveness.start iv)%nat.
Proof.
  intros Hit Hk Hd intervals.
  assert ((l1 ++ l2) !! (length l1 + k)%nat = Some i) as Hl by (by rewrite lookup_app_r, Nat.add_comm, Nat.add_sub by lia).
  split.
  - destruct (last_def (l1 ++ l2) v) as [d|] eqn:E.
    + exists (interval_for (l1 ++ l2) v d). split; [|done]. apply elem_of_intervals; eauto.
    + destruct (proj1 (last_def_None _ _) E i); [by eapply list_elem_of_lookup_2|done].
  - intros iv (v' & d & E & ->)%elem_of_intervals; [|done]. cbn. intros ->.
    apply last_def_Some in E as [_ Hmax]. by eapply Hmax.
Qed.

(** C33: (defect) the pseudo values of a conditional branch collide with the
    block's own.  Whenever the counter of virtual registers stands, at the end
    of the block, at the id of one of its values, the branch redefines the
    register of that value, which the block's code has defined, and the only
    live interval of the register starts after the whole code of the block: the
    allocator protects neither the value's definition nor its uses.  (The
    witness is a block that goes the wrong way for it.) *)
Theorem branch_collision iterate b mapped R m r ls s c t f v :
  (∀ m, iterate m ≡ₚ map_to_list m) ->
  selectable b -> irsem.run_block mapped b R m = Some r ->
  ir.terminator b = ir.CondBranch c t f ->
  mapM_state selectInstruction (ir.instructions b) new = (Ok ls, s) ->
  irToVReg s !! nextVirtualReg s = Some v ->
  ∃ branch s',
    selectInstructions b new = (Ok (concat ls ++ branch), s')
    ∧ (∃ i, i ∈ concat ls ∧ def_of i = Some v)
    ∧ (∃ i, i ∈ branch ∧ def_of i = Some v)
    ∧ let intervals := Liveness.computeLiveIntervals iterate (concat ls ++ branch) in
      (∃ iv, iv ∈ intervals ∧ Liveness.virtualRegister iv = v)
      ∧ ∀ iv, iv ∈ intervals -> Liveness.virtualRegister iv = v ->
          ∀ k, (k <= length (concat ls))%nat -> (k < Liveness.start iv)%nat.
Proof.
  intros Hit (_ & Hnd & Hlen) Hr Ht Hls Hv. unfold irsem.run_block in Hr.
  apply bind_Some in Hr as (st & Hrun & Hr). apply bind_Some in Hr as (pc & Hpc & _).
  destruct (fragment_instructions mapped (ir.instructions b) new (irsem.mkState ∅ R m) st ls s)
    as (F & Hb & _ & Hs); try done.
  { change (nextVirtualReg new) with 0. lia. }
  { intros id. by split; intros [? [=]]. }
  rewrite Ht in Hpc. cbn in Hpc. apply bind_Some in Hpc as (y & Hy & _).
  destruct (proj2 (Hs c)) as [x Hx]; [by eexists|].
  destruct (run_CondBranch_colliding s c t f x v Hx Hv) as (w & target & s' & Hsel).
  pose proof (proj2 Hb _ _ Hv) as Hvr.
  destruct (branch_code_defines x v w target t f (proj1 Hvr)) as (k & i & Hk & Hd).
  exists (branch_code x v w target t f), s'. split; [|split; [|split]].
  - unfold selectInstructions. rewrite run_bind, Hls, run_bind, Ht.
    cbn [selectTerminator]. by rewrite Hsel.
  - apply (fr_all _ _ _ F). unfold added. by change (nextVirtualReg new) with 0.
  - exists i. split; [by eapply list_elem_of_lookup_2|done].
  - destruct (redefined_interval iterate (concat ls) _ v _ i Hit Hk Hd) as [He Hm].
    split; [done|]. intros iv Hiv E p Hp. specialize (Hm iv Hiv E). lia.
Qed.
End collision.

(** [li a3, 1; bne a0, a1, .+16], at 0x1000. *)
Definition colliding_block : list riscv.Instruction :=
  [ riscv.mkInstruction riscv.ADDI
      [riscv.Register 13; riscv.Register 0; riscv.Immediate 1] 0x00100693 0x1000;
    riscv.mkInstruction riscv.BNE
      [riscv.Register 10; riscv.Register 11; riscv.Immediate 16] 0x00b51863 0x1004 ].

Definition compiled (insts : list riscv.Instruction) : result (list Z) :=
  b ← fst (Lifter.Lifter.liftBasicBlock elements insts Lifter.Lifter.new);
  back_end map_to_list b.

(** The block it is lifted to, with the code of its instructions. *)
Definition colliding_ir : ir.BasicBlock :=
  match fst (Lifter.Lifter.liftBasicBlock elements colliding_block Lifter.Lifter.new) with
  | Ok b => b
  | Err _ => ir.mkBasicBlock [] (ir.Return None)
  end.

(** The machine code leaves the address of the next instruction where the guest
    takes its branch. *)
Lemma colliding_block_wrong :
  represents 0x1000 0x2000 0x8000 sample_guest {[10 := 0x2008]} ∅ sample_host
  ∧ ∃ code R' st,
    rvsem.block rvsem.upper_value sample_guest colliding_block
      (rvsem.mkState {[10 := 0x2008]} ∅) = Some (R', ∅, 0x1014)
    ∧ compiled colliding_block = Ok code
    ∧ a64sem.run_code code
        (a64sem.mkState {[0 := 0x1000; 30 := 0x400]}
           (a64sem.mkFlags false false false false) sample_host) = Some (st, 0x400)
    ∧ a64sem.xget (a64sem.xr st) 0 = 0x1008.
Proof.
  split; [exact sample_represents|].
  set (code := match compiled colliding_block with Ok c => c | Err _ => [] end).
  set (s0 := a64sem.mkState {[0 := 0x1000; 30 := 0x400]}
               (a64sem.mkFlags false false false false) sample_host).
  assert (compiled colliding_block = Ok code) as Hc by (vm_compute; reflexivity).
  assert (match a64sem.run_code code s0 with
          | Some (st, ra) => ra = 0x400 ∧ a64sem.xget (a64sem.xr st) 0 = 0x1008
          | None => False
          end) as Hr by (vm_compute; split; reflexivity).
  destruct (a64sem.run_code code s0) as [[st ra]|] eqn:E; [|destruct Hr].
  destruct Hr as [-> H0]. eexists code, _, st.
  split; [vm_compute; reflexivity|]. split; [exact Hc|]. split; [exact E|exact H0].
Qed.

(** The value 6 (what a1 holds), in virtual register 4, is redefined. *)
Lemma branch_collision_witness :
  ∃ ls s branch s',
    mapM_state Selector.selectInstruction (ir.instructions colliding_ir) Selector.new = (Ok ls, s)
    ∧ Selector.selectInstructions colliding_ir Selector.new = (Ok (concat ls ++ branch), s')
    ∧ (∃ i, i ∈ concat ls ∧ def_of i = Some 4)
    ∧ ∀ iv, iv ∈ Liveness.computeLiveIntervals map_to_list (concat ls ++ branch) ->
        Liveness.virtualRegister iv = 4 -> (length (concat ls) < Liveness.start iv)%nat.
Proof.
  assert (match mapM_state Selector.selectInstruction (ir.instructions colliding_ir)
                  Selector.new with
          | (Ok _, s) => Selector.irToVReg s !! Selector.nextVirtualReg s = Some 4
          | (Err _, _) => False
          end) as Hv by (vm_compute; reflexivity).
  destruct (mapM_state _ _ _) as [[ls|e] s] eqn:Hls; [|destruct Hv].
  assert (match irsem.run_block everywhere colliding_ir ∅ ∅ with
          | Some _ => True | None => False end) as Hdef by (vm_compute; exact I).
  destruct (irsem.run_block everywhere colliding_ir ∅ ∅) as [r|] eqn:Hr; [|destruct Hdef].
  assert (selectable colliding_ir) as Hb.
  { split; [|split; [|vm_compute; reflexivity]];
      apply (bool_decide_unpack _); vm_compute; exact I. }
  destruct (branch_collision map_to_list colliding_ir _ _ _ _ _ _ _ _ _ 4 (λ _, reflexivity _)
              Hb Hr eq_refl Hls Hv) as (branch & s' & Hsel & Hbody & _ & _ & Hiv).
  exists ls, s, branch, s'. split; [reflexivity|]. split; [exact Hsel|]. split; [exact Hbody|].
  intros iv Hi E. by apply (Hiv iv Hi E).
Defined.

(** ** Registers of the caller *)

(** [addi xk, xk, 1] for x5 to x26, then a jump. *)
Definition busy_block : list riscv.Instruction :=
  ((λ k, riscv.mkInstruction riscv.ADDI
           [riscv.Register k; riscv.Register k; riscv.Immediate 1] 0 (0x1000 + 4 * (k - 5)))
     <$> seqZ 5 22)
  ++ [riscv.mkInstruction riscv.JAL [riscv.Register 0; riscv.Immediate 8] 0 0x1058].

(** Entered with 77 in X19, the code of a block with 22 live values returns with
    another value there. *)
Example callee_saved_clobbered :
  match compiled busy_block with
  | Ok code =>
      match a64sem.run_code code
              (a64sem.mkState {[0 := 0x1000; 19 := 77; 30 := 0x400]}
                 (a64sem.mkFlags false false false false) sample_host) with
      | Some (st, ra) => ra = 0x400 ∧ a64sem.xget (a64sem.xr st) 19 ≠ 77
      | None => False
      end
  | Err _ => False
  end.
Proof. vm_compute. split; [reflexivity|discriminate]. Qed.

(** ** Addresses outside the shadow memory *)

(** [sd a0, 0x100(a0)], with 0x2008 in a0: the guest's memory ends at 0x2010. *)
Definition stray_store : list riscv.Instruction :=
  [ riscv.mkInstruction riscv.SD
      [riscv.Register 10; riscv.Register 10; riscv.Immediate 0x100] 0 0x1000 ].

(** The guest's store has no meaning, the machine code's changes host memory
    that is neither the structure nor the shadow memory. *)
Example stray_store_executes :
  rvsem.block rvsem.upper_value sample_guest stray_store
    (rvsem.mkState {[10 := 0x2008]} ∅) = None
  ∧ ¬ touched 0x1000 0x2000 0x8000 sample_guest 0x8108
  ∧ match compiled stray_store with
    | Ok code =>
        match a64sem.run_code code
                (a64sem.mkState {[0 := 0x1000; 30 := 0x400]}
                   (a64sem.mkFlags false false false false) sample_host) with
        | Some (st, _) => load_byte sample_host 0x8108 = 0
                          ∧ load_byte (a64sem.hm st) 0x8108 = 8
        | None => False
        end
    | Err _ => False
    end.
Proof.
  split; [vm_compute; reflexivity|]. split.
  - intros [(k & Hk & E)|(a & Ha & E)].
    + rewrite (uint_small 64 (0x1000 + k)) in E by (unfold in_u; lia).
      change (u64 0x8108) with 0x8108 in E. lia.
    + apply sample_address in Ha as [Hh Ha]. change (u64 0x8108) with 0x8108 in E. lia.
  - vm_compute. split; reflexivity.
Qed.
