(* ===== verification/GuestBlocks.v ===== *)
(** * Guest programs by basic blocks

    A run of a guest program (GuestProgram.v) is a sequence of the basic blocks
    the translator's decoding loop finds, and a block that passes [block_ready],
    a test on its instructions and on what the translator makes of them, is
    translated correctly wherever the run enters it.  [function_ready] is the
    test of all blocks control can reach from a function's entry. *)
From S2P Require Import Prelude Error Riscv Decoder DecoderCorrect IR Machine IRSemantics RiscvSemantics.
From S2P Require Import Lifter LifterCorrect LifterBlock LifterForms.
From S2P Require Import Arm64 Encoder A64 A64Semantics Arm64Meaning GuestState.
From S2P Require Import InstructionSelector Liveness RegisterAllocator.
From S2P Require Import ELFReader ExecutionEngine BinaryTranslator.
From S2P Require Import HostState SelectorCorrect MachineCode TranslatorCorrect.
From S2P Require Import GuestProgram TranslationCorrect.
Import machine.

(** ** Runs by blocks *)

Section program.
Context (text : list Z) (base : Z) (mapped : Z → bool).
Context (base_positive : 0 < base).
Context (text_fits : base + Z.of_nat (length text) < 2 ^ 64).

Lemma transfers_isTerminator i : rvsem.transfers i = Lifter.Lifter.isTerminator i.
Proof. unfold rvsem.transfers, Lifter.Lifter.isTerminator. by destruct (riscv.opcode i). Qed.

(** Instructions are executed in the section. *)
Lemma step_inside R m pc b s' :
  guest.step text base mapped (R, m, pc) b s' ->
  base <= pc ∧ pc + 4 <= base + Z.of_nat (length text).
Proof.
  intros Hs. by inversion Hs as [i ? ? ? st Hf|i ? ? ? pc1 Hf]; subst;
    apply guest.fetches_bounds in Hf.
Qed.

(** A run without transfers of control does not come to zero. *)
Lemma returns_nil R m pc R' m' :
  guest.returns text base mapped [] (R, m, pc) R' m' -> pc = 0 ∧ R' = R ∧ m' = m.
Proof.
  intros H. remember [] as l eqn:El. remember (R, m, pc) as s eqn:E.
  revert R m pc E. induction H as [R0 m0|s b s' l R0 m0 Hs Hr IH]; intros R m pc E.
  - by injection E as <- <- <-.
  - subst s. destruct b; [done|]. apply step_inside in Hs as Hin. inversion Hs; subst.
    destruct (IH eq_refl _ _ _ eq_refl) as [E0 _].
    rewrite uint_small in E0 by (unfold in_u; lia). lia.
Qed.

Lemma returns_runs l n s R' m' :
  guest.returns text base mapped l s R' m' -> (length l <= n)%nat ->
  guest.runs text base mapped n l s R' m'.
Proof.
  intros H. revert n. induction H as [R m|s b s' l R m Hs Hr IH]; intros n Hn.
  - apply guest.runs_home.
  - destruct b.
    + destruct n as [|n]; [simpl in Hn; lia|]. eapply guest.runs_transfer; [exact Hs|].
      apply IH. simpl in Hn. lia.
    + destruct n as [|n]; [|by eapply guest.runs_plain; [exact Hs|apply IH]].
      destruct l; [|simpl in Hn; lia]. destruct s as [[R0 m0] pc].
      assert (guest.returns text base mapped [] (R0, m0, pc) R m) as H0
        by exact (guest.returns_step _ _ _ _ false _ [] _ _ Hs Hr).
      apply returns_nil in H0 as (-> & _). apply step_inside in Hs. lia.
Qed.

(** A run is over, or control is in the section. *)
Lemma runs_from n pc l R m R' m' :
  guest.runs text base mapped (S n) l (R, m, pc) R' m' -> (pc = 0 ∧ l = []) ∨ base <= pc.
Proof.
  intros Hr. inversion Hr as [| |? ? ? ? ? ? Hs|? ? ? ? ? ? Hs]; subst; [by left|right|right];
    by apply step_inside in Hs as [? _].
Qed.

(** What is executed at an address is what the decoder finds there, if that is
    handled. *)
Lemma handled_fetch pc i j :
  guest.fetches text base pc i -> Decoder.Decoder.decode text (pc - base) pc = Ok j ->
  handled j = true -> i = j.
Proof.
  intros Hf Hd Hh. destruct (guest.fetches_decoding _ _ _ _ Hf) as (k & Hk & Hik).
  rewrite Hd in Hk. injection Hk as <-. destruct Hik as [->|Hop]; [done|].
  unfold handled in Hh. by rewrite Hop in Hh.
Qed.

(** A run from inside the section starts with the instruction decoded there. *)
Lemma runs_at n pc j l R m R' m' :
  base <= pc -> Decoder.Decoder.decode text (pc - base) pc = Ok j -> handled j = true ->
  guest.runs text base mapped (S n) l (R, m, pc) R' m' ->
  if rvsem.transfers j then
    ∃ pc1 l', rvsem.target j (rvsem.mkState R m) = Some pc1 ∧ l = pc1 :: l'
      ∧ guest.runs text base mapped n l' (rvsem.linked j R, m, pc1) R' m'
  else
    ∃ st, rvsem.exec rvsem.upper_value mapped j (rvsem.mkState R m) = Some st
      ∧ guest.runs text base mapped (S n) l (rvsem.vregs st, rvsem.vmem st, u64 (pc + 4)) R' m'.
Proof.
  intros Hb Hd Hh Hr. inversion Hr as [| |? ? s' ? ? ? Hs Hr'|? ? s' ? ? ? Hs Hr']; subst; [lia| |];
    inversion Hs as [i ? ? ? st Hf Ht Hx|i ? ? ? pc1 Hf Ht Hx]; subst;
    assert (i = j) as -> by (by eapply handled_fetch); rewrite Ht; eauto.
Qed.

(** No instruction past the end of the section. *)
Lemma runs_inside n pc l R m R' m' :
  base <= pc -> guest.runs text base mapped (S n) l (R, m, pc) R' m' ->
  pc + 4 <= base + Z.of_nat (length text).
Proof.
  intros Hb Hr. inversion Hr as [| |? ? ? ? ? ? Hs|? ? ? ? ? ? Hs]; subst; [lia| |];
    by apply step_inside in Hs as [_ ?].
Qed.

(** The run goes through the whole block it enters. *)
Lemma runs_block n offset pc insts :
  basic_block text offset pc insts -> ∀ l R m R' m',
  offset = pc - base -> base <= pc -> insts ≠ [] -> forallb handled insts = true ->
  guest.runs text base mapped (S n) l (R, m, pc) R' m' ->
  ∃ R1 m1 pc1 l', rvsem.block rvsem.upper_value mapped insts (rvsem.mkState R m)
                  = Some (R1, m1, pc1)
    ∧ l = pc1 :: l' ∧ guest.runs text base mapped n l' (R1, m1, pc1) R' m'.
Proof.
  induction 1 as [|offset pc i Hlt Hd Hv Ht|offset pc i insts Hlt Hd Hv Ht Hbb IH];
    intros l R m R' m' -> Hb Hne Hh Hr; [done| | ].
  - cbn [forallb] in Hh. apply andb_true_iff in Hh as [Hh _].
    pose proof (runs_at _ _ _ _ _ _ _ _ Hb Hd Hh Hr) as H. rewrite transfers_isTerminator, Ht in H.
    destruct H as (pc1 & l' & Hx & -> & Hr'). exists (rvsem.linked i R), m, pc1, l'.
    cbn [rvsem.block]. by rewrite transfers_isTerminator, Ht, Hx.
  - cbn [forallb] in Hh. apply andb_true_iff in Hh as [Hi Hh].
    pose proof (runs_at _ _ _ _ _ _ _ _ Hb Hd Hi Hr) as H. rewrite transfers_isTerminator, Ht in H.
    destruct H as (st & Hx & Hr').
    pose proof (runs_inside _ _ _ _ _ _ _ Hb Hr).
    assert (u64 (pc + 4) = pc + 4) as Hpc by (apply uint_small; unfold in_u; lia).
    rewrite Hpc in *.
    destruct insts as [|j insts].
    { apply runs_inside in Hr'; [|lia]. inversion Hbb; lia. }
    destruct (IH _ _ _ _ _ ltac:(lia) ltac:(lia) ltac:(done) Hh Hr')
      as (R1 & m1 & pc1 & l' & Hblk & -> & Hret).
    exists R1, m1, pc1, l'. split; [|done].
    change (rvsem.block rvsem.upper_value mapped (i :: j :: insts) (rvsem.mkState R m))
      with (s ← rvsem.exec rvsem.upper_value mapped i (rvsem.mkState R m);
            rvsem.block rvsem.upper_value mapped (j :: insts) s).
    rewrite Hx. by destruct st.
Qed.
End program.

(** ** The return address *)

(** No instruction of the function writes x1. *)
Definition keeps_ra (i : riscv.Instruction) : bool :=
  match riscv.operands i with
  | riscv.Register r :: _ =>
      negb (r =? 1) || bool_decide (is_Some (rvsem.store_kind (riscv.opcode i)))
      || bool_decide (is_Some (rvsem.taken (riscv.opcode i) 0 0))
  | _ => true
  end.

Lemma exec_keeps_ra upper mapped i st st' :
  keeps_ra i = true -> rvsem.exec upper mapped i st = Some st' ->
  xget (rvsem.vregs st') 1 = xget (rvsem.vregs st) 1.
Proof.
  unfold keeps_ra, rvsem.exec. intros Hk Hx.
  destruct (riscv.opcode i); destruct (riscv.operands i) as [|[r|] [|[|] [|[|] [|]]]];
    cbn in Hk, Hx; try done; simplify_option_eq; try done;
    apply xget_xset_ne; intros ->; done.
Qed.

Lemma linked_keeps_ra i R : keeps_ra i = true -> xget (rvsem.linked i R) 1 = xget R 1.
Proof.
  unfold keeps_ra, rvsem.linked. intros Hk.
  destruct (riscv.opcode i); try done; destruct (riscv.operands i) as [|[r|] ops]; try done;
    apply xget_xset_ne; by intros ->.
Qed.

Lemma block_keeps_ra upper mapped l : ∀ st R m pc,
  forallb keeps_ra l = true -> rvsem.block upper mapped l st = Some (R, m, pc) ->
  xget R 1 = xget (rvsem.vregs st) 1.
Proof.
  induction l as [|i l IH]; intros st R m pc Hk Hb; [done|].
  cbn [forallb] in Hk. apply andb_true_iff in Hk as [Hi Hk]. cbn [rvsem.block] in Hb.
  destruct l as [|j l].
  - destruct (rvsem.transfers i).
    + apply bind_Some in Hb as (pc1 & _ & [= <- _ _]). by apply linked_keeps_ra.
    + apply bind_Some in Hb as (st1 & Hx & [= <- _ _]). by eapply exec_keeps_ra.
  - apply bind_Some in Hb as (st1 & Hx & Hb). apply IH in Hb; [|done]. rewrite Hb.
    by eapply exec_keeps_ra.
Qed.

(** With no return address a return goes to zero. *)
Lemma block_ret upper mapped body t st R m pc :
  is_ret t = true -> rvsem.block upper mapped (body ++ [t]) st = Some (R, m, pc) ->
  xget R 1 = 0 -> pc = 0.
Proof.
  intros [Hop Ho]%is_ret_shape Hb H1. rewrite rv_block_execs in Hb.
  apply bind_Some in Hb as (st1 & _ & Hb). cbn [rvsem.block] in Hb.
  unfold rvsem.transfers, rvsem.target, rvsem.linked in Hb. rewrite Hop, Ho in Hb.
  cbn [mbind option_bind] in Hb. injection Hb as <- _ <-. change (xset ?X 0 _) with X in H1.
  by rewrite H1.
Qed.

(** Where control can go after a block that ends in an instruction, if returns
    are to zero: nothing is known of another indirect jump. *)
Definition successors (t : riscv.Instruction) : option (list Z) :=
  match riscv.opcode t, riscv.operands t with
  | riscv.JAL, [_; riscv.Immediate imm] => Some [u64 (riscv.address t + imm)]
  | riscv.JALR, _ => if is_ret t then Some [0] else None
  | (riscv.BEQ | riscv.BNE | riscv.BLT | riscv.BGE | riscv.BLTU | riscv.BGEU),
    [_; _; riscv.Immediate imm] => Some [u64 (riscv.address t + imm); u64 (riscv.address t + 4)]
  | _, _ => Some [u64 (riscv.address t + 4)]
  end.

Lemma block_successor upper mapped body t st R m pc l :
  rvsem.block upper mapped (body ++ [t]) st = Some (R, m, pc) ->
  (is_ret t = true -> pc = 0) -> successors t = Some l -> pc ∈ l.
Proof.
  intros Hb H1 Hl. destruct (is_ret t) eqn:Hret.
  { rewrite H1 by done. apply is_ret_shape in Hret as Hs.
    unfold successors in Hl. rewrite (proj1 Hs), Hret in Hl. injection Hl as <-. by left. }
  rewrite rv_block_execs in Hb. apply bind_Some in Hb as (st1 & _ & Hb).
  cbn [rvsem.block] in Hb. unfold successors in Hl. rewrite Hret in Hl.
  destruct (rvsem.transfers t) eqn:Ht; apply bind_Some in Hb as (x & Hx & [= _ _ <-]);
    unfold rvsem.transfers in Ht; unfold rvsem.target in Hx;
    destruct (riscv.opcode t); try discriminate Ht; try (injection Hl as <-; by left);
    clear Ht; destruct (riscv.operands t) as [|[r0|k0] [|[r1|k1] [|[r2|k2] [|]]]];
    simplify_option_eq; repeat case_match; simplify_eq; set_solver.
Qed.

(** Control goes to 64-bit addresses. *)
Lemma target_word i st pc : rvsem.target i st = Some pc -> in_u 64 pc.
Proof.
  unfold rvsem.target. intros H.
  assert (∀ x, in_u 64 (u64 x &. (2 ^ 64 - 2))) as Hand.
  { intros x. unfold uint. rewrite <- Z.land_ones, <- Z.land_assoc, (Z.land_comm (Z.ones 64)),
      Z.land_assoc, Z.land_ones by lia. apply (uint_range 64). lia. }
  destruct (riscv.opcode i); destruct (riscv.operands i) as [|[r0|k0] [|[r1|k1] [|[r2|k2] [|]]]];
    simplify_option_eq; repeat case_match; try done; (apply uint_range; lia) || apply Hand.
Qed.

Lemma block_word upper mapped l : ∀ st R m pc,
  rvsem.block upper mapped l st = Some (R, m, pc) -> in_u 64 pc.
Proof.
  induction l as [|i l IH]; intros st R m pc H; [done|]. cbn [rvsem.block] in H.
  destruct l as [|j l].
  - destruct (rvsem.transfers i); apply bind_Some in H as (x & Hx & [= _ _ <-]);
      [by eapply target_word|apply uint_range; lia].
  - apply bind_Some in H as (st1 & _ & H). by eapply IH.
Qed.

(** ** The test of a block *)

Section ready.
Context (iterate_regs : gset Z → list Z) (iterate_defs : gmap Z nat → list (Z * nat)).

(** Handled instructions and no calls, the pressure and the pseudo values in
    order, the code short and without the registers its caller owns. *)
Definition block_ready (insts : list riscv.Instruction) : bool :=
  match rev insts with
  | [] => false
  | t :: rbody =>
      block_fits (rev rbody) t && forallb handled insts && negb (links t)
      && (Z.of_nat (length rbody) <? 2 ^ 24)
      && match Lifter.Lifter.liftBasicBlock iterate_regs insts Lifter.Lifter.new with
         | (Ok b, _) =>
             translates b
             && match BinaryTranslator.translateToARM64 iterate_defs b with
                | Ok l => forallb spares l && (Z.of_nat (length l) <? 2 ^ 24)
                | Err _ => false
                end
         | _ => false
         end
  end.

Definition entry_ready (text : list Z) (base pc : Z) : bool :=
  match BinaryTranslator.decodeBlock (S (length text)) text (pc - base) pc [] with
  | Ok insts => block_ready insts
  | Err _ => false
  end.

(** The test of a whole function: a set of block entries with the function's
    among them, all ready, that control does not leave but for zero. *)
Definition entry_closed (text : list Z) (base : Z) (entries : list Z) (pc : Z) : bool :=
  match BinaryTranslator.decodeBlock (S (length text)) text (pc - base) pc [] with
  | Ok insts =>
      block_ready insts
      && match last insts ≫= successors with
         | Some l => forallb (λ s, (s =? 0) || bool_decide (s ∈ entries)) l
         | None => false
         end
  | Err _ => false
  end.

Definition function_ready (text : list Z) (base : Z) (entries : list Z) (f : Z) : bool :=
  bool_decide (f ∈ entries) && forallb (entry_closed text base entries) entries.

Lemma entry_closed_ready text base entries pc :
  entry_closed text base entries pc = true -> entry_ready text base pc = true.
Proof.
  unfold entry_closed, entry_ready. case_match; [|done]. by intros [? _]%andb_true_iff.
Qed.

(** The block at a program counter ends in a return. *)
Definition exits (text : list Z) (base pc : Z) : bool :=
  match BinaryTranslator.decodeBlock (S (length text)) text (pc - base) pc [] with
  | Ok insts => match last insts with Some t => is_ret t | None => false end
  | Err _ => false
  end.

(** The translator takes a return for the end of the guest program.  In a run
    along program counters, every return does end it. *)
Fixpoint returns_home (text : list Z) (base pc : Z) (l : list Z) : bool :=
  match l with
  | [] => true
  | pc1 :: l => (negb (exits text base pc) || (pc1 =? 0)) && returns_home text base pc1 l
  end.

Lemma block_ready_spec insts :
  block_ready insts = true ->
  ∃ body t b s' l, insts = body ++ [t] ∧ block_fits body t = true
    ∧ forallb handled insts = true ∧ links t = false
    ∧ Z.of_nat (length body) < 2 ^ 24
    ∧ Lifter.Lifter.liftBasicBlock iterate_regs insts Lifter.Lifter.new = (Ok b, s')
    ∧ translates b = true ∧ BinaryTranslator.translateToARM64 iterate_defs b = Ok l
    ∧ forallb spares l = true ∧ Z.of_nat (length l) < 2 ^ 24.
Proof.
  unfold block_ready. intros H. destruct (rev insts) as [|t rbody] eqn:Hrev; [done|].
  apply (f_equal (@rev _)) in Hrev. rewrite rev_involutive in Hrev. cbn [rev] in Hrev.
  apply andb_true_iff in H as [H Ht]. split_and_true.
  destruct (Lifter.Lifter.liftBasicBlock _ _ _) as [[b|] s'] eqn:Hl; [|done].
  apply andb_true_iff in Ht as [Htr Ht].
  destruct (BinaryTranslator.translateToARM64 _ _) as [l|] eqn:Hla; [|done].
  apply andb_true_iff in Ht as [Hs Hn].
  exists (rev rbody), t, b, s', l. rewrite length_rev.
  repeat split; try done; [by apply negb_true_iff|by apply Z.ltb_lt..].
Qed.

(** The block a run executes at an entry. *)
Lemma entry_block text base mapped n pc insts l R m R' m' :
  0 < base -> base + Z.of_nat (length text) < 2 ^ 64 -> Z.of_nat (length text) < 2 ^ 63 ->
  base <= pc -> BinaryTranslator.decodeBlock (S (length text)) text (pc - base) pc [] = Ok insts ->
  block_ready insts = true -> guest.runs text base mapped (S n) l (R, m, pc) R' m' ->
  ∃ R1 m1 pc1 l', rvsem.block rvsem.upper_value mapped insts (rvsem.mkState R m) = Some (R1, m1, pc1)
    ∧ l = pc1 :: l' ∧ guest.runs text base mapped n l' (R1, m1, pc1) R' m'.
Proof.
  intros Ho Ht Hn Hb Hd Hready Hr.
  apply decodeBlock_basic in Hd as (insts' & Hi & Hbb); [|done|lia|lia].
  cbn [app] in Hi. subst insts'.
  destruct (block_ready_spec _ Hready) as (body & t & _ & _ & _ & -> & _ & Hh & _).
  eapply runs_block; [done|done|exact Hbb|done|done|by destruct body|done|done].
Qed.

(** A run that enters the function stays among the entries. *)
Lemma entry_step text base mapped entries n pc l R m R' m' :
  0 < base -> base + Z.of_nat (length text) < 2 ^ 64 -> Z.of_nat (length text) < 2 ^ 63 ->
  base <= pc -> entry_closed text base entries pc = true ->
  returns_home text base pc l = true ->
  guest.runs text base mapped (S n) l (R, m, pc) R' m' ->
  ∃ R1 m1 pc1 l', l = pc1 :: l' ∧ (pc1 = 0 ∨ pc1 ∈ entries)
    ∧ returns_home text base pc1 l' = true
    ∧ guest.runs text base mapped n l' (R1, m1, pc1) R' m'.
Proof.
  intros Ho Ht Hn Hb Hc Hhome Hr. unfold entry_closed in Hc.
  destruct (BinaryTranslator.decodeBlock _ _ _ _ _) as [insts|] eqn:Hd; [|done].
  apply andb_true_iff in Hc as [Hready Hsucc].
  destruct (entry_block _ _ _ _ _ _ _ _ _ _ _ Ho Ht Hn Hb Hd Hready Hr)
    as (R1 & m1 & pc1 & l' & Hblk & -> & Hret).
  destruct (block_ready_spec _ Hready) as (body & t & _ & _ & _ & -> & _).
  cbn [returns_home] in Hhome. apply andb_true_iff in Hhome as [H1 Hhome].
  unfold exits in H1. rewrite Hd, last_snoc in H1.
  rewrite last_snoc in Hsucc. cbn [mbind option_bind] in Hsucc.
  destruct (successors t) as [L|] eqn:HL; [|done].
  exists R1, m1, pc1, l'. split; [done|]. split; [|done].
  assert (pc1 ∈ L) as HpcL.
  { eapply block_successor; [exact Hblk| |exact HL]. intros Hret'. rewrite Hret' in H1.
    by apply Z.eqb_eq. }
  apply forallb_Forall in Hsucc. apply (proj1 (Forall_forall _ _) Hsucc) in HpcL.
  apply orb_true_iff in HpcL as [?%Z.eqb_eq|?%bool_decide_eq_true]; auto.
Qed.

Lemma ready_run text base mapped entries n : ∀ l pc R m R' m',
  0 < base -> base + Z.of_nat (length text) < 2 ^ 64 -> Z.of_nat (length text) < 2 ^ 63 ->
  forallb (entry_closed text base entries) entries = true ->
  pc = 0 ∨ pc ∈ entries -> returns_home text base pc l = true ->
  guest.runs text base mapped n l (R, m, pc) R' m' ->
  Forall (λ pc, pc = 0 ∨ entry_ready text base pc = true) (pc :: l).
Proof.
  induction n as [|n IH]; intros l pc R m R' m' Ho Ht Hn He Hpc H1 Hr;
    pose proof (proj1 (Forall_forall _ _) (proj1 (forallb_Forall _ _) He)) as Hc;
    (apply Forall_cons; split;
      [destruct Hpc as [?|Hpc]; [by left|right; by eapply entry_closed_ready, Hc]|]).
  { inversion Hr; by apply Forall_nil. }
  destruct (runs_from _ _ _ _ _ _ _ _ _ _ Hr) as [[_ ->]|Hb]; [by apply Forall_nil|].
  destruct Hpc as [->|Hpc]; [lia|].
  destruct (entry_step text base mapped entries n pc l R m R' m')
    as (R1 & m1 & pc1 & l' & -> & Hpc1 & H1' & Hr'); auto.
  by eapply IH.
Qed.

(** A function that does not write x1 and is called with a zero there returns
    home. *)
Definition entry_leaf (text : list Z) (base pc : Z) : bool :=
  match BinaryTranslator.decodeBlock (S (length text)) text (pc - base) pc [] with
  | Ok insts => forallb keeps_ra insts
  | Err _ => false
  end.

Lemma leaf_returns_home text base mapped entries n : ∀ l pc R m R' m',
  0 < base -> base + Z.of_nat (length text) < 2 ^ 64 -> Z.of_nat (length text) < 2 ^ 63 ->
  forallb (λ pc, entry_closed text base entries pc && entry_leaf text base pc) entries = true ->
  pc = 0 ∨ pc ∈ entries -> xget R 1 = 0 ->
  guest.runs text base mapped n l (R, m, pc) R' m' -> returns_home text base pc l = true.
Proof.
  induction n as [|n IH]; intros l pc R m R' m' Ho Ht Hn He Hpc H1 Hr; [by inversion Hr|].
  pose proof (proj1 (Forall_forall _ _) (proj1 (forallb_Forall _ _) He)) as Hc.
  destruct (runs_from _ _ _ _ _ _ _ _ _ _ Hr) as [[_ ->]|Hb]; [done|].
  destruct Hpc as [->|Hpc]; [lia|].
  apply Hc, andb_true_iff in Hpc as [Hcl Hleaf]. unfold entry_closed in Hcl. unfold entry_leaf in Hleaf.
  destruct (BinaryTranslator.decodeBlock _ _ _ _ _) as [insts|] eqn:Hd; [|done].
  apply andb_true_iff in Hcl as [Hready Hsucc].
  destruct (entry_block _ _ _ _ _ _ _ _ _ _ _ Ho Ht Hn Hb Hd Hready Hr)
    as (R1 & m1 & pc1 & l' & Hblk & -> & Hret).
  cbn [returns_home]. unfold exits. rewrite Hd.
  destruct (block_ready_spec _ Hready) as (body & t & _ & _ & _ & -> & _).
  pose proof (block_keeps_ra _ _ _ _ _ _ _ Hleaf Hblk) as H1'. cbn [rvsem.vregs] in H1'.
  rewrite H1 in H1'. rewrite last_snoc in Hsucc |- *. cbn [mbind option_bind] in Hsucc.
  destruct (successors t) as [L|] eqn:HL; [|done].
  assert (is_ret t = true -> pc1 = 0) as Hhome by (intros Hi; by eapply block_ret).
  apply andb_true_iff. split.
  { destruct (is_ret t); [|done]. by rewrite Hhome. }
  assert (pc1 ∈ L) as HpcL by (by eapply block_successor).
  apply forallb_Forall in Hsucc. apply (proj1 (Forall_forall _ _) Hsucc) in HpcL.
  eapply IH; [exact Ho|exact Ht|exact Hn|exact He| |exact H1'|exact Hret].
  apply orb_true_iff in HpcL as [?%Z.eqb_eq|?%bool_decide_eq_true]; auto.
Qed.
End ready.

(** ** Blocks in a run *)

Section translator.
Context (E : ELFReader.ELFIO) (O : ExecutionEngine.OS).
Context (iterate_regs : gset Z → list Z) (iterate_defs : gmap Z nat → list (Z * nat)).
Context (iterate_regs_all : ∀ X, iterate_regs X ≡ₚ elements X).
Context (iterate_defs_all : ∀ m, iterate_defs m ≡ₚ map_to_list m).
Context (gs base shadow : Z) (mapped : Z → bool).
Context (apart : separate gs base shadow mapped) (gs_word : in_u 64 gs).

Abbreviation T := (BinaryTranslator.t E O).
Abbreviation text s := (BinaryTranslator.textSectionData E O s).
Abbreviation origin s := (BinaryTranslator.textBaseAddress E O s).

Definition text_placed (s : T) : Prop :=
  0 < origin s ∧ origin s + Z.of_nat (length (text s)) < 2 ^ 64
  ∧ Z.of_nat (length (text s)) < 2 ^ 63.

Lemma block_translated (s : T) n pc l R m R' m' H0 :
  text_placed s -> entry_ready iterate_regs iterate_defs (text s) (origin s) pc = true ->
  origin s <= pc -> returns_home (text s) (origin s) pc l = true ->
  guest.runs (text s) (origin s) mapped (S n) l (R, m, pc) R' m' ->
  represents gs base shadow mapped R m H0 ->
  ∃ code R1 m1 pc1 l',
    BinaryTranslator.compileBlock E O iterate_regs iterate_defs s pc = Ok code
    ∧ 0 < Z.of_nat (length code) < 2 ^ 26
    ∧ l = pc1 :: l' ∧ in_u 64 pc1
    ∧ guest.runs (text s) (origin s) mapped n l' (R1, m1, pc1) R' m'
    ∧ returns_home (text s) (origin s) pc1 l' = true
    ∧ ∀ X fl H, represents gs base shadow mapped R m H -> a64sem.xget X 0 = gs ->
        code_runs_as gs base shadow mapped code X fl H (R1, m1, pc1)
        ∧ keeps_saved code X fl H.
Proof.
  intros (Ho & Ht & Hn) He Hb H1 Hret HR0. unfold entry_ready in He.
  destruct (BinaryTranslator.decodeBlock _ _ _ _ _) as [insts|] eqn:Hd; [|done].
  pose proof (runs_inside _ _ _ Ho _ _ _ _ _ _ _ Hb Hret) as Hin.
  destruct (block_ready_spec _ _ _ He)
    as (body & t & b & s' & la & -> & Hfit & Hh & Hlink & Hlen & Hlift & Htr & Hl & Hs & Hla).
  pose proof (proj1 (decodeBlock_basic _ Hn (S (length (text s))) (pc - origin s) pc [] (body ++ [t])
    ltac:(lia) ltac:(lia)) Hd) as (insts & Hi & Hbb).
  cbn [app] in Hi. subst insts.
  destruct (runs_block _ _ mapped Ho Ht n _ _ _ Hbb l R m R' m')
    as (R1 & m1 & pc1 & l' & Hblk & -> & Hret'); [done|done|by destruct body|done|done|].
  cbn [returns_home] in H1. apply andb_true_iff in H1 as [H1 H1'].
  unfold exits in H1. rewrite Hd, last_snoc in H1.
  assert (∀ X fl H, represents gs base shadow mapped R m H -> a64sem.xget X 0 = gs ->
    ∃ code, back_end iterate_defs b = Ok code
      ∧ length code = (4 * length la)%nat ∧ code ≠ []
      ∧ code_runs_as gs base shadow mapped code X fl H (R1, m1, pc1)
      ∧ keeps_saved code X fl H) as Hruns.
  { intros X fl H HR Hgs.
    destruct (block_runs iterate_regs iterate_defs iterate_regs_all iterate_defs_all
                body t b s' gs base shadow mapped R m (R1, m1, pc1) X fl H)
      as (l & code & Hl' & Hback & Hlc & Hne & Hrun & Hk); try done.
    { intros Hr. rewrite Hr in H1. by apply Z.eqb_eq. }
    rewrite Hl in Hl'. injection Hl' as <-. exists code. auto 6. }
  destruct (Hruns {[0 := gs]} (a64sem.mkFlags false false false false) H0 HR0)
    as (code & Hback & Hlc & Hne & _).
  { unfold a64sem.xget, rd. cbn [Z.eqb]. rewrite lookup_singleton_eq. by apply uint_small. }
  exists code, R1, m1, pc1, l'. split; [|split; [by destruct code; [|simpl length in *; lia]|split; [done|split; [by eapply block_word|split; [done|split; [done|]]]]]].
  - eapply compileBlock_back_end; try done.
    + unfold BinaryTranslator.isValidPC. rewrite uint_small by (unfold in_u; lia).
      apply andb_true_iff. split; [apply Z.leb_le; lia|apply Z.ltb_lt; lia].
    + rewrite uint_small by (unfold in_u; lia). done.
    + by destruct body.
  - intros X fl H HR Hgs. destruct (Hruns X fl H HR Hgs) as (code' & Hback' & _ & _ & Hr).
    rewrite Hback in Hback'. by injection Hback' as <-.
Qed.
End translator.
