(* ===== verification/Platform.v ===== *)
(** * The operating system and the processor (interface)

    What the translated code relies on: the documented behaviour of [mmap],
    [memcpy], [mprotect] and [munmap] on the memory of the process, and that a
    call of native code runs its bytes on that memory, as long as the code
    keeps to the procedure call standard.  The laws are the class [Platform];
    the execution engine is proved against them.  [Supply] adds what an
    operating system with memory to spare grants. *)
From S2P Require Import Prelude Error Machine GuestState ExecutionEngine.
From S2P Require Import A64 A64Semantics HostState MachineCode TranslationCorrect.
Import machine.

(** ** The guest state in memory

    The modelled [GuestState] is a value of its own; in memory its members
    follow each other at its address. *)

Fixpoint store_words (l : list Z) (a : Z) (m : mem) : mem :=
  match l with
  | [] => m
  | v :: l => store_words l (a + 8) (store 8 m a v)
  end.

Definition fields (g : GuestState.t) : list Z :=
  GuestState.x g ++ [GuestState.pc g; GuestState.shadowMemory g;
                     GuestState.shadowMemorySize g; GuestState.guestMemoryBase g].

(** The bytes of the process: those of the structure at [gs], the others from
    [M]. *)
Definition view (gs : Z) (g : GuestState.t) (M : mem) : mem := store_words (fields g) gs M.

Lemma store_words_other l : ∀ a M b,
  8 * Z.of_nat (length l) < 2 ^ 64 -> 8 * Z.of_nat (length l) <= u64 (b - a) ->
  load_byte (store_words l a M) b = load_byte M b.
Proof.
  induction l as [|v l IH]; intros a M b Hl Hb; [done|]. cbn [store_words length] in *.
  pose proof (uint_range 64 (b - a) ltac:(lia)) as Hr.
  assert (u64 (b - (a + 8)) = u64 (b - a) - 8) as E.
  { replace (b - (a + 8)) with ((b - a) - 8) by lia.
    rewrite <- uint_sub_l. apply uint_small. unfold in_u in *. lia. }
  rewrite IH by lia. rewrite load_byte_store by done.
  by rewrite (proj2 (Z.ltb_ge _ _)) by lia.
Qed.

Lemma load_store_words l : ∀ k a M v,
  8 * Z.of_nat (length l) < 2 ^ 64 -> l !! k = Some v ->
  load 8 (store_words l a M) (a + 8 * Z.of_nat k) = u64 v.
Proof.
  induction l as [|v l IH]; intros k a M v' Hl Hk; [done|]. cbn [store_words length] in *.
  destruct k as [|k].
  - injection Hk as <-. rewrite Z.mul_0_r, Z.add_0_r.
    transitivity (load 8 (store 8 M a v) a); [|by rewrite load_store].
    apply load_ext. intros j Hj. apply store_words_other; [lia|].
    replace (a + j - (a + 8)) with (j - 8) by lia. unfold uint.
    rewrite <- (Z.mod_add _ 1), Z.mod_small by lia. lia.
  - replace (a + 8 * Z.of_nat (S k)) with (a + 8 + 8 * Z.of_nat k) by lia. apply IH; [lia|done].
Qed.

Section view.
Context (gs : Z) (g : GuestState.t) (M : mem).
Context (g_regs : length (GuestState.x g) = 32%nat).

Lemma length_fields : length (fields g) = 36%nat.
Proof. unfold fields. rewrite length_app, g_regs. done. Qed.

Lemma view_field k v :
  fields g !! k = Some v -> load 8 (view gs g M) (gs + 8 * Z.of_nat k) = u64 v.
Proof. intros Hk. apply load_store_words; [by rewrite length_fields|done]. Qed.

Lemma view_other b : 288 <= u64 (b - gs) -> load_byte (view gs g M) b = load_byte M b.
Proof. intros Hb. apply store_words_other; rewrite length_fields; [done|exact Hb]. Qed.

(** The representation, field by field. *)
Lemma view_represents base shadow mapped R m :
  separate gs base shadow mapped ->
  represents gs base shadow mapped R m (view gs g M)
  ↔ (∀ r, 0 <= r < 32 -> u64 (nth (Z.to_nat r) (GuestState.x g) 0) = rd R r)
    ∧ u64 (GuestState.guestMemoryBase g) = base
    ∧ u64 (GuestState.shadowMemory g) = shadow
    ∧ ∀ a, mapped (u64 a) = true -> load_byte M (host base shadow a) = load_byte m a.
Proof.
  intros Hsep.
  assert (∀ r, 0 <= r < 32 -> load 8 (view gs g M) (gs + GuestState.offset_x r)
                              = u64 (nth (Z.to_nat r) (GuestState.x g) 0)) as Hx.
  { intros r Hr. unfold GuestState.offset_x. rewrite <- (Z2Nat.id r) at 1 by lia.
    apply view_field. unfold fields. rewrite lookup_app_l by lia.
    rewrite nth_lookup. destruct (lookup_lt_is_Some_2 (GuestState.x g) (Z.to_nat r)) as [v Hv];
      [lia|]. by rewrite Hv. }
  assert (load 8 (view gs g M) (gs + GuestState.offset_guestMemoryBase)
          = u64 (GuestState.guestMemoryBase g)) as Hb.
  { apply (view_field 35). unfold fields. rewrite lookup_app_r by lia. by rewrite g_regs. }
  assert (load 8 (view gs g M) (gs + GuestState.offset_shadowMemory)
          = u64 (GuestState.shadowMemory g)) as Hs.
  { apply (view_field 33). unfold fields. rewrite lookup_app_r by lia. by rewrite g_regs. }
  assert (∀ a, mapped (u64 a) = true ->
            load_byte (view gs g M) (host base shadow a) = load_byte M (host base shadow a)) as Ho.
  { intros a Ha. apply view_other.
    destruct (Z.le_gt_cases 288 (u64 (host base shadow a - gs))) as [|Hlt]; [done|].
    pose proof (uint_range 64 (host base shadow a - gs) ltac:(lia)) as [H0 _].
    exfalso. apply (Hsep a (u64 (host base shadow a - gs)) Ha); [lia|].
    rewrite uint_add_r. replace (gs + (host base shadow a - gs)) with (host base shadow a) by lia.
    symmetry. apply uint_small, uint_range. lia. }
  split.
  - intros [Hr1 Hr2 Hr3 Hr4]. split; [|split; [|split]].
    + intros r Hr. rewrite <- Hx by done. by apply Hr1.
    + by rewrite <- Hb.
    + by rewrite <- Hs.
    + intros a Ha. rewrite <- Ho by done. by apply Hr4.
  - intros (Hr1 & Hr2 & Hr3 & Hr4). split.
    + intros r Hr. rewrite Hx by done. by apply Hr1.
    + by rewrite Hb.
    + by rewrite Hs.
    + intros a Ha. rewrite Ho by done. by apply Hr4.
Qed.
End view.

(** ** The laws *)

(** The [n] bytes from [p]. *)
Definition region (p n b : Z) : Prop := ∃ k, 0 <= k < n ∧ u64 b = u64 (p + k).

(** A sequence of bytes stands at [p]. *)
Definition placed (code : list Z) (p : Z) (M : mem) : Prop :=
  ∀ k b, code !! k = Some b -> load_byte M (p + Z.of_nat k) = u8 b.

(** What of a process the laws speak about: the bytes of its memory, which of
    them are mapped, and the address of its [GuestState]. *)
Class Process (O : ExecutionEngine.OS) := {
  memory : ExecutionEngine.World O → mem;
  in_use : ExecutionEngine.World O → Z → Prop;
  structure : Z;
}.

(** Mapped bytes stay mapped and keep their values, but for [P]. *)
Definition keeps {O : ExecutionEngine.OS} `{Process O} (w w' : ExecutionEngine.World O) (P : Z → Prop) : Prop :=
  ∀ b, in_use w b -> ¬ P b ->
       in_use w' b ∧ load_byte (memory w') b = load_byte (memory w) b.

Class Platform (O : ExecutionEngine.OS) `{Process O} := {
  structure_word : in_u 64 structure;
  page_size : 0 < ExecutionEngine.getpagesize O < 2 ^ 32;

  (* a mapping is new and zeroed, and disturbs no other *)
  mmap_keeps n w r w' :
    ExecutionEngine.mmap O n w = (r, w') -> keeps w w' (λ _, False);
  mmap_fresh n w p w' b :
    ExecutionEngine.mmap O n w = (Some p, w') -> region p n b ->
    ¬ in_use w b ∧ in_use w' b ∧ load_byte (memory w') b = 0;
  mmap_word n w p w' :
    ExecutionEngine.mmap O n w = (Some p, w') -> in_u 64 p;

  (* [memcpy] writes the bytes, and no others *)
  memcpy_keeps p l w : keeps w (ExecutionEngine.memcpy O p l w) (region p (Z.of_nat (length l)));
  memcpy_maps p l w b : in_use w b -> in_use (ExecutionEngine.memcpy O p l w) b;
  memcpy_writes p l w :
    Z.of_nat (length l) < 2 ^ 64 ->
    (∀ b, region p (Z.of_nat (length l)) b -> in_use w b) ->
    placed l p (memory (ExecutionEngine.memcpy O p l w));

  (* [mprotect] and [munmap] concern their range only *)
  mprotect_keeps p n w r w' :
    ExecutionEngine.mprotect O p n w = (r, w') -> keeps w w' (λ _, False);
  munmap_keeps p n w : keeps w (ExecutionEngine.munmap O p n w) (region p n);

  (* A call enters code that was made executable with the structure's address
     in X0 and some return address in X30.  Provided the code, run on the
     process's memory, comes back there, has kept the registers its caller owns
     and written nothing but mapped bytes outside its own pages, the call
     returns X0 and the memory the code left. *)
  call_runs p n w0 w code g :
    ExecutionEngine.mprotect O p n w0 = (true, w) ->
    Forall (in_u 8) code -> Z.of_nat (length code) <= n < 2 ^ 64 -> placed code p (memory w) ->
    (∀ b, region p n b -> in_use w b ∧ ¬ region structure 288 b) ->
    length (GuestState.x g) = 32%nat ->
    ∃ X fl, a64sem.xget X 0 = structure
      ∧ ∀ st, a64sem.run_code code (a64sem.mkState X fl (view structure g (memory w)))
              = Some (st, a64sem.xget X 30) ->
          preserves_saved X (a64sem.xr st) ->
          (∀ b, ¬ in_use w b ∨ region p n b ->
             load_byte (a64sem.hm st) b = load_byte (view structure g (memory w)) b) ->
          ∃ g' w', ExecutionEngine.call O p g w = Some (a64sem.xget (a64sem.xr st) 0, g', w')
            ∧ length (GuestState.x g') = 32%nat
            ∧ (∀ b, load_byte (view structure g' (memory w')) b = load_byte (a64sem.hm st) b)
            ∧ ∀ b, in_use w b -> in_use w' b;
}.

(** ** Memory for the asking

    The further laws of an operating system that has so many bytes to give: it
    grants what it has (a mapping of no bytes is an error in any case), protects what it has granted, and takes back what is
    unmapped (last mapped, first unmapped). *)
Class Supply (O : ExecutionEngine.OS) `{Process O} := {
  available : ExecutionEngine.World O → Z;
  mmap_supplies n w :
    0 < n <= available w ->
    ∃ p w', ExecutionEngine.mmap O n w = (Some p, w') ∧ available w' = available w - n;
  memcpy_supplies p l w : available (ExecutionEngine.memcpy O p l w) = available w;
  mprotect_supplies n w0 p w1 w :
    ExecutionEngine.mmap O n w0 = (Some p, w1) -> (∀ b, region p n b -> in_use w b) ->
    ∃ w', ExecutionEngine.mprotect O p n w = (true, w') ∧ available w' = available w;
  munmap_supplies n w0 p w1 w :
    ExecutionEngine.mmap O n w0 = (Some p, w1) -> available w = available w1 ->
    available (ExecutionEngine.munmap O p n w) = available w0;
  call_supplies p g w v g' w' :
    ExecutionEngine.call O p g w = Some (v, g', w') -> available w' = available w;
}.

(** ** What is mapped

    The laws of an operating system that keeps account of the mapped bytes: a
    mapping adds whole pages that were not in use, never at the null address;
    unmapping an address and a size a mapping was made with removes those pages
    and no others; nothing else the engine calls changes what is mapped, the
    native code (which calls nothing) included.  Nothing is assumed of what the
    native code writes. *)
Class Accounting (O : ExecutionEngine.OS) `{Process O} := {
  pages : Z → Z → Z → Prop;
  pages_hold p n b : region p n b -> pages p n b;
  mmap_accounts n w r w' b :
    ExecutionEngine.mmap O n w = (r, w') ->
    in_use w' b ↔ in_use w b ∨ ∃ p, r = Some p ∧ pages p n b;
  mmap_unused n w p w' b :
    ExecutionEngine.mmap O n w = (Some p, w') -> pages p n b -> ¬ in_use w b;
  mmap_not_null n w p w' : ExecutionEngine.mmap O n w = (Some p, w') -> p ≠ 0;
  munmap_accounts n w0 p w1 w b :
    ExecutionEngine.mmap O n w0 = (Some p, w1) ->
    in_use (ExecutionEngine.munmap O p n w) b ↔ in_use w b ∧ ¬ pages p n b;
  mprotect_accounts p n w b :
    in_use (snd (ExecutionEngine.mprotect O p n w)) b ↔ in_use w b;
  memcpy_accounts p l w b : in_use (ExecutionEngine.memcpy O p l w) b ↔ in_use w b;
  call_accounts p g w v g' w' b :
    ExecutionEngine.call O p g w = Some (v, g', w') -> in_use w' b ↔ in_use w b;
}.

(** ** Runs of the engine *)

Section engine.
Context {O : ExecutionEngine.OS} `{PR : Process O} `{PL : !Platform O}.
Context (base shadow : Z) (mapped : Z → bool).
Context (apart : separate structure base shadow mapped).

Abbreviation touched := (touched structure base shadow mapped).

(** The process holds the guest's state, and its memory is mapped. *)
Record holds (R : regs) (m : mem) (g : GuestState.t) (w : ExecutionEngine.World O) : Prop := {
  h_regs : length (GuestState.x g) = 32%nat;
  h_mapped : ∀ b, touched b -> in_use w b;
  h_state : represents structure base shadow mapped R m (view structure g (memory w));
}.

Lemma touched_host a : mapped (u64 a) = true -> touched (host base shadow a).
Proof.
  intros Ha. right. exists a. split; [done|]. apply uint_small, uint_range. lia.
Qed.

Lemma holds_keeps R m g w w' P :
  holds R m g w -> keeps w w' P -> (∀ b, touched b -> ¬ P b) -> holds R m g w'.
Proof.
  intros [Hl Hm Hs] Hk Hp. split; [done| |].
  - intros b Hb. apply Hk; auto.
  - apply view_represents in Hs as (H1 & H2 & H3 & H4); [|done..].
    apply view_represents; [done..|]. do 3 (split; [done|]).
    intros a Ha. rewrite <- H4 by done. pose proof (touched_host a Ha) as Ht.
    apply Hk; auto.
Qed.

Lemma represents_ext R m H H' :
  (∀ b, load_byte H' b = load_byte H b) ->
  represents structure base shadow mapped R m H ->
  represents structure base shadow mapped R m H'.
Proof.
  intros Hb [H1 H2 H3 H4].
  assert (∀ a, load 8 H' a = load 8 H a) as Hl by (intros a; by apply load_ext).
  split; intros; rewrite ?Hl, ?Hb; auto.
Qed.

(** The allocation is large enough for the code. *)
Lemma allocation_holds code :
  0 <= Z.of_nat (length (code : list Z)) < 2 ^ 32 ->
  Z.of_nat (length code) <= ExecutionEngine.allocSize O (Z.of_nat (length code)) < 2 ^ 64.
Proof.
  intros Hc. pose proof page_size as Hp.
  pose proof (ExecutionEngine.allocSize_fits O (Z.of_nat (length code)) Hp Hc) as [[H1 H2] _].
  lia.
Qed.

(** What the code must do, from whatever registers and flags it is entered
    with. *)
Definition correct_code (code : list Z) (R : regs) (m : mem) (r : regs * mem * Z) : Prop :=
  ∀ X fl H, represents structure base shadow mapped R m H -> a64sem.xget X 0 = structure ->
    code_runs_as structure base shadow mapped code X fl H r ∧ keeps_saved code X fl H.

Lemma native_call R m g w p n w0 code R1 m1 pc1 :
  holds R m g w -> correct_code code R m (R1, m1, pc1) ->
  ExecutionEngine.mprotect O p n w0 = (true, w) ->
  Forall (in_u 8) code -> Z.of_nat (length code) <= n < 2 ^ 64 -> placed code p (memory w) ->
  (∀ b, region p n b -> in_use w b ∧ ¬ touched b) ->
  ∃ g' w', ExecutionEngine.call O p g w = Some (u64 pc1, g', w') ∧ holds R1 m1 g' w'.
Proof.
  intros Hh Hc Hp Hby Hn Hcode Hreg.
  destruct (call_runs p n w0 w code g) as (X & fl & HX & Hcall); [done..| |apply Hh|].
  { intros b Hb. destruct (Hreg b Hb) as [Hu Ht]. split; [done|]. intros Hs. apply Ht. by left. }
  destruct (Hc X fl _ (h_state _ _ _ _ Hh) HX) as [(st & Hrun & Hrep & H0 & Hcf) Hsv].
  destruct (Hcall st Hrun (Hsv _ _ Hrun)) as (g' & w' & Hx & Hl & Hv & Hu).
  { intros b [Hb|Hb]; apply Hcf; [|by apply Hreg].
    intros Ht. by apply Hb, (h_mapped _ _ _ _ Hh). }
  rewrite H0 in Hx. exists g', w'. split; [done|]. split; [done| |].
  - intros b Hb. by apply Hu, (h_mapped _ _ _ _ Hh).
  - eapply represents_ext; [|exact Hrep]. done.
Qed.

(** What the program throws when the operating system refuses it memory. *)
Definition refused (e : Error) : Prop :=
  e = RuntimeError "Failed to allocate shadow memory"
  ∨ e = RuntimeError "ExecutionEngine: mmap failed"
  ∨ e = RuntimeError "ExecutionEngine: Failed to set execute permissions".

(** With enough memory the engine is not refused any, and gives it back. *)
Lemma engine_supplied `{!Supply O} code s r s' :
  ExecutionEngine.executeBlock O code s = (r, s') ->
  0 < Z.of_nat (length code) < 2 ^ 32 ->
  ExecutionEngine.allocSize O (Z.of_nat (length code)) <= available (ExecutionEngine.world s) ->
  (∀ v, r = Ok v ->
     available (ExecutionEngine.world s') = available (ExecutionEngine.world s))
  ∧ ∀ e, r = Err e -> ¬ refused e.
Proof.
  intros H Hlen Hav. pose proof (allocation_holds code ltac:(lia)) as Hn.
  unfold ExecutionEngine.executeBlock in H.
  set (n := ExecutionEngine.allocSize O (Z.of_nat (length code))) in *. clearbody n.
  destruct (mmap_supplies n (ExecutionEngine.world s)) as (p & w1 & Hm & H1); [lia|].
  rewrite run_bind in H. unfold get at 1 in H. rewrite Hm in H.
  rewrite run_bind in H. unfold modify at 1 in H.
  rewrite run_bind in H. unfold modify at 1 in H. rewrite run_bind in H. unfold get at 1 in H.
  cbn [ExecutionEngine.set_world ExecutionEngine.guest ExecutionEngine.world] in H.
  destruct (mprotect_supplies n _ p w1 (ExecutionEngine.memcpy O p code w1) Hm) as (w3 & Hp & H3).
  { intros b Hb. by apply memcpy_maps, (mmap_fresh _ _ _ _ _ Hm Hb). }
  rewrite Hp in H. rewrite memcpy_supplies in H3.
  rewrite run_bind in H. unfold modify at 1 in H. cbn [negb] in H.
  rewrite run_bind in H. unfold get at 1 in H.
  cbn [ExecutionEngine.set_world ExecutionEngine.guest ExecutionEngine.world] in H.
  destruct (ExecutionEngine.call O p _ w3) as [[[v g] w4]|] eqn:Hc.
  - apply call_supplies in Hc. injection H as <- <-. cbn. split; [|done].
    intros _ _. eapply munmap_supplies; [exact Hm|]. lia.
  - injection H as <- <-. split; [done|]. intros e [= <-] [?|[?|?]]; done.
Qed.

(** [ExecutionEngine::executeBlock]: the operating system refuses the memory,
    or the block is run. *)
Lemma engine_runs code R m g w R1 m1 pc1 :
  holds R m g w -> correct_code code R m (R1, m1, pc1) ->
  Forall (in_u 8) code -> Z.of_nat (length code) < 2 ^ 32 ->
  ∃ res g' w',
    ExecutionEngine.executeBlock O code (ExecutionEngine.mkState g w)
    = (res, ExecutionEngine.mkState g' w')
    ∧ ((∃ e, res = Err e ∧ refused e) ∨ res = Ok (u64 pc1) ∧ holds R1 m1 g' w').
Proof.
  intros Hh Hc Hby Hlen. pose proof (allocation_holds code ltac:(lia)) as Hn.
  unfold ExecutionEngine.executeBlock.
  set (n := ExecutionEngine.allocSize O (Z.of_nat (length code))) in *. clearbody n.
  rewrite run_bind. unfold get at 1. cbn [ExecutionEngine.world].
  destruct (ExecutionEngine.mmap O n w) as [[p|] w1] eqn:Hm; rewrite run_bind; unfold modify at 1.
  2:{ eexists _, _, _. split; [reflexivity|]. left. eexists. split; [done|]. unfold refused. auto. }
  cbn [ExecutionEngine.set_world ExecutionEngine.guest ExecutionEngine.world].
  pose proof (holds_keeps _ _ _ _ _ _ Hh (mmap_keeps _ _ _ _ Hm) ltac:(auto)) as Hh1.
  assert (∀ b, region p n b -> in_use w1 b ∧ ¬ touched b) as Hreg1.
  { intros b Hb. destruct (mmap_fresh _ _ _ _ _ Hm Hb) as (Hf & Hu & _). split; [done|].
    intros Ht. by apply Hf, (h_mapped _ _ _ _ Hh). }
  assert (∀ b, region p (Z.of_nat (length code)) b -> region p n b) as Hsub.
  { intros b (k & Hk & E). exists k. split; [lia|done]. }
  rewrite run_bind. unfold modify at 1. rewrite run_bind. unfold get at 1.
  cbn [ExecutionEngine.set_world ExecutionEngine.guest ExecutionEngine.world].
  set (w2 := ExecutionEngine.memcpy O p code w1).
  assert (holds R m g w2) as Hh2.
  { eapply holds_keeps; [done|apply memcpy_keeps|]. intros b Ht Hb. by apply (Hreg1 b); auto. }
  assert (placed code p (memory w2)) as Hpl.
  { apply memcpy_writes; [lia|]. intros b Hb. by apply Hreg1, Hsub. }
  assert (∀ b, region p n b -> in_use w2 b ∧ ¬ touched b) as Hreg2.
  { intros b Hb. destruct (Hreg1 b Hb). split; [by apply memcpy_maps|done]. }
  clearbody w2.
  destruct (ExecutionEngine.mprotect O p n w2) as [ok w3] eqn:Hp.
  rewrite run_bind. unfold modify at 1.
  cbn [ExecutionEngine.set_world ExecutionEngine.guest ExecutionEngine.world].
  pose proof (mprotect_keeps _ _ _ _ _ Hp) as Hk.
  destruct ok; cbn [negb].
  2:{ eexists _, _, _. split; [reflexivity|]. left. eexists. split; [done|]. unfold refused. auto. }
  assert (placed code p (memory w3)) as Hpl3.
  { intros k b Hkb. rewrite <- (Hpl k b Hkb). apply Hk; [|auto]. apply Hreg2, Hsub.
    exists (Z.of_nat k). apply lookup_lt_Some in Hkb. split; [lia|done]. }
  destruct (native_call R m g w3 p n w2 code R1 m1 pc1) as (g' & w4 & Hcall & Hh4); [|done..| |].
  { by eapply holds_keeps; [|exact Hk|auto]. }
  { intros b Hb. destruct (Hreg2 b Hb). split; [|done]. apply Hk; auto. }
  rewrite run_bind. unfold get at 1. cbn [ExecutionEngine.set_world ExecutionEngine.guest ExecutionEngine.world].
  rewrite Hcall. eexists _, _, _. split; [reflexivity|]. right. split; [done|].
  eapply holds_keeps; [exact Hh4|apply munmap_keeps|]. intros b Ht Hb. by apply (Hreg2 b).
Qed.
End engine.
