(* ===== verification/LoaderCorrect.v ===== *)
(** * Loading a binary

    What [ELFReader::loadFile] accepts, and which symbol
    [ELFReader::getFunctionAddress] finds. *)
From S2P Require Import Prelude Error ELFReader ExecutionEngine.
Import ELFReader.

Section reader.
Context (E : ELFIO).

(** C26: [loadFile] succeeds exactly on the 64-bit RISC-V executables with an
    executable .text section that has data, and then holds the entry point, the
    section's address and its bytes; everything else is an [ELFError] (a
    section whose data is shorter than its size is read past its end). *)
Theorem loadFile_spec path (s s' : t E) res :
  loadFile E path s = (res, s') ->
  match res with
  | Ok _ => ∃ r sec bytes, load E path = Some r ∧ acceptable E r sec
      ∧ get_data E sec = Some bytes ∧ (Z.to_nat (get_size E sec) <= length bytes)%nat
      ∧ s' = mkReader E (Some r) (get_entry E r)
               (mkText (get_address E sec) (take (Z.to_nat (get_size E sec)) bytes))
  | Err (ELFError _) =>
      ∀ r sec, load E path = Some r -> acceptable E r sec -> get_data E sec = None
  | Err e => (∃ why, e = undefined_behaviour why)
      ∧ ∃ r sec bytes, load E path = Some r ∧ acceptable E r sec
          ∧ get_data E sec = Some bytes ∧ (length bytes < Z.to_nat (get_size E sec))%nat
  end.
Proof.
  unfold loadFile, acceptable. intros H.
  destruct (load E path) as [r|]; [|by injection H as <- _].
  rewrite run_bind in H. unfold modify at 1 in H.
  destruct (Z.eqb_spec (get_class E r) ELFCLASS64); cbn [negb] in H;
    [|injection H as <- _; naive_solver].
  destruct (Z.eqb_spec (get_machine E r) EM_RISCV); cbn [negb] in H;
    [|injection H as <- _; naive_solver].
  destruct (Z.eqb_spec (get_type E r) ET_EXEC); cbn [negb] in H;
    [|injection H as <- _; naive_solver].
  rewrite run_bind in H. unfold modify at 1 in H.
  destruct (findText E r) as [sec|] eqn:Hf; [|injection H as <- _; naive_solver].
  destruct (Z.eqb_spec (Z.land (get_flags E sec) SHF_EXECINSTR) 0);
    [injection H as <- _; naive_solver|].
  rewrite run_bind in H. unfold modify at 1 in H.
  destruct (get_data E sec) as [bytes|] eqn:Hd; [|injection H as <- _; naive_solver].
  destruct (Nat.ltb_spec (length bytes) (Z.to_nat (get_size E sec))) as [Hlt|Hge];
    injection H as <- <-.
  - split; [by eexists|]. exists r, sec, bytes. auto 10.
  - exists r, sec, bytes. auto 10.
Qed.

(** ** Symbols *)

(** The symbols of the binary's symbol tables, in the order of the file; None
    for the entries ELFIO cannot read. *)
Definition all_symbols (r : Reader E) : list (option (string * Z)) :=
  flat_map (λ sec, if is_symbol_table E sec then symbols E r sec else []) (sections E r).

Lemma findSymbol_app name l1 l2 :
  findSymbol name (l1 ++ l2)
  = match findSymbol name l1 with Some v => Some v | None => findSymbol name l2 end.
Proof.
  induction l1 as [|[[n w]|] l1 IH]; cbn; [done| |done].
  by destruct (String.eqb n name).
Qed.

Lemma findInSections_flat name r l :
  findInSections E name r l
  = findSymbol name (flat_map (λ sec, if is_symbol_table E sec then symbols E r sec else []) l).
Proof.
  induction l as [|sec l IH]; cbn; [done|]. rewrite findSymbol_app, IH.
  by destruct (is_symbol_table E sec).
Qed.

Lemma findSymbol_first name l v :
  findSymbol name l = Some v
  ↔ ∃ l1 l2, l = l1 ++ Some (name, v) :: l2 ∧ ∀ w, Some (name, w) ∉ l1.
Proof.
  split.
  - induction l as [|[[n w]|] l IH]; cbn; [done| |].
    + destruct (String.eqb_spec n name) as [->|Hn].
      * intros [= ->]. exists [], l. split; [done|]. intros w. set_solver.
      * intros (l1 & l2 & -> & Hl)%IH. exists (Some (n, w) :: l1), l2.
        split; [done|]. intros w' Hw. apply elem_of_cons in Hw as [[= <- _]|Hw]; [done|].
        by apply (Hl w').
    + intros (l1 & l2 & -> & Hl)%IH. exists (None :: l1), l2. split; [done|].
      intros w' Hw. apply elem_of_cons in Hw as [?|Hw]; [done|]. by apply (Hl w').
  - intros (l1 & l2 & -> & Hl). rewrite findSymbol_app.
    destruct (findSymbol name l1) as [w|] eqn:Hw.
    + apply findSymbol_Some in Hw. by destruct (Hl w).
    + cbn. by rewrite String.eqb_refl.
Qed.

(** C27: [getFunctionAddress] gives the value of the first symbol of that name in
    the order of the symbol tables, and nothing exactly when no readable symbol
    has the name, or no file is loaded. *)
Theorem getFunctionAddress_spec (s : t E) name :
  match reader s with
  | None => getFunctionAddress E s name = None
  | Some r =>
      (∀ v, getFunctionAddress E s name = Some v
         ↔ ∃ l1 l2, all_symbols r = l1 ++ Some (name, v) :: l2 ∧ ∀ w, Some (name, w) ∉ l1)
      ∧ (getFunctionAddress E s name = None ↔ ∀ v, Some (name, v) ∉ all_symbols r)
  end.
Proof.
  unfold getFunctionAddress. destruct (reader s) as [r|]; [|done].
  rewrite findInSections_flat. split; [intros v; apply findSymbol_first|].
  split; [intros H v; by apply findSymbol_None|]. intros H.
  destruct (findSymbol name _) as [v|] eqn:Hv; [|done].
  apply findSymbol_Some in Hv. by destruct (H v).
Qed.
End reader.

(** ** Pages of machine code *)

(** C28: the size [executeBlock] asks for holds the code, is a multiple of the
    page size and wastes less than a page, for every page size and every length
    that fit in 32 bits. *)
Theorem allocSize_bounds O codeSize :
  0 < ExecutionEngine.getpagesize O < 2 ^ 32 -> 0 <= codeSize < 2 ^ 32 ->
  codeSize <= ExecutionEngine.allocSize O codeSize < codeSize + ExecutionEngine.getpagesize O
  ∧ ExecutionEngine.allocSize O codeSize mod ExecutionEngine.getpagesize O = 0.
Proof. apply ExecutionEngine.allocSize_fits. Qed.
