(* ===== verification/MainCorrect.v ===== *)
(** * The command line: outcomes and arguments

    What the arguments on the command line become, and what [main] returns and
    prints in every case. *)
From S2P Require Import Prelude Error Riscv Decoder RiscvEncoding IR Lifter Arm64 Encoder GuestState.
From S2P Require Import InstructionSelector Liveness LivenessCorrect RegisterAllocator.
From S2P Require Import AllocatorCorrect ELFReader ExecutionEngine BinaryTranslator Main.
From S2P Require Import TranslatorCorrect.
From Stdlib Require Import Ascii.

(** ** std::stoull *)













(** ** Arguments *)










(** ** Outcomes *)

Lemma run_known E O iterate_regs iterate_defs path name args w e :
  (∀ m, iterate_defs m ≡ₚ map_to_list m) ->
  (∀ sec bytes, ELFReader.get_data E sec = Some bytes ->
     Forall (in_u 8) bytes ∧ Z.of_nat (length bytes) < 2 ^ 63) ->
  fst (Main.run E O iterate_regs iterate_defs path name args (BinaryTranslator.blank E O w))
  = Err e ->
  known_error e.
Proof.
  intros Hit Hsec. destruct (Main.run _ _ _ _ _ _ _ _) as [r s'] eqn:Hr. cbn [fst]. intros ->.
  enough (throws_only known_error
    (Main.run E O iterate_regs iterate_defs path name args)) as Ht by (by eapply Ht).
  unfold Main.run. apply throws_state_bind.
  - unfold BinaryTranslator.initializeTranslator. repeat known_step.
  - intros _. apply throws_state_bind.
    + apply throws_modify.
    + intros _ s e' s'' Hx. by eapply executeFunction_known.
Qed.

(** Two results of the same call agree. *)
Ltac same_results :=
  repeat (simplify_eq;
    match goal with
    | H1 : ?f = ?x, H2 : ?f = ?y |- _ => rewrite H1 in H2; progress simplify_eq
    end); simplify_eq.
Ltac outcome_cases :=
  split; [intros out err; split;
          [intros ?; same_results; eauto 20
          |intros (? & ? & ? & ? & ? & ? & ? & ? & ? & ? & ?); same_results; done]|];
  split; [intros; same_results; eauto 20|];
  split; [intros; same_results; done|];
  split; [cbn; intros; first [done | lia]|intros; same_results; eauto].

(** C17: what [main] returns and prints.  It returns 0 exactly when the guest
    function ran, with the result on the standard output; every exception of
    the translator makes it return 1 with the exception's message on the
    standard error; an argument that is no integer and a command line that is
    too short make it return 1 with a message.  Nothing else can happen but the
    undefined behaviours of the model (reading past the text section, native
    code that does not return): no exception leaves [main]. *)
Theorem main_outcome E O iterate_regs iterate_defs argv w :
  (∀ m, iterate_defs m ≡ₚ map_to_list m) ->
  (∀ sec bytes, ELFReader.get_data E sec = Some bytes ->
     Forall (in_u 8) bytes ∧ Z.of_nat (length bytes) < 2 ^ 63) ->
  let main := Main.main E O iterate_regs iterate_defs argv w in
  let runs path name args :=
    fst (Main.run E O iterate_regs iterate_defs path name args (BinaryTranslator.blank E O w)) in
  (∀ out err, main = Main.Exit 0 out err ↔
     ∃ program path name rest args v,
       argv = program :: path :: name :: rest
       ∧ Main.parseArguments rest [] = inl args ∧ runs path name args = Ok v
       ∧ out = "Function " +:+ name +:+ " returned: " +:+ to_string v ∧ err = "")
  ∧ (∀ program path name rest args e,
       argv = program :: path :: name :: rest ->
       Main.parseArguments rest [] = inl args -> runs path name args = Err e ->
       main = Main.Exit 1 "" ("Error: " +:+ Main.what e)
       ∨ main = Main.Uncaught e ∧ ∃ why, e = undefined_behaviour why)
  ∧ (∀ program path name rest a,
       argv = program :: path :: name :: rest -> Main.parseArguments rest [] = inr a ->
       main = Main.Exit 1 ""
                ("Error: Invalid argument '" +:+ a +:+ "'. Arguments must be integers."))
  ∧ ((length argv < 3)%nat -> main = Main.Exit 1 (Main.usage (default "" (head argv))) "")
  ∧ (∀ e, main = Main.Uncaught e -> ∃ why, e = undefined_behaviour why).
Proof.
  intros Hit Hsec main runs. subst main. unfold Main.main, Main.session.
  destruct argv as [|program [|path [|name rest]]];
    try outcome_cases.
  cbn [fst].
  change (fst (Main.run E O iterate_regs iterate_defs path name ?args _))
    with (runs path name args).
  destruct (Main.parseArguments rest []) as [args|a] eqn:Ha;
    [|outcome_cases].
  pose proof (run_known E O iterate_regs iterate_defs path name args w) as He.
  fold (runs path name args) in He.
  destruct (runs path name args) as [v|e] eqn:Hr;
    [outcome_cases|].
  specialize (He e Hit Hsec eq_refl). unfold known_error in He.
  assert (is_dinorisc_Error e = false -> ∃ why, e = undefined_behaviour why) as Hu
    by (destruct He as [->|]; [done|eauto]). clear He.
  destruct (is_dinorisc_Error e);
    [clear Hu|specialize (Hu eq_refl) as [why ->]]; outcome_cases.
Qed.
