(* ===== verification/Resources.v ===== *)
(** * Memory mappings

    Everything the program maps it gives back: the pages of machine code
    (ExecutionEngine.v) and the shadow memory (the destructor of GuestState), on
    the paths where an exception is thrown too.  What is mapped is the set of
    bytes the class [Accounting] of Platform.v keeps account of. *)
From S2P Require Import Prelude Error GuestState ELFReader ExecutionEngine BinaryTranslator.
From S2P Require Import TranslatorCorrect Main Platform.

(** A computation that keeps an invariant, whatever it returns or throws, unless
    it runs into undefined behaviour. *)
Definition preserves {S A} (I : S → Prop) (m : stateM S A) : Prop :=
  ∀ s r s', m s = (r, s') -> (∀ why, r ≠ Err (undefined_behaviour why)) -> I s -> I s'.

Section rules.
Context {S : Type} (I : S → Prop).

Lemma preserves_ret {A} (a : A) : preserves I (mret a).
Proof. intros s r s' H _ Hi. by injection H as _ <-. Qed.

Lemma preserves_throw {A} e : preserves I (throw (A:=A) e).
Proof. intros s r s' H _ Hi. by injection H as _ <-. Qed.

Lemma preserves_get : preserves I (get : stateM S S).
Proof. intros s r s' H _ Hi. by injection H as _ <-. Qed.

Lemma preserves_lift {A} (r : result A) : preserves I (lift r).
Proof. intros s r' s' H _ Hi. unfold lift in H. by injection H as _ <-. Qed.

Lemma preserves_modify (f : S → S) : (∀ s, I s -> I (f s)) -> preserves I (modify f).
Proof. intros Hf s r s' H _ Hi. injection H as _ <-. by apply Hf. Qed.

Lemma preserves_bind {A B} (m : stateM S A) (f : A → stateM S B) :
  preserves I m -> (∀ a, preserves I (f a)) -> preserves I (m ≫= f).
Proof.
  intros Hm Hf s r s' H Hr Hi. rewrite run_bind in H.
  destruct (m s) as [[a|e] s1] eqn:E.
  - eapply Hf; [exact H|exact Hr|]. by eapply (Hm _ _ _ E).
  - injection H as <- <-. eapply (Hm _ _ _ E); [|exact Hi]. intros why [= ->]. by apply (Hr why).
Qed.
End rules.

(** ** What is mapped, along a run *)

Section program.
Context (E : ELFReader.ELFIO) {O : ExecutionEngine.OS}.
Context `{PR : Process O} `{AC : !Accounting O}.
Context (iterate_regs : gset Z → list Z) (iterate_defs : gmap Z nat → list (Z * nat)).

Abbreviation T := (BinaryTranslator.t E O).

(** The bytes mapped are those of [P]. *)
Definition uses_exactly (P : Z → Prop) (w : ExecutionEngine.World O) : Prop :=
  ∀ b, in_use w b ↔ P b.

(** A mapping, used and given back. *)
Lemma unmapped P n w p w1 w2 :
  ExecutionEngine.mmap O n w = (Some p, w1) -> uses_exactly P w ->
  (∀ b, in_use w2 b ↔ in_use w1 b) ->
  uses_exactly P (ExecutionEngine.munmap O p n w2).
Proof.
  intros Hm HP H2 b.
  rewrite (munmap_accounts _ _ _ _ w2 b Hm), H2, (mmap_accounts _ _ _ _ b Hm), (HP b).
  pose proof (mmap_unused _ _ _ _ b Hm) as Hn. rewrite (HP b) in Hn.
  split; [|by intuition eauto]. intros [[?|(q & [= <-] & ?)] ?]; done.
Qed.

(** The execution engine gives back every page it maps: whether the block runs,
    the mapping fails or the protection cannot be changed. *)
Lemma engine_unmaps P code :
  preserves (λ s, uses_exactly P (ExecutionEngine.world s))
    (ExecutionEngine.executeBlock O code).
Proof.
  intros s r s' H Hr HP. unfold ExecutionEngine.executeBlock in H.
  set (n := ExecutionEngine.allocSize O (Z.of_nat (length code))) in *. clearbody n.
  rewrite run_bind in H. unfold get at 1 in H.
  destruct (ExecutionEngine.mmap O n (ExecutionEngine.world s)) as [[p|] w] eqn:Hm;
    rewrite run_bind in H; unfold modify at 1 in H.
  2:{ injection H as _ <-. intros b. cbn. rewrite (mmap_accounts _ _ _ _ b Hm), (HP b).
      split; [|by left]. by intros [?|(? & [=] & _)]. }
  rewrite run_bind in H. unfold modify at 1 in H. rewrite run_bind in H. unfold get at 1 in H.
  cbn [ExecutionEngine.set_world ExecutionEngine.world] in H.
  pose proof (λ b, mprotect_accounts p n (ExecutionEngine.memcpy O p code w) b) as Hp.
  destruct (ExecutionEngine.mprotect _ _ _ _) as [ok w1]. cbn [snd] in Hp.
  setoid_rewrite memcpy_accounts in Hp. rewrite run_bind in H. unfold modify at 1 in H.
  destruct ok; cbn [negb] in H.
  - rewrite run_bind in H. unfold get at 1 in H.
    cbn [ExecutionEngine.set_world ExecutionEngine.world ExecutionEngine.guest] in H.
    destruct (ExecutionEngine.call _ _ _ _) as [[[v g] w2]|] eqn:Hc.
    + injection H as _ <-. cbn. eapply unmapped; [exact Hm|exact HP|].
      intros b. by rewrite (call_accounts _ _ _ _ _ _ b Hc).
    + injection H as <- _. by destruct (Hr "native code does not return").
  - injection H as _ <-. cbn. by eapply unmapped; [exact Hm|exact HP|].
Qed.

Definition has_mapped (P : Z → Prop) (s : T) : Prop :=
  uses_exactly P (BinaryTranslator.world E O s).

Lemma executeBlock_maps P pc :
  preserves (has_mapped P) (BinaryTranslator.executeBlock E O iterate_regs iterate_defs pc).
Proof.
  apply preserves_bind; [apply preserves_get|]. intros s0.
  apply preserves_bind; [apply preserves_lift|]. intros code s r s' H Hr Hi.
  unfold BinaryTranslator.on_engine in H.
  destruct (ExecutionEngine.executeBlock O code _) as [r1 s1] eqn:E1. injection H as -> <-.
  exact (engine_unmaps P code _ _ _ E1 Hr Hi).
Qed.

Lemma dispatch_maps P n : ∀ pc,
  preserves (has_mapped P) (BinaryTranslator.dispatch E O iterate_regs iterate_defs n pc).
Proof.
  induction n as [|n IH]; intros pc; cbn [BinaryTranslator.dispatch]; [apply preserves_ret|].
  destruct (pc =? 0); [apply preserves_ret|].
  apply preserves_bind; [by apply preserves_modify|]. intros _.
  apply preserves_bind; [apply executeBlock_maps|]. intros pc'.
  destruct (pc' =? 0); [apply preserves_ret|apply IH].
Qed.

Lemma executeFunction_maps P path name :
  preserves (has_mapped P)
    (BinaryTranslator.executeFunction E O iterate_regs iterate_defs path name).
Proof.
  apply preserves_bind.
  { apply preserves_bind; [|intros _; by apply preserves_modify].
    intros s r s' H _ Hi. unfold BinaryTranslator.on_reader in H.
    destruct (ELFReader.loadFile E path _) as [r1 e]. by injection H as _ <-. }
  intros _. apply preserves_bind; [apply preserves_get|]. intros s0.
  destruct (ELFReader.getFunctionAddress _ _ _); [|apply preserves_throw].
  apply preserves_bind; [by apply preserves_modify|]. intros _.
  apply preserves_bind; [by apply preserves_modify|]. intros _.
  apply preserves_bind; [apply dispatch_maps|]. intros _.
  apply preserves_bind; [apply preserves_get|]. intros s1. apply preserves_ret.
Qed.

(** The whole run, from the mapping of the shadow memory on. *)
Lemma run_maps path name args w r s :
  Main.run E O iterate_regs iterate_defs path name args (BinaryTranslator.blank E O w) = (r, s) ->
  (∀ why, r ≠ Err (undefined_behaviour why)) ->
  match ExecutionEngine.mmap O BinaryTranslator.SHADOW_MEMORY_SIZE w with
  | (None, w1) => uses_exactly (in_use w) (BinaryTranslator.world E O s)
                  ∧ GuestState.shadowMemory (BinaryTranslator.guestState E O s) = 0
  | (Some p, w1) => uses_exactly (in_use w1) (BinaryTranslator.world E O s)
  end.
Proof.
  intros Hrun Hr. unfold Main.run in Hrun. rewrite run_bind in Hrun.
  unfold BinaryTranslator.initializeTranslator in Hrun. rewrite run_bind in Hrun.
  unfold get at 1 in Hrun. cbn [BinaryTranslator.world BinaryTranslator.blank] in Hrun.
  destruct (ExecutionEngine.mmap O _ w) as [[p|] w1] eqn:Hm;
    rewrite run_bind in Hrun; unfold modify at 1 in Hrun.
  - unfold modify at 1 in Hrun. rewrite run_bind in Hrun.
    unfold BinaryTranslator.setArgumentRegisters, modify at 1 in Hrun.
    eapply (executeFunction_maps (in_use w1)); [exact Hrun|exact Hr|]. by intros b.
  - injection Hrun as _ <-. split; [|done]. intros b. cbn.
    rewrite (mmap_accounts _ _ _ _ b Hm). split; [|by left]. by intros [?|(? & [=] & _)].
Qed.

(** C14: what the program maps it gives back.  However the translator's run ends,
    with a result or with an exception [main] reports, by then every page of
    code has been unmapped, and only the shadow memory remains, if there was
    memory for it; the destructor unmaps that too, and the process has exactly
    the bytes in use that it had before, unless the guest's native code has
    overwritten the members of the structure that say where it is. *)
Theorem session_unmaps path name args w r w' :
  Main.session E O iterate_regs iterate_defs path name args w = (r, w') ->
  (∀ why, r ≠ Err (undefined_behaviour why)) ->
  let s := snd (Main.run E O iterate_regs iterate_defs path name args
                  (BinaryTranslator.blank E O w)) in
  let g := BinaryTranslator.guestState E O s in
  match ExecutionEngine.mmap O BinaryTranslator.SHADOW_MEMORY_SIZE w with
  | (None, _) => ∀ b, in_use w' b ↔ in_use w b
  | (Some p, w1) =>
      (∀ b, in_use (BinaryTranslator.world E O s) b ↔ in_use w1 b)
      ∧ (GuestState.shadowMemory g = p ->
         GuestState.shadowMemorySize g = BinaryTranslator.SHADOW_MEMORY_SIZE ->
         ∀ b, in_use w' b ↔ in_use w b)
  end.
Proof.
  intros H Hr s g. unfold Main.session in H. subst s g.
  destruct (Main.run _ _ _ _ _ _ _ _) as [r1 s1] eqn:Hrun. cbn [fst snd] in *.
  injection H as -> <-. pose proof (run_maps _ _ _ _ _ _ Hrun Hr) as Hmap.
  unfold BinaryTranslator.destroy. set (g := BinaryTranslator.guestState E O s1) in *.
  destruct (ExecutionEngine.mmap O _ w) as [[p|] w1] eqn:Hm.
  - split; [exact Hmap|]. intros -> ->. pose proof (mmap_not_null _ _ _ _ Hm) as Hp.
    rewrite (proj2 (Z.eqb_neq p 0)) by done. by eapply unmapped; [exact Hm|by intros b|].
  - destruct Hmap as [Hmap Hz]. by rewrite Hz.
Qed.
End program.
