(* ===== verification/ProgramCorrect.v ===== *)
(** * Whole guest programs

    The dispatch loop, the loading of a binary and [main], composed with the
    translation of blocks and the platform: the program prints what the guest
    function computes on the RISC-V machine. *)
From S2P Require Import Prelude Error Riscv Machine RiscvSemantics.
From S2P Require Import GuestState ELFReader ExecutionEngine BinaryTranslator Main.
From S2P Require Import A64Semantics HostState TranslatorCorrect TranslationCorrect.
From S2P Require Import GuestProgram GuestBlocks Platform.
Import machine.

Section program.
Context (E : ELFReader.ELFIO) {O : ExecutionEngine.OS} `{PR : Process O} `{PL : !Platform O}.
Context (iterate_regs : gset Z → list Z) (iterate_defs : gmap Z nat → list (Z * nat)).
Context (iterate_regs_all : ∀ X, iterate_regs X ≡ₚ elements X).
Context (iterate_defs_all : ∀ m, iterate_defs m ≡ₚ map_to_list m).

Abbreviation T := (BinaryTranslator.t E O).
Abbreviation text s := (BinaryTranslator.textSectionData E O s).
Abbreviation origin s := (BinaryTranslator.textBaseAddress E O s).

(** ** The dispatch loop *)

Section run.
Context (base shadow : Z) (mapped : Z → bool).
Context (apart : separate structure base shadow mapped).
(** A state of the operating system in which the engine is not refused memory,
    and comes back to. *)
Context (enough : ExecutionEngine.World O → Prop).
Context (enough_engine : ∀ code s r s',
  ExecutionEngine.executeBlock O code s = (r, s') -> 0 < Z.of_nat (length code) < 2 ^ 26 ->
  enough (ExecutionEngine.world s) ->
  (∀ v, r = Ok v -> enough (ExecutionEngine.world s')) ∧ ∀ e, r = Err e -> ¬ refused e).

Definition tracks_guest (R : regs) (m : mem) (s : T) : Prop :=
  holds base shadow mapped R m (BinaryTranslator.guestState E O s)
    (BinaryTranslator.world E O s).

(** Which members a computation leaves alone. *)
Definition same_text (s s' : T) : Prop := text s' = text s ∧ origin s' = origin s.

(** Writes to the members native code does not take the guest's state from. *)
Lemma holds_guest R m g g' w :
  holds base shadow mapped R m g w ->
  length (GuestState.x g') = 32%nat ->
  (∀ r, 0 <= r < 32 -> u64 (nth (Z.to_nat r) (GuestState.x g') 0) = rd R r) ->
  GuestState.guestMemoryBase g' = GuestState.guestMemoryBase g ->
  GuestState.shadowMemory g' = GuestState.shadowMemory g ->
  holds base shadow mapped R m g' w.
Proof.
  intros [Hl Hm Hs] Hl' Hx Hb Hsh. split; [done|done|].
  apply view_represents in Hs as (H1 & H2 & H3 & H4); [|done..].
  apply view_represents; [done..|]. by rewrite Hb, Hsh.
Qed.

Lemma holds_nth R m g w r :
  holds base shadow mapped R m g w -> 0 <= r < 32 ->
  u64 (nth (Z.to_nat r) (GuestState.x g) 0) = rd R r.
Proof. intros [Hl _ Hs] Hr. apply view_represents in Hs as (H1 & _); [|done..]. by apply H1. Qed.

Lemma tracks_enter R m pc s : tracks_guest R m s -> tracks_guest R m (enter E O pc s).
Proof.
  intros H. eapply holds_guest; [exact H|apply H| |done|done].
  intros r Hr. exact (holds_nth _ _ _ _ _ H Hr).
Qed.

Lemma executeBlock_runs (s : T) n pc l R m R' m' :
  text_placed E O s ->
  entry_ready iterate_regs iterate_defs (text s) (origin s) pc = true ->
  pc ≠ 0 -> returns_home (text s) (origin s) pc l = true ->
  guest.runs (text s) (origin s) mapped (S n) l (R, m, pc) R' m' -> tracks_guest R m s ->
  ∃ res s', BinaryTranslator.executeBlock E O iterate_regs iterate_defs pc s = (res, s')
    ∧ same_text s s'
    ∧ ((∃ e, res = Err e ∧ refused e ∧ ¬ enough (BinaryTranslator.world E O s))
       ∨ ∃ R1 m1 pc1 l', res = Ok pc1 ∧ l = pc1 :: l'
           ∧ returns_home (text s) (origin s) pc1 l' = true
           ∧ guest.runs (text s) (origin s) mapped n l' (R1, m1, pc1) R' m'
           ∧ tracks_guest R1 m1 s'
           ∧ (enough (BinaryTranslator.world E O s) -> enough (BinaryTranslator.world E O s'))).
Proof.
  intros Ht He Hpc H1 Hr HS.
  destruct (runs_from _ _ _ _ _ _ _ _ _ _ Hr) as [[? _]|Ho]; [done|].
  destruct (block_translated E O iterate_regs iterate_defs iterate_regs_all iterate_defs_all
              structure base shadow mapped apart structure_word s n pc l R m R' m' _
              Ht He Ho H1 Hr (h_state _ _ _ _ _ _ _ HS))
    as (code & R1 & m1 & pc1 & l' & Hc & Hlen & -> & Hpc1 & Hr' & H1' & Hruns).
  destruct (engine_runs base shadow mapped apart code R m _ _ R1 m1 pc1 HS Hruns)
    as (res & g' & w' & Hx & Hres); [by eapply compileBlock_bytes|lia|].
  pose proof (enough_engine _ _ _ _ Hx Hlen) as Hen.
  exists res, (BinaryTranslator.mkTranslator E O (BinaryTranslator.elfReader E O s) g' w'
                 (text s) (origin s)).
  split; [|split; [done|]].
  - unfold BinaryTranslator.executeBlock. rewrite run_bind. unfold get at 1.
    rewrite run_bind. unfold lift. rewrite Hc. unfold BinaryTranslator.on_engine.
    by rewrite Hx.
  - destruct Hres as [(e & -> & Hrf)|[-> Hh]]; [left|right].
    { exists e. split; [done|]. split; [done|]. intros Hw. by apply (proj2 (Hen Hw) e). }
    exists R1, m1, pc1, l'. split; [|do 4 (split; [done|])].
    + f_equal. by apply uint_small.
    + intros Hw. by eapply (proj1 (Hen Hw)).
Qed.

Lemma dispatch_runs n : ∀ pc (s : T) l R m R' m',
  text_placed E O s ->
  Forall (λ pc, pc = 0 ∨ entry_ready iterate_regs iterate_defs (text s) (origin s) pc = true)
    (pc :: l) ->
  returns_home (text s) (origin s) pc l = true ->
  guest.runs (text s) (origin s) mapped n l (R, m, pc) R' m' -> tracks_guest R m s ->
  ∃ res s', BinaryTranslator.dispatch E O iterate_regs iterate_defs n pc s = (res, s')
    ∧ ((∃ e, res = Err e ∧ refused e ∧ ¬ enough (BinaryTranslator.world E O s))
       ∨ res = Ok tt ∧ tracks_guest R' m' s').
Proof.
  induction n as [|n IH]; intros pc s l R m R' m' Ht Hl H1 Hr HS.
  { eexists _, _. split; [reflexivity|]. right. split; [done|]. by inversion Hr; subst. }
  destruct (decide (pc = 0)) as [->|Hpc].
  { rewrite dispatch_0. eexists _, _. split; [reflexivity|]. right. split; [done|].
    destruct Ht as (? & _). inversion Hr as [| |? ? ? ? ? ? Hs|? ? ? ? ? ? Hs]; subst; [done| |];
      apply step_inside in Hs; lia. }
  apply Forall_cons in Hl as [[?|He] Hl]; [done|].
  rewrite dispatch_S by done.
  destruct (executeBlock_runs (enter E O pc s) n pc l R m R' m')
    as (res & s' & Hx & [Htx Hor] & Hres); [done..|by apply tracks_enter|].
  rewrite Hx. destruct Hres as [(e & -> & Hrf)|(R1 & m1 & pc1 & l' & -> & -> & H1' & Hr' & HS' & Hen)].
  - eexists _, _. split; [reflexivity|]. left. eauto.
  - change (text s' = text s) in Htx. change (origin s' = origin s) in Hor.
    destruct (IH pc1 s' l' R1 m1 R' m') as (res & s2 & Hd & Hres); rewrite ?Htx, ?Hor; try done.
    + unfold text_placed. by rewrite Htx, Hor.
    + exists res, s2. split; [done|]. destruct Hres as [(e & -> & Hrf & Hw)|Hres]; [left|by right].
      exists e. split; [done|]. split; [done|]. intros Hw0. by apply Hw, Hen.
Qed.

(** The result is read from a0. *)
Lemma tracks_result R m s :
  tracks_guest R m s -> BinaryTranslator.getReturnValue E O s = i32 (rd R 10).
Proof.
  intros H. unfold BinaryTranslator.getReturnValue.
  rewrite <- (holds_nth _ _ _ _ 10 H) by lia. change (Z.to_nat 10) with 10%nat.
  rewrite <- (sint_of_uint 32 (u64 _)). unfold uint at 1 2. rewrite mod_mod_pow2 by lia.
  symmetry. apply sint_of_uint.
Qed.

(** The caller's registers with the return address [executeFunction] sets. *)
Lemma tracks_return_address R m s :
  rd R 1 = 0 -> tracks_guest R m s ->
  tracks_guest R m
    (BinaryTranslator.set_guest E O
       (BinaryTranslator.set_x 1 0 (BinaryTranslator.guestState E O s)) s).
Proof.
  intros H1 HS. pose proof (h_regs _ _ _ _ _ _ _ HS) as Hl.
  eapply holds_guest; [exact HS| | |done|done].
  - cbn. by rewrite length_insert.
  - intros r Hr. rewrite <- (holds_nth _ _ _ _ r HS) by done. cbn.
    rewrite !nth_lookup. destruct (Z.eq_dec r 1) as [->|Hne].
    + change (Z.to_nat 1) with 1%nat. rewrite list_lookup_insert_eq by lia. cbn.
      rewrite <- (holds_nth _ _ _ _ 1 HS), nth_lookup in H1 by lia.
      change (Z.to_nat 1) with 1%nat in H1. by rewrite H1.
    + by rewrite list_lookup_insert_ne by lia.
Qed.

(** ** [executeFunction] *)

Definition block_limit : nat := Z.to_nat BinaryTranslator.MAX_EXECUTION_BLOCKS.

Lemma executeFunction_runs path name (s : T) e f l R m R' m' :
  ELFReader.loadFile E path (BinaryTranslator.elfReader E O s) = (Ok tt, e) ->
  ELFReader.getFunctionAddress E e name = Some f ->
  let code := ELFReader.data (ELFReader.textSection e) in
  let address := ELFReader.virtualAddress (ELFReader.textSection e) in
  0 < address -> address + Z.of_nat (length code) < 2 ^ 64 -> Z.of_nat (length code) < 2 ^ 63 ->
  guest.runs code address mapped block_limit l (R, m, f) R' m' ->
  returns_home code address f l = true ->
  Forall (λ pc, pc = 0 ∨ entry_ready iterate_regs iterate_defs code address pc = true) (f :: l) ->
  rd R 1 = 0 -> tracks_guest R m s ->
  ∃ res s',
    BinaryTranslator.executeFunction E O iterate_regs iterate_defs path name s = (res, s')
    ∧ ((∃ e, res = Err e ∧ refused e ∧ ¬ enough (BinaryTranslator.world E O s))
       ∨ res = Ok (i32 (rd R' 10))).
Proof.
  intros Hload Hf code address Ha Hfit Hlen Hr Hhome Hl H1 HS.
  unfold BinaryTranslator.executeFunction. rewrite run_bind.
  unfold BinaryTranslator.loadRISCVBinary. rewrite run_bind.
  unfold BinaryTranslator.on_reader at 1. rewrite Hload. unfold modify at 1.
  rewrite run_bind. unfold get at 1. cbn [BinaryTranslator.elfReader]. rewrite Hf.
  rewrite run_bind. unfold modify at 1. rewrite run_bind. unfold modify at 1. rewrite run_bind.
  match goal with |- context [BinaryTranslator.dispatch _ _ _ _ ?n f ?st] =>
    change n with block_limit;
    destruct (dispatch_runs block_limit f st l R m R' m') as (res & s' & Hd & Hres);
      [done|exact Hl|exact Hhome|exact Hr| |]
  end.
  - apply (tracks_return_address R m); [done|]. exact (tracks_enter _ _ f _ HS).
  - rewrite Hd. destruct Hres as [(e' & -> & He)|[-> HS']].
    + eexists _, _. split; [reflexivity|]. left. eauto.
    + eexists _, _. split; [reflexivity|]. right. f_equal. by eapply tracks_result.
Qed.
End run.

(** ** From the start of the process *)

(** The guest's memory is the shadow memory, from address zero. *)
Definition guest_memory (a : Z) : bool := a <? BinaryTranslator.SHADOW_MEMORY_SIZE.

(** The registers a guest function is called with: the stack pointer and up to
    eight arguments. *)
Definition entry_regs (args : list Z) : regs :=
  list_to_map ((2, BinaryTranslator.SHADOW_MEMORY_SIZE - BinaryTranslator.STACK_RESERVE)
               :: zip (seqZ 10 8) args).

Lemma lookup_zip_seqZ n l : ∀ a r,
  (list_to_map (zip (seqZ a (Z.of_nat n)) l) : regs) !! r
  = if decide (a <= r < a + Z.of_nat n) then l !! Z.to_nat (r - a) else None.
Proof.
  revert l. induction n as [|n IH]; intros l a r.
  - rewrite decide_False by lia. by destruct l.
  - rewrite seqZ_cons by lia. replace (Z.pred (Z.of_nat (S n))) with (Z.of_nat n) by lia.
    destruct l as [|v l]; [by case_decide|]. cbn [zip zip_with list_to_map foldr].
    destruct (Z.eq_dec r a) as [->|Hne].
    + rewrite lookup_insert_eq, decide_True by lia. by rewrite Z.sub_diag.
    + rewrite lookup_insert_ne by done. rewrite IH.
      destruct (decide (a <= r < a + Z.of_nat (S n))) as [Hr|Hr].
      * rewrite decide_True by lia. by replace (Z.to_nat (r - a)) with (S (Z.to_nat (r - Z.succ a))) by lia.
      * by rewrite decide_False by lia.
Qed.

(** The state after the constructor of the translator and the setting of the
    arguments. *)
Definition called (g : GuestState.t) (args : list Z) (p : Z) : GuestState.t :=
  BinaryTranslator.setArguments 0 args
    (BinaryTranslator.set_x 2 (BinaryTranslator.SHADOW_MEMORY_SIZE - BinaryTranslator.STACK_RESERVE)
       (GuestState.mkGuestState (GuestState.x g) (GuestState.pc g) p
          BinaryTranslator.SHADOW_MEMORY_SIZE 0)).

Lemma called_regs args p r :
  0 <= r < 32 ->
  u64 (nth (Z.to_nat r) (GuestState.x (called GuestState.new args p)) 0) = rd (entry_regs args) r.
Proof.
  intros Hr. unfold rd, entry_regs, called. rewrite nth_lookup.
  rewrite setArguments_lookup by (done || lia).
  cbn [list_to_map foldr fst snd]. rewrite Z.sub_0_r.
  destruct (Z.eq_dec r 2) as [->|Hne].
  - rewrite decide_False by lia. by rewrite lookup_insert_eq.
  - rewrite lookup_insert_ne by done. change 8 with (Z.of_nat 8) at 1.
    rewrite (lookup_zip_seqZ 8). change (10 + 0) with 10. change (10 + Z.of_nat 8) with 18.
    assert (GuestState.x (BinaryTranslator.set_x 2
      (BinaryTranslator.SHADOW_MEMORY_SIZE - BinaryTranslator.STACK_RESERVE)
      (GuestState.mkGuestState (GuestState.x GuestState.new) (GuestState.pc GuestState.new) p
         BinaryTranslator.SHADOW_MEMORY_SIZE 0)) !! Z.to_nat r = Some 0) as ->.
    { unfold BinaryTranslator.set_x, GuestState.new. cbn [GuestState.x].
      rewrite list_lookup_insert_ne by lia. by apply (lookup_replicate_2 32); lia. }
    destruct (decide (10 <= r < 18)) as [Hd|Hd]; [|done]. by destruct (args !! _).
Qed.

Lemma guest_memory_host p a :
  guest_memory (u64 a) = true ->
  region p BinaryTranslator.SHADOW_MEMORY_SIZE (host 0 p a) ∧ u64 (host 0 p a) = host 0 p a.
Proof.
  unfold guest_memory. intros Ha%Z.ltb_lt.
  pose proof (uint_range 64 a ltac:(lia)) as [H0 _].
  assert (u64 (host 0 p a) = host 0 p a) as E1 by (apply uint_small, uint_range; lia).
  split; [|done]. exists (u64 a). split; [lia|]. rewrite E1. unfold host.
  rewrite uint_add_r. f_equal. lia.
Qed.

Lemma start_tracks args w0 p w1 :
  (∀ b, region structure 288 b -> in_use w0 b) ->
  ExecutionEngine.mmap O BinaryTranslator.SHADOW_MEMORY_SIZE w0 = (Some p, w1) ->
  separate structure 0 p guest_memory
  ∧ holds 0 p guest_memory (entry_regs args) ∅ (called GuestState.new args p) w1.
Proof.
  intros Hs Hm.
  assert (separate structure 0 p guest_memory) as Hsep.
  { intros a k Ha Hk E1. destruct (guest_memory_host p a Ha) as [Hr Eh].
    apply (mmap_fresh _ _ _ _ _ Hm) in Hr as (Hf & _). apply Hf, Hs. exists k. by rewrite Eh. }
  split; [done|].
  assert (GuestState.guestMemoryBase (called GuestState.new args p) = 0
    ∧ GuestState.shadowMemory (called GuestState.new args p) = p
    ∧ length (GuestState.x (called GuestState.new args p)) = 32%nat) as (Hb & Hsh & Hl).
  { destruct (setArguments_members args 0 (BinaryTranslator.set_x 2
      (BinaryTranslator.SHADOW_MEMORY_SIZE - BinaryTranslator.STACK_RESERVE)
      (GuestState.mkGuestState (GuestState.x GuestState.new) 0 p
         BinaryTranslator.SHADOW_MEMORY_SIZE 0))) as (Hb & Hsh & _ & Hl).
    split; [exact Hb|]. split; [exact Hsh|exact Hl]. }
  split; [exact Hl| |].
  - intros b [(k & Hk & Ek)|(a & Ha & Ea)].
    + apply (mmap_keeps _ _ _ _ Hm); [|auto]. apply Hs. by exists k.
    + destruct (guest_memory_host p a Ha) as [(k & Hk & Ek) Eh].
      apply (mmap_fresh _ _ _ _ b Hm). exists k. split; [done|]. by rewrite Ea, <- Eh.
  - apply view_represents; [exact Hl|done|]. split; [|split; [|split]].
    + intros r Hr. by apply called_regs.
    + by rewrite Hb.
    + rewrite Hsh. apply uint_small. by eapply mmap_word.
    + intros a Ha. destruct (guest_memory_host p a Ha) as [Hr _].
      apply (mmap_fresh _ _ _ _ _ Hm) in Hr as (_ & _ & ->). unfold load_byte.
      by rewrite lookup_empty.
Qed.

(** ** A call of a guest function *)

(** The text section of the file at [path] is loaded, holds the function [name],
    at [f], and passes the translator's test with some set of block entries. *)
Record guest_function (path name : string) (code : list Z) (address f : Z) : Prop := {
  gf_loaded : ∃ e, ELFReader.loadFile E path (ELFReader.new E) = (Ok tt, e)
    ∧ ELFReader.getFunctionAddress E e name = Some f
    ∧ ELFReader.data (ELFReader.textSection e) = code
    ∧ ELFReader.virtualAddress (ELFReader.textSection e) = address;
  gf_address : 0 < address;
  gf_fits : address + Z.of_nat (length code) < 2 ^ 64;
  gf_length : Z.of_nat (length code) < 2 ^ 63;
  gf_ready : ∃ entries, function_ready iterate_regs iterate_defs code address entries f = true;
}.

(** The function, run on the RISC-V machine from its entry with the arguments in
    a0 to a7, the stack pointer below the top of 8 MiB of zeroed memory and
    return address zero, transfers control at most 10000 times and returns, to
    zero, with the result in a0. *)
Inductive guest_call (path name : string) (args : list Z) : Z → Prop :=
  | Guest_call code address f l R' m' :
      guest_function path name code address f ->
      guest.returns code address guest_memory l (entry_regs args, ∅, f) R' m' ->
      returns_home code address f l = true ->
      Z.of_nat (length l) <= BinaryTranslator.MAX_EXECUTION_BLOCKS ->
      guest_call path name args (rd R' 10).

(** It transfers control 10000 times without coming to zero, and has then got
    a number in a0. *)
Inductive guest_unfinished (path name : string) (args : list Z) : Z → Prop :=
  | Guest_unfinished code address f l R' m' pc :
      guest_function path name code address f ->
      guest.reaches code address guest_memory l (entry_regs args, ∅, f) (R', m', pc) ->
      returns_home code address f l = true ->
      Z.of_nat (length l) = BinaryTranslator.MAX_EXECUTION_BLOCKS -> pc ≠ 0 ->
      guest_unfinished path name args (rd R' 10).

(** In both cases the machine has been stopped by the limit at the latest. *)
Inductive guest_stops (path name : string) (args : list Z) : Z → Prop :=
  | Guest_stops code address f l R' m' :
      guest_function path name code address f ->
      guest.runs code address guest_memory block_limit l (entry_regs args, ∅, f) R' m' ->
      returns_home code address f l = true ->
      guest_stops path name args (rd R' 10).

Lemma guest_call_stops path name args v :
  guest_call path name args v -> guest_stops path name args v.
Proof.
  intros [code address f l R' m' Hf Hr Hhome Hn]. apply (Guest_stops _ _ _ code address f l R' m'); auto.
  apply returns_runs; [by destruct Hf|by destruct Hf|done|]. unfold block_limit. lia.
Qed.

Lemma guest_unfinished_stops path name args v :
  guest_unfinished path name args v -> guest_stops path name args v.
Proof.
  intros [code address f l R' m' pc Hf Hr Hhome Hn _].
  apply (Guest_stops _ _ _ code address f l R' m'); auto.
  replace block_limit with (length l) by (unfold block_limit; lia). by eapply guest.reaches_runs.
Qed.

Lemma entry_regs_return_address args : rd (entry_regs args) 1 = 0.
Proof.
  unfold rd, entry_regs. cbn [list_to_map foldr fst snd]. rewrite lookup_insert_ne by done.
  change 8 with (Z.of_nat 8) at 1. by rewrite (lookup_zip_seqZ 8).
Qed.

(** A condition [start] on the first state of the operating system that keeps
    the program from being refused memory excludes errors. *)
Lemma run_runs (enough : ExecutionEngine.World O → Prop) (start : Prop) path name args w0 v :
  (∀ code s r s',
    ExecutionEngine.executeBlock O code s = (r, s') -> 0 < Z.of_nat (length code) < 2 ^ 26 ->
    enough (ExecutionEngine.world s) ->
    (∀ v, r = Ok v -> enough (ExecutionEngine.world s')) ∧ ∀ e, r = Err e -> ¬ refused e) ->
  (start -> ∃ p w1, ExecutionEngine.mmap O BinaryTranslator.SHADOW_MEMORY_SIZE w0 = (Some p, w1)
                    ∧ enough w1) ->
  (∀ b, region structure 288 b -> in_use w0 b) ->
  guest_stops path name args v ->
  ∃ res s',
    Main.run E O iterate_regs iterate_defs path name args (BinaryTranslator.blank E O w0) = (res, s')
    ∧ ((∃ e, res = Err e ∧ refused e ∧ ¬ start) ∨ res = Ok (i32 v)).
Proof.
  intros Heng Hstart Hs [code address f l R' m' Hgf Hr Hhome].
  destruct Hgf as [(e & Hload & Hf & <- & <-) Ha Hfit Hlen [entries Hready]].
  unfold Main.run. rewrite run_bind. unfold BinaryTranslator.initializeTranslator.
  rewrite run_bind. unfold get at 1. cbn [BinaryTranslator.world BinaryTranslator.blank].
  destruct (ExecutionEngine.mmap O BinaryTranslator.SHADOW_MEMORY_SIZE w0) as [[p|] w1] eqn:Hm;
    rewrite run_bind; unfold modify at 1.
  2:{ eexists _, _. split; [reflexivity|]. left. eexists. split; [done|]. split; [by left|].
      intros (? & ? & [=] & _)%Hstart. }
  destruct (start_tracks args w0 p w1 Hs Hm) as [Hsep Hh].
  unfold modify at 1. rewrite run_bind. unfold BinaryTranslator.setArgumentRegisters, modify at 1.
  apply andb_true_iff in Hready as [Hin%bool_decide_eq_true Hclosed].
  match goal with |- context [BinaryTranslator.executeFunction _ _ _ _ _ _ ?s] =>
    destruct (executeFunction_runs 0 p guest_memory Hsep enough Heng path name s e f l
      (entry_regs args) ∅ R' m' Hload Hf Ha Hfit Hlen Hr Hhome) as (res & s' & Hx & Hres);
      [|by apply entry_regs_return_address| |]
  end.
  - eapply ready_run; [exact Ha|exact Hfit|exact Hlen|exact Hclosed|by right|exact Hhome|exact Hr].
  - exact Hh.
  - exists res, s'. split; [exact Hx|]. destruct Hres as [(e' & -> & He & Hw)|Hres]; [left|by right].
    exists e'. split; [done|]. split; [done|]. intros (? & ? & [= <- <-] & Hen)%Hstart.
    by apply Hw.
Qed.

(** [main], by the result of the run. *)
Lemma main_runs (enough : ExecutionEngine.World O → Prop) (start : Prop)
    program path name rest args w0 v :
  (∀ code s r s',
    ExecutionEngine.executeBlock O code s = (r, s') -> 0 < Z.of_nat (length code) < 2 ^ 26 ->
    enough (ExecutionEngine.world s) ->
    (∀ v, r = Ok v -> enough (ExecutionEngine.world s')) ∧ ∀ e, r = Err e -> ¬ refused e) ->
  (start -> ∃ p w1, ExecutionEngine.mmap O BinaryTranslator.SHADOW_MEMORY_SIZE w0 = (Some p, w1)
                    ∧ enough w1) ->
  (∀ b, region structure 288 b -> in_use w0 b) ->
  Main.parseArguments rest [] = inl args ->
  guest_stops path name args v ->
  let main := Main.main E O iterate_regs iterate_defs (program :: path :: name :: rest) w0 in
  main = Main.Exit 0 ("Function " +:+ name +:+ " returned: " +:+ to_string (i32 v)) ""
  ∨ (∃ e, refused e ∧ main = Main.Exit 1 "" ("Error: " +:+ Main.what e)) ∧ ¬ start.
Proof.
  intros Heng Hstart Hs Hargs Hg main.
  destruct (run_runs enough start path name args w0 v Heng Hstart Hs Hg)
    as (res & s' & Hx & Hres).
  unfold main, Main.main, Main.session. rewrite Hargs, Hx. cbn [fst].
  destruct Hres as [(e & -> & He & Hn)|Hres]; [right|left; by rewrite Hres].
  split; [|done]. exists e. split; [done|]. by destruct He as [->|[->| ->]].
Qed.

(** Memory enough for a block's code, and for the shadow memory before. *)
Definition block_memory `{!Supply O} (w : ExecutionEngine.World O) : Prop :=
  2 ^ 26 + ExecutionEngine.getpagesize O <= available w.

Lemma supply_block `{!Supply O} code s r s' :
  ExecutionEngine.executeBlock O code s = (r, s') -> 0 < Z.of_nat (length code) < 2 ^ 26 ->
  block_memory (ExecutionEngine.world s) ->
  (∀ v, r = Ok v -> block_memory (ExecutionEngine.world s')) ∧ ∀ e, r = Err e -> ¬ refused e.
Proof.
  unfold block_memory. intros Hx Hlen Hen. pose proof page_size as Hp.
  destruct (engine_supplied _ _ _ _ Hx) as [Hok Herr]; [lia| |].
  - pose proof (ExecutionEngine.allocSize_fits O (Z.of_nat (length code)) Hp ltac:(lia)). lia.
  - split; [|done]. intros u Hu. by rewrite (Hok u Hu).
Qed.

Lemma supply_start `{!Supply O} w0 :
  BinaryTranslator.SHADOW_MEMORY_SIZE + 2 ^ 26 + ExecutionEngine.getpagesize O <= available w0 ->
  ∃ p w1, ExecutionEngine.mmap O BinaryTranslator.SHADOW_MEMORY_SIZE w0 = (Some p, w1)
    ∧ block_memory w1.
Proof.
  intros Hav. pose proof page_size as Hp.
  destruct (mmap_supplies BinaryTranslator.SHADOW_MEMORY_SIZE w0)
    as (p & w1 & Hm & H1); [unfold BinaryTranslator.SHADOW_MEMORY_SIZE in *; lia|].
  exists p, w1. split; [done|]. unfold block_memory. lia.
Qed.

(** C1: the program computes what the guest function computes.  For a function
    that passes the translator's test and a run of it on the RISC-V machine
    ([guest_call]), on a platform that keeps its laws, [main] prints the low 32
    bits, signed, of the a0 the function leaves and exits with 0, unless the
    operating system refuses it memory, which it reports and exits with 1. *)
Theorem main_refines program path name rest args w0 v :
  (∀ b, region structure 288 b -> in_use w0 b) ->
  Main.parseArguments rest [] = inl args ->
  guest_call path name args v ->
  Main.main E O iterate_regs iterate_defs (program :: path :: name :: rest) w0
  = Main.Exit 0 ("Function " +:+ name +:+ " returned: " +:+ to_string (i32 v)) ""
  ∨ ∃ e, refused e
      ∧ Main.main E O iterate_regs iterate_defs (program :: path :: name :: rest) w0
        = Main.Exit 1 "" ("Error: " +:+ Main.what e).
Proof.
  intros Hs Hargs Hg%guest_call_stops.
  destruct (main_runs (λ _, False) False program path name rest args w0 v) as [?|[? _]]; auto; done.
Qed.

(** C2: where the operating system has memory to give ([Supply]), the shadow
    memory and one block's code with it at any time, the call of the function
    succeeds: [main] terminates and prints its result. *)
Theorem main_returns `{!Supply O} program path name rest args w0 v :
  (∀ b, region structure 288 b -> in_use w0 b) ->
  BinaryTranslator.SHADOW_MEMORY_SIZE + 2 ^ 26 + ExecutionEngine.getpagesize O <= available w0 ->
  Main.parseArguments rest [] = inl args ->
  guest_call path name args v ->
  Main.main E O iterate_regs iterate_defs (program :: path :: name :: rest) w0
  = Main.Exit 0 ("Function " +:+ name +:+ " returned: " +:+ to_string (i32 v)) "".
Proof.
  intros Hs Hav Hargs Hg%guest_call_stops.
  by destruct (main_runs block_memory True program path name rest args w0 v supply_block
    (λ _, supply_start w0 Hav) Hs Hargs Hg) as [?|[_ []]].
Qed.

(** C15: (defect) a function that does not finish is reported as if it had
    returned: when the guest function has transferred control 10000 times and
    not come to zero ([guest_unfinished]), [main] prints the low 32 bits of what
    is in a0 then as the value the function returned, and exits with 0. *)
Theorem main_unfinished `{!Supply O} program path name rest args w0 v :
  (∀ b, region structure 288 b -> in_use w0 b) ->
  BinaryTranslator.SHADOW_MEMORY_SIZE + 2 ^ 26 + ExecutionEngine.getpagesize O <= available w0 ->
  Main.parseArguments rest [] = inl args ->
  guest_unfinished path name args v ->
  Main.main E O iterate_regs iterate_defs (program :: path :: name :: rest) w0
  = Main.Exit 0 ("Function " +:+ name +:+ " returned: " +:+ to_string (i32 v)) "".
Proof.
  intros Hs Hav Hargs Hg%guest_unfinished_stops.
  by destruct (main_runs block_memory True program path name rest args w0 v supply_block
    (λ _, supply_start w0 Hav) Hs Hargs Hg) as [?|[_ []]].
Qed.
End program.
