(* ===== verification/SamplePlatform.v ===== *)
(** * A platform

    A small operating system and a processor that obey the laws of Platform.v,
    both executable: memory is handed out from a frontier that moves back when
    the last mapping is unmapped, a log of the mappings made and unmapped says
    which bytes are in use, and a call fetches the code made executable and runs
    it by the semantics of A64. *)
From S2P Require Import Prelude Error Machine GuestState ExecutionEngine.
From S2P Require Import A64 A64Semantics HostState MachineCode Platform.
Import machine.

Definition HEAP : Z := 0x100000.
Definition GUEST_STATE : Z := 0x1000.
Definition LIMIT : Z := 2 ^ 47.

(** What a process has mapped (always at the frontier) and unmapped, the latest
    first. *)
Inductive event :=
  | Mapped (n : Z)
  | Unmapped (p n : Z).

Fixpoint frontier (l : list event) : Z :=
  match l with
  | [] => HEAP
  | Mapped n :: l => frontier l + Z.max 0 n
  | Unmapped p n :: l => if frontier l =? p + n then Z.max HEAP p else frontier l
  end.

Fixpoint occupied (l : list event) (b : Z) : Prop :=
  match l with
  | [] => False
  | Mapped n :: l => region (frontier l) n b ∨ occupied l b
  | Unmapped p n :: l => occupied l b ∧ ¬ region p n b
  end.

Record process := mkProcess {
  bytes : mem;
  log : list event;
  executable : Z;      (* size of the range last made executable *)
}.

Fixpoint write_bytes (l : list Z) (a : Z) (M : mem) : mem :=
  match l with
  | [] => M
  | b :: l => write_bytes l (a + 1) (<[u64 a := u8 b]> M)
  end.

Definition clear (p n : Z) (M : mem) : mem := filter (λ kv, ¬ p <= kv.1 < p + n) M.

(** The structure's value read back from memory. *)
Definition unview (H : mem) : GuestState.t :=
  GuestState.mkGuestState
    (map (λ k, load 8 H (GUEST_STATE + 8 * k)) (seqZ 0 32))
    (load 8 H (GUEST_STATE + 8 * 32)) (load 8 H (GUEST_STATE + 8 * 33))
    (load 8 H (GUEST_STATE + 8 * 34)) (load 8 H (GUEST_STATE + 8 * 35)).

Definition entry_state (g : GuestState.t) (M : mem) : a64sem.state :=
  a64sem.mkState {[0 := GUEST_STATE; 30 := 0x400]}
    (a64sem.mkFlags false false false false) (view GUEST_STATE g M).

Definition machine_os : ExecutionEngine.OS := {|
  ExecutionEngine.World := process;
  ExecutionEngine.getpagesize := 4096;
  ExecutionEngine.mmap := λ n w,
    if (0 <? n) && (frontier (log w) + n <=? LIMIT) then
      (Some (frontier (log w)),
       mkProcess (clear (frontier (log w)) n (bytes w)) (Mapped n :: log w) (executable w))
    else (None, w);
  ExecutionEngine.mprotect := λ _ n w, (true, mkProcess (bytes w) (log w) n);
  ExecutionEngine.munmap := λ p n w,
    mkProcess (bytes w) (Unmapped p n :: log w) (executable w);
  ExecutionEngine.memcpy := λ p l w,
    mkProcess (write_bytes l p (bytes w)) (log w) (executable w);
  ExecutionEngine.call := λ p g w,
    let code := map (λ k, load_byte (bytes w) (p + k)) (seqZ 0 (executable w)) in
    match a64sem.run_code code (entry_state g (bytes w)) with
    | Some (st, _) =>
        Some (a64sem.xget (a64sem.xr st) 0, unview (a64sem.hm st),
              mkProcess (a64sem.hm st) (log w) (executable w))
    | None => None
    end;
|}.

#[global] Instance machine_process : Process machine_os := {|
  memory := bytes : ExecutionEngine.World machine_os → mem;
  in_use := λ w b, region GUEST_STATE 288 b ∨ occupied (log w) b;
  structure := GUEST_STATE;
|}.

(** ** Memory *)

Lemma load_byte_write l : ∀ a M c,
  Z.of_nat (length l) < 2 ^ 64 ->
  load_byte (write_bytes l a M) c
  = match l !! Z.to_nat (u64 (c - a)) with Some b => u8 b | None => load_byte M c end.
Proof.
  induction l as [|b l IH]; intros a M c Hl; [done|].
  cbn [write_bytes length] in *. rewrite IH by lia.
  pose proof (uint_range 64 (c - a) ltac:(lia)) as Hr. unfold in_u in Hr.
  destruct (Z.eq_dec (u64 (c - a)) 0) as [E|E].
  - assert (u64 c = u64 a) as Eca.
    { rewrite <- (Z.sub_simpl_r c a), <- uint_add_l, E. by rewrite Z.add_0_l. }
    assert (u64 (c - (a + 1)) = 2 ^ 64 - 1) as ->.
    { replace (c - (a + 1)) with ((c - a) - 1) by lia. by rewrite <- uint_sub_l, E. }
    rewrite E, lookup_ge_None_2 by lia. cbn. unfold load_byte. rewrite Eca, lookup_insert_eq.
    cbn. by rewrite uint_idemp.
  - assert (u64 (c - (a + 1)) = u64 (c - a) - 1) as ->.
    { replace (c - (a + 1)) with ((c - a) - 1) by lia. rewrite <- uint_sub_l.
      apply uint_small. unfold in_u. lia. }
    replace (Z.to_nat (u64 (c - a))) with (S (Z.to_nat (u64 (c - a) - 1))) by lia.
    cbn. destruct (l !! _); [done|]. unfold load_byte. rewrite lookup_insert_ne; [done|].
    intros Eca. apply E. by rewrite <- uint_sub_l, <- Eca, uint_sub_l, Z.sub_diag.
Qed.

Lemma load_byte_clear p n M b :
  load_byte (clear p n M) b = if decide (p <= u64 b < p + n) then 0 else load_byte M b.
Proof.
  unfold load_byte, clear. case_decide as Hb.
  - by rewrite map_lookup_filter_None_2; [|right; intros ? ? Hn; apply Hn].
  - destruct (M !! u64 b) as [v|] eqn:E.
    + by rewrite (map_lookup_filter_Some_2 _ _ _ v).
    + rewrite map_lookup_filter_None_2; [done|by left].
Qed.

(** A word's bytes. *)
Lemma load_byte_load n : ∀ M a j,
  (j < n)%nat -> load_byte M (a + Z.of_nat j) = u8 (load n M a / 2 ^ (8 * Z.of_nat j)).
Proof.
  induction n as [|n IH]; intros M a j Hj; [lia|].
  change (load (S n) M a) with (load_byte M a + 2 ^ 8 * load n M (a + 1)).
  assert (0 <= load_byte M a < 2 ^ 8) as Hb by (apply uint_range; lia).
  destruct j as [|j].
  - change (8 * Z.of_nat 0) with 0. rewrite Z.add_0_r, Z.pow_0_r, Z.div_1_r. unfold uint.
    rewrite Z.mul_comm, Z.mod_add by lia. symmetry. by apply Z.mod_small.
  - replace (a + Z.of_nat (S j)) with (a + 1 + Z.of_nat j) by lia. rewrite IH by lia.
    replace (8 * Z.of_nat (S j)) with (8 + 8 * Z.of_nat j) by lia.
    rewrite Z.pow_add_r, <- Z.div_div by (try lia; apply Z.pow_pos_nonneg; lia).
    do 2 f_equal. rewrite Z.mul_comm, Z.div_add, Z.div_small by lia. lia.
Qed.

(** ** The structure read back *)

Lemma fields_unview H :
  fields (unview H) = map (λ k, load 8 H (GUEST_STATE + 8 * k)) (seqZ 0 36).
Proof. reflexivity. Qed.

Lemma view_unview H b : load_byte (view GUEST_STATE (unview H) H) b = load_byte H b.
Proof.
  pose proof (uint_range 64 (b - GUEST_STATE) ltac:(lia)) as Hr. unfold in_u in Hr.
  set (d := u64 (b - GUEST_STATE)) in *.
  destruct (Z.le_gt_cases 288 d) as [Hd|Hd]; [by apply view_other|].
  assert (u64 b = u64 (GUEST_STATE + d)) as Eb.
  { unfold d. rewrite uint_add_r. f_equal. lia. }
  assert (d = 8 * (d / 8) + d mod 8) as Ed by (apply Z.div_mod; lia).
  pose proof (Z.mod_pos_bound d 8 ltac:(lia)) as Hm.
  assert (0 <= d / 8 < 36) as Hq by dlia.
  clearbody d. rewrite <- (load_byte_wrap _ b), <- (load_byte_wrap H b), Eb, !load_byte_wrap.
  rewrite Ed. set (q := Z.to_nat (d / 8)). set (j := Z.to_nat (d mod 8)).
  replace (GUEST_STATE + (8 * (d / 8) + d mod 8))
    with (GUEST_STATE + 8 * Z.of_nat q + Z.of_nat j) by lia.
  rewrite !(load_byte_load 8) by lia. f_equal. f_equal.
  rewrite (view_field GUEST_STATE (unview H) H eq_refl q (load 8 H (GUEST_STATE + 8 * Z.of_nat q))).
  - apply uint_small. apply (load_range 8).
  - rewrite fields_unview. change (map ?f ?l) with (f <$> l). rewrite list_lookup_fmap.
    rewrite lookup_seqZ_lt by lia. done.
Qed.

(** ** Code *)

(** What follows the return is not run. *)
Lemma run_code_app n : ∀ code rest s r,
  (length code <= n)%nat -> a64sem.run_code code s = Some r ->
  a64sem.run_code (code ++ rest) s = Some r.
Proof.
  induction n as [|n IH]; intros code rest s r Hn Hr.
  { by destruct code; [|simpl in Hn; lia]. }
  destruct code as [|b0 [|b1 [|b2 [|b3 code]]]]; try done.
  cbn [a64sem.run_code app] in *. apply bind_Some in Hr as (i & Hi & Hr). rewrite Hi.
  cbn [mbind option_bind]. simpl in Hn.
  destruct i; try done; apply bind_Some in Hr as (s1 & Hx & Hr); rewrite Hx;
    cbn [mbind option_bind]; apply IH; (lia || done).
Qed.

(** What the processor fetches starts with the code. *)
Lemma fetched_code code p n M :
  Forall (in_u 8) code -> Z.of_nat (length code) <= n -> placed code p M ->
  ∃ rest, map (λ k, load_byte M (p + k)) (seqZ 0 n) = code ++ rest.
Proof.
  intros Hb Hn Hp. exists (map (λ k, load_byte M (p + k))
    (seqZ (Z.of_nat (length code)) (n - Z.of_nat (length code)))).
  replace n with (Z.of_nat (length code) + (n - Z.of_nat (length code))) at 1 by lia.
  rewrite seqZ_app by lia. rewrite map_app, Z.add_0_l. f_equal.
  apply list_eq. intros k. change (map ?f ?l) with (f <$> l). rewrite list_lookup_fmap.
  destruct (code !! k) as [b|] eqn:Hk.
  - pose proof (lookup_lt_Some _ _ _ Hk). rewrite lookup_seqZ_lt by lia. cbn. f_equal.
    rewrite Z.add_0_l, (Hp k b Hk). apply uint_small.
    exact (Forall_lookup_1 _ _ _ _ Hb Hk).
  - apply lookup_ge_None in Hk. by rewrite lookup_seqZ_ge by lia.
Qed.

(** ** The laws *)

Lemma structure_below b : region GUEST_STATE 288 b -> u64 b < HEAP.
Proof.
  intros (k & Hk & E). rewrite (uint_small 64 (GUEST_STATE + k)) in E
    by (unfold in_u, GUEST_STATE; lia).
  unfold HEAP, GUEST_STATE in *. lia.
Qed.

Lemma region_word p n b :
  0 <= p -> p + n <= 2 ^ 64 -> region p n b ↔ p <= u64 b < p + n.
Proof.
  intros Hp Hn. split.
  - intros (k & Hk & ->). rewrite uint_small by (unfold in_u; lia). lia.
  - intros Hb. exists (u64 b - p). split; [lia|].
    replace (p + (u64 b - p)) with (u64 b) by lia. by rewrite uint_idemp.
Qed.

Lemma frontier_heap l : HEAP <= frontier l.
Proof.
  induction l as [|[n|p n] l IH]; cbn [frontier]; [done|lia|].
  destruct (_ =? _); [lia|done].
Qed.

(** What is occupied lies below the frontier. *)
Lemma occupied_below l b : occupied l b -> u64 b < frontier l.
Proof.
  pose proof (uint_range 64 b ltac:(lia)) as Hr. unfold in_u in Hr.
  induction l as [|[n|p n] l IH]; cbn [occupied frontier]; [done| |].
  - pose proof (frontier_heap l) as Hf. unfold HEAP in Hf. intros [Hb|Hb%IH]; [|lia].
    destruct (Z.le_gt_cases (frontier l + n) (2 ^ 64)) as [Hle|]; [|lia].
    apply region_word in Hb; lia.
  - intros [Hb%IH Hn]. destruct (Z.eqb_spec (frontier l) (p + n)) as [E|]; [|done].
    destruct (Z.lt_ge_cases (u64 b) (Z.max HEAP p)) as [|Hge]; [done|].
    destruct Hn. exists (u64 b - p). split; [lia|].
    replace (p + (u64 b - p)) with (u64 b) by lia. by rewrite uint_idemp.
Qed.

Lemma in_use_below (w : process) b :
  in_use (O := machine_os) w b -> u64 b < frontier (log w).
Proof.
  intros [Hb%structure_below|Hb%occupied_below]; [|done].
  pose proof (frontier_heap (log w)). lia.
Qed.

(** A successful mapping. *)
Lemma machine_mmap n w p w' :
  ExecutionEngine.mmap machine_os n w = (Some p, w') ->
  0 < n ∧ p = frontier (log w) ∧ HEAP <= p ∧ p + n <= LIMIT
  ∧ w' = mkProcess (clear p n (bytes w)) (Mapped n :: log w) (executable w).
Proof.
  cbn. destruct ((0 <? n) && (frontier (log w) + n <=? LIMIT)) eqn:Hc; [|done].
  intros [= <- <-]. split_and_true. pose proof (frontier_heap (log w)). auto with lia.
Qed.
Lemma machine_mmap_keeps n w r w' :
  ExecutionEngine.mmap machine_os n w = (r, w') -> keeps w w' (λ _, False).
Proof.
  intros Hm b Hb _. destruct r as [p|].
  - apply machine_mmap in Hm as (Hn & -> & Hp & _ & ->).
    pose proof (in_use_below w b Hb) as Hlt. cbn in Hb |- *. split; [tauto|].
    rewrite load_byte_clear. by destruct (decide _); [lia|].
  - cbn in Hm. destruct ((0 <? n) && (frontier (log w) + n <=? LIMIT)); [done|].
    by injection Hm as <-.
Qed.

Lemma machine_mmap_unused n w p w' b :
  ExecutionEngine.mmap machine_os n w = (Some p, w') -> region p n b ->
  p <= u64 b < p + n ∧ ¬ in_use (O := machine_os) w b.
Proof.
  intros (Hn & -> & Hp & Hl & ->)%machine_mmap Hb. unfold LIMIT, HEAP in *.
  apply region_word in Hb; [|lia..]. split; [done|]. intros Hu%in_use_below. lia.
Qed.

Lemma machine_mmap_fresh n w p w' b :
  ExecutionEngine.mmap machine_os n w = (Some p, w') -> region p n b ->
  ¬ in_use (O := machine_os) w b ∧ in_use (O := machine_os) w' b
  ∧ load_byte (memory (O := machine_os) w') b = 0.
Proof.
  intros Hm Hr. destruct (machine_mmap_unused _ _ _ _ _ Hm Hr) as [Hb Hu]. split; [done|].
  apply machine_mmap in Hm as (Hn & -> & Hp & Hl & ->). cbn. split; [by right; left|].
  rewrite load_byte_clear. by rewrite decide_True by lia.
Qed.

Lemma machine_memcpy_keeps p l w :
  keeps w (ExecutionEngine.memcpy machine_os p l w) (region p (Z.of_nat (length l))).
Proof.
  intros b Hb Hr. split; [exact Hb|]. cbn [memory machine_process bytes ExecutionEngine.memcpy machine_os].
  pose proof (uint_range 64 (b - p) ltac:(lia)) as [H0 ?].
  destruct (Z.lt_ge_cases (u64 (b - p)) (Z.of_nat (length l))) as [Hlt|Hge].
  - destruct Hr. exists (u64 (b - p)). split; [lia|]. rewrite uint_add_r. f_equal. lia.
  - rewrite load_byte_write by lia. by rewrite lookup_ge_None_2 by lia.
Qed.

Lemma machine_memcpy_writes p l w :
  Z.of_nat (length l) < 2 ^ 64 ->
  placed l p (memory (O := machine_os) (ExecutionEngine.memcpy machine_os p l w)).
Proof.
  intros Hl k b Hk. cbn [memory machine_process bytes ExecutionEngine.memcpy machine_os].
  rewrite load_byte_write by done. replace (p + Z.of_nat k - p) with (Z.of_nat k) by lia.
  pose proof (lookup_lt_Some _ _ _ Hk). rewrite uint_small by (unfold in_u; lia).
  by rewrite Nat2Z.id, Hk.
Qed.

(** Unmapping a range takes it back, and nothing else. *)
Lemma machine_munmap_keeps p n w :
  keeps w (ExecutionEngine.munmap machine_os p n w) (region p n).
Proof. intros b [Hb|Hb] Hr; (split; [|done]); [by left|by right]. Qed.

#[global] Instance machine_platform : Platform machine_os.
Proof.
  split.
  - vm_compute. split; congruence.
  - cbn. lia.
  - exact machine_mmap_keeps.
  - exact machine_mmap_fresh.
  - intros n w p w' (Hn & _ & Hp & Hl & _)%machine_mmap. unfold in_u, LIMIT, HEAP in *. lia.
  - exact machine_memcpy_keeps.
  - done.
  - intros p l w Hl _. by apply machine_memcpy_writes.
  - intros p n w r w' Hm b Hb _. injection Hm as _ <-. done.
  - exact machine_munmap_keeps.
  - intros p n w0 w code g Hm Hby Hn Hp Hreg Hl.
    exists {[0 := GUEST_STATE; 30 := 0x400]}, (a64sem.mkFlags false false false false).
    split; [reflexivity|]. intros st Hrun _ _. cbn in Hm. injection Hm as <-. cbn in Hp.
    destruct (fetched_code code p n (bytes w0) Hby ltac:(lia) Hp) as [rest Hcode].
    cbn [ExecutionEngine.call machine_os]. cbn [executable bytes].
    cbn [memory machine_process bytes structure] in Hrun.
    rewrite Hcode. unfold entry_state.
    rewrite (run_code_app (length code) code rest _ _ ltac:(lia) Hrun).
    eexists _, _. split; [reflexivity|]. split; [reflexivity|].
    split; [apply view_unview|done].
Qed.

(** It has memory up to its limit to give. *)
#[global, program] Instance machine_supply : Supply machine_os := {|
  available w := LIMIT - frontier (log w);
|}.
Next Obligation.
  intros n w Hn. cbn [ExecutionEngine.World machine_os] in *.
  assert ((0 <? n) && (frontier (log w) + n <=? LIMIT) = true) as Hc.
  { apply andb_true_iff. split; [apply Z.ltb_lt|apply Z.leb_le]; lia. }
  eexists _, _. cbn [ExecutionEngine.mmap machine_os]. rewrite Hc. split; [reflexivity|].
  cbn [log frontier]. lia.
Qed.
Next Obligation. done. Qed.
Next Obligation. intros n w0 p w1 w _ _. by eexists. Qed.
Next Obligation.
  intros n w0 p w1 w (Hn & -> & Hp & Hl & ->)%machine_mmap Hw.
  cbn [ExecutionEngine.munmap machine_os log frontier] in Hw |- *.
  rewrite (proj2 (Z.eqb_eq _ _)) by lia. lia.
Qed.
Next Obligation.
  intros p g w v g' w'. cbn [ExecutionEngine.call machine_os].
  destruct (a64sem.run_code _ _) as [[st r]|]; [|done]. by intros [= <- <- <-].
Qed.

(** It keeps account of what is mapped, byte by byte. *)
#[global, program] Instance machine_accounting : Accounting machine_os := {|
  pages := region;
|}.
Next Obligation. done. Qed.
Next Obligation.
  intros n w r w' b Hm. destruct r as [p|].
  - apply machine_mmap in Hm as (_ & -> & _ & _ & ->). cbn. split.
    + intros [?|[?|?]]; eauto.
    + intros [[?|?]|(q & [= <-] & ?)]; auto.
  - cbn in Hm. destruct ((0 <? n) && (frontier (log w) + n <=? LIMIT)); [done|].
    injection Hm as <-. split; [by left|]. by intros [?|(? & [=] & _)].
Qed.
Next Obligation. intros n w p w' b Hm Hb. by apply (machine_mmap_unused _ _ _ _ _ Hm Hb). Qed.
Next Obligation.
  intros n w p w' (_ & _ & Hp & _)%machine_mmap. unfold HEAP in Hp. lia.
Qed.
Next Obligation.
  intros n w0 p w1 w b (_ & -> & Hp & Hl & _)%machine_mmap. cbn. split; [|tauto].
  intros [Hb|[Hb Hn]]; [|tauto]. split; [by left|]. intros Hr.
  apply region_word in Hr; [|unfold LIMIT, HEAP in *; lia..].
  apply structure_below in Hb. lia.
Qed.
Next Obligation. done. Qed.
Next Obligation. done. Qed.
Next Obligation.
  intros p g w v g' w' b. cbn [ExecutionEngine.call machine_os].
  destruct (a64sem.run_code _ _) as [[st r]|]; [|done]. by intros [= <- <- <-].
Qed.
