(* ===== verification/Examples.v ===== *)
(** * An example environment

    A concrete ELF file, operating system and iteration orders: the parameters
    of the driver's theorems instantiated, and the theorems applied there. *)
From S2P Require Import Prelude Error Riscv Decoder RiscvEncoding IR Lifter Arm64 Encoder GuestState.
From S2P Require Import InstructionSelector Liveness LivenessCorrect RegisterAllocator.
From S2P Require Import AllocatorCorrect ELFReader ExecutionEngine BinaryTranslator Main.
From S2P Require Import TranslatorCorrect LoaderCorrect MainCorrect.
From S2P Require Import Machine RiscvSemantics LifterBlock A64Semantics HostState SelectorCorrect.
From S2P Require Import TranslationCorrect GuestProgram GuestBlocks.
From S2P Require Import Platform ProgramCorrect SamplePlatform Resources.

(** An executable whose only section is both the text at 0x1000 and the symbol
    table that names its start [f]. *)
Definition sample_elf (text : list Z) : ELFReader.ELFIO := {|
  ELFReader.Reader := unit;
  ELFReader.Section_ := unit;
  ELFReader.load := λ _, Some tt;
  ELFReader.get_class := λ _, ELFReader.ELFCLASS64;
  ELFReader.get_machine := λ _, ELFReader.EM_RISCV;
  ELFReader.get_type := λ _, ELFReader.ET_EXEC;
  ELFReader.get_entry := λ _, 0x1000;
  ELFReader.sections := λ _, [tt];
  ELFReader.get_name := λ _, ".text";
  ELFReader.get_flags := λ _, ELFReader.SHF_EXECINSTR;
  ELFReader.get_address := λ _, 0x1000;
  ELFReader.get_data := λ _, Some text;
  ELFReader.get_size := λ _, Z.of_nat (length text);
  ELFReader.sec_type := λ _, ELFReader.SHT_SYMTAB;
  ELFReader.symbols := λ _ _, [Some ("f", 0x1000)];
|}.

(** An operating system that counts the bytes mapped, and a processor on which
    native code returns its guest state and next program counter zero. *)
Definition sample_os : ExecutionEngine.OS := {|
  ExecutionEngine.World := Z;
  ExecutionEngine.getpagesize := 4096;
  ExecutionEngine.mmap := λ n w, (Some 0x7f0000000000, w + n);
  ExecutionEngine.mprotect := λ _ _ w, (true, w);
  ExecutionEngine.munmap := λ _ n w, w - n;
  ExecutionEngine.memcpy := λ _ _ w, w;
  ExecutionEngine.call := λ _ g w, Some (0, g, w);
|}.

(** [addi a0, a0, 1; ret]. *)
Definition sample_program : list Z :=
  isa.word_bytes 0x00150513 ++ isa.word_bytes 0x00008067.

Abbreviation E1 := (sample_elf sample_program).
Abbreviation state1 := (BinaryTranslator.t E1 sample_os).

Definition sample_state : state1 :=
  BinaryTranslator.mkTranslator E1 sample_os (ELFReader.new E1) GuestState.new 0
    sample_program 0x1000.

Lemma sample_text_ok : text_ok E1 sample_os sample_state.
Proof.
  split; [|done]. cbn. repeat (constructor; [vm_compute; split; congruence|]). constructor.
Qed.

Lemma sample_sections sec bytes :
  ELFReader.get_data E1 sec = Some bytes ->
  Forall (in_u 8) bytes ∧ Z.of_nat (length bytes) < 2 ^ 63.
Proof. intros [= <-]. apply sample_text_ok. Qed.

Lemma decodeBlock_terminates_witness :
  basic_block sample_program 4 0x1004
    [riscv.mkInstruction riscv.JALR
       [riscv.Register 0; riscv.Register 1;
        riscv.Immediate 0] 0x8067 0x1004].
Proof.
  apply (proj2 (decodeBlock_terminates sample_program 4 0x1004 eq_refl ltac:(lia))).
  vm_compute. reflexivity.
Defined.

(** Program counter outside the section. *)
Lemma compileBlock_errors_witness :
  ∃ e, BinaryTranslator.compileBlock E1 sample_os elements map_to_list sample_state 0x2000
       = Err e ∧ is_dinorisc_Error e = true.
Proof.
  eexists. split; [vm_compute; reflexivity|].
  destruct (compileBlock_errors E1 sample_os elements map_to_list sample_state 0x2000
              (RuntimeError "PC out of bounds: 0x2000")) as [[H _]|[_ [why H]]];
    [done|apply sample_text_ok|vm_compute; reflexivity|exact H|discriminate H].
Defined.

Lemma compileBlock_code_witness :
  ∃ code, BinaryTranslator.compileBlock E1 sample_os elements map_to_list sample_state 0x1000
          = Ok code ∧ code ≠ [] ∧ length code = 24%nat.
Proof.
  eexists. split; [vm_compute; reflexivity|].
  split; [|vm_compute; reflexivity].
  apply (compileBlock_code E1 sample_os elements map_to_list sample_state 0x1000).
  vm_compute. reflexivity.
Defined.

(** Thirty registers live at once. *)
Definition pressure_code : list arm64.Instruction :=
  map (λ v, arm64.mkInstruction (arm64.TwoOperandInst arm64.MOV arm64.Size_X
              (arm64.VirtualRegister v) (arm64.Immediate v))) (seqZ 0 30)
  ++ map (λ v, arm64.mkInstruction (arm64.MemoryInst arm64.STR arm64.Size_X
                 (arm64.VirtualRegister v) (arm64.Reg arm64.X0) 8)) (seqZ 0 30).

Lemma allocation_failure_refused_witness :
  ∃ msg, mapM_result Encoder.encodeInstruction pressure_code = Err (EncodingError msg).
Proof.
  apply (allocation_failure_refused map_to_list pressure_code Allocator.new pressure_code);
    [done|vm_compute; reflexivity].
Defined.

Lemma setArgumentRegisters_spec_witness :
  ∃ s', BinaryTranslator.setArgumentRegisters E1 sample_os [7; 8] sample_state = (Ok tt, s')
    ∧ GuestState.x (BinaryTranslator.guestState E1 sample_os s') !! 11%nat = Some 8.
Proof.
  eexists. split; [reflexivity|].
  apply (setArgumentRegisters_spec E1 sample_os [7; 8] sample_state _ 11);
    [reflexivity|lia|reflexivity].
Defined.


Lemma main_outcome_witness :
  Main.main E1 sample_os elements map_to_list ["dinorisc"; "a.out"; "f"; "41"] 0
  = Main.Exit 0 "Function f returned: 41" "".
Proof.
  destruct (main_outcome E1 sample_os elements map_to_list
              ["dinorisc"; "a.out"; "f"; "41"] 0 (λ _, reflexivity _) sample_sections) as [H _].
  apply H. exists "dinorisc", "a.out", "f", ["41"], [41], 41.
  split_and!; vm_compute; reflexivity.
Defined.

(** [ld x11, 0(x10); addi x11, x11, 1; sd x11, 0(x10); bne x11, x0, 16]. *)
Definition counter_program : list Z :=
  concat (map isa.word_bytes [0x00053583; 0x00158593; 0x00b53023; 0x00059863]).

Definition counter_state : BinaryTranslator.t (sample_elf counter_program) sample_os :=
  BinaryTranslator.mkTranslator (sample_elf counter_program) sample_os
    (ELFReader.new (sample_elf counter_program)) GuestState.new 0 counter_program 0x1000.

Definition counter_body : list riscv.Instruction :=
  [ riscv.mkInstruction riscv.LD [riscv.Register 11; riscv.Register 10; riscv.Immediate 0]
      0x00053583 0x1000;
    riscv.mkInstruction riscv.ADDI [riscv.Register 11; riscv.Register 11; riscv.Immediate 1]
      0x00158593 0x1004;
    riscv.mkInstruction riscv.SD [riscv.Register 10; riscv.Register 11; riscv.Immediate 0]
      0x00b53023 0x1008 ].
Definition counter_branch : riscv.Instruction :=
  riscv.mkInstruction riscv.BNE [riscv.Register 11; riscv.Register 0; riscv.Immediate 16]
    0x00059863 0x100c.

(** On the guest of SelectorCorrect.v, with the code's return address 0x400. *)
Lemma compileBlock_refines_witness :
  ∃ code R' m',
    BinaryTranslator.compileBlock (sample_elf counter_program) sample_os elements map_to_list
      counter_state 0x1000 = Ok code
    ∧ code_runs_as 0x1000 0x2000 0x8000 sample_guest code {[0 := 0x1000; 30 := 0x400]}
        (a64sem.mkFlags false false false false) sample_host (R', m', 0x101c)
    ∧ machine.load 8 m' 0x2008 = 1.
Proof.
  edestruct (compileBlock_refines (sample_elf counter_program) sample_os elements map_to_list)
    with (s := counter_state) (pc := 0x1000) (body := counter_body) (t := counter_branch)
      (mapped := sample_guest) (R := {[10 := 0x2008]} : machine.regs) (m := ∅ : machine.mem)
      (X := {[0 := 0x1000; 30 := 0x400]} : machine.regs)
      (fl := a64sem.mkFlags false false false false) (H := sample_host)
      (gs := 0x1000) (base := 0x2000) (shadow := 0x8000)
    as (code & Hcode & Hrun).
  - done.
  - done.
  - vm_compute. reflexivity.
  - vm_compute. reflexivity.
  - vm_compute. reflexivity.
  - vm_compute. reflexivity.
  - intros E; vm_compute in E; discriminate E.
  - vm_compute. reflexivity.
  - vm_compute. reflexivity.
  - vm_compute. reflexivity.
  - vm_compute. reflexivity.
  - vm_compute. reflexivity.
  - exact sample_separate.
  - exact sample_represents.
  - reflexivity.
  - eexists code, _, _. split; [exact Hcode|]. split; [exact Hrun|]. vm_compute. reflexivity.
Defined.

(** ** Loading *)

Lemma loadFile_spec_witness :
  ∃ r sec bytes, ELFReader.load E1 "a.elf" = Some r ∧ ELFReader.acceptable E1 r sec
    ∧ ELFReader.get_data E1 sec = Some bytes ∧ bytes = sample_program.
Proof.
  eassert (ELFReader.loadFile E1 "a.elf" (ELFReader.new E1) = (_, _)) as H by (vm_compute; reflexivity).
  destruct (loadFile_spec E1 _ _ _ _ H) as (r & sec & bytes & Hl & Ha & Hd & _).
  exists r, sec, bytes. split; [exact Hl|]. split; [exact Ha|]. split; [exact Hd|].
  injection Hd as <-. reflexivity.
Defined.

Lemma allocSize_bounds_witness :
  ExecutionEngine.allocSize sample_os 100 = 4096
  ∧ 100 <= ExecutionEngine.allocSize sample_os 100 < 100 + 4096.
Proof.
  split; [reflexivity|].
  refine (proj1 (allocSize_bounds sample_os 100 _ _)); cbn; lia.
Defined.

(** ** A whole program

    The sum 1 + ... + n, accumulated on the stack. *)

Definition assembled (l : list (riscv.Opcode * list riscv.Operand)) : list Z :=
  concat ((λ i, match isa.assemble i.1 i.2 with
                | Some w => isa.word_bytes w
                | None => []
                end) <$> l).

Definition sum_program : list Z :=
  let x r := riscv.Register r in
  let imm v := riscv.Immediate v in
  assembled
    [ (riscv.ADDI, [x 2; x 2; imm (-16)]);
      (riscv.SD, [x 2; x 0; imm 8]);
      (* the loop, at 0x1008 *)
      (riscv.LD, [x 15; x 2; imm 8]);
      (riscv.ADD, [x 15; x 15; x 10]);
      (riscv.SD, [x 2; x 15; imm 8]);
      (riscv.ADDI, [x 10; x 10; imm (-1)]);
      (riscv.BNE, [x 10; x 0; imm (-16)]);
      (riscv.LD, [x 10; x 2; imm 8]);
      (riscv.JALR, [x 0; x 1; imm 0]) ].

Definition sum_elf : ELFReader.ELFIO := sample_elf sum_program.

Definition sum_reader : ELFReader.t sum_elf :=
  snd (ELFReader.loadFile sum_elf "sum.elf" (ELFReader.new sum_elf)).

Definition started : process := mkProcess ∅ [] 0.

(** The model of the translator, run on the model of the machine. *)
Example sum_main :
  Main.main sum_elf machine_os elements map_to_list ["dinorisc"; "sum.elf"; "f"; "4"] started
  = Main.Exit 0 "Function f returned: 10" "".
Proof. vm_compute. reflexivity. Qed.

Lemma sum_call : guest_call sum_elf elements map_to_list "sum.elf" "f" [4] 10.
Proof.
  assert (match guest.run sum_program 0x1000 guest_memory 100 (entry_regs [4], ∅, 0x1000) with
          | Some (l, R, m) => l = [0x1008; 0x1008; 0x1008; 0x101c; 0] ∧ machine.rd R 10 = 10
          | None => False
          end) as Hrun by (vm_compute; split; reflexivity).
  destruct (guest.run sum_program 0x1000 guest_memory 100 (entry_regs [4], ∅, 0x1000))
    as [[[l R] m]|] eqn:Hr; [|destruct Hrun].
  destruct Hrun as [-> <-]. apply guest.run_sound in Hr.
  apply (Guest_call sum_elf elements map_to_list _ _ _ sum_program 0x1000 0x1000
           [0x1008; 0x1008; 0x1008; 0x101c; 0] R m).
  - split; [by exists sum_reader|done|done|done|].
    exists [0x1000; 0x1008; 0x101c]. vm_compute. reflexivity.
  - exact Hr.
  - vm_compute. reflexivity.
  - vm_compute. discriminate.
Qed.

Lemma main_refines_witness :
  let main := Main.main sum_elf machine_os elements map_to_list
                ["dinorisc"; "sum.elf"; "f"; "4"] started in
  main = Main.Exit 0 "Function f returned: 10" ""
  ∨ ∃ e, refused e ∧ main = Main.Exit 1 "" ("Error: " +:+ Main.what e).
Proof.
  refine (main_refines sum_elf elements map_to_list (λ _, reflexivity _) (λ _, reflexivity _)
    "dinorisc" "sum.elf" "f" ["4"] [4] started 10 _ eq_refl sum_call).
  intros b Hb. by left.
Defined.

Lemma main_returns_witness :
  Main.main sum_elf machine_os elements map_to_list ["dinorisc"; "sum.elf"; "f"; "4"] started
  = Main.Exit 0 "Function f returned: 10" "".
Proof.
  refine (main_returns sum_elf elements map_to_list (λ _, reflexivity _) (λ _, reflexivity _)
    "dinorisc" "sum.elf" "f" ["4"] [4] started 10 _ _ eq_refl sum_call).
  - intros b Hb. by left.
  - vm_compute. discriminate.
Defined.

(** After the same run the bytes mapped are those of before, on the sample
    platform. *)
Lemma session_unmaps_witness :
  fst (Main.session sum_elf machine_os elements map_to_list "sum.elf" "f" [4] started) = Ok 10
  ∧ ∀ b, in_use (O := machine_os)
         (snd (Main.session sum_elf machine_os elements map_to_list "sum.elf" "f" [4] started)) b
       ↔ in_use (O := machine_os) started b.
Proof.
  assert (let '(r, s) := Main.run sum_elf machine_os elements map_to_list "sum.elf" "f" [4]
                           (BinaryTranslator.blank sum_elf machine_os started) in
          let g := BinaryTranslator.guestState sum_elf machine_os s in
          r = Ok 10 ∧ GuestState.shadowMemory g = HEAP
          ∧ GuestState.shadowMemorySize g = BinaryTranslator.SHADOW_MEMORY_SIZE) as Hrun
    by (vm_compute; split_and!; reflexivity).
  pose proof (session_unmaps (O := machine_os) sum_elf elements map_to_list "sum.elf" "f" [4]
                started) as H.
  unfold Main.session in *.
  destruct (Main.run _ _ _ _ _ _ _ _) as [r s]. destruct Hrun as (-> & Hp & Hn).
  split; [reflexivity|].
  refine (proj2 (H (Ok 10) _ eq_refl _) Hp Hn). discriminate.
Defined.

(** [j .], a function that never returns. *)
Definition spin_program : list Z :=
  assembled [(riscv.JAL, [riscv.Register 0; riscv.Immediate 0])].

Definition spin_elf : ELFReader.ELFIO := sample_elf spin_program.

Lemma spin_reaches n R m :
  guest.reaches spin_program 0x1000 guest_memory (replicate n 0x1000) (R, m, 0x1000) (R, m, 0x1000).
Proof.
  induction n as [|n IH]; [constructor|].
  apply (guest.reaches_transfer _ _ _ _ (R, m, 0x1000)); [|exact IH].
  apply guest.advance_sound. vm_compute. reflexivity.
Qed.

Lemma spin_home n : returns_home spin_program 0x1000 0x1000 (replicate n 0x1000) = true.
Proof.
  assert (exits spin_program 0x1000 0x1000 = false) as He by (vm_compute; reflexivity).
  induction n as [|n IH]; [done|]. cbn [replicate returns_home]. by rewrite He.
Qed.

Lemma spin_unfinished :
  guest_unfinished spin_elf elements map_to_list "spin.elf" "f" [4] 4.
Proof.
  change 4 with (machine.rd (entry_regs [4]) 10) at 2.
  apply (Guest_unfinished spin_elf elements map_to_list _ _ _ spin_program 0x1000 0x1000
           (replicate block_limit 0x1000) _ ∅ 0x1000).
  - split; [|done|done|done|].
    + eexists. split; [vm_compute; reflexivity|]. done.
    + exists [0x1000]. vm_compute. reflexivity.
  - apply spin_reaches.
  - apply spin_home.
  - rewrite length_replicate. by apply Z2Nat.id.
  - done.
Qed.

Lemma main_unfinished_witness :
  Main.main spin_elf machine_os elements map_to_list ["dinorisc"; "spin.elf"; "f"; "4"] started
  = Main.Exit 0 "Function f returned: 4" "".
Proof.
  refine (main_unfinished spin_elf elements map_to_list (λ _, reflexivity _) (λ _, reflexivity _)
    "dinorisc" "spin.elf" "f" ["4"] [4] started 4 _ _ eq_refl spin_unfinished).
  - intros b Hb. by left.
  - vm_compute. discriminate.
Defined.
