(* ===== verification/UnitTests.v ===== *)
(** * The unit tests

    The checks of tests/unit and the functions of tests/e2e/samples, evaluated on
    the model: what the tests observe of the C++ code, the definitions of this
    development do. *)
From S2P Require Import Prelude Error Riscv Decoder IR Lifter Arm64 Encoder GuestState.
From S2P Require Import InstructionSelector Liveness RegisterAllocator RiscvEncoding.
From S2P Require Import Machine RiscvSemantics GuestProgram GuestBlocks.
From S2P Require Import ELFReader ExecutionEngine BinaryTranslator Main.
From S2P Require Import Platform ProgramCorrect SamplePlatform Examples.

(** ** DecoderTest.cpp *)

Module DecoderTest.
Import riscv.

Definition decodeRaw (raw pc : Z) : result Instruction :=
  Decoder.decode (isa.word_bytes raw) 0 pc.

(** Opcode, operands, raw word and address. *)
Definition vectors : list (Z * Z * Opcode * list Operand) :=
  let x r := Register r in
  let imm v := Immediate v in
  [ (0x003100B3, 0x1000, ADD, [x 1; x 2; x 3]);
    (0x407302B3, 0x2000, SUB, [x 5; x 6; x 7]);
    (0x00C5F533, 0, AND, [x 10; x 11; x 12]);
    (0x003140B3, 0, XOR, [x 1; x 2; x 3]);
    (0x06410093, 0, ADDI, [x 1; x 2; imm 100]);
    (0xFFF20193, 0, ADDI, [x 3; x 4; imm (-1)]);
    (0x0FF37293, 0, ANDI, [x 5; x 6; imm 255]);
    (0x00511093, 0, SLLI, [x 1; x 2; imm 5]);
    (0x00812083, 0, LW, [x 1; x 2; imm 8]);
    (0xFF053283, 0, LD, [x 5; x 10; imm (-16)]);
    (0x00444183, 0, LBU, [x 3; x 8; imm 4]);
    (0x00312623, 0, SW, [x 2; x 3; imm 12]);
    (0xFE553C23, 0, SD, [x 10; x 5; imm (-8)]);
    (0x00208863, 0, BEQ, [x 1; x 2; imm 16]);
    (0xFE419EE3, 0, BNE, [x 3; x 4; imm (-4)]);
    (0x0062C463, 0, BLT, [x 5; x 6; imm 8]);
    (0x064000EF, 0, JAL, [x 1; imm 100]);
    (0x004100E7, 0, JALR, [x 1; x 2; imm 4]);
    (0x123450B7, 0, LUI, [x 1; imm 0x12345000]);
    (0x01000117, 0, AUIPC, [x 2; imm 0x1000000]);
    (0x00000073, 0, ECALL, []);
    (0x00100073, 0, EBREAK, []);
    (0x003100BB, 0, ADDW, [x 1; x 2; x 3]);
    (0x00A3029B, 0, ADDIW, [x 5; x 6; imm 10]);
    (0x00A00093, 0x1000, ADDI, [x 1; x 0; imm 10]);
    (0xFFF10093, 0, ADDI, [x 1; x 2; imm (-1)]);
    (0xFE208EE3, 0, BEQ, [x 1; x 2; imm (-4)]);
    (0xFF9FF0EF, 0, JAL, [x 1; imm (-8)]);
    (0x7FF10093, 0, ADDI, [x 1; x 2; imm 2047]);
    (0x80010093, 0, ADDI, [x 1; x 2; imm (-2048)]);
    (0x01DF0FB3, 0, ADD, [x 31; x 30; x 29]) ].

Example decodes :
  map (λ '(raw, pc, _, _), decodeRaw raw pc) vectors
  = map (λ '(raw, pc, op, ops), Ok (mkInstruction op ops raw pc)) vectors.
Proof. vm_compute. reflexivity. Qed.

Example invalid :
  Forall (λ raw, ∃ msg, decodeRaw raw 0 = Err (DecodingError msg)) [0x00000007; 0x0000001F].
Proof. repeat constructor; eexists; vm_compute; reflexivity. Qed.

(** Two instructions back to back.  The test's comment says the second adds into
    x2; the word adds into x1. *)
Example memory_decode :
  let data := [0x93; 0x00; 0xA0; 0x00; 0xB3; 0x80; 0x10; 0x00] in
  Decoder.decode data 0 0x1000
  = Ok (mkInstruction ADDI [Register 1; Register 0; Immediate 10] 0x00A00093 0x1000)
  ∧ Decoder.decode data 4 0x1004
    = Ok (mkInstruction ADD [Register 1; Register 1; Register 1] 0x001080B3 0x1004).
Proof. vm_compute. split; reflexivity. Qed.
End DecoderTest.

(** ** LifterTest.cpp *)

Module LifterTest.
Import ir.

Definition instruction (address : Z) (op : riscv.Opcode) (ops : list riscv.Operand)
    : riscv.Instruction := riscv.mkInstruction op ops 0 address.
Definition rtype op rd rs1 rs2 :=
  instruction 0x1000 op [riscv.Register rd; riscv.Register rs1; riscv.Register rs2].
Definition itype op rd rs1 imm :=
  instruction 0x1000 op [riscv.Register rd; riscv.Register rs1; riscv.Immediate imm].

(** The block a fresh lifter makes: the kinds of its instructions, and its end. *)
Definition lift (l : list riscv.Instruction) : option (list InstructionKind * Terminator) :=
  match fst (Lifter.Lifter.liftBasicBlock elements l Lifter.Lifter.new) with
  | Ok b => Some (map kind (instructions b), terminator b)
  | Err _ => None
  end.

(** The operation of a register-register or a register-immediate instruction,
    of four IR instructions. *)
Definition register_op (i : riscv.Instruction) : option (BinaryOpcode * Type_) :=
  match lift [i] with
  | Some ([RegRead _; RegRead _; BinaryOp op t _ _; RegWrite _ _], Branch 0x1004) => Some (op, t)
  | _ => None
  end.

Definition immediate_op (i : riscv.Instruction) : option (Z * BinaryOpcode * Type_) :=
  match lift [i] with
  | Some ([RegRead _; Const i64 v; BinaryOp op t _ _; RegWrite _ _], Branch 0x1004) =>
      Some (v, op, t)
  | _ => None
  end.

Example construction :
  lift [] = Some ([], Branch 0)
  ∧ lift [rtype riscv.ADD 1 2 3;
          instruction 0x1004 riscv.BEQ [riscv.Register 1; riscv.Register 2; riscv.Immediate 8]]
    = Some ([RegRead 2; RegRead 3; BinaryOp Add i64 1 2; RegWrite 1 3; BinaryOp Eq i1 3 1],
            CondBranch 5 0x100c 0x1008)
  ∧ lift [rtype riscv.ADD 1 2 3;
          instruction 0x1004 riscv.ADD [riscv.Register 4; riscv.Register 1; riscv.Register 3]]
    = Some ([RegRead 2; RegRead 3; BinaryOp Add i64 1 2; BinaryOp Add i64 3 2;
             RegWrite 4 4; RegWrite 1 3], Branch 0x1008).
Proof. vm_compute. auto. Qed.

Example register_operations :
  map (λ op, register_op (rtype op 1 2 3))
    [riscv.ADD; riscv.SUB; riscv.AND; riscv.OR; riscv.XOR; riscv.SLL; riscv.SRL; riscv.SRA;
     riscv.SLT; riscv.SLTU]
  = map (λ op, Some (op, i64)) [Add; Sub; And; Or; Xor; Shl; Shr; Sar; Lt; LtU].
Proof. vm_compute. reflexivity. Qed.

Example immediate_operations :
  map (λ '(op, v), immediate_op (itype op 1 2 v))
    [(riscv.ADDI, 42); (riscv.ANDI, 0xFF); (riscv.ORI, 0x1000); (riscv.XORI, -1);
     (riscv.SLLI, 5); (riscv.SRLI, 3); (riscv.SRAI, 7)]
  = map Some [(42, Add, i64); (0xFF, And, i64); (0x1000, Or, i64); (-1, Xor, i64);
              (5, Shl, i64); (3, Shr, i64); (7, Sar, i64)].
Proof. vm_compute. reflexivity. Qed.

Example word_operations :
  lift [rtype riscv.ADDW 1 2 3]
  = Some ([RegRead 2; RegRead 3; Trunc i32 1; Trunc i32 2; BinaryOp Add i32 3 4; Sext i64 5;
           RegWrite 1 6], Branch 0x1004)
  ∧ lift [itype riscv.ADDIW 1 2 (-10)]
    = Some ([RegRead 2; Const i32 (-10); Trunc i32 1; BinaryOp Add i32 3 2; Sext i64 4;
             RegWrite 1 5], Branch 0x1004)
  ∧ lift [itype riscv.SLLIW 1 2 4]
    = Some ([RegRead 2; Const i32 4; Trunc i32 1; BinaryOp Shl i32 3 2; Sext i64 4;
             RegWrite 1 5], Branch 0x1004).
Proof. vm_compute. auto. Qed.

Example loads :
  let load op imm := fst <$> lift [itype op 1 2 imm] in
  let address imm := [RegRead 2; Const i64 imm; BinaryOp Add i64 1 2] in
  load riscv.LB 8 = Some (address 8 ++ [Load i8 3; Sext i64 4; RegWrite 1 5])
  ∧ load riscv.LH 16 = Some (address 16 ++ [Load i16 3; Sext i64 4; RegWrite 1 5])
  ∧ load riscv.LW 0 = Some (address 0 ++ [Load i32 3; Sext i64 4; RegWrite 1 5])
  ∧ load riscv.LD (-8) = Some (address (-8) ++ [Load i64 3; RegWrite 1 4])
  ∧ load riscv.LWU 4 = Some (address 4 ++ [Load i32 3; Zext i64 4; RegWrite 1 5]).
Proof. vm_compute. auto. Qed.

(** [createIType(SD, 3, 2, 16)]: the base register comes first. *)
Example stores :
  (length ∘ fst <$> lift [itype riscv.ADDI 3 0 123; itype riscv.SD 3 2 16]) = Some 8%nat
  ∧ match lift [itype riscv.ADDI 3 0 456; itype riscv.SW 3 2 8] with
    | Some (l, _) => existsb (λ k, match k with Trunc i32 _ => true | _ => false end) l
                     && existsb (λ k, match k with Store _ _ => true | _ => false end) l
    | None => false
    end = true.
Proof. vm_compute. auto. Qed.

Example upper_immediates :
  lift [instruction 0x1000 riscv.LUI [riscv.Register 1; riscv.Immediate 0x12345]]
  = Some ([Const i64 0x12345000; RegWrite 1 1], Branch 0x1004)
  ∧ lift [instruction 0x2000 riscv.AUIPC [riscv.Register 1; riscv.Immediate 0x1000]]
    = Some ([Const i64 0x2000; Const i64 0x1000000; BinaryOp Add i64 1 2; RegWrite 1 3],
            Branch 0x2004).
Proof. vm_compute. auto. Qed.

(** Targets of conditional branches: taken, not taken. *)
Example branches :
  map (λ '(op, a, imm),
         match lift [instruction a op [riscv.Register 1; riscv.Register 2; riscv.Immediate imm]] with
         | Some ([RegRead 1; RegRead 2; BinaryOp _ i1 1 2], CondBranch 3 t f) => Some (t, f)
         | _ => None
         end)
    [(riscv.BEQ, 0x1000, 12); (riscv.BNE, 0x2000, -8); (riscv.BLT, 0x1000, 16);
     (riscv.BLTU, 0x1000, 20)]
  = map Some [(0x100c, 0x1004); (0x1ff8, 0x2004); (0x1010, 0x1004); (0x1014, 0x1004)].
Proof. vm_compute. reflexivity. Qed.

(** Two terminators: the first ends the block. *)
Example consecutive_terminators :
  lift [instruction 0x1000 riscv.BEQ [riscv.Register 1; riscv.Register 2; riscv.Immediate 8];
        instruction 0x1004 riscv.BEQ [riscv.Register 3; riscv.Register 4; riscv.Immediate 12]]
  = Some ([RegRead 1; RegRead 2; BinaryOp Eq i1 1 2], CondBranch 3 0x1008 0x1004).
Proof. vm_compute. reflexivity. Qed.

(** The return address is a constant no register is given. *)
Example jumps :
  lift [instruction 0x1000 riscv.JAL [riscv.Register 1; riscv.Immediate 24]]
  = Some ([Const i64 0x1004], Branch 0x1018)
  ∧ match lift [itype riscv.ADDI 2 0 0x2000; itype riscv.JALR 1 2 4] with
    | Some (l, Return _) => Const i64 0x1004 ∈ l
    | _ => False
    end.
Proof. vm_compute. split; [reflexivity|]. repeat (first [apply list_elem_of_here | apply list_elem_of_further]). Qed.

Example registers :
  lift [itype riscv.ADDI 0 0 100; rtype riscv.ADD 1 0 0]
  = Some ([Const i64 0; Const i64 100; BinaryOp Add i64 1 2; Const i64 0; Const i64 0;
           BinaryOp Add i64 4 5; RegWrite 1 6], Branch 0x1004)
  ∧ lift [itype riscv.ADDI 1 0 42; itype riscv.ADDI 2 1 8]
    = Some ([Const i64 0; Const i64 42; BinaryOp Add i64 1 2; Const i64 8;
             BinaryOp Add i64 3 4; RegWrite 2 5; RegWrite 1 3], Branch 0x1004).
Proof. vm_compute. auto. Qed.

Example unsupported :
  ∃ msg, fst (Lifter.Lifter.liftBasicBlock elements [instruction 0x1000 riscv.INVALID []]
                Lifter.Lifter.new) = Err (UnsupportedInstructionError msg).
Proof. eexists. vm_compute. reflexivity. Qed.
End LifterTest.

(** ** LoweringPipelineTest.cpp *)

Module LoweringPipelineTest.
Import ir.

(** [IRBuilder]: instructions numbered from one. *)
Definition build (l : list InstructionKind) (t : Terminator) : BasicBlock :=
  mkBasicBlock (imap (λ k i, mkInstruction (Z.of_nat k + 1) i) l) t.

Definition opcode (i : arm64.Instruction) : arm64.Opcode :=
  match arm64.kind i with
  | arm64.ThreeOperandInst op _ _ _ _ | arm64.TwoOperandInst op _ _ _
  | arm64.MemoryInst op _ _ _ _ | arm64.MoveWideInst op _ _ _ _ | arm64.BranchInst op _
  | arm64.ConditionalInst op _ _ _ | arm64.ConditionalSelectInst op _ _ _ _ _ => op
  end.

(** [lowerAndVerify] and the opcodes looked for: allocation succeeds and leaves
    code without virtual registers, with those opcodes. *)
Definition lowers (expected : list arm64.Opcode) (b : BasicBlock) : bool :=
  match fst (Selector.selectInstructions b Selector.new) with
  | Ok selected =>
      match fst (Allocator.allocateRegisters selected
                   (Liveness.computeLiveIntervals map_to_list selected) Allocator.new) with
      | Ok (true, l) =>
          negb (bool_decide (l = []))
          && forallb (λ i, forallb (λ o, negb (arm64.is_virtual o)) (arm64.operands i)) l
          && forallb (λ op, existsb (λ i, bool_decide (opcode i = op)) l) expected
      | _ => false
      end
  | Err _ => false
  end.

Definition c64 (v : Z) : InstructionKind := Const i64 v.

Definition medium_pressure : list InstructionKind :=
  map (λ i, c64 (10 * i)) (seqZ 0 8)
  ++ BinaryOp Add i64 1 2 :: map (λ k, BinaryOp Add i64 (7 + k) (k + 1)) (seqZ 2 6).

Definition long_chain : list InstructionKind :=
  c64 1 :: concat (map (λ i, [c64 (i + 2); BinaryOp Add i64 (2 * i + 1) (2 * i + 2)]) (seqZ 0 10)).

Example pipeline :
  forallb id
    [ lowers [arm64.MOV; arm64.ADD]
        (build [c64 10; c64 20; BinaryOp Add i64 1 2] (Return None));
      lowers [arm64.ADD; arm64.MUL]
        (build [c64 5; c64 10; BinaryOp Add i64 1 2; c64 3; BinaryOp Mul i64 3 4] (Return (Some 5)));
      lowers [arm64.ADD; arm64.SUB; arm64.MUL]
        (build [c64 100; c64 20; BinaryOp Add i64 1 2; BinaryOp Sub i64 1 2; BinaryOp Mul i64 3 4]
               (Return (Some 5)));
      lowers [arm64.LDR; arm64.STR]
        (build [c64 0x1000; Load i64 1; c64 42; Store 3 1] (Return (Some 2)));
      lowers [arm64.ADD; arm64.LDR]
        (build [c64 0x1000; c64 8; BinaryOp Add i64 1 2; Load i32 3] (Return (Some 4)));
      lowers [arm64.SXTW] (build [Const i32 0xFFFFFF80; Sext i64 1] (Return (Some 2)));
      lowers [arm64.UXTH] (build [Const i16 0x8000; Zext i64 1] (Return (Some 2)));
      lowers [] (build [c64 0x123456789ABCDEF0; Trunc i32 1] (Return (Some 2)));
      lowers [arm64.CMP]
        (build [c64 10; c64 20; BinaryOp Lt i1 1 2] (CondBranch 3 100 200));
      lowers [arm64.MOV; arm64.RET] (build [] (Branch 100));
      lowers [] (build medium_pressure (Return (Some 15)));
      lowers [arm64.ADD; arm64.MUL; arm64.SUB]
        (build [c64 10; c64 20; BinaryOp Add i64 1 2; c64 30; c64 40; BinaryOp Mul i64 4 5;
                BinaryOp Sub i64 3 6] (Return (Some 7)));
      lowers [arm64.LDR; arm64.ADD; arm64.STR]
        (build [c64 0x2000; Load i64 1; c64 1; BinaryOp Add i64 2 3; Store 4 1] (Return (Some 4)));
      lowers []
        (build [Const i8 255; Const i16 1000; Const i32 100000; Zext i64 1; Sext i64 2; Trunc i16 3;
                BinaryOp Add i64 4 5; Zext i64 6; BinaryOp Add i64 7 8] (Return None));
      lowers [] (build [] (Return None));
      lowers [arm64.MOV] (build [c64 123] (Return (Some 1)));
      lowers [] (build long_chain (Return (Some 21)));
      lowers []
        (build [Const i8 10; Const i16 1000; Const i32 100000; c64 1000000000; Zext i16 1;
                BinaryOp Add i16 5 2; Zext i64 3; BinaryOp Add i64 7 4] (Return None)) ]
  = true.
Proof. vm_compute. reflexivity. Qed.
End LoweringPipelineTest.

(** ** EncoderTest.cpp *)

Module EncoderTest.
Import arm64.

Definition encode (k : InstructionKind) : result (list Z) :=
  Encoder.encodeInstruction (mkInstruction k).

Definition vectors : list (InstructionKind * Z) :=
  [ (ThreeOperandInst ADD Size_X (Reg X0) (Reg X1) (Reg X2), 0x8B020020);
    (ThreeOperandInst ADD Size_X (Reg X0) (Reg X1) (Immediate 42), 0x9100A820);
    (ThreeOperandInst SUB Size_W (Reg X3) (Reg X4) (Reg X5), 0x4B050083);
    (ThreeOperandInst AND Size_X (Reg X0) (Reg X1) (Reg X2), 0x8A020020);
    (ThreeOperandInst MUL Size_X (Reg X0) (Reg X1) (Reg X2), 0x9B027C20);
    (TwoOperandInst MOV Size_X (Reg X0) (Immediate 0x1234), 0xD2824680);
    (TwoOperandInst MOV Size_X (Reg X0) (Reg X1), 0xAA0103E0);
    (TwoOperandInst SXTB Size_X (Reg X0) (Reg X1), 0x93401C20);
    (TwoOperandInst RET Size_X (Reg X0) (Reg X30), 0xD65F03C0);
    (MemoryInst LDR Size_X (Reg X0) (Reg X1) 8, 0xF9400420);
    (MemoryInst STR Size_W (Reg X2) (Reg X3) 0, 0xB9000062);
    (MemoryInst LDR Size_B (Reg X0) (Reg X1) 4, 0x39401020);
    (BranchInst B 0x1000, 0x14000400);
    (BranchInst B_EQ 0x100, 0x54000800);
    (BranchInst B_NE 0x80, 0x54000401) ].

Example encodes :
  map (λ '(k, _), encode k) vectors = map (λ '(_, w), Ok (isa.word_bytes w)) vectors.
Proof. vm_compute. reflexivity. Qed.

Example rejected :
  Forall (λ k, ∃ msg, encode k = Err (EncodingError msg))
    [ ThreeOperandInst ADD Size_X (Reg X0) (Reg X1) (Immediate 0x1000);
      ThreeOperandInst ADD Size_X (VirtualRegister 42) (Reg X1) (Reg X2) ].
Proof. repeat constructor; eexists; vm_compute; reflexivity. Qed.
End EncoderTest.

(** ** ExecutionEngineTest.cpp *)

Module ExecutionEngineTest.
Import arm64.

(** [executeInstructions], on the sample platform: the next program counter and
    the first registers of the structure. *)
Definition executeInstructions (l : list InstructionKind) (n : nat) : option (Z * list Z) :=
  match mapM_result Encoder.encodeInstruction (map mkInstruction l) with
  | Ok code =>
      let g := GuestState.mkGuestState (replicate 32 0) 0x10000 0x200000 4096 0x20000 in
      match ExecutionEngine.executeBlock machine_os (concat code)
              (ExecutionEngine.mkState (O := machine_os) g started) with
      | (Ok pc, s) => Some (pc, take n (GuestState.x (ExecutionEngine.guest s)))
      | _ => None
      end
  | Err _ => None
  end.

Definition mov (r : Register) (v : Z) : InstructionKind :=
  TwoOperandInst MOV Size_X (Reg r) (Immediate v).
Definition str (r : Register) (offset : Z) : InstructionKind :=
  MemoryInst STR Size_X (Reg r) (Reg X0) offset.
Definition op (o : Opcode) (d a b : Register) : InstructionKind :=
  ThreeOperandInst o Size_X (Reg d) (Reg a) (Reg b).
Definition return_to (pc : Z) : list InstructionKind :=
  [mov X0 pc; TwoOperandInst RET Size_X (Reg X0) (Reg X30)].

Example arithmetic :
  executeInstructions ([mov X1 42; str X1 0] ++ return_to 0x100C) 1 = Some (0x100C, [42])
  ∧ executeInstructions ([mov X1 10; str X1 8; mov X2 20; str X2 16; op ADD X3 X1 X2; str X3 0]
                         ++ return_to 0x1010) 3 = Some (0x1010, [30; 10; 20])
  ∧ executeInstructions
      ([mov X1 100; str X1 8; ThreeOperandInst SUB Size_X (Reg X2) (Reg X1) (Immediate 25);
        str X2 0] ++ return_to 0x1014) 2 = Some (0x1014, [75; 100])
  ∧ executeInstructions ([mov X1 7; mov X2 6; op MUL X3 X1 X2; str X3 0] ++ return_to 0x1018) 1
    = Some (0x1018, [42]).
Proof. vm_compute. auto. Qed.

Example data_movement :
  executeInstructions ([mov X1 0x1234; str X1 0; mov X2 0xABCD; str X2 8] ++ return_to 0x101C) 2
  = Some (0x101C, [0x1234; 0xABCD])
  ∧ executeInstructions ([mov X1 0x5555; str X1 8; TwoOperandInst MOV Size_X (Reg X2) (Reg X1);
                          str X2 0] ++ return_to 0x1020) 2
    = Some (0x1020, [0x5555; 0x5555]).
Proof. vm_compute. auto. Qed.

Example sequence :
  executeInstructions
    ([mov X1 10; str X1 8; mov X2 5; str X2 16; op ADD X3 X1 X2; str X3 24;
      op SUB X4 X3 X2; str X4 32; op MUL X5 X3 X4; str X5 0] ++ return_to 0x1028) 5
  = Some (0x1028, [150; 10; 5; 15; 10]).
Proof. vm_compute. reflexivity. Qed.

Example edge_cases :
  executeInstructions (return_to 0x102C) 0 = Some (0x102C, [])
  ∧ fst (ExecutionEngine.executeBlock machine_os []
           (ExecutionEngine.mkState (O := machine_os) GuestState.new started))
    = Err (RuntimeError "ExecutionEngine: mmap failed").
Proof. vm_compute. auto. Qed.
End ExecutionEngineTest.

(** ** test_e2e.py

    The functions of tests/e2e/samples, assembled by hand as an unoptimising
    compiler does: a frame, the return address and the frame pointer saved in it
    and restored, every variable in memory. *)

Module EndToEnd.

Lemma sample_loads program path :
  ELFReader.loadFile (sample_elf program) path (ELFReader.new (sample_elf program))
  = (Ok tt, ELFReader.mkReader (sample_elf program) (Some tt) 0x1000
              (ELFReader.mkText 0x1000 program)).
Proof.
  unfold ELFReader.loadFile. cbn -[Nat.ltb]. rewrite Nat2Z.id, Nat.ltb_irrefl.
  cbn. by rewrite take_ge.
Qed.

(** What the tests' [args] are for the function. *)
Definition test_args (args : list Z) : list string := map to_string args.

(** The run of the function on the RISC-V machine gives the expected result,
    and passes what [guest_call] asks of it. *)
Definition machine_returns (program : list Z) (args : list Z) (expected : Z) : bool :=
  match Main.parseArguments (test_args args) [] with
  | inl values =>
      match guest.run program 0x1000 guest_memory 1000 (entry_regs values, ∅, 0x1000) with
      | Some (l, R, m) =>
          (i32 (machine.rd R 10) =? expected) && returns_home program 0x1000 0x1000 l
          && (Z.of_nat (length l) <=? BinaryTranslator.MAX_EXECUTION_BLOCKS)
      | None => false
      end
  | inr _ => false
  end.

Definition sample_ready (program : list Z) (entries : list Z) : bool :=
  function_ready elements map_to_list program 0x1000 entries 0x1000
  && (Z.of_nat (length program) <? 2 ^ 32).

(** The translated program prints what the test expects. *)
Definition prints (program : list Z) (args : list Z) (expected : Z) : Prop :=
  Main.main (sample_elf program) machine_os elements map_to_list
    ("dinorisc" :: "sample.elf" :: "f" :: test_args args) started
  = Main.Exit 0 ("Function f returned: " +:+ to_string expected) "".

Lemma sample_prints program entries cases :
  sample_ready program entries = true ->
  forallb (λ '(args, expected), machine_returns program args expected) cases = true ->
  Forall (λ '(args, expected), prints program args expected) cases.
Proof.
  intros [Hready Hlen%Z.ltb_lt]%andb_true_iff Hc%forallb_Forall.
  eapply Forall_impl; [exact Hc|]. intros [args expected] H. unfold machine_returns in H.
  destruct (Main.parseArguments (test_args args) []) as [values|] eqn:Hargs; [|done].
  destruct (guest.run _ _ _ _ _) as [[[l R] m]|] eqn:Hr; [|done].
  apply guest.run_sound in Hr. split_and_true.
  assert (guest_call (sample_elf program) elements map_to_list "sample.elf" "f" values
            (machine.rd R 10)) as Hg.
  { apply (Guest_call _ _ _ _ _ _ program 0x1000 0x1000 l R m); [|done..].
    split; [|done|lia|lia|by exists entries]. eexists. split; [apply sample_loads|done]. }
  destruct (main_runs (O := machine_os) (sample_elf program) elements map_to_list
    (λ _, reflexivity _) (λ _, reflexivity _) block_memory True "dinorisc" "sample.elf" "f"
    (test_args args) values started (machine.rd R 10) supply_block)
    as [Hm|[_ []]]; [|intros b Hb; by left|exact Hargs|by apply guest_call_stops| |done].
  - intros _. apply supply_start. vm_compute. discriminate.
  - unfold prints. rewrite Hm. by rewrite (proj1 (Z.eqb_eq _ _) H).
Qed.

Definition add : list Z :=
  let x r := riscv.Register r in
  let imm v := riscv.Immediate v in
  assembled
    [ (riscv.ADDI, [x 2; x 2; imm (-32)]); (riscv.SD, [x 2; x 1; imm 24]);
      (riscv.SD, [x 2; x 8; imm 16]); (riscv.ADDI, [x 8; x 2; imm 32]);
      (riscv.SW, [x 8; x 10; imm (-20)]); (riscv.SW, [x 8; x 11; imm (-24)]);
      (riscv.LW, [x 10; x 8; imm (-20)]); (riscv.LW, [x 11; x 8; imm (-24)]);
      (riscv.ADDW, [x 10; x 10; x 11]); (riscv.LD, [x 1; x 2; imm 24]);
      (riscv.LD, [x 8; x 2; imm 16]); (riscv.ADDI, [x 2; x 2; imm 32]);
      (riscv.JALR, [x 0; x 1; imm 0]) ].

Definition conditional_calc : list Z :=
  let x r := riscv.Register r in
  let imm v := riscv.Immediate v in
  assembled
    [ (riscv.ADDI, [x 2; x 2; imm (-32)]); (riscv.SD, [x 2; x 1; imm 24]);
      (riscv.SD, [x 2; x 8; imm 16]); (riscv.ADDI, [x 8; x 2; imm 32]);
      (riscv.SW, [x 8; x 10; imm (-24)]); (riscv.SW, [x 8; x 11; imm (-28)]);
      (riscv.LW, [x 11; x 8; imm (-24)]); (riscv.LW, [x 10; x 8; imm (-28)]);
      (riscv.BGE, [x 10; x 11; imm 24]); (riscv.JAL, [x 0; imm 4]);
      (riscv.LW, [x 10; x 8; imm (-24)]); (riscv.SLLIW, [x 10; x 10; imm 1]);
      (riscv.SW, [x 8; x 10; imm (-20)]); (riscv.JAL, [x 0; imm 20]);
      (riscv.LW, [x 10; x 8; imm (-24)]); (riscv.ADDIW, [x 10; x 10; imm 1]);
      (riscv.SW, [x 8; x 10; imm (-20)]); (riscv.JAL, [x 0; imm 4]);
      (riscv.LW, [x 10; x 8; imm (-20)]); (riscv.LD, [x 1; x 2; imm 24]);
      (riscv.LD, [x 8; x 2; imm 16]); (riscv.ADDI, [x 2; x 2; imm 32]);
      (riscv.JALR, [x 0; x 1; imm 0]) ].

Definition sum_to_n : list Z :=
  let x r := riscv.Register r in
  let imm v := riscv.Immediate v in
  assembled
    [ (riscv.ADDI, [x 2; x 2; imm (-32)]); (riscv.SD, [x 2; x 1; imm 24]);
      (riscv.SD, [x 2; x 8; imm 16]); (riscv.ADDI, [x 8; x 2; imm 32]);
      (riscv.SW, [x 8; x 10; imm (-20)]); (riscv.ADDI, [x 10; x 0; imm 0]);
      (riscv.SW, [x 8; x 10; imm (-24)]); (riscv.SW, [x 8; x 10; imm (-28)]);
      (riscv.JAL, [x 0; imm 4]); (riscv.LW, [x 10; x 8; imm (-28)]);
      (riscv.LW, [x 11; x 8; imm (-20)]); (riscv.BGE, [x 10; x 11; imm 44]);
      (riscv.JAL, [x 0; imm 4]); (riscv.LW, [x 11; x 8; imm (-28)]);
      (riscv.LW, [x 10; x 8; imm (-24)]); (riscv.ADDW, [x 10; x 10; x 11]);
      (riscv.SW, [x 8; x 10; imm (-24)]); (riscv.JAL, [x 0; imm 4]);
      (riscv.LW, [x 10; x 8; imm (-28)]); (riscv.ADDIW, [x 10; x 10; imm 1]);
      (riscv.SW, [x 8; x 10; imm (-28)]); (riscv.JAL, [x 0; imm (-48)]);
      (riscv.LW, [x 10; x 8; imm (-24)]); (riscv.LD, [x 1; x 2; imm 24]);
      (riscv.LD, [x 8; x 2; imm 16]); (riscv.ADDI, [x 2; x 2; imm 32]);
      (riscv.JALR, [x 0; x 1; imm 0]) ].

Definition fibonacci : list Z :=
  let x r := riscv.Register r in
  let imm v := riscv.Immediate v in
  assembled
    [ (riscv.ADDI, [x 2; x 2; imm (-48)]); (riscv.SD, [x 2; x 1; imm 40]);
      (riscv.SD, [x 2; x 8; imm 32]); (riscv.ADDI, [x 8; x 2; imm 48]);
      (riscv.SW, [x 8; x 10; imm (-20)]); (riscv.LW, [x 11; x 8; imm (-20)]);
      (riscv.ADDI, [x 10; x 0; imm 1]); (riscv.BLT, [x 10; x 11; imm 20]);
      (riscv.JAL, [x 0; imm 4]); (riscv.LW, [x 10; x 8; imm (-20)]);
      (riscv.SW, [x 8; x 10; imm (-24)]); (riscv.JAL, [x 0; imm 112]);
      (riscv.ADDI, [x 10; x 0; imm 0]); (riscv.SW, [x 8; x 10; imm (-28)]);
      (riscv.ADDI, [x 10; x 0; imm 1]); (riscv.SW, [x 8; x 10; imm (-32)]);
      (riscv.ADDI, [x 10; x 0; imm 2]); (riscv.SW, [x 8; x 10; imm (-36)]);
      (riscv.JAL, [x 0; imm 4]); (riscv.LW, [x 11; x 8; imm (-36)]);
      (riscv.LW, [x 10; x 8; imm (-20)]); (riscv.BLT, [x 10; x 11; imm 60]);
      (riscv.JAL, [x 0; imm 4]); (riscv.LW, [x 10; x 8; imm (-28)]);
      (riscv.LW, [x 11; x 8; imm (-32)]); (riscv.ADDW, [x 10; x 10; x 11]);
      (riscv.SW, [x 8; x 10; imm (-40)]); (riscv.LW, [x 10; x 8; imm (-32)]);
      (riscv.SW, [x 8; x 10; imm (-28)]); (riscv.LW, [x 10; x 8; imm (-40)]);
      (riscv.SW, [x 8; x 10; imm (-32)]); (riscv.JAL, [x 0; imm 4]);
      (riscv.LW, [x 10; x 8; imm (-36)]); (riscv.ADDIW, [x 10; x 10; imm 1]);
      (riscv.SW, [x 8; x 10; imm (-36)]); (riscv.JAL, [x 0; imm (-64)]);
      (riscv.LW, [x 10; x 8; imm (-32)]); (riscv.SW, [x 8; x 10; imm (-24)]);
      (riscv.JAL, [x 0; imm 4]); (riscv.LW, [x 10; x 8; imm (-24)]);
      (riscv.LD, [x 1; x 2; imm 40]); (riscv.LD, [x 8; x 2; imm 32]);
      (riscv.ADDI, [x 2; x 2; imm 48]); (riscv.JALR, [x 0; x 1; imm 0]) ].

Definition stack_add : list Z :=
  let x r := riscv.Register r in
  let imm v := riscv.Immediate v in
  assembled
    [ (riscv.ADDI, [x 2; x 2; imm (-48)]); (riscv.SD, [x 2; x 1; imm 40]);
      (riscv.SD, [x 2; x 8; imm 32]); (riscv.ADDI, [x 8; x 2; imm 48]);
      (riscv.SW, [x 8; x 10; imm (-20)]); (riscv.SW, [x 8; x 11; imm (-24)]);
      (riscv.LW, [x 10; x 8; imm (-20)]); (riscv.SW, [x 8; x 10; imm (-28)]);
      (riscv.LW, [x 10; x 8; imm (-24)]); (riscv.SW, [x 8; x 10; imm (-32)]);
      (riscv.LW, [x 10; x 8; imm (-28)]); (riscv.LW, [x 11; x 8; imm (-32)]);
      (riscv.ADDW, [x 10; x 10; x 11]); (riscv.SW, [x 8; x 10; imm (-36)]);
      (riscv.LW, [x 10; x 8; imm (-36)]); (riscv.LD, [x 1; x 2; imm 40]);
      (riscv.LD, [x 8; x 2; imm 32]); (riscv.ADDI, [x 2; x 2; imm 48]);
      (riscv.JALR, [x 0; x 1; imm 0]) ].

Definition add_numbers : list Z :=
  let x r := riscv.Register r in
  let imm v := riscv.Immediate v in
  assembled
    [ (riscv.ADDI, [x 2; x 2; imm (-32)]); (riscv.SD, [x 2; x 1; imm 24]);
      (riscv.SD, [x 2; x 8; imm 16]); (riscv.ADDI, [x 8; x 2; imm 32]);
      (riscv.SW, [x 8; x 10; imm (-20)]); (riscv.SW, [x 8; x 11; imm (-24)]);
      (riscv.LW, [x 10; x 8; imm (-20)]); (riscv.LW, [x 11; x 8; imm (-24)]);
      (riscv.JAL, [x 1; imm 20]); (riscv.LD, [x 1; x 2; imm 24]);
      (riscv.LD, [x 8; x 2; imm 16]); (riscv.ADDI, [x 2; x 2; imm 32]);
      (riscv.JALR, [x 0; x 1; imm 0]); (riscv.ADDI, [x 2; x 2; imm (-32)]);
      (riscv.SD, [x 2; x 1; imm 24]); (riscv.SD, [x 2; x 8; imm 16]);
      (riscv.ADDI, [x 8; x 2; imm 32]); (riscv.SW, [x 8; x 10; imm (-20)]);
      (riscv.SW, [x 8; x 11; imm (-24)]); (riscv.LW, [x 10; x 8; imm (-20)]);
      (riscv.LW, [x 11; x 8; imm (-24)]); (riscv.ADDW, [x 10; x 10; x 11]);
      (riscv.LD, [x 1; x 2; imm 24]); (riscv.LD, [x 8; x 2; imm 16]);
      (riscv.ADDI, [x 2; x 2; imm 32]); (riscv.JALR, [x 0; x 1; imm 0]) ].

(** The tests whose functions make no calls and read no data but the stack's. *)
Example samples_print :
  Forall (λ '(args, expected), prints add args expected)
    [([5; 10], 15); ([100; -50], 50); ([0; 0], 0); ([-10; -20], -30)]
  ∧ Forall (λ '(args, expected), prints sum_to_n args expected)
      [([10], 45); ([1], 0); ([5], 10); ([0], 0)]
  ∧ Forall (λ '(args, expected), prints conditional_calc args expected)
      [([7; 5], 14); ([3; 5], 4); ([5; 5], 6); ([10; 8], 20)]
  ∧ Forall (λ '(args, expected), prints stack_add args expected)
      [([10; 20], 30); ([0; 5], 5); ([-5; 15], 10)]
  ∧ Forall (λ '(args, expected), prints fibonacci args expected)
      [([0], 0); ([1], 1); ([2], 1); ([5], 5); ([10], 55); ([15], 610)].
Proof.
  split; [apply (sample_prints _ [0x1000]); vm_compute; reflexivity|].
  split; [apply (sample_prints _ [0x1000; 0x1024; 0x1030; 0x1034; 0x1048; 0x1058]);
    vm_compute; reflexivity|].
  split; [apply (sample_prints _ [0x1000; 0x1024; 0x1028; 0x1038; 0x1048]);
    vm_compute; reflexivity|].
  split; [apply (sample_prints _ [0x1000]); vm_compute; reflexivity|].
  apply (sample_prints _ [0x1000; 0x1020; 0x1024; 0x1030; 0x104c; 0x1058; 0x105c; 0x1080;
                          0x1090; 0x109c]); vm_compute; reflexivity.
Qed.

(** A function that calls another: the test passes because the callee's return
    ends the program, with its result in a0. *)
Example call_prints : prints add_numbers [3; 7] 10.
Proof. vm_compute. reflexivity. Qed.
End EndToEnd.
